(* ===== verification/_CoqProject ===== *)
-Q . S2P
Prelude.v
GoStd.v
Base32.v
Hash.v
Blake2bRef.v
Account.v
Edwards.v
Keys.v
Sign.v
BigRat.v
Amount.v
Sha256.v
Utf8.v
Json.v
JsonText.v
Rfc3339.v
Base64.v
Codec.v
Protocol.v
Wire.v
Store.v
MemStore.v
SqliteStore.v
StoreProps.v
Hub.v
HubProps.v
HubTasks.v
Float.v
RateLimit.v
Agent.v
ControlOps.v
ControlSteps.v
Api.v
Bodies.v
ApiProps.v
Env.v
Migrate.v
Startup.v
Main.v
System.v
SystemProps.v
Conn.v
SystemLive.v
SystemControl.v
SystemAnswers.v
SystemState.v
Process.v
