(* ===== verification/Prelude.v ===== *)
(** * Nora Relay: a verification development (root file)

    The relay (cmd/relay) sits between the desktop devices that hold Nano
    accounts and HTTP callers that hold API keys.  A device connects to /agent,
    announces accounts and proves each one by signing the relay's nonce; it then
    manages the accounts' API keys and policies over the connection.  A caller
    presents a key's secret; the relay finds the account that owns the key, asks
    every device bound to that account, and hands the first answer back.  The
    relay holds no private key.  cmd/migrate copies an old Postgres database to
    the SQLite file.

    ** Files and the code they model

    - This file: results ([res]: value, error or panic), Go's slices, loops,
      list and option lemmas and tactics the components share.  [GoStd]:
      strings, hex, slicing.  [BigRat]: math/big.  [Utf8], [Json], [JsonText]
      (the parser is local), [Base64], [Rfc3339] (time.Time), [Codec]:
      unicode/utf8 and encoding/json, down to the encoding of structs by their
      tags.  [Float]: binary64.  [Sha256].
    - internal/nano: [Base32] and [Account] (account.go), [Hash] (hash.go),
      [Keys] (keys.go), [Sign] (sign.go, auth.go), [Amount] (amount.go).
      [Blake2bRef] is a concrete BLAKE2b for the witnesses, [Edwards] the
      interface of the curve library with a small model of its laws.
    - internal/protocol/protocol.go: [Protocol] (the types), [Wire] (their JSON
      tags; frames as text).
    - cmd/relay/store.go, store_sqlite.go: [Store] (the interface as a class
      [Store], what it keeps as [store_spec], its contract as [StoreLaws]),
      [MemStore] and [SqliteStore] (the two implementations and their
      instances of the contract), [StoreProps] (what follows from the contract,
      and where the two differ).
    - cmd/relay/hub.go: [Hub] (the operations under the locks, and the
      goroutines as tasks of a labelled transition system), [HubProps]
      (bindings and frames), [HubTasks] (requests and queries in flight).
    - cmd/relay/ratelimit.go: [RateLimit].
    - cmd/relay/http.go: [Agent] (handleAgent, enroll, agentReadLoop),
      [Conn] (its read deadlines and pings, in time), [ControlOps]
      (handleControl, as one function), [ControlSteps] (the same, one store
      call at a time), [Api] and [ApiProps] (routes, the CORS middleware and
      the handlers under /v1/), [Bodies] (writeJSON).
    - cmd/relay/env.go, main.go, config.go: [Env], [Startup] (the store that is
      opened), [Main] (the command line, and the process from start to exit).
    - cmd/migrate/main.go: [Migrate].
    - [System]: the server as one transition system, in which connections, the
      store calls of control messages, limiter, hub goroutines and HTTP
      handlers interleave; [SystemProps] its invariants, [SystemState] the
      shape of its states, [SystemLive] that handlers are answered,
      [SystemControl] control messages, [SystemAnswers] where answers come from.
      [Process]: the process of [Main] around that relay, over the store that
      was opened.

    The clients are proved against interfaces: [ControlOps], [Api] and [System]
    against [Store]/[StoreLaws], which MemStore and SqliteStore implement, and
    [Startup] for whichever of them is opened;
    addresses and signatures against [Blake2b] and [Edwards25519]; SqliteStore
    against [SqliteDriver].  Names are those of the source; a record's fields
    and a struct's literals carry the struct's name.

    ** What the theorems show

    - End to end ([SystemProps], [SystemState], [SystemLive], [SystemControl],
      [SystemAnswers]): in every interleaving keys and frames go to accounts a
      device proved; what a device is asked goes back to the holder of a key of
      that account; an answer is what a device said, to the request whose id it
      names, an id that only devices of the account were shown; policies are
      only told to devices of their account; a waiting caller and a control
      message are always answered, a caller at most once.
    - Enrollment ([Agent], [Conn], [Sign], [Account]): sound for signatures;
      complete, from the bytes a device sends to the binding it gets; which
      spellings of an address are accepted.
    - The wire ([Wire], [Bodies]): what a frame is read back as (itself, but for
      bytes that are not UTF-8 and slices that are left out when empty), that
      results survive the round trip, and when they cannot be written.
    - Time ([Conn], [RateLimit]): a silent peer is dropped, a live one is kept,
      a connection ends; the token bucket's bounds with floating-point
      rounding, and that pruning cannot be observed.
    - The hub ([HubProps], [HubTasks]): routing, correlation, fan-out, no leaked
      waiters, termination.
    - Keys and policies ([StoreProps], [ControlOps]): the two stores refine one
      specification and so, within its conditions, answer alike; rotation, revocation, last write wins;
      what a control message may change.
    - The API ([ApiProps]): isolation between accounts, the exact conditions
      under which a device is asked, the answer to each outcome, CORS.
    - The process ([Main], [Startup], [Env], [Process]): every way it starts,
      with which settings and which store, and every way it ends; that all of
      the above holds of the relay it serves, and what is answered at exit.
    - Amounts, environment files, migration: exact functional behaviour, errors
      included.

    Theorems whose hypotheses a reader may doubt are followed by a
    [_witness], the theorem applied to a concrete run.

    ** Modelling decisions

    - A method that holds its lock for its whole body is one step.  The hub's
      calls are cut into lock regions, socket writes and channel operations;
      deliveries become tasks of their own, so the model has every
      interleaving of the code and some more.  An HTTP handler is cut wherever it
      touches what others can change: its two reads of the store, the limiter,
      the online test, its call of the hub and its return.  A control message is cut
      at each of its store calls ([control_program]; that this is [handleControl]
      when nothing comes in between is [control_program_sequential]).
    - Ids of requests and queries, 96 and 128 random bits, are not drawn twice:
      a call of the hub with an id already used is not a step of the model.
      Everything random is an argument; a failing random source panics, as in
      [randomBytes].
    - Store contexts: each call has a fate, that it runs or that it fails with
      an error, before or after its effect.
    - The contract of [StoreLaws] says what a write does exactly, unless it
      registers a hash that a key of another id has (there the two stores
      differ, and the one in memory no longer represents a store:
      [duplicate_hash_diverges]), sets an origin that is not valid UTF-8, or
      puts a nil blob; of these last two it says only what they can change.  The
      runs that the theorems about the whole relay speak of ([rreachable],
      [event_ok]) leave out the first case only.
    - Machine integers are [Z] with the bounds of the code; float64 is exact
      (no infinities, which the limiter cannot reach).  Times are integers of
      nanoseconds, on the wire with the offset of their zone.
    - [Agent], [Api] and [System] exchange envelopes and payloads; [Wire],
      [Conn] and [Bodies] relate these to the bytes on the socket.  Two members
      of one name are read as encoding/json reads them, except that a slice
      does not get back elements beyond its length.
    - Fuel: the JSON scanner takes 2n+2 steps for n bytes, string scanning and
      trimming the length of the text, the decimal printer one per digit, hash
      functions one per block, the read loop one per message and one for the
      failing read; [parse_fuel] shows that the scanner's never decides a
      result; the lemmas [loop_frames_spec], [utoa_go_spec] and the round trips
      of [Json] and [Codec] show the others enough where a theorem depends on
      them.

    ** Not modelled

    Sockets and net/http (the listener, ServeMux's own pages, the WebSocket
    protocol and its write deadlines; a write's failure and Shutdown's return
    are inputs), log output, and the libraries behind the classes
    [Blake2b], [Edwards25519] and [SqliteDriver] and the Postgres driver.  A
    request counts as in flight for Shutdown from its CORS read to its
    response; the hijacked connections of the agents do not count. *)

From Stdlib Require Export Strings.Byte.
From stdpp Require Export base list strings gmap fin_maps numbers vector.

Export Ascii.AsciiSyntax.

#[global] Set Default Goal Selector "!".

(** ** Errors and results

    Go's [(value, error)] pairs become [res]: [Ok] for a nil error, [Err] for
    a non-nil one, [Panic] for a run-time panic (an index out of range, a
    negative [make], an explicit [panic]).  The two sentinel errors the relay
    compares by identity are constructors of their own. *)

#[export] Instance byte_eq_dec : EqDecision byte := Byte.byte_eq_dec.

Inductive error : Type :=
| ErrNotFound                      (* store.go: errors.New("not found") *)
| errAccountOffline                (* hub.go: errors.New("no device is online ...") *)
| DeadlineExceeded                 (* context.DeadlineExceeded *)
| Canceled                         (* context.Canceled *)
| HexInvalidByte (b : byte)        (* hex.InvalidByteError *)
| HexErrLength                     (* hex.ErrLength *)
| ErrString (s : string)           (* errors.New(s), strErr(s), a driver's error *)
| ErrWrap (s : string) (e : error). (* fmt.Errorf("s: %w", e) *)

#[export] Instance error_eq_dec : EqDecision error.
Proof. intros e1 e2. unfold Decision. decide equality; apply (decide (_ = _)). Defined.

Inductive res (A : Type) : Type :=
| Ok (a : A)
| Err (e : error)
| Panic.
Arguments Ok {A} a.
Arguments Err {A} e.
Arguments Panic {A}.

#[export] Instance res_eq_dec {A} `{EqDecision A} : EqDecision (res A).
Proof. solve_decision. Defined.

#[export] Instance res_ret : MRet res := @Ok.
#[export] Instance res_bind : MBind res := λ A B f m,
  match m with
  | Ok a => f a
  | Err e => Err e
  | Panic => Panic
  end.

(** An index expression [l[i]]: a panic when out of range. *)
Definition index {A} (l : list A) (i : Z) : res A :=
  if (0 <=? i)%Z then
    match l !! Z.to_nat i with Some x => Ok x | None => Panic end
  else Panic.

(** An assignment [l[i] = x]: a panic when out of range. *)
Definition set_index {A} (l : list A) (i : Z) (x : A) : res (list A) :=
  if ((0 <=? i) && (i <? Z.of_nat (length l)))%Z then Ok (<[Z.to_nat i := x]> l) else Panic.

(** The counted loop [for i := lo; ...; i += step]: [n] iterations of [body],
    which may fail or panic. *)
Fixpoint for_loop {S} (n : nat) (i step : Z) (body : Z → S → res S) (s : S) : res S :=
  match n with
  | O => Ok s
  | S n' => s' ← body i s; for_loop n' (i + step)%Z step body s'
  end.

(** [for _, x := range l] with an error or a panic that leaves the loop. *)
Fixpoint for_range {A S} (l : list A) (body : A → S → res S) (s : S) : res S :=
  match l with
  | [] => Ok s
  | x :: l' => s' ← body x s; for_range l' body s'
  end.

#[global] Arguments for_loop : simpl never.

Lemma for_loop_S {S} n i step (body : Z → S → res S) s :
  for_loop (Datatypes.S n) i step body s =
  (s' ← body i s; for_loop n (i + step)%Z step body s').
Proof. done. Qed.

(** One iteration of a counted loop whose body is computed by [H]. *)
Ltac loop_step H :=
  rewrite for_loop_S; cbv beta; rewrite H; cbn [mbind res_bind]; cbv beta;
  repeat match goal with
  | |- context [for_loop _ ?i _ _ _] =>
      lazymatch i with
      | Z.add ?x ?y =>
          let v := eval vm_compute in (Z.add x y) in
          lazymatch v with
          | Z0 => change i with v
          | Zpos _ => change i with v
          | Zneg _ => change i with v
          end
      end
  end.

Lemma for_range_app {A S} (l1 l2 : list A) (body : A → S → res S) s :
  for_range (l1 ++ l2) body s = (s' ← for_range l1 body s; for_range l2 body s').
Proof.
  revert s; induction l1 as [|x l1 IH]; intros s; [done|].
  simpl. destruct (body x s); simpl; auto.
Qed.

(** ** Bytes and strings

    A Go string is a sequence of bytes: it is modelled by [string], and
    [[]byte(s)] and [string(b)] by the two conversions of the Standard
    Library. *)

Abbreviation bytes_of := String.list_byte_of_string.
Abbreviation string_of := String.string_of_list_byte.

Definition byte_to_Z (b : byte) : Z := Z.of_N (Byte.to_N b).
(** [byte(z)]: the conversion keeps the low eight bits. *)
Definition Z_to_byte (z : Z) : byte :=
  match Byte.of_N (Z.to_N (z `mod` 256)) with Some b => b | None => x00 end.

Definition ch (c : Ascii.ascii) : byte := Ascii.byte_of_ascii c.
#[global] Arguments ch c%_char_scope.

Lemma byte_to_Z_range b : (0 ≤ byte_to_Z b < 256)%Z.
Proof. unfold byte_to_Z. pose proof (Byte.to_N_bounded b). lia. Qed.

Lemma Z_to_byte_to_Z b : Z_to_byte (byte_to_Z b) = b.
Proof.
  unfold Z_to_byte. rewrite Z.mod_small by apply byte_to_Z_range.
  unfold byte_to_Z. by rewrite N2Z.id, Byte.of_to_N.
Qed.

Lemma byte_to_Z_to_byte z : byte_to_Z (Z_to_byte z) = (z `mod` 256)%Z.
Proof.
  unfold Z_to_byte, byte_to_Z.
  pose proof (Z.mod_pos_bound z 256 ltac:(lia)).
  destruct (Byte.of_N _) as [b|] eqn:E.
  - apply Byte.to_of_N in E. rewrite E, Z2N.id; lia.
  - apply Byte.of_N_None_iff in E. lia.
Qed.

Lemma byte_to_Z_inj b1 b2 : byte_to_Z b1 = byte_to_Z b2 → b1 = b2.
Proof. intros H. by rewrite <-(Z_to_byte_to_Z b1), H, Z_to_byte_to_Z. Qed.

#[export] Instance byte_to_Z_Inj : Inj (=) (=) byte_to_Z.
Proof. exact byte_to_Z_inj. Qed.

(** Every byte, to decide a boolean statement about all of them by computation. *)
Definition all_bytes : list byte := (λ n : nat, Z_to_byte (Z.of_nat n)) <$> seq 0 256.

Lemma all_bytes_complete b : b ∈ all_bytes.
Proof.
  apply list_elem_of_fmap. exists (Z.to_nat (byte_to_Z b)).
  pose proof (byte_to_Z_range b). split.
  - rewrite Z2Nat.id by lia. by rewrite Z_to_byte_to_Z.
  - apply elem_of_seq. lia.
Qed.

Lemma byte_forall (P : byte → bool) : forallb P all_bytes = true → ∀ b, P b = true.
Proof.
  intros H b. rewrite forallb_forall in H. apply H.
  apply list_elem_of_In, all_bytes_complete.
Qed.

Lemma index_lookup {A} (l : list A) (i : nat) x :
  l !! i = Some x → index l (Z.of_nat i) = Ok x.
Proof.
  intros H. unfold index. destruct (Z.leb_spec 0 (Z.of_nat i)); [|lia].
  by rewrite Nat2Z.id, H.
Qed.

Lemma set_index_lt {A} (l : list A) (i : nat) x :
  i < length l → set_index l (Z.of_nat i) x = Ok (<[i := x]> l).
Proof.
  intros H. unfold set_index.
  destruct (Z.leb_spec 0 (Z.of_nat i)), (Z.ltb_spec (Z.of_nat i) (Z.of_nat (length l)));
    simpl; try lia. by rewrite Nat2Z.id.
Qed.

(** ** Bits of a byte string, most significant first *)

Definition byte_bits (b : byte) : list bool :=
  Z.testbit (byte_to_Z b) <$> [7; 6; 5; 4; 3; 2; 1; 0]%Z.

Definition bits_of (l : list byte) : list bool := l ≫= byte_bits.

Lemma byte_bits_inj b1 b2 : byte_bits b1 = byte_bits b2 → b1 = b2.
Proof.
  intros H. apply byte_to_Z_inj, Z.bits_inj'. intros n Hn.
  destruct (decide (n < 8)%Z).
  - unfold byte_bits in H; simpl in H. injection H as ? ? ? ? ? ? ? ?.
    assert (n = 0 ∨ n = 1 ∨ n = 2 ∨ n = 3 ∨ n = 4 ∨ n = 5 ∨ n = 6 ∨ n = 7)%Z as Hc by lia.
    repeat (destruct Hc as [->|Hc]; [assumption|]). by subst.
  - assert (Hz : ∀ b, Z.testbit (byte_to_Z b) n = false); [|by rewrite !Hz].
    intros b. pose proof (byte_to_Z_range b). apply Z.testbit_false; [lia|].
    rewrite Z.div_small; [done|].
    pose proof (Z.pow_le_mono_r 2 8 n ltac:(lia) ltac:(lia)). lia.
Qed.

Lemma length_bits_of l : length (bits_of l) = 8 * length l.
Proof. induction l; simpl in *; lia. Qed.

Lemma bits_of_app l1 l2 : bits_of (l1 ++ l2) = bits_of l1 ++ bits_of l2.
Proof. unfold bits_of. by rewrite bind_app. Qed.

Lemma bits_of_replicate_x00 n : bits_of (replicate n x00) = replicate (8 * n) false.
Proof.
  induction n as [|n IH]; [done|].
  replace (8 * S n) with (8 + 8 * n) by lia.
  rewrite replicate_add, <-IH. done.
Qed.

Lemma bits_of_inj l1 l2 : bits_of l1 = bits_of l2 → l1 = l2.
Proof.
  revert l2; induction l1 as [|b1 l1 IH]; intros [|b2 l2] H; try done.
  apply (app_inj_1 (byte_bits b1) (byte_bits b2)) in H as [->%byte_bits_inj ?%IH]; [|done].
  by subst.
Qed.

Lemma bits_of_lookup l k :
  bits_of l !! k = (l !! (k / 8) ≫= λ d, byte_bits d !! (k `mod` 8)).
Proof.
  revert k; induction l as [|b l IH]; intros k; [done|].
  change (bits_of (b :: l)) with (byte_bits b ++ bits_of l).
  destruct (decide (k < 8)) as [Hk|Hk].
  - rewrite lookup_app_l by done. by rewrite Nat.div_small, Nat.mod_small.
  - rewrite lookup_app_r by (simpl; lia). rewrite IH.
    change (length (byte_bits b)) with 8.
    assert (k `div` 8 = S ((k - 8) `div` 8)) as ->.
    { replace k with ((k - 8) + 1 * 8) at 1 by lia. rewrite Nat.div_add; lia. }
    assert (k `mod` 8 = (k - 8) `mod` 8) as ->; [|done].
    replace k with ((k - 8) + 1 * 8) at 1 by lia. apply Nat.Div0.mod_add.
Qed.

(** ** Lengths of converted strings *)

Lemma length_bytes_of s : length (bytes_of s) = String.length s.
Proof. induction s as [|c s IH]; [done|]. unfold bytes_of in *. simpl in *. by rewrite <-IH. Qed.

Lemma length_string_of l : String.length (string_of l) = length l.
Proof. rewrite <-length_bytes_of. by rewrite String.list_byte_of_string_of_list_byte. Qed.

Lemma for_loop_add {S} n m i step (body : Z → S → res S) s :
  for_loop (n + m) i step body s =
  (s' ← for_loop n i step body s; for_loop m (i + Z.of_nat n * step)%Z step body s').
Proof.
  revert i s; induction n as [|n IH]; intros i s.
  - simpl. by rewrite Z.add_0_r.
  - change (Datatypes.S n + m) with (Datatypes.S (n + m)). rewrite !for_loop_S.
    destruct (body i s); [|done..]. cbn [mbind res_bind]. rewrite IH.
    by replace (i + Z.of_nat (Datatypes.S n) * step)%Z with (i + step + Z.of_nat n * step)%Z by lia.
Qed.

(** An invariant of a counted loop: the body never fails and preserves it. *)
Lemma for_loop_inv {S} (Inv : nat → S → Prop) n step (i0 : Z) (body : Z → S → res S) s :
  Inv 0 s →
  (∀ k s, k < n → Inv k s →
     ∃ s', body (i0 + Z.of_nat k * step)%Z s = Ok s' ∧ Inv (Datatypes.S k) s') →
  ∃ s', for_loop n i0 step body s = Ok s' ∧ Inv n s'.
Proof.
  intros H0. induction n as [|n IH]; intros Hstep; [by exists s|].
  destruct IH as (s1 & E1 & H1); [intros; apply Hstep; [lia|done]|].
  destruct (Hstep n s1) as (s2 & E2 & H2); [lia|done|].
  exists s2. split; [|done]. rewrite <-Nat.add_1_r, for_loop_add, E1. cbn [mbind res_bind].
  rewrite for_loop_S, E2. done.
Qed.

(** ** Arrays

    [[n]byte] is [vec byte n]; [copy(dst[:], src)] into a zeroed array keeps
    at most [n] bytes and leaves the rest zero. *)

Fixpoint array_of (n : nat) (l : list byte) : vec byte n :=
  match n with
  | O => [#]
  | S n' => match l with
            | [] => x00 ::: array_of n' []
            | b :: l' => b ::: array_of n' l'
            end
  end.

Lemma array_of_to_list n (l : list byte) :
  length l = n → vec_to_list (array_of n l) = l.
Proof.
  revert l; induction n as [|n IH]; intros [|b l] H; simplify_eq/=; [done|].
  by rewrite IH.
Qed.

Lemma array_of_vec {n} (v : vec byte n) : array_of n (vec_to_list v) = v.
Proof. apply vec_to_list_inj2, array_of_to_list, length_vec_to_list. Qed.

(** ** String conversions *)

Lemma bytes_of_string_of l : bytes_of (string_of l) = l.
Proof. apply String.list_byte_of_string_of_list_byte. Qed.

Lemma string_of_bytes_of s : string_of (bytes_of s) = s.
Proof. apply String.string_of_list_byte_of_string. Qed.

#[export] Instance bytes_of_inj : Inj (=) (=) bytes_of.
Proof. intros s1 s2 H. by rewrite <-(string_of_bytes_of s1), H, string_of_bytes_of. Qed.

Lemma bytes_of_cons c s : bytes_of (String c s) = Ascii.byte_of_ascii c :: bytes_of s.
Proof. done. Qed.

Lemma bytes_of_append s1 s2 : bytes_of (s1 +:+ s2) = bytes_of s1 ++ bytes_of s2.
Proof.
  induction s1 as [|c s1 IH]; [done|].
  change (String c s1 +:+ s2) with (String c (s1 +:+ s2)).
  by rewrite !bytes_of_cons, IH.
Qed.

Lemma string_of_app l1 l2 : string_of (l1 ++ l2) = string_of l1 +:+ string_of l2.
Proof. apply (inj bytes_of). by rewrite bytes_of_append, !bytes_of_string_of. Qed.

(** ** Slices that may be nil

    Where the code tells a nil slice from an empty one, a slice is an option;
    [len] and [range] treat nil as empty. *)

Abbreviation gslice A := (option (list A)).
Definition elems {A} (s : gslice A) : list A := default [] s.
