(* ===== verification/GoStd.v ===== *)
(** * The parts of Go's standard library the relay's string code uses

    Slicing with its bounds checks, [strings.HasPrefix] and [TrimPrefix],
    [strings.Cut], [strings.TrimSpace] and [encoding/hex]. *)

From S2P Require Import Prelude.

(** ** Slicing and prefixes *)

(** [s[lo:hi]]: a panic unless [0 <= lo <= hi <= len(s)]. *)
Definition slice (s : string) (lo hi : Z) : res string :=
  if ((0 <=? lo) && (lo <=? hi) && (hi <=? Z.of_nat (String.length s)))%Z
  then Ok (string_of (take (Z.to_nat (hi - lo)) (drop (Z.to_nat lo) (bytes_of s))))
  else Panic.

(** [s[lo:]]. *)
Definition slice_from (s : string) (lo : Z) : res string :=
  slice s lo (Z.of_nat (String.length s)).

(** [s] without its prefix [p], if it has it. *)
Fixpoint strip_prefix (p s : string) : option string :=
  match p, s with
  | EmptyString, _ => Some s
  | String a p', String b s' => if decide (a = b) then strip_prefix p' s' else None
  | String _ _, EmptyString => None
  end.
Definition HasPrefix (s p : string) : bool := bool_decide (is_Some (strip_prefix p s)).
Definition TrimPrefix (s p : string) : string := default s (strip_prefix p s).

(** [strings.Cut(s, sep)] for a one-byte separator: the text before and after
    its first occurrence. *)
Fixpoint Cut (s : string) (sep : byte) : string * string * bool :=
  match s with
  | EmptyString => (EmptyString, EmptyString, false)
  | String a s' =>
      if decide (Ascii.byte_of_ascii a = sep) then (EmptyString, s', true)
      else let '(before, after, found) := Cut s' sep in
           if found then (String a before, after, true)
           else (s, EmptyString, false)
  end.

Lemma strip_prefix_Some p s t : strip_prefix p s = Some t ↔ s = p +:+ t.
Proof.
  revert s; induction p as [|a p IH]; intros s.
  - simpl. split; [by intros [= ->]|by intros ->].
  - destruct s as [|b s]; [done|]. simpl.
    change (String a p +:+ t) with (String a (p +:+ t)).
    case_decide; subst; [rewrite IH|]; split; congruence.
Qed.

Lemma HasPrefix_spec s p : HasPrefix s p = true ↔ ∃ t, s = p +:+ t.
Proof.
  unfold HasPrefix. rewrite bool_decide_eq_true. split; intros [t Ht]; exists t; by apply strip_prefix_Some.
Qed.

Lemma HasPrefix_app p t : HasPrefix (p +:+ t) p = true.
Proof. apply HasPrefix_spec. by exists t. Qed.

Lemma TrimPrefix_app p t : TrimPrefix (p +:+ t) p = t.
Proof. unfold TrimPrefix. by rewrite (proj2 (strip_prefix_Some p _ t) eq_refl). Qed.

Lemma Cut_before s c : let '(before, _, _) := Cut s c in
  (∀ b, b ∈ bytes_of before → b ∈ bytes_of s) ∧ ((Cut s c).2 = true → c ∉ bytes_of before).
Proof.
  induction s as [|a s IH]; cbn [Cut]; [by split|]. case_decide as Ha.
  - split; [by intros ? ?%elem_of_nil|]. intros _. apply not_elem_of_nil.
  - destruct (Cut s c) as [[before after] []]; cbn [snd] in *; [|by split].
    destruct IH as [H1 H2]. rewrite !bytes_of_cons. split.
    + intros b [->|Hb]%elem_of_cons; [by left|right; auto].
    + intros _ [->|Hb]%elem_of_cons; [done|]. by apply H2.
Qed.

Lemma Cut_found k v c :
  Ascii.byte_of_ascii c ∉ bytes_of k → Cut (k +:+ String c v) (Ascii.byte_of_ascii c) = (k, v, true).
Proof.
  intros Hk. induction k as [|a k IH].
  - change ("" +:+ String c v) with (String c v). cbn [Cut]. by rewrite decide_True.
  - rewrite bytes_of_cons in Hk. apply not_elem_of_cons in Hk as [H1 H2].
    change (String a k +:+ String c v) with (String a (k +:+ String c v)). cbn [Cut].
    rewrite decide_False by auto. by rewrite IH.
Qed.

Lemma slice_ok s lo hi :
  (0 ≤ lo ≤ hi)%Z → (hi ≤ Z.of_nat (String.length s))%Z →
  slice s lo hi = Ok (string_of (take (Z.to_nat (hi - lo)) (drop (Z.to_nat lo) (bytes_of s)))).
Proof.
  intros ??. unfold slice.
  destruct (Z.leb_spec 0 lo), (Z.leb_spec lo hi), (Z.leb_spec hi (Z.of_nat (String.length s)));
    simpl; done || lia.
Qed.

Lemma slice_from_app p t :
  slice_from (p +:+ t) (Z.of_nat (String.length p)) = Ok t.
Proof.
  unfold slice_from.
  assert (Hlen : String.length (p +:+ t) = (String.length p + String.length t)%nat).
  { by rewrite <-!length_bytes_of, bytes_of_append, length_app. }
  rewrite slice_ok by lia. rewrite bytes_of_append, Nat2Z.id.
  rewrite drop_app_length' by (symmetry; apply length_bytes_of).
  rewrite take_ge by (rewrite length_bytes_of; lia). by rewrite string_of_bytes_of.
Qed.

(** ** strings.TrimSpace

    [unicode.IsSpace] on UTF-8: the six ASCII spaces, U+0085, U+00A0 and the
    other White_Space code points, as the bytes that encode them. *)

Definition space_encodings : list (list byte) :=
  [[x09]; [x0a]; [x0b]; [x0c]; [x0d]; [x20]; [xc2; x85]; [xc2; xa0]; [xe1; x9a; x80]] ++
  ((λ b, [xe2; x80; b]) <$> [x80; x81; x82; x83; x84; x85; x86; x87; x88; x89; x8a]) ++
  [[xe2; x80; xa8]; [xe2; x80; xa9]; [xe2; x80; xaf]; [xe2; x81; x9f]; [xe3; x80; x80]].

Fixpoint strip_bytes (p l : list byte) : option (list byte) :=
  match p, l with
  | [], _ => Some l
  | a :: p', b :: l' => if decide (a = b) then strip_bytes p' l' else None
  | _ :: _, [] => None
  end.

(** The rest of [l] after one of [encs], if [l] starts with one. *)
Definition strip_one (encs : list (list byte)) (l : list byte) : option (list byte) :=
  foldr (λ p acc, match strip_bytes p l with Some r => Some r | None => acc end) None encs.

Fixpoint trim_left (encs : list (list byte)) (fuel : nat) (l : list byte) : list byte :=
  match fuel with
  | O => l
  | S fuel' => match strip_one encs l with Some r => trim_left encs fuel' r | None => l end
  end.

(** Leading, then trailing spaces; no encoding of a space is the end of another
    character's encoding, so the end is trimmed on the reversed bytes. *)
Definition trim_space (l : list byte) : list byte :=
  let l1 := trim_left space_encodings (length l) l in
  reverse (trim_left (reverse <$> space_encodings) (length l1) (reverse l1)).
Definition TrimSpace (s : string) : string := string_of (trim_space (bytes_of s)).

(** Neither end of a non-empty [l] is a byte that starts or ends a space. *)
Definition plain_byte (b : byte) : bool :=
  (33 <=? byte_to_Z b)%Z && (byte_to_Z b <? 128)%Z.

Lemma strip_one_plain b l :
  plain_byte b = true →
  strip_one space_encodings (b :: l) = None ∧ strip_one (reverse <$> space_encodings) (b :: l) = None.
Proof.
  intros H.
  assert (Hall : ∀ b, negb (plain_byte b) ||
      forallb (λ p, match p with [] => false | a :: _ => negb (bool_decide (a = b)) end)
        (space_encodings ++ (reverse <$> space_encodings)) = true) by (by apply byte_forall; vm_compute).
  specialize (Hall b). rewrite H, forallb_app in Hall. simpl negb in Hall. cbn [orb] in Hall.
  apply andb_true_iff in Hall as [H1 H2].
  assert (Hgen : ∀ encs, forallb (λ p, match p with [] => false | a :: _ =>
      negb (bool_decide (a = b)) end) encs = true → strip_one encs (b :: l) = None); [|eauto].
  clear. induction encs as [|p encs IH]; [done|]. intros [Hp He]%andb_true_iff.
  unfold strip_one in *. cbn [foldr]. destruct p as [|a p]; [done|].
  apply negb_true_iff, bool_decide_eq_false in Hp. simpl strip_bytes.
  by rewrite decide_False, IH.
Qed.

Lemma trim_left_stop encs fuel l : strip_one encs l = None → trim_left encs fuel l = l.
Proof. intros H. destruct fuel; [done|]. simpl. by rewrite H. Qed.

Lemma strip_one_suffix encs l r : strip_one encs l = Some r → ∃ p, l = p ++ r.
Proof.
  induction encs as [|p encs IH]; [done|]. unfold strip_one. cbn [foldr].
  destruct (strip_bytes p l) as [r'|] eqn:E; [|by apply IH]. intros [= ->]. exists p. clear IH.
  revert l E; induction p as [|a p IH]; intros l E; [by injection E as ->|].
  destruct l as [|b l]; [done|]. cbn in E. case_decide; [|done]. subst. cbn. f_equal. by apply IH.
Qed.

Lemma trim_left_suffix encs fuel l : ∃ p, l = p ++ trim_left encs fuel l.
Proof.
  revert l; induction fuel as [|fuel IH]; intros l; [by exists []|]. cbn.
  destruct (strip_one encs l) as [r|] eqn:E; [|by exists []].
  apply strip_one_suffix in E as [p ->]. destruct (IH r) as [q Hq]. exists (p ++ q).
  by rewrite <-app_assoc, <-Hq.
Qed.

Lemma bytes_of_TrimSpace s b : b ∈ bytes_of (TrimSpace s) → b ∈ bytes_of s.
Proof.
  unfold TrimSpace, trim_space. rewrite bytes_of_string_of, elem_of_reverse.
  destruct (trim_left_suffix space_encodings (length (bytes_of s)) (bytes_of s)) as [p Hp].
  set (l1 := trim_left space_encodings _ _) in *.
  destruct (trim_left_suffix (reverse <$> space_encodings) (length l1) (reverse l1)) as [q Hq].
  intros Hb. rewrite Hp. apply elem_of_app. right. rewrite <-(reverse_involutive l1), elem_of_reverse, Hq.
  apply elem_of_app. by right.
Qed.

(** Text that starts and ends with a printable ASCII character is unchanged. *)
Lemma trim_space_plain l :
  (∃ b l', l = b :: l' ∧ plain_byte b = true) →
  (∃ b l', l = l' ++ [b] ∧ plain_byte b = true) → trim_space l = l.
Proof.
  intros (b & l1 & Hl & Hb) (c & l2 & Hl2 & Hc). unfold trim_space.
  rewrite (trim_left_stop space_encodings) by (rewrite Hl; by apply strip_one_plain).
  rewrite trim_left_stop; [apply reverse_involutive|].
  rewrite Hl2, reverse_snoc. by apply strip_one_plain.
Qed.

Lemma TrimSpace_plain s :
  bytes_of s ≠ [] → Forall (λ b, plain_byte b = true) (bytes_of s) → TrimSpace s = s.
Proof.
  intros Hne Hall. unfold TrimSpace. rewrite trim_space_plain; [apply string_of_bytes_of| |].
  - destruct (bytes_of s) as [|b l]; [done|]. exists b, l. apply Forall_cons in Hall as [? _]. done.
  - destruct (bytes_of s) as [|b l] using rev_ind; [done|]. exists b, l.
    apply Forall_app in Hall as [_ [? _]%Forall_cons]. done.
Qed.

(** A no-break space (U+00A0) at the end is trimmed. *)
Lemma TrimSpace_nbsp s :
  bytes_of s ≠ [] → Forall (λ b, plain_byte b = true) (bytes_of s) →
  TrimSpace (s +:+ string_of [xc2; xa0]) = s.
Proof.
  intros Hne Hall. unfold TrimSpace. rewrite bytes_of_append, bytes_of_string_of.
  assert (Htr : trim_space (bytes_of s ++ [xc2; xa0]) = bytes_of s); [|rewrite Htr; apply string_of_bytes_of].
  unfold trim_space. rewrite (trim_left_stop space_encodings).
  - rewrite reverse_app. change (reverse [xc2; xa0]) with [xa0; xc2]. rewrite length_app.
    destruct (bytes_of s) as [|b l _] using rev_ind; [done|].
    apply Forall_app in Hall as [_ [Hb _]%Forall_cons].
    replace (length (l ++ [b]) + length [xc2; xa0])%nat with (S (length l + 2))
      by (rewrite length_app; cbn; lia).
    rewrite reverse_snoc. cbn [app trim_left].
    change (strip_one (reverse <$> space_encodings) (xa0 :: xc2 :: b :: reverse l))
      with (Some (b :: reverse l)). cbv iota beta.
    rewrite trim_left_stop by (by apply strip_one_plain). by rewrite reverse_cons, reverse_involutive.
  - destruct (bytes_of s) as [|b l]; [done|]. apply Forall_cons in Hall as [Hb _].
    by apply strip_one_plain.
Qed.

Lemma TrimPrefix_absent s p c : c ∉ bytes_of s → c ∈ bytes_of p → TrimPrefix s p = s.
Proof.
  intros Hs Hp. unfold TrimPrefix. destruct (strip_prefix p s) as [t|] eqn:E; [|done].
  apply strip_prefix_Some in E as ->. rewrite bytes_of_append in Hs. set_solver.
Qed.

(** ** encoding/hex *)

Module hex.

(** [hextable]. *)
Definition hextable : string := "0123456789abcdef".

(** [hex.EncodeToString]: two digits per byte, high nibble first. *)
Definition nibble_char (n : Z) : byte := default x00 (bytes_of hextable !! Z.to_nat n).
Definition encode (src : list byte) : list byte :=
  src ≫= λ b, [nibble_char (Z.shiftr (byte_to_Z b) 4); nibble_char (Z.land (byte_to_Z b) 15)].
Definition EncodeToString (src : list byte) : string := string_of (encode src).

(** [reverseHexTable]: both letter cases are accepted. *)
Definition digit (b : byte) : option Z :=
  let z := byte_to_Z b in
  if ((48 <=? z) && (z <=? 57))%Z then Some (z - 48)%Z
  else if ((97 <=? z) && (z <=? 102))%Z then Some (z - 87)%Z
  else if ((65 <=? z) && (z <=? 70))%Z then Some (z - 55)%Z
  else None.

(** [hex.Decode]: pairs of digits; an odd tail is a length error unless its
    character is already invalid. *)
Fixpoint decode (src : list byte) : res (list byte) :=
  match src with
  | [] => Ok []
  | [p] => match digit p with
           | None => Err (HexInvalidByte p)
           | Some _ => Err HexErrLength
           end
  | p :: q :: src' =>
      match digit p, digit q with
      | None, _ => Err (HexInvalidByte p)
      | _, None => Err (HexInvalidByte q)
      | Some a, Some b =>
          r ← decode src'; Ok (Z_to_byte (Z.lor (Z.shiftl a 4) b) :: r)
      end
  end.
Definition DecodeString (s : string) : res (list byte) := decode (bytes_of s).

Lemma decode_encode l : decode (encode l) = Ok l.
Proof.
  induction l as [|b l IH]; [done|].
  change (encode (b :: l)) with
    (nibble_char (Z.shiftr (byte_to_Z b) 4) :: nibble_char (Z.land (byte_to_Z b) 15) :: encode l).
  assert (H : ∀ b, bool_decide (
    digit (nibble_char (Z.shiftr (byte_to_Z b) 4)) = Some (Z.shiftr (byte_to_Z b) 4) ∧
    digit (nibble_char (Z.land (byte_to_Z b) 15)) = Some (Z.land (byte_to_Z b) 15) ∧
    Z_to_byte (Z.lor (Z.shiftl (Z.shiftr (byte_to_Z b) 4) 4) (Z.land (byte_to_Z b) 15)) = b)
    = true) by (by apply byte_forall; vm_compute).
  specialize (H b). apply bool_decide_eq_true in H as (H1 & H2 & H3).
  cbn [decode]. rewrite H1, H2, IH. cbn [mbind res_bind]. by rewrite H3.
Qed.

(** Decoding a hex rendering gives the bytes back. *)
Lemma DecodeString_EncodeToString l : DecodeString (EncodeToString l) = Ok l.
Proof. unfold DecodeString, EncodeToString. rewrite bytes_of_string_of. apply decode_encode. Qed.

Lemma length_encode l : length (encode l) = (2 * length l)%nat.
Proof.
  induction l as [|b l IH]; [done|]. unfold encode in *.
  rewrite bind_cons, length_app, IH. simpl. lia.
Qed.

Lemma decode_length src out : decode src = Ok out → length src = (2 * length out)%nat.
Proof.
  assert (H : ∀ n src out, (length src ≤ n)%nat → decode src = Ok out →
    length src = (2 * length out)%nat); [|by eauto].
  clear. intros n; induction n as [|n IH]; intros [|p [|q src]] out Hn H; simpl in Hn, H;
    try (by destruct (digit p)); try lia; try by injection H as <-.
  destruct (digit p), (digit q); try done.
  destruct (decode src) as [r|e|] eqn:E; simpl in H; try done. injection H as <-.
  simpl. rewrite (IH src r); [lia|lia|done].
Qed.

Lemma decode_no_panic src : decode src ≠ Panic.
Proof.
  assert (H : ∀ n src, (length src ≤ n)%nat → decode src ≠ Panic); [|by eauto].
  clear. intros n; induction n as [|n IH]; intros [|p [|q src]] Hn; simpl in Hn;
    try done; try lia; simpl; try by destruct (digit p).
  destruct (digit p), (digit q); try done.
  specialize (IH src ltac:(lia)). by destruct (decode src).
Qed.

End hex.
