(* ===== verification/Base32.v ===== *)
(** * Nano base32 (internal/nano/account.go, lines 8-21 and 78-147)

    The alphabet, the reverse table, [encodeBase32], [decodeBase32],
    [reverseBytes] and [bytesEqual], with the bit-string specification both
    directions refine. *)

From S2P Require Import Prelude.

Local Open Scope Z_scope.

(** ** Definitions *)

Definition nanoAlphabet : string := "13456789abcdefghijkmnopqrstuwxyz".

(** [var nanoReverse]: 128 entries of -1, then the index of each symbol. *)
Definition nanoReverse : list Z :=
  match
    for_loop 32 0 1
      (λ i t, c ← index (bytes_of nanoAlphabet) i; set_index t (byte_to_Z c) i)
      (replicate 128 (-1))
  with Ok t => t | _ => [] end.

(** The closure [bitAt] of [encodeBase32]. *)
Definition bitAt (data : list byte) (padBits i : Z) : res Z :=
  let j := i - padBits in
  if j <? 0 then Ok 0
  else d ← index data (j `quot` 8);
       Ok (Z.land (Z.shiftr (byte_to_Z d) (7 - j `rem` 8)) 1).

(** One iteration of the outer loop: five bits, then the symbol. *)
Definition encodeStep (data : list byte) (padBits i : Z) (sb : list byte) : res (list byte) :=
  v ← for_loop 5 0 1 (λ k v,
        b ← bitAt data padBits (i + k); Ok (Z.lor (Z.shiftl v 1) b)) 0;
  c ← index (bytes_of nanoAlphabet) v;
  Ok (sb ++ [c]).

Definition encodeBase32 (data : list byte) (padBits : Z) : res string :=
  let total := padBits + Z.of_nat (length data) * 8 in
  if total `quot` 5 <? 0 then Panic (* sb.Grow of a negative count *)
  else
    sb ← for_loop (Z.to_nat ((total + 4) `div` 5)) 0 5 (encodeStep data padBits) [];
    Ok (string_of sb).

(** The write [out[pos/8] |= byte(bit) << (7-uint(pos%8))]. *)
Definition orBit (out : list byte) (pos bit : Z) : res (list byte) :=
  o ← index out (pos `quot` 8);
  set_index out (pos `quot` 8)
    (Z_to_byte (Z.lor (byte_to_Z o) (Z.shiftl bit (7 - pos `rem` 8)))).

(** The inner loop of [decodeBase32]: five bits of [v], high bit first. *)
Definition decodeBit (padBits v k : Z) (st : list byte * Z) : res (list byte * Z) :=
  let '(out, bitIdx) := st in
  let bit := Z.land (Z.shiftr v k) 1 in
  let pos := bitIdx - padBits in
  out' ← (if 0 <=? pos then orBit out pos bit else Ok out);
  Ok (out', bitIdx + 1).

(** The body of the loop over the characters of [s]. *)
Definition decodeChar (padBits : Z) (c : byte) (st : list byte * Z) : res (list byte * Z) :=
  v ← (if 128 <=? byte_to_Z c then Err (ErrString "nano: invalid base32 character")
       else r ← index nanoReverse (byte_to_Z c);
            if r <? 0 then Err (ErrString "nano: invalid base32 character") else Ok r);
  for_loop 5 4 (-1) (decodeBit padBits v) st.

Definition decodeBase32 (s : string) (padBits : Z) : res (list byte) :=
  let totalBits := Z.of_nat (String.length s) * 5 in
  let outBits := totalBits - padBits in
  if negb (outBits `rem` 8 =? 0) then Err (ErrString "nano: base32 length not byte-aligned")
  else if outBits `quot` 8 <? 0 then Panic (* make([]byte, negative) *)
  else
    st ← for_range (bytes_of s) (decodeChar padBits)
           (replicate (Z.to_nat (outBits `quot` 8)) x00, 0);
    Ok st.1.

(** [reverseBytes] swaps in place from both ends: [i] and [j] meet in the middle. *)
Definition swapEnds (n i : Z) (b : list byte) : res (list byte) :=
  let j := n - 1 - i in
  x ← index b i; y ← index b j;
  b' ← set_index b i y; set_index b' j x.

Definition reverseBytes (b : list byte) : res (list byte) :=
  let n := Z.of_nat (length b) in
  for_loop (Z.to_nat (n `quot` 2)) 0 1 (swapEnds n) b.

(** [bytesEqual]: the length test, then the loop with its early return. *)
Fixpoint bytesEqual_loop (a b : list byte) : bool :=
  match a, b with
  | x :: a', y :: b' => if decide (x = y) then bytesEqual_loop a' b' else false
  | _, _ => true
  end.
Definition bytesEqual (a b : list byte) : bool :=
  if negb (length a =? length b)%nat then false else bytesEqual_loop a b.

(** ** Specification: a base32 string denotes a bit string *)

Definition symbol_value (c : byte) : option Z :=
  if 128 <=? byte_to_Z c then None
  else match index nanoReverse (byte_to_Z c) with
       | Ok r => if r <? 0 then None else Some r
       | _ => None
       end.

Definition quint (v : Z) : list bool := Z.testbit v <$> [4; 3; 2; 1; 0].

Fixpoint symbols_bits (l : list byte) : option (list bool) :=
  match l with
  | [] => Some []
  | c :: l' => v ← symbol_value c; bs ← symbols_bits l'; Some (quint v ++ bs)
  end.

Definition base32_bits (s : string) : option (list bool) := symbols_bits (bytes_of s).

(** The value of five bits, as the encoder's inner loop accumulates it. *)
Definition quint_value (l : list bool) : Z :=
  foldl (λ v (b : bool), Z.lor (Z.shiftl v 1) (Z.b2z b)) 0 l.

(** The bit string [encodeBase32] walks: the pad, then the data. *)
Definition padded_bits (data : list byte) (padBits : Z) : list bool :=
  replicate (Z.to_nat padBits) false ++ bits_of data.

(** ** The encoder *)

Lemma land_1_testbit z n : 0 ≤ n → Z.land (Z.shiftr z n) 1 = Z.b2z (Z.testbit z n).
Proof.
  intros Hn. change 1 with (Z.ones 1). rewrite Z.land_ones by lia.
  rewrite Z.testbit_spec' by lia. by rewrite Z.shiftr_div_pow2.
Qed.

Lemma byte_bits_lookup d r b :
  byte_bits d !! r = Some b → Z.testbit (byte_to_Z d) (7 - Z.of_nat r) = b ∧ (r < 8)%nat.
Proof.
  intros H. assert (r < 8)%nat.
  { by apply lookup_lt_Some in H. }
  do 8 (destruct r as [|r]; [simpl in H; split; [by injection H|lia]|]). lia.
Qed.

Lemma bitAt_lookup data padBits i b :
  0 ≤ padBits → padded_bits data padBits !! i = Some b →
  bitAt data padBits (Z.of_nat i) = Ok (Z.b2z b).
Proof.
  intros Hp H. unfold bitAt, padded_bits in *.
  destruct (Z.ltb_spec (Z.of_nat i - padBits) 0).
  - rewrite lookup_app_l in H by (rewrite length_replicate; lia).
    apply lookup_replicate in H as [-> _]. done.
  - rewrite lookup_app_r, length_replicate in H by (rewrite length_replicate; lia).
    rewrite bits_of_lookup in H. apply bind_Some in H as (d & Hd & Hb).
    apply byte_bits_lookup in Hb as [Hb Hr].
    set (k := (i - Z.to_nat padBits)%nat) in *.
    replace (Z.of_nat i - padBits) with (Z.of_nat k) by lia.
    rewrite Z.quot_div_nonneg, Z.rem_mod_nonneg by lia.
    change 8 with (Z.of_nat 8). rewrite <-Nat2Z.inj_div, <-Nat2Z.inj_mod.
    rewrite (index_lookup _ _ _ Hd). cbn [mbind res_bind].
    pose proof (Nat.mod_upper_bound k 8). rewrite land_1_testbit by lia. by rewrite Hb.
Qed.

Lemma alphabet_quint l :
  length l = 5%nat →
  ∃ c, index (bytes_of nanoAlphabet) (quint_value l) = Ok c ∧
       symbol_value c = Some (quint_value l) ∧ quint (quint_value l) = l.
Proof.
  intros H. do 6 (destruct l as [|[] l]; simpl in H; try lia);
    eexists; repeat split; vm_compute; reflexivity.
Qed.

Lemma encode_symbol data padBits i a b c d e R D :
  0 ≤ padBits → padded_bits data padBits = D ++ [a; b; c; d; e] ++ R → length D = i →
  for_loop 5 0 1 (λ k v,
    x ← bitAt data padBits (Z.of_nat i + k); Ok (Z.lor (Z.shiftl v 1) x)) 0
  = Ok (quint_value [a; b; c; d; e]).
Proof.
  intros Hp HL Hi.
  assert (Hat : ∀ (k : nat) x, [a; b; c; d; e] !! k = Some x →
    bitAt data padBits (Z.of_nat i + Z.of_nat k) = Ok (Z.b2z x)).
  { intros k x Hk. rewrite <-Nat2Z.inj_add. apply bitAt_lookup; [done|].
    rewrite HL, lookup_app_r, Hi by lia. replace (i + k - i)%nat with k by lia.
    by apply lookup_app_l_Some. }
  pose proof (Hat 0%nat a eq_refl) as H0. pose proof (Hat 1%nat b eq_refl) as H1.
  pose proof (Hat 2%nat c eq_refl) as H2. pose proof (Hat 3%nat d eq_refl) as H3.
  pose proof (Hat 4%nat e eq_refl) as H4.
  change (Z.of_nat 0) with 0 in H0. change (Z.of_nat 1) with 1 in H1.
  change (Z.of_nat 2) with 2 in H2. change (Z.of_nat 3) with 3 in H3.
  change (Z.of_nat 4) with 4 in H4.
  loop_step H0. loop_step H1. loop_step H2. loop_step H3. loop_step H4. done.
Qed.

(** The outer loop, from any position and with any bits left after it. *)
Lemma encode_loop data padBits n D R T sb :
  0 ≤ padBits → padded_bits data padBits = D ++ R ++ T → length R = (5 * n)%nat →
  ∃ syms, symbols_bits syms = Some R ∧ length syms = n ∧
  for_loop n (Z.of_nat (length D)) 5 (encodeStep data padBits) sb = Ok (sb ++ syms).
Proof.
  intros Hp. revert D R sb. induction n as [|n IH]; intros D R sb HL HR.
  - apply nil_length_inv in HR as ->. exists []. by rewrite app_nil_r.
  - do 5 (destruct R as [|? R]; simpl in HR; [lia|]).
    change (?a :: ?b :: ?c :: ?d :: ?e :: R) with ([a; b; c; d; e] ++ R) in HL |- *.
    rewrite <-app_assoc in HL.
    destruct (alphabet_quint [b; b0; b1; b2; b3] eq_refl) as (ch & Hc & Hv & Hq).
    destruct (IH (D ++ [b; b0; b1; b2; b3]) R (sb ++ [ch])) as (syms & Hs & Hlen & Hloop).
    { by rewrite HL, <-app_assoc. }
    { lia. }
    exists (ch :: syms). split; [|split].
    + cbn [symbols_bits]. rewrite Hv. cbn [mbind option_bind]. rewrite Hs.
      cbn [mbind option_bind]. by rewrite Hq.
    + simpl. by rewrite Hlen.
    + rewrite for_loop_S. unfold encodeStep at 2.
      erewrite (encode_symbol _ _ _ _ _ _ _ _ _ _ Hp HL eq_refl).
      cbn [mbind res_bind]. rewrite Hc. cbn [mbind res_bind].
      rewrite length_app, Nat2Z.inj_add in Hloop.
      change (Z.of_nat (length [_;_;_;_;_])) with 5 in Hloop. rewrite Hloop.
      by rewrite <-app_assoc.
Qed.

(** [encodeBase32] produces exactly the symbols of the padded bits. *)
Lemma encodeBase32_spec data padBits :
  0 ≤ padBits → (padBits + Z.of_nat (length data) * 8) `mod` 5 = 0 →
  ∃ s, encodeBase32 data padBits = Ok s ∧
       base32_bits s = Some (padded_bits data padBits) ∧
       Z.of_nat (String.length s) * 5 = padBits + Z.of_nat (length data) * 8.
Proof.
  intros Hp Hm. unfold encodeBase32.
  set (total := padBits + Z.of_nat (length data) * 8) in *.
  assert (Hlen : length (padded_bits data padBits) = Z.to_nat total).
  { unfold padded_bits. rewrite length_app, length_replicate, length_bits_of. lia. }
  destruct (Z.ltb_spec (total `quot` 5) 0) as [Hq|_].
  { rewrite Z.quot_div_nonneg in Hq by lia.
    pose proof (Z.div_pos total 5). lia. }
  pose proof (Z.div_mod total 5 ltac:(lia)) as Hdm.
  assert (Hn : (total + 4) `div` 5 = total `div` 5).
  { symmetry. apply (Z.div_unique _ _ _ 4); lia. }
  pose proof (Z.div_pos total 5).
  destruct (encode_loop data padBits (Z.to_nat (total `div` 5)) [] (padded_bits data padBits) [] [])
    as (syms & Hs & Hsl & Hloop); [done|by rewrite app_nil_r| |].
  { rewrite Hlen. lia. }
  simpl length in Hloop. change (Z.of_nat 0) with 0 in Hloop.
  rewrite Hn, Hloop. exists (string_of syms).
  unfold base32_bits. rewrite String.list_byte_of_string_of_list_byte.
  split; [done|]. split; [done|].
  rewrite length_string_of. lia.
Qed.

(** ** The decoder *)

(** Writing one bit into a byte whose bit is clear: all 256 bytes by computation. *)
Definition or_bit_ok (o : byte) : bool :=
  forallb (λ r, forallb (λ b,
    Z.testbit (byte_to_Z o) (7 - Z.of_nat r) ||
    bool_decide (byte_bits (Z_to_byte (Z.lor (byte_to_Z o) (Z.shiftl (Z.b2z b) (7 - Z.of_nat r))))
                 = <[r := b]> (byte_bits o))) [true; false]) (seq 0 8).

Lemma byte_or_bit o r b :
  byte_bits o !! r = Some false →
  byte_bits (Z_to_byte (Z.lor (byte_to_Z o) (Z.shiftl (Z.b2z b) (7 - Z.of_nat r))))
  = <[r := b]> (byte_bits o).
Proof.
  intros [Hf Hr]%byte_bits_lookup.
  assert (H : or_bit_ok o = true) by (by apply byte_forall; vm_compute).
  unfold or_bit_ok in H. rewrite forallb_forall in H.
  specialize (H r). rewrite forallb_forall in H.
  specialize (H ltac:(apply in_seq; lia) b ltac:(destruct b; simpl; auto)).
  rewrite Hf in H. simpl in H. by apply bool_decide_eq_true in H.
Qed.

Lemma orBit_spec out A B b :
  bits_of out = A ++ false :: B →
  ∃ out', orBit out (Z.of_nat (length A)) (Z.b2z b) = Ok out' ∧ bits_of out' = A ++ b :: B.
Proof.
  intros H. unfold orBit. set (p := length A).
  assert (Hp : bits_of out !! p = Some false) by (by rewrite H, list_lookup_middle).
  rewrite bits_of_lookup in Hp. apply bind_Some in Hp as (o & Ho & Hb).
  pose proof (lookup_lt_Some _ _ _ Ho) as Hlt.
  rewrite Z.quot_div_nonneg, Z.rem_mod_nonneg by lia. change 8 with (Z.of_nat 8).
  rewrite <-Nat2Z.inj_div, <-Nat2Z.inj_mod, (index_lookup _ _ _ Ho). cbn [mbind res_bind].
  rewrite set_index_lt by done. eexists; split; [done|].
  apply list_eq. intros k. rewrite bits_of_lookup.
  pose proof (byte_or_bit o (p mod 8) b Hb) as Hw.
  pose proof (byte_bits_lookup _ _ _ Hb) as [_ Hr].
  pose proof (Nat.div_mod_eq p 8). pose proof (Nat.div_mod_eq k 8).
  destruct (decide (k = p)) as [->|Hk].
  - rewrite list_lookup_insert_eq by done. cbn [mbind option_bind]. rewrite Hw.
    rewrite list_lookup_insert_eq by done. by rewrite list_lookup_middle.
  - transitivity (bits_of out !! k).
    + rewrite bits_of_lookup. destruct (decide (k / 8 = p / 8)%nat) as [He|He].
      * rewrite He, list_lookup_insert_eq, Ho by done. cbn [mbind option_bind].
        rewrite Hw. apply list_lookup_insert_ne. lia.
      * by rewrite list_lookup_insert_ne.
    + rewrite H. destruct (decide (k < p)%nat).
      * by rewrite !lookup_app_l by (fold p; lia).
      * rewrite !lookup_app_r by (fold p; lia). fold p.
        destruct (k - p)%nat eqn:E; [lia|done].
Qed.

(** The state after the bits [D] of a [T]-bit string: the bits past the pad
    are in place and the rest of [out] is still clear. *)
Definition decoded (p T : nat) (D : list bool) (st : list byte * Z) : Prop :=
  st.2 = Z.of_nat (length D) ∧
  bits_of st.1 = drop p D ++ replicate (T - Nat.max (length D) p) false.

Lemma decode_bit p T D st v k :
  decoded p T D st → (length D < T)%nat → 0 ≤ k →
  ∃ st', decodeBit (Z.of_nat p) v k st = Ok st' ∧
    decoded p T (D ++ [Z.testbit v k]) st'.
Proof.
  intros [Hix Hout] HT Hk. destruct st as [out ix]; simpl in Hix, Hout; subst ix.
  unfold decoded, decodeBit. rewrite land_1_testbit by done.
  rewrite length_app. change (length [_]) with 1%nat.
  destruct (Z.leb_spec 0 (Z.of_nat (length D) - Z.of_nat p)) as [Hle|Hle].
  - replace (T - Nat.max (length D) p)%nat
      with (S (T - Nat.max (length D + 1) p)) in Hout by lia.
    destruct (orBit_spec out _ _ (Z.testbit v k) Hout) as (out' & Ho & Hb).
    rewrite length_drop, Nat2Z.inj_sub in Ho by lia. rewrite Ho. cbn [mbind res_bind].
    eexists; split; [done|]. cbn [fst snd]. split; [lia|].
    rewrite Hb, drop_app_le by lia. by rewrite <-app_assoc.
  - eexists; split; [done|]. cbn [fst snd]. split; [lia|].
    rewrite Hout. replace (Nat.max (length D + 1) p) with (Nat.max (length D) p) by lia.
    rewrite (drop_ge D), (drop_ge (_ ++ _)); [done| |lia]. rewrite length_app. simpl. lia.
Qed.

Lemma decode_symbol p T D st v :
  decoded p T D st → (length D + 5 ≤ T)%nat →
  ∃ st', for_loop 5 4 (-1) (decodeBit (Z.of_nat p) v) st = Ok st' ∧
         decoded p T (D ++ quint v) st'.
Proof.
  intros H0 HT.
  edestruct (decode_bit p T _ _ v 4 H0) as (st1 & E1 & H1); [lia..|].
  edestruct (decode_bit p T _ _ v 3 H1) as (st2 & E2 & H2); [rewrite ?length_app; simpl; lia..|].
  edestruct (decode_bit p T _ _ v 2 H2) as (st3 & E3 & H3); [rewrite ?length_app; simpl; lia..|].
  edestruct (decode_bit p T _ _ v 1 H3) as (st4 & E4 & H4); [rewrite ?length_app; simpl; lia..|].
  edestruct (decode_bit p T _ _ v 0 H4) as (st5 & E5 & H5); [rewrite ?length_app; simpl; lia..|].
  exists st5.
  loop_step E1. loop_step E2. loop_step E3. loop_step E4. loop_step E5.
  split; [done|]. rewrite <-!app_assoc in H5. exact H5.
Qed.

Lemma decodeChar_eq padBits c st :
  decodeChar padBits c st =
  match symbol_value c with
  | Some v => for_loop 5 4 (-1) (decodeBit padBits v) st
  | None => Err (ErrString "nano: invalid base32 character")
  end.
Proof.
  unfold decodeChar, symbol_value. destruct (Z.leb_spec 128 (byte_to_Z c)); [done|].
  destruct (index nanoReverse (byte_to_Z c)) as [r|e|] eqn:E; simpl.
  - by destruct (r <? 0).
  - unfold index in E. by repeat case_match.
  - exfalso. unfold index in E. pose proof (byte_to_Z_range c).
    destruct (Z.leb_spec 0 (byte_to_Z c)); [|lia].
    destruct (nanoReverse !! _) eqn:El; [done|].
    apply lookup_ge_None in El. change (length nanoReverse) with 128%nat in El. lia.
Qed.

Lemma decode_loop p T l D st :
  decoded p T D st → (length D + 5 * length l ≤ T)%nat →
  match symbols_bits l with
  | Some bs => ∃ st',
      for_range l (decodeChar (Z.of_nat p)) st = Ok st' ∧ decoded p T (D ++ bs) st'
  | None =>
      for_range l (decodeChar (Z.of_nat p)) st
      = Err (ErrString "nano: invalid base32 character")
  end.
Proof.
  revert D st. induction l as [|c l IH]; intros D st Hd HT.
  - cbn. exists st. by rewrite app_nil_r.
  - cbn [symbols_bits for_range]. rewrite decodeChar_eq.
    destruct (symbol_value c) as [v|]; cbn [mbind res_bind option_bind]; [|done].
    simpl length in HT.
    destruct (decode_symbol p T D st v Hd ltac:(lia)) as (st' & -> & Hd').
    cbn [mbind res_bind]. specialize (IH _ _ Hd').
    rewrite length_app in IH. change (length (quint v)) with 5%nat in IH.
    specialize (IH ltac:(lia)).
    destruct (symbols_bits l) as [bs|]; cbn [mbind option_bind]; [|done].
    destruct IH as (st'' & ? & ?). exists st''. by rewrite app_assoc.
Qed.

Lemma length_symbols_bits l bs : symbols_bits l = Some bs → length bs = (5 * length l)%nat.
Proof.
  revert bs; induction l as [|c l IH]; intros bs H; cbn [symbols_bits] in H.
  - by injection H as <-.
  - apply bind_Some in H as (v & _ & H). apply bind_Some in H as (bs' & Hb & [= <-]).
    cbn [length]. rewrite (IH _ Hb). simpl. lia.
Qed.

(** [decodeBase32] on byte-aligned input: the bits past the pad, or the error
    for the first character outside the alphabet. *)
Lemma decodeBase32_spec s padBits :
  0 ≤ padBits ≤ Z.of_nat (String.length s) * 5 →
  (Z.of_nat (String.length s) * 5 - padBits) `mod` 8 = 0 →
  match base32_bits s with
  | Some bs => ∃ out, decodeBase32 s padBits = Ok out ∧ bits_of out = drop (Z.to_nat padBits) bs
  | None => decodeBase32 s padBits = Err (ErrString "nano: invalid base32 character")
  end.
Proof.
  intros [Hp0 Hp] Hm. unfold decodeBase32.
  set (n := String.length s) in *.
  rewrite Z.rem_mod_nonneg, Hm by lia. simpl negb. cbn [negb].
  rewrite !Z.quot_div_nonneg by lia.
  pose proof (Z.div_mod (Z.of_nat n * 5 - padBits) 8 ltac:(lia)) as Hdm. rewrite Hm in Hdm.
  destruct (Z.ltb_spec ((Z.of_nat n * 5 - padBits) `div` 8) 0); [lia|].
  set (m := Z.to_nat ((Z.of_nat n * 5 - padBits) `div` 8)).
  pose proof (decode_loop (Z.to_nat padBits) (5 * n) (bytes_of s) [] (replicate m x00, 0)) as Hl.
  rewrite Z2Nat.id in Hl by done. unfold base32_bits.
  assert (Hlen : length (bytes_of s) = n) by apply length_bytes_of.
  destruct (symbols_bits (bytes_of s)) as [bs|] eqn:Hbs.
  - apply length_symbols_bits in Hbs. rewrite Hlen in Hbs. destruct Hl as ([out ix] & -> & [_ Hout]).
    + split; [done|]. simpl. rewrite drop_nil, bits_of_replicate_x00.
      simpl. f_equal. lia.
    + rewrite Hlen. simpl. lia.
    + exists out. split; [done|]. cbn [fst app] in Hout. rewrite Hout, Hbs.
      rewrite Nat.max_l, Nat.sub_diag by lia. apply app_nil_r.
  - rewrite Hl; [done| |].
    + split; [done|]. simpl. rewrite drop_nil, bits_of_replicate_x00. simpl. f_equal. lia.
    + rewrite Hlen. simpl. lia.
Qed.

(** ** Round trips and panic freedom *)

Lemma quint_inj_symbol c1 c2 v1 v2 :
  symbol_value c1 = Some v1 → symbol_value c2 = Some v2 → quint v1 = quint v2 → c1 = c2.
Proof.
  intros H1 H2 Hq.
  assert (H : forallb (λ c1, forallb (λ c2,
    match symbol_value c1, symbol_value c2 with
    | Some v1, Some v2 =>
        negb (bool_decide (quint v1 = quint v2)) || bool_decide (c1 = c2)
    | _, _ => true
    end) all_bytes) all_bytes = true) by (vm_compute; done).
  rewrite forallb_forall in H.
  specialize (H c1 ltac:(apply list_elem_of_In, all_bytes_complete)).
  rewrite forallb_forall in H.
  specialize (H c2 ltac:(apply list_elem_of_In, all_bytes_complete)).
  rewrite H1, H2, (bool_decide_eq_true_2 _ Hq) in H. simpl in H.
  by apply bool_decide_eq_true in H.
Qed.

Lemma symbols_bits_inj l1 l2 bs :
  symbols_bits l1 = Some bs → symbols_bits l2 = Some bs → l1 = l2.
Proof.
  revert l2 bs; induction l1 as [|c1 l1 IH]; intros [|c2 l2] bs H1 H2;
    pose proof (length_symbols_bits _ _ H1) as L1;
    pose proof (length_symbols_bits _ _ H2) as L2; simpl in L1, L2; [done|lia..|].
  cbn [symbols_bits] in H1, H2.
  apply bind_Some in H1 as (v1 & Hv1 & (bs1 & Hb1 & E1)%bind_Some).
  apply bind_Some in H2 as (v2 & Hv2 & (bs2 & Hb2 & E2)%bind_Some).
  assert (quint v1 ++ bs1 = quint v2 ++ bs2) as [Hq ->]%app_inj_1; [congruence| |done].
  f_equal; [by eapply quint_inj_symbol|by eapply IH].
Qed.

(** A base32 string is determined by its bits. *)
Lemma base32_bits_inj s1 s2 bs :
  base32_bits s1 = Some bs → base32_bits s2 = Some bs → s1 = s2.
Proof.
  intros H1 H2. rewrite <-(String.string_of_list_byte_of_string s1),
    <-(String.string_of_list_byte_of_string s2).
  f_equal. by eapply symbols_bits_inj.
Qed.

Lemma reverseBytes_spec b : reverseBytes b = Ok (reverse b).
Proof.
  unfold reverseBytes. set (n := length b). rewrite Z.quot_div_nonneg by lia.
  change 2 with (Z.of_nat 2). rewrite <-Nat2Z.inj_div, Nat2Z.id.
  pose proof (Nat.div_mod_eq n 2) as Hn.
  edestruct (for_loop_inv (λ i b',
    length b' = n ∧
    ∀ k, (k < n)%nat → b' !! k =
      if decide (k < i ∨ n - 1 - k < i)%nat then b !! (n - 1 - k)%nat else b !! k)
    (n / 2) 1 0 (swapEnds (Z.of_nat n)) b) as (b' & Hb & Hlen & Hk).
  - split; [done|]. intros k _. rewrite decide_False by lia. done.
  - intros k b' Hk [Hlen Hb].
    replace (0 + Z.of_nat k * 1) with (Z.of_nat k) by lia. unfold swapEnds.
    replace (Z.of_nat n - 1 - Z.of_nat k) with (Z.of_nat (n - 1 - k)) by lia.
    assert (is_Some (b' !! k)) as [x Hx] by (apply lookup_lt_is_Some; lia).
    assert (is_Some (b' !! (n - 1 - k)%nat)) as [y Hy] by (apply lookup_lt_is_Some; lia).
    rewrite (index_lookup _ _ _ Hx). cbn [mbind res_bind].
    rewrite (index_lookup _ _ _ Hy). cbn [mbind res_bind].
    rewrite set_index_lt by lia. cbn [mbind res_bind].
    rewrite set_index_lt by (rewrite length_insert; lia).
    eexists; split; [done|]. split; [by rewrite !length_insert|].
    intros j Hj. rewrite Hb in Hx, Hy by lia.
    rewrite decide_False in Hx by lia. rewrite decide_False in Hy by lia.
    destruct (decide (j = n - 1 - k)%nat) as [->|Hj1].
    + rewrite list_lookup_insert_eq by (rewrite length_insert; lia).
      rewrite decide_True by lia. by replace (n - 1 - (n - 1 - k))%nat with k by lia.
    + rewrite list_lookup_insert_ne by done. destruct (decide (j = k)) as [->|Hj2].
      * rewrite list_lookup_insert_eq by lia. by rewrite decide_True by lia.
      * rewrite list_lookup_insert_ne, Hb by lia.
        by repeat case_decide; try lia.
  - rewrite Hb. f_equal. apply list_eq. intros k.
    destruct (decide (k < n)%nat).
    + rewrite Hk by done. rewrite reverse_lookup by (fold n; lia). fold n.
      replace (n - S k)%nat with (n - 1 - k)%nat by lia.
      case_decide as Hd; [done|]. pose proof (Nat.mod_upper_bound n 2).
      by replace (n - 1 - k)%nat with k by lia.
    + rewrite !lookup_ge_None_2; [done|rewrite length_reverse; fold n; lia|lia].
Qed.

Lemma bytesEqual_spec a b : bytesEqual a b = true ↔ a = b.
Proof.
  unfold bytesEqual. destruct (Nat.eqb_spec (length a) (length b)) as [Hl|Hl]; simpl.
  - revert b Hl; induction a as [|x a IH]; intros [|y b] Hl; simpl in *; try done.
    case_decide as Hxy; [subst; rewrite IH by lia|]; split; congruence.
  - split; [done|]. by intros ->.
Qed.

Lemma bitAt_out_of_range data padBits i :
  0 ≤ padBits → (length (padded_bits data padBits) ≤ i)%nat →
  bitAt data padBits (Z.of_nat i) = Panic.
Proof.
  intros Hp Hi. unfold padded_bits in Hi.
  rewrite length_app, length_replicate, length_bits_of in Hi.
  unfold bitAt. destruct (Z.ltb_spec (Z.of_nat i - padBits) 0); [lia|].
  rewrite Z.quot_div_nonneg by lia. unfold index.
  assert (Z.of_nat (length data) ≤ (Z.of_nat i - padBits) `div` 8).
  { apply Z.div_le_lower_bound; lia. }
  destruct (Z.leb_spec 0 ((Z.of_nat i - padBits) `div` 8)); [|done].
  rewrite lookup_ge_None_2 by lia. done.
Qed.

(** ** Properties *)

(** For every byte string and pad that make whole symbols, encoding
    succeeds and decoding the result gives the bytes back; no index panics. *)
Theorem base32_roundtrip data padBits :
  0 ≤ padBits → (padBits + Z.of_nat (length data) * 8) `mod` 5 = 0 →
  ∃ s, encodeBase32 data padBits = Ok s ∧ decodeBase32 s padBits = Ok data.
Proof.
  intros Hp Hm. destruct (encodeBase32_spec data padBits Hp Hm) as (s & He & Hb & Hl).
  exists s. split; [done|].
  pose proof (decodeBase32_spec s padBits) as Hd. rewrite Hb in Hd.
  destruct Hd as (out & -> & Hout); [lia| |].
  - rewrite Hl. replace (padBits + Z.of_nat (length data) * 8 - padBits)
      with (Z.of_nat (length data) * 8) by lia. apply Z.mod_mul. lia.
  - f_equal. apply bits_of_inj. rewrite Hout. unfold padded_bits.
    rewrite drop_app_length'; [done|by rewrite length_replicate].
Qed.

Theorem base32_roundtrip_witness :
  ∃ s, encodeBase32 [xff; x01; x80; x7f] 3 = Ok s ∧ decodeBase32 s 3 = Ok [xff; x01; x80; x7f].
Proof. apply base32_roundtrip; [lia|reflexivity]. Defined.

(** [decodeBase32] never panics on a pad no longer than its input: a
    misaligned length and a character outside the alphabet are the only
    errors, and otherwise the output is exactly the bits after the pad,
    whatever the pad bits are. *)
Theorem decodeBase32_cases s padBits :
  0 ≤ padBits ≤ Z.of_nat (String.length s) * 5 →
  let outBits := Z.of_nat (String.length s) * 5 - padBits in
  (outBits `mod` 8 ≠ 0 →
     decodeBase32 s padBits = Err (ErrString "nano: base32 length not byte-aligned")) ∧
  (outBits `mod` 8 = 0 → base32_bits s = None →
     decodeBase32 s padBits = Err (ErrString "nano: invalid base32 character")) ∧
  (outBits `mod` 8 = 0 → ∀ bs, base32_bits s = Some bs →
     ∃ out, decodeBase32 s padBits = Ok out ∧ bits_of out = drop (Z.to_nat padBits) bs).
Proof.
  intros Hp outBits. pose proof (decodeBase32_spec s padBits Hp) as Hd. fold outBits in Hd.
  split; [|split].
  - intros Hm. unfold decodeBase32. fold outBits. rewrite Z.rem_mod_nonneg by lia.
    destruct (Z.eqb_spec (outBits `mod` 8) 0); done.
  - intros Hm Hb. by rewrite Hb in Hd; apply Hd.
  - intros Hm bs Hb. by rewrite Hb in Hd; apply Hd.
Qed.

Theorem decodeBase32_cases_witness :
  decodeBase32 "1l" 2 = Err (ErrString "nano: invalid base32 character") ∧
  decodeBase32 "1l" 1 = Err (ErrString "nano: base32 length not byte-aligned") ∧
  ∃ out, decodeBase32 "zz" 2 = Ok out.
Proof.
  split; [|split].
  - apply (decodeBase32_cases "1l" 2); [split; discriminate|reflexivity|reflexivity].
  - apply (decodeBase32_cases "1l" 1); [split; discriminate|discriminate].
  - destruct (decodeBase32_cases "zz" 2) as (_ & _ & H); [split; discriminate|].
    destruct (H eq_refl _ eq_refl) as (out & ? & _). by exists out.
Defined.

(** The last, partial symbol of a misaligned input reads past the data. *)
Lemma encode_symbol_partial data padBits D R :
  0 ≤ padBits → padded_bits data padBits = D ++ R → (0 < length R < 5)%nat →
  for_loop 5 0 1 (λ k v,
    x ← bitAt data padBits (Z.of_nat (length D) + k); Ok (Z.lor (Z.shiftl v 1) x)) 0 = Panic.
Proof.
  intros Hp HL HR.
  assert (Hin : ∀ (k : nat) x, R !! k = Some x →
    bitAt data padBits (Z.of_nat (length D) + Z.of_nat k) = Ok (Z.b2z x)).
  { intros k x Hk. rewrite <-Nat2Z.inj_add. apply bitAt_lookup; [done|].
    rewrite HL, lookup_app_r by lia. by rewrite Nat.add_comm, Nat.add_sub. }
  assert (Hout : bitAt data padBits (Z.of_nat (length D) + Z.of_nat (length R)) = Panic).
  { rewrite <-Nat2Z.inj_add. apply bitAt_out_of_range; [done|]. rewrite HL, length_app. lia. }
  destruct R as [|a [|b [|c [|d [|]]]]]; simpl in HR; try lia;
    try pose proof (Hin 0%nat _ eq_refl) as H0; try pose proof (Hin 1%nat _ eq_refl) as H1;
    try pose proof (Hin 2%nat _ eq_refl) as H2; try pose proof (Hin 3%nat _ eq_refl) as H3;
    repeat match goal with H : context [Z.of_nat ?n] |- _ =>
      let v := eval vm_compute in (Z.of_nat n) in
      lazymatch v with Z0 => change (Z.of_nat n) with v in H
                     | Zpos _ => change (Z.of_nat n) with v in H end end;
    try loop_step H0; try loop_step H1; try loop_step H2; try loop_step H3;
    loop_step Hout; done.
Qed.

(** [encodeBase32] returns exactly when the padded length is a multiple of
    five bits, and panics on every other length: the precondition its two
    callers (52 and 8 symbols) establish. *)
Theorem encodeBase32_panics_iff data padBits :
  0 ≤ padBits →
  (encodeBase32 data padBits = Panic ↔
   (padBits + Z.of_nat (length data) * 8) `mod` 5 ≠ 0).
Proof.
  intros Hp. split.
  - intros H Hm. destruct (encodeBase32_spec data padBits Hp Hm) as (s & He & _). congruence.
  - intros Hm. unfold encodeBase32. set (total := padBits + Z.of_nat (length data) * 8) in *.
    destruct (total `quot` 5 <? 0); [done|].
    pose proof (Z.div_mod total 5 ltac:(lia)) as Hdm.
    pose proof (Z.mod_pos_bound total 5 ltac:(lia)) as Hmb.
    set (q := Z.to_nat (total `div` 5)).
    assert (Hq : Z.to_nat ((total + 4) `div` 5) = (q + 1)%nat).
    { replace ((total + 4) `div` 5) with (total `div` 5 + 1); [lia|].
      apply (Z.div_unique _ _ _ (total `mod` 5 - 1)); lia. }
    assert (Hlen : length (padded_bits data padBits) = Z.to_nat total).
    { unfold padded_bits. rewrite length_app, length_replicate, length_bits_of. lia. }
    set (L := padded_bits data padBits) in *.
    assert (HL : L = take (5 * q) L ++ drop (5 * q) L) by (by rewrite take_drop).
    rewrite Hq, for_loop_add.
    destruct (encode_loop data padBits q [] (take (5 * q) L) (drop (5 * q) L) [])
      as (syms & _ & _ & E); [done|done|rewrite length_take; lia|].
    change (Z.of_nat (length [])) with 0 in E. rewrite E. cbn [mbind res_bind].
    rewrite for_loop_S. unfold encodeStep at 2.
    replace (0 + Z.of_nat q * 5) with (Z.of_nat (length (take (5 * q) L)))
      by (rewrite length_take; lia).
    rewrite (encode_symbol_partial data padBits _ (drop (5 * q) L)); [done|done|done|].
    rewrite length_drop. lia.
Qed.

Theorem encodeBase32_panics_iff_witness : encodeBase32 [x00] 0 = Panic.
Proof. apply encodeBase32_panics_iff; [lia|discriminate]. Defined.
