(* ===== verification/Hash.v ===== *)
(** * BLAKE2b digests (internal/nano/hash.go)

    The digest function is golang.org/x/crypto/blake2b, outside this
    repository: it is the class [Blake2b], and the only fact used of it, the
    length of a digest, is the class [Blake2bLaws]. *)

From S2P Require Import Prelude.

Local Open Scope Z_scope.

(** [blake2b size data]: the unkeyed digest of [size] bytes of [data]. *)
Class Blake2b := blake2b : Z → list byte → list byte.

Class Blake2bLaws `{!Blake2b} : Prop := {
  blake2b_length size data : 1 ≤ size ≤ 64 → length (blake2b size data) = Z.to_nat size;
}.

Section hash.
Context {B2 : Blake2b}.

(** [blake2bSum]: a size outside 1..64 is a programmer error and panics; the
    parts are written one after the other. *)
Definition blake2bSum (size : Z) (parts : list (list byte)) : res (list byte) :=
  if ((size <? 1) || (64 <? size)) then Panic
  else Ok (blake2b size (concat parts)).

Definition blake2b256 (parts : list (list byte)) : res (list byte) := blake2bSum 32 parts.
Definition blake2b512 (parts : list (list byte)) : res (list byte) := blake2bSum 64 parts.

Lemma blake2bSum_ok size parts :
  1 ≤ size ≤ 64 → blake2bSum size parts = Ok (blake2b size (concat parts)).
Proof.
  intros Hs. unfold blake2bSum.
  destruct (Z.ltb_spec size 1), (Z.ltb_spec 64 size); simpl; done || lia.
Qed.
End hash.
