(* ===== verification/Blake2bRef.v ===== *)
(** * A concrete BLAKE2b (RFC 7693, unkeyed, messages up to 2^64 bytes)

    The relay imports BLAKE2b; the theorems hold for any digest function of
    the class [Blake2b].  This instance is what the witnesses evaluate, so
    that they run on real Nano addresses. *)

From S2P Require Import Prelude Hash.

Local Open Scope Z_scope.

Definition w64 : Z := 18446744073709551615. (* 2^64 - 1 *)
Definition add64 (x y : Z) : Z := Z.land (x + y) w64.
Definition rotr64 (x n : Z) : Z :=
  Z.lor (Z.shiftr x n) (Z.land (Z.shiftl x (64 - n)) w64).

Definition b2_iv : list Z :=
  [0x6a09e667f3bcc908; 0xbb67ae8584caa73b; 0x3c6ef372fe94f82b; 0xa54ff53a5f1d36f1;
   0x510e527fade682d1; 0x9b05688c2b3e6c1f; 0x1f83d9abfb41bd6b; 0x5be0cd19137e2179].

Definition b2_sigma : list (list nat) :=
  [[0;1;2;3;4;5;6;7;8;9;10;11;12;13;14;15]; [14;10;4;8;9;15;13;6;1;12;0;2;11;7;5;3];
   [11;8;12;0;5;2;15;13;10;14;3;6;7;1;9;4]; [7;9;3;1;13;12;11;14;2;6;5;10;4;0;15;8];
   [9;0;5;7;2;4;10;15;14;1;11;12;6;8;3;13]; [2;12;6;10;0;11;8;3;4;13;7;5;15;14;1;9];
   [12;5;1;15;14;13;4;10;0;7;6;3;9;2;8;11]; [13;11;7;14;12;1;3;9;5;0;15;4;8;6;2;10];
   [6;15;14;9;11;3;0;8;12;2;13;7;1;4;10;5]; [10;2;8;4;7;6;1;5;15;11;9;14;3;12;13;0]]%nat.

Definition get (v : list Z) (i : nat) : Z := default 0 (v !! i).

Definition b2_G (v : list Z) (a b c d : nat) (x y : Z) : list Z :=
  let va := add64 (add64 (get v a) (get v b)) x in
  let vd := rotr64 (Z.lxor (get v d) va) 32 in
  let vc := add64 (get v c) vd in
  let vb := rotr64 (Z.lxor (get v b) vc) 24 in
  let va := add64 (add64 va vb) y in
  let vd := rotr64 (Z.lxor vd va) 16 in
  let vc := add64 vc vd in
  let vb := rotr64 (Z.lxor vb vc) 63 in
  <[d := vd]> (<[c := vc]> (<[b := vb]> (<[a := va]> v))).

Definition b2_quads : list (nat * nat * nat * nat) :=
  [(0, 4, 8, 12); (1, 5, 9, 13); (2, 6, 10, 14); (3, 7, 11, 15);
   (0, 5, 10, 15); (1, 6, 11, 12); (2, 7, 8, 13); (3, 4, 9, 14)]%nat.

Definition b2_round (m : list Z) (v : list Z) (s : list nat) : list Z :=
  foldl (λ v '(i, (a, b, c, d)),
    b2_G v a b c d (get m (default 0%nat (s !! (2 * i)%nat)))
                   (get m (default 0%nat (s !! (2 * i + 1)%nat)))) v
    (zip (seq 0 8) b2_quads).

Definition b2_F (h m : list Z) (t : Z) (last : bool) : list Z :=
  let v := h ++ b2_iv in
  let v := <[12%nat := Z.lxor (get v 12) (Z.land t w64)]> v in
  let v := <[13%nat := Z.lxor (get v 13) (Z.shiftr t 64)]> v in
  let v := if last then <[14%nat := Z.lxor (get v 14) w64]> v else v in
  let v := foldl (b2_round m) v (b2_sigma ++ take 2 b2_sigma) in
  imap (λ i x, Z.lxor (Z.lxor x (get v i)) (get v (8 + i))) h.

Fixpoint le_word (l : list byte) : Z :=
  match l with [] => 0 | b :: l' => Z.lor (byte_to_Z b) (Z.shiftl (le_word l') 8) end.
Fixpoint words (n : nat) (l : list byte) : list Z :=
  match n with O => [] | S n' => le_word (take 8 l) :: words n' (drop 8 l) end.
Fixpoint le_bytes (n : nat) (w : Z) : list byte :=
  match n with O => [] | S n' => Z_to_byte w :: le_bytes n' (Z.shiftr w 8) end.

Fixpoint b2_blocks (fuel : nat) (h : list Z) (t : Z) (l : list byte) : list Z :=
  let blk := take 128 l in
  let pad := blk ++ replicate (128 - length blk) x00 in
  match fuel, drop 128 l with
  | S fuel', (_ :: _) as rest =>
      b2_blocks fuel' (b2_F h (words 16 pad) (t + 128) false) (t + 128) rest
  | _, _ => b2_F h (words 16 pad) (t + Z.of_nat (length blk)) true
  end.

#[export] Instance blake2b_ref : Blake2b := λ size data,
  let h := match b2_iv with
           | h0 :: hs => Z.lxor h0 (Z.lxor 0x01010000 size) :: hs
           | [] => []
           end in
  take (Z.to_nat size) (b2_blocks (length data) h 0 data ≫= le_bytes 8).

Lemma length_le_bytes n w : length (le_bytes n w) = n.
Proof. revert w; induction n as [|n IH]; intros w; simpl; auto. Qed.

Lemma length_b2_blocks fuel h t l : length (b2_blocks fuel h t l) = length h.
Proof.
  revert h t l; induction fuel as [|fuel IH]; intros h t l; cbn [b2_blocks].
  - apply length_imap.
  - destruct (drop 128 l); [apply length_imap|].
    rewrite IH. apply length_imap.
Qed.

#[export] Instance blake2b_ref_laws : Blake2bLaws.
Proof.
  split. intros size data Hs. unfold blake2b, blake2b_ref.
  rewrite length_take.
  assert (H : ∀ l, length (l ≫= le_bytes 8) = (8 * length l)%nat).
  { induction l as [|w l IH]; [done|].
    rewrite bind_cons, length_app, IH, length_le_bytes. simpl. lia. }
  rewrite H, length_b2_blocks. simpl. lia.
Qed.
