(* ===== verification/Account.v ===== *)
(** * Account addresses (internal/nano/account.go, lines 23-76)

    [Address] and [ParseAddress] on top of [Base32]: the round trip and the set
    of spellings that are accepted. *)

From S2P Require Import Prelude GoStd Base32 Hash Blake2bRef.

Local Open Scope Z_scope.

(** [type PublicKey [32]byte]. *)
Definition PublicKey : Type := vec byte 32.

Section account.
Context {B2 : Blake2b}.

(** [func (pk PublicKey) Address() string]. *)
Definition Address (pk : PublicKey) : res string :=
  account ← encodeBase32 (vec_to_list pk) 4;
  cs ← blake2bSum 5 [vec_to_list pk];
  cs ← reverseBytes cs;
  checksum ← encodeBase32 cs 0;
  Ok ("nano_" +:+ account +:+ checksum).

Definition ParseAddress (addr : string) : res PublicKey :=
  addr ← (if HasPrefix addr "nano_" then slice_from addr 5
          else if HasPrefix addr "xrb_" then slice_from addr 4
          else Err (ErrString "nano: address must start with nano_ or xrb_"));
  if negb (Z.of_nat (String.length addr) =? 60)
  then Err (ErrString "nano: address has wrong length")
  else
    lo ← slice addr 0 52;
    pub ← decodeBase32 lo 4;
    if negb (Z.of_nat (length pub) =? 32)
    then Err (ErrString "nano: decoded public key has wrong length")
    else
      hi ← slice_from addr 52;
      gotChecksum ← decodeBase32 hi 0;
      gotChecksum ← reverseBytes gotChecksum;
      want ← blake2bSum 5 [pub];
      if negb (bytesEqual gotChecksum want)
      then Err (ErrString "nano: invalid address checksum")
      else Ok (array_of 32 pub).
End account.

(** ** What an accepted address denotes *)

Section spec.
Context {B2 : Blake2b} {B2L : Blake2bLaws}.

(** A prefix, 52 symbols holding four pad bits and the key, and 8 symbols
    holding the reversed five-byte digest of the key. *)
Definition address_denotes (addr : string) (pk : PublicKey) : Prop :=
  ∃ prefix lo hi pad,
    (prefix = "nano_" ∨ prefix = "xrb_") ∧ addr = prefix +:+ lo +:+ hi ∧
    length pad = 4%nat ∧ base32_bits lo = Some (pad ++ bits_of (vec_to_list pk)) ∧
    base32_bits hi = Some (bits_of (reverse (blake2b 5 (vec_to_list pk)))).

Lemma base32_bits_length s bs : base32_bits s = Some bs → length bs = (5 * String.length s)%nat.
Proof. intros H%length_symbols_bits. by rewrite H, length_bytes_of. Qed.

Lemma length_digest5 (data : list byte) : length (blake2b 5 data) = 5%nat.
Proof. rewrite blake2b_length; lia. Qed.

Lemma string_length_app s1 s2 :
  String.length (s1 +:+ s2) = (String.length s1 + String.length s2)%nat.
Proof. by rewrite <-!length_bytes_of, bytes_of_append, length_app. Qed.

Lemma slice_app_l s1 s2 n :
  n = Z.of_nat (String.length s1) → slice (s1 +:+ s2) 0 n = Ok s1.
Proof.
  intros ->. rewrite slice_ok; [|lia|rewrite string_length_app; lia].
  rewrite Z.sub_0_r, Nat2Z.id, bytes_of_append, drop_0.
  rewrite take_app_length' by (symmetry; apply length_bytes_of). by rewrite string_of_bytes_of.
Qed.

Lemma slice_from_app_r s1 s2 n :
  n = Z.of_nat (String.length s1) → slice_from (s1 +:+ s2) n = Ok s2.
Proof. intros ->. apply slice_from_app. Qed.

(** The two halves of a 60-character body. *)
Lemma split_body body :
  String.length body = 60%nat →
  ∃ lo hi, body = lo +:+ hi ∧ String.length lo = 52%nat ∧ String.length hi = 8%nat.
Proof.
  intros H. exists (string_of (take 52 (bytes_of body))), (string_of (drop 52 (bytes_of body))).
  rewrite <-string_of_app, take_drop, string_of_bytes_of. split; [done|].
  rewrite !length_string_of, length_take, length_drop, length_bytes_of, H. done.
Qed.

Lemma Address_spec pk :
  ∃ lo hi, Address pk = Ok ("nano_" +:+ lo +:+ hi) ∧
    base32_bits lo = Some (replicate 4 false ++ bits_of (vec_to_list pk)) ∧
    base32_bits hi = Some (bits_of (reverse (blake2b 5 (vec_to_list pk)))).
Proof.
  destruct (encodeBase32_spec (vec_to_list pk) 4) as (lo & Hlo & Blo & _);
    [lia|by rewrite length_vec_to_list|].
  destruct (encodeBase32_spec (reverse (blake2b 5 (vec_to_list pk))) 0) as (hi & Hhi & Bhi & _);
    [lia|by rewrite length_reverse, length_digest5|].
  exists lo, hi. split; [|done]. unfold Address. rewrite Hlo. cbn [mbind res_bind].
  rewrite blake2bSum_ok by lia. cbn [mbind res_bind concat]. rewrite app_nil_r.
  rewrite reverseBytes_spec. cbn [mbind res_bind]. by rewrite Hhi.
Qed.

(** The part of [ParseAddress] after the prefix and the length test. *)
Lemma parse_body lo hi :
  String.length lo = 52%nat → String.length hi = 8%nat →
  ∀ pk,
  (lo' ← slice (lo +:+ hi) 0 52;
   pub ← decodeBase32 lo' 4;
   if negb (Z.of_nat (length pub) =? 32)
   then Err (ErrString "nano: decoded public key has wrong length")
   else
     hi' ← slice_from (lo +:+ hi) 52;
     gotChecksum ← decodeBase32 hi' 0;
     gotChecksum ← reverseBytes gotChecksum;
     want ← blake2bSum 5 [pub];
     if negb (bytesEqual gotChecksum want)
     then Err (ErrString "nano: invalid address checksum")
     else Ok (array_of 32 pub)) = Ok pk
  ↔ (∃ pad, length pad = 4%nat ∧ base32_bits lo = Some (pad ++ bits_of (vec_to_list pk)) ∧
     base32_bits hi = Some (bits_of (reverse (blake2b 5 (vec_to_list pk))))).
Proof.
  intros Hlo Hhi pk.
  rewrite slice_app_l, slice_from_app_r by (by rewrite Hlo). cbn [mbind res_bind].
  pose proof (decodeBase32_spec lo 4) as Dlo. pose proof (decodeBase32_spec hi 0) as Dhi.
  rewrite Hlo in Dlo. rewrite Hhi in Dhi.
  specialize (Dlo ltac:(lia) eq_refl). specialize (Dhi ltac:(lia) eq_refl).
  destruct (base32_bits lo) as [blo|] eqn:Elo;
    [|rewrite Dlo; split; [done|by intros (? & ? & ? & ?)]].
  destruct Dlo as (pub & -> & Hpub). cbn [mbind res_bind].
  pose proof (base32_bits_length _ _ Elo) as Lblo. rewrite Hlo in Lblo.
  assert (Lpub : length pub = 32%nat).
  { apply (f_equal length) in Hpub. rewrite length_bits_of, length_drop in Hpub. lia. }
  rewrite Lpub. change (negb (Z.of_nat 32 =? 32)) with false. cbv iota.
  destruct (base32_bits hi) as [bhi|] eqn:Ehi;
    [|rewrite Dhi; split; [done|by intros (? & ? & ? & ?)]].
  destruct Dhi as (ck & -> & Hck). cbn [mbind res_bind].
  rewrite reverseBytes_spec. cbn [mbind res_bind].
  rewrite blake2bSum_ok by lia. cbn [mbind res_bind concat]. rewrite app_nil_r.
  change (drop (Z.to_nat 0) bhi) with bhi in Hck. change (Z.to_nat 4) with 4%nat in Hpub.
  destruct (bytesEqual (reverse ck) (blake2b 5 pub)) eqn:Hck'; cbn [negb].
  - apply bytesEqual_spec in Hck'. split.
    + intros Heq. assert (pk = array_of 32 pub) as -> by congruence. exists (take 4 blo).
      rewrite array_of_to_list, Hpub, take_drop, <-Hck', reverse_involutive by done.
      rewrite length_take. split; [lia|]. split; [done|congruence].
    + intros (pad & Hpad & [= Eb] & [= Ec]). f_equal.
      rewrite Eb, drop_app_length' in Hpub by done.
      apply bits_of_inj in Hpub as ->. apply array_of_vec.
  - split; [done|]. intros (pad & Hpad & [= Eb] & [= Ec]). exfalso.
    rewrite Eb, drop_app_length' in Hpub by done. apply bits_of_inj in Hpub as ->.
    rewrite Ec in Hck. apply bits_of_inj in Hck as ->. rewrite reverse_involutive in Hck'.
    assert (bytesEqual (blake2b 5 (vec_to_list pk)) (blake2b 5 (vec_to_list pk)) = true)
      by (by apply bytesEqual_spec). congruence.
Qed.

(** The prefix dispatch: either prefix is stripped, anything else is refused. *)
Lemma strip_address addr (body : string) :
  (if HasPrefix addr "nano_" then slice_from addr 5
   else if HasPrefix addr "xrb_" then slice_from addr 4
   else Err (ErrString "nano: address must start with nano_ or xrb_")) = Ok body
  ↔ addr = "nano_" +:+ body ∨ addr = "xrb_" +:+ body.
Proof.
  destruct (HasPrefix addr "nano_") eqn:E1; [|destruct (HasPrefix addr "xrb_") eqn:E2].
  - apply HasPrefix_spec in E1 as [t ->]. rewrite slice_from_app_r by done.
    split; [intros [= ->]; by left|].
    intros [H|H]; [by apply (inj (String.app "nano_")) in H as ->|discriminate].
  - apply HasPrefix_spec in E2 as [t ->]. rewrite slice_from_app_r by done.
    split; [intros [= ->]; by right|].
    intros [H|H]; [discriminate|by apply (inj (String.app "xrb_")) in H as ->].
  - split; [done|]. intros [->| ->].
    + by rewrite HasPrefix_app in E1.
    + by rewrite HasPrefix_app in E2.
Qed.

Lemma ParseAddress_denotes addr pk : ParseAddress addr = Ok pk ↔ address_denotes addr pk.
Proof.
  unfold ParseAddress, address_denotes. split.
  - destruct (if HasPrefix addr "nano_" then _ else _) as [body|e|] eqn:Hs; [|done..].
    apply strip_address in Hs. cbn [mbind res_bind].
    destruct (Z.eqb_spec (Z.of_nat (String.length body)) 60) as [Hl|]; [|done]. cbn [negb].
    destruct (split_body body ltac:(lia)) as (lo & hi & -> & Hlo & Hhi).
    intros (pad & ? & ? & ?)%parse_body; [|done..].
    destruct Hs as [->| ->]; [exists "nano_", lo, hi, pad|exists "xrb_", lo, hi, pad];
      split_and!; auto.
  - intros (prefix & lo & hi & pad & Hp & -> & Hpad & Hlo & Hhi).
    assert (HL : String.length lo = 52%nat).
    { apply base32_bits_length in Hlo.
      rewrite length_app, length_bits_of, length_vec_to_list in Hlo. lia. }
    assert (HH : String.length hi = 8%nat).
    { apply base32_bits_length in Hhi.
      rewrite length_bits_of, length_reverse, length_digest5 in Hhi. lia. }
    rewrite (proj2 (strip_address (prefix +:+ lo +:+ hi) (lo +:+ hi)))
      by (destruct Hp as [->| ->]; auto).
    cbn [mbind res_bind]. rewrite string_length_app, HL, HH. cbn [negb Z.eqb].
    apply parse_body; eauto.
Qed.

Lemma Address_parses pk addr : Address pk = Ok addr → ParseAddress addr = Ok pk.
Proof.
  intros Ha. destruct (Address_spec pk) as (lo & hi & HA & Hlo & Hhi). rewrite Ha in HA.
  simplify_eq. apply ParseAddress_denotes. exists "nano_", lo, hi, (replicate 4 false). auto.
Qed.

(** C18: every public key has an address, and parsing it gives the key back:
    encoding never panics, and the checksum and the length tests of
    [ParseAddress] accept what [Address] produces. *)
Theorem ParseAddress_Address pk :
  ∃ addr, Address pk = Ok addr ∧ ParseAddress addr = Ok pk.
Proof.
  destruct (Address_spec pk) as (lo & hi & HA & _).
  eexists; split; [exact HA|]. by apply Address_parses.
Qed.

Lemma ParseAddress_total addr : ParseAddress addr ≠ Panic.
Proof.
  unfold ParseAddress.
  assert (Hs : (if HasPrefix addr "nano_" then slice_from addr 5
    else if HasPrefix addr "xrb_" then slice_from addr 4
    else Err (ErrString "nano: address must start with nano_ or xrb_")) ≠ Panic).
  { destruct (HasPrefix addr "nano_") eqn:E1; [|destruct (HasPrefix addr "xrb_") eqn:E2; [|done]].
    - apply HasPrefix_spec in E1 as [t ->]. by rewrite slice_from_app_r.
    - apply HasPrefix_spec in E2 as [t ->]. by rewrite slice_from_app_r. }
  destruct (if HasPrefix addr "nano_" then _ else _) as [body|e|]; [|done..].
  cbn [mbind res_bind].
  destruct (Z.eqb_spec (Z.of_nat (String.length body)) 60) as [Hl|]; [|done]. cbn [negb].
  destruct (split_body body ltac:(lia)) as (lo & hi & -> & Hlo & Hhi).
  rewrite slice_app_l, slice_from_app_r by (by rewrite Hlo). cbn [mbind res_bind].
  pose proof (decodeBase32_spec lo 4) as Dlo. pose proof (decodeBase32_spec hi 0) as Dhi.
  rewrite Hlo in Dlo. rewrite Hhi in Dhi.
  specialize (Dlo ltac:(lia) eq_refl). specialize (Dhi ltac:(lia) eq_refl).
  destruct (base32_bits lo); [destruct Dlo as (pub & -> & _)|by rewrite Dlo].
  cbn [mbind res_bind]. destruct (negb _); [done|].
  destruct (base32_bits hi); [destruct Dhi as (ck & -> & _)|by rewrite Dhi].
  cbn [mbind res_bind]. rewrite reverseBytes_spec, blake2bSum_ok by lia.
  cbn [mbind res_bind]. by case_match.
Qed.

(** No input makes [ParseAddress] panic: every slice and every table
    index it takes is in range. *)
Theorem ParseAddress_no_panic addr : ParseAddress addr ≠ Panic.
Proof. apply ParseAddress_total. Qed.

(** The first symbol of an address carries the four pad bits. *)
Lemma first_symbol (b : bool) pad c rest bits :
  length pad = 4%nat → base32_bits (String c rest) = Some (pad ++ b :: bits) →
  ∃ v, symbol_value (Ascii.byte_of_ascii c) = Some v ∧ quint v = pad ++ [b] ∧
       base32_bits rest = Some bits.
Proof.
  intros Hpad H. unfold base32_bits in H. rewrite bytes_of_cons in H. cbn [symbols_bits] in H.
  apply bind_Some in H as (v & Hv & (bs & Hbs & Heq)%bind_Some).
  exists v. split; [done|].
  assert (E : quint v ++ bs = (pad ++ [b]) ++ bits)
    by (rewrite <-app_assoc; simpl app at 3; congruence).
  apply app_inj_1 in E as [-> ->]; [done|]. rewrite length_app, Hpad. done.
Qed.
Lemma base32_bits_cons c rest v bits :
  symbol_value (Ascii.byte_of_ascii c) = Some v → base32_bits rest = Some bits →
  base32_bits (String c rest) = Some (quint v ++ bits).
Proof.
  intros Hv Hb. unfold base32_bits in *. rewrite bytes_of_cons. cbn [symbols_bits].
  rewrite Hv. cbn [mbind option_bind]. by rewrite Hb.
Qed.

Lemma quint_low v pad (b : bool) : length pad = 4%nat → quint v = pad ++ [b] → Z.testbit v 0 = b.
Proof. intros Hp H. destruct pad as [|? [|? [|? [|? []]]]]; try done. by injection H. Qed.

(** A string of 52 symbols starts with one. *)
Lemma symbols_uncons lo pad (bits : list bool) b :
  length pad = 4%nat → base32_bits lo = Some (pad ++ b :: bits) →
  ∃ c rest v, lo = String c rest ∧ symbol_value (Ascii.byte_of_ascii c) = Some v ∧
    Z.testbit v 0 = b ∧ base32_bits rest = Some bits.
Proof.
  intros Hp H. destruct lo as [|c rest].
  { injection H as H. by destruct pad. }
  destruct (first_symbol b pad c rest bits Hp H) as (v & Hv & Hq & Hr).
  exists c, rest, v. split_and!; eauto using quint_low.
Qed.

Lemma testbit0_mod2 v w : v `mod` 2 = w `mod` 2 ↔ Z.testbit v 0 = Z.testbit w 0.
Proof.
  rewrite <-!Z.bit0_mod. split; [|by intros ->].
  by destruct (Z.testbit v 0), (Z.testbit w 0).
Qed.

(** C17: the accepted spellings of an account are exactly those that differ
    from its canonical address in the prefix ([nano_] or [xrb_]) and in the
    four pad bits of the first symbol, which [decodeBase32] discards and the
    checksum does not cover: any first symbol of the same parity is accepted. *)
Theorem ParseAddress_spellings addr pk a :
  Address pk = Ok a →
  ParseAddress addr = Ok pk ↔
  ∃ prefix c c0 rest v v0,
    (prefix = "nano_" ∨ prefix = "xrb_") ∧
    addr = prefix +:+ String c rest ∧ a = "nano_" +:+ String c0 rest ∧
    symbol_value (Ascii.byte_of_ascii c) = Some v ∧
    symbol_value (Ascii.byte_of_ascii c0) = Some v0 ∧
    v `mod` 2 = v0 `mod` 2.
Proof.
  intros HA. rewrite ParseAddress_denotes.
  destruct (Address_spec pk) as (lo0 & hi0 & HA' & Hlo0 & Hhi0).
  rewrite HA in HA'. injection HA' as ->.
  destruct (bits_of (vec_to_list pk)) as [|b bits] eqn:Ebits.
  { apply (f_equal length) in Ebits. by rewrite length_bits_of, length_vec_to_list in Ebits. }
  destruct (symbols_uncons lo0 (replicate 4 false) bits b eq_refl Hlo0)
    as (c0 & rest0 & v0 & -> & Hv0 & Hb0 & Hr0).
  split.
  - intros (prefix & lo & hi & pad & Hp & -> & Hpad & Hlo & Hhi). rewrite Ebits in Hlo.
    destruct (symbols_uncons lo pad bits b Hpad Hlo) as (c & rest & v & -> & Hv & Hb & Hr).
    rewrite (base32_bits_inj _ _ _ Hhi Hhi0), (base32_bits_inj _ _ _ Hr Hr0).
    exists prefix, c, c0, (rest0 +:+ hi0), v, v0. split_and!; try done.
    apply testbit0_mod2. congruence.
  - intros (prefix & c & c0' & rest & v & v0' & Hp & -> & Ha & Hv & Hv0' & Hm).
    apply (inj (String.app "nano_")) in Ha.
    change (String c0 rest0 +:+ hi0) with (String c0 (rest0 +:+ hi0)) in Ha.
    injection Ha as <- <-. rewrite Hv0 in Hv0'. injection Hv0' as <-.
    exists prefix, (String c rest0), hi0, (take 4 (quint v)). split_and!; try done.
    rewrite (base32_bits_cons _ _ _ _ Hv Hr0), Ebits. f_equal.
    apply testbit0_mod2 in Hm. rewrite Hb0 in Hm. by rewrite <-Hm.
Qed.
End spec.

(** ** Witnesses, on the account of the zero seed used by the repository's tests *)

Definition zero_account : PublicKey :=
  array_of 32 (match hex.DecodeString
    "c008b814a7d269a1fa3c6528b19201a24d797912db9996ff02a1ff356e45552b" with
    Ok l => l | _ => [] end).

Definition zero_address : string :=
  "nano_3i1aq1cchnmbn9x5rsbap8b15akfh7wj7pwskuzi7ahz8oq6cobd99d4r3b7".

Lemma zero_address_eq : Address zero_account = Ok zero_address.
Proof. vm_compute. reflexivity. Qed.

Theorem ParseAddress_Address_witness :
  ∃ addr, Address zero_account = Ok addr ∧ ParseAddress addr = Ok zero_account.
Proof. apply ParseAddress_Address. Defined.

Theorem ParseAddress_no_panic_witness : ParseAddress "nano_1" ≠ Panic.
Proof. apply ParseAddress_no_panic. Defined.

(** Two spellings of the same account: a legacy one and one whose first symbol
    has non-zero pad bits. *)
Theorem ParseAddress_spellings_witness :
  ParseAddress "xrb_3i1aq1cchnmbn9x5rsbap8b15akfh7wj7pwskuzi7ahz8oq6cobd99d4r3b7"
    = Ok zero_account ∧
  ParseAddress "nano_zi1aq1cchnmbn9x5rsbap8b15akfh7wj7pwskuzi7ahz8oq6cobd99d4r3b7"
    = Ok zero_account.
Proof.
  split; apply (ParseAddress_spellings _ _ zero_address zero_address_eq).
  - exists "xrb_"; eexists _, _, _, _, _; split_and!; [by right|reflexivity..].
  - exists "nano_"; eexists _, _, _, _, _; split_and!; [by left|reflexivity..].
Defined.
