(* ===== verification/Edwards.v ===== *)
(** * The curve interface (filippo.io/edwards25519)

    The curve and scalar arithmetic is a library outside this repository: the
    class [Edwards25519] lists the functions internal/nano calls, and
    [Edwards25519Laws] the documented behaviour it relies on.  [toy25519] is a
    model of the laws (over the field with two elements) for the witnesses. *)

From S2P Require Import Prelude.

Class Edwards25519 := {
  Scalar : Type;
  Point : Type;
  SetBytesWithClamping : list byte → option Scalar; (* None: an error *)
  SetUniformBytes : list byte → option Scalar;
  SetCanonicalBytes : list byte → option Scalar;
  Scalar_Bytes : Scalar → list byte;
  MultiplyAdd : Scalar → Scalar → Scalar → Scalar; (* x * y + z *)
  ScalarBaseMult : Scalar → Point;
  ScalarMult : Scalar → Point → Point;
  Point_Add : Point → Point → Point;
  Point_Bytes : Point → list byte;
  Point_SetBytes : list byte → option Point;
  Point_Equal : Point → Point → Z;
}.

Class Edwards25519Laws {E : Edwards25519} : Prop := {
  (** Only a wrong length is an error of the two reducing setters. *)
  clamping_ok l : length l = 32 → is_Some (SetBytesWithClamping l);
  uniform_ok l : length l = 64 → is_Some (SetUniformBytes l);
  (** The encodings are 32 bytes long and are decoded back. *)
  scalar_bytes_length s : length (Scalar_Bytes s) = 32;
  scalar_bytes_canonical s : SetCanonicalBytes (Scalar_Bytes s) = Some s;
  point_bytes_length P : length (Point_Bytes P) = 32;
  point_bytes_set P : Point_SetBytes (Point_Bytes P) = Some P;
  (** [Equal] is 1 on equal points. *)
  point_equal_refl P : Point_Equal P P = 1%Z;
  (** [(k*a + r) B = r B + k (a B)]. *)
  base_mult_add k a r :
    ScalarBaseMult (MultiplyAdd k a r) =
    Point_Add (ScalarBaseMult r) (ScalarMult k (ScalarBaseMult a));
}.

(** ** A model of the laws *)

Definition toy_enc (b : bool) : list byte := (if b then x01 else x00) :: replicate 31 x00.
Definition toy_dec (l : list byte) : option bool :=
  if decide (l = toy_enc true) then Some true
  else if decide (l = toy_enc false) then Some false else None.
Definition toy_parity (n : nat) (l : list byte) : option bool :=
  if decide (length l = n) then Some (foldr (λ b, xorb (Z.odd (byte_to_Z b))) false l) else None.

Definition toy25519 : Edwards25519 := {|
  Scalar := bool; Point := bool;
  SetBytesWithClamping := toy_parity 32;
  SetUniformBytes := toy_parity 64;
  SetCanonicalBytes := toy_dec;
  Scalar_Bytes := toy_enc;
  MultiplyAdd x y z := xorb (andb x y) z;
  ScalarBaseMult s := s;
  ScalarMult := andb;
  Point_Add := xorb;
  Point_Bytes := toy_enc;
  Point_SetBytes := toy_dec;
  Point_Equal P Q := if Bool.eqb P Q then 1%Z else 0%Z;
|}.

Lemma toy25519_laws : @Edwards25519Laws toy25519.
Proof.
  split; simpl; try by intros [].
  - intros l H. unfold toy_parity. rewrite decide_True by done. eauto.
  - intros l H. unfold toy_parity. rewrite decide_True by done. eauto.
  - intros [] [] []; done.
Qed.
