(* ===== verification/Keys.v ===== *)
(** * Seeds and private keys (internal/nano/keys.go)

    [ParseSeed], [Hex], the derivation of an account's key from a seed and an
    index, and the clamped scalar. *)

From S2P Require Import Prelude GoStd Base32 Hash Blake2bRef Account Edwards.

Local Open Scope Z_scope.

(** [type PrivateKey [32]byte] and [type Seed [32]byte]. *)
Definition PrivateKey : Type := vec byte 32.
Definition Seed : Type := vec byte 32.

(** [NewSeed]: [rnd] is what [rand.Read] returns, its bytes or an error. *)
Definition NewSeed (rnd : list byte + error) : res Seed :=
  match rnd with
  | inr err => Err (ErrWrap "nano: generating seed" err)
  | inl bs => Ok (array_of 32 bs)
  end.

Definition ParseSeed (hexSeed : string) : res Seed :=
  match hex.DecodeString hexSeed with
  | Err err => Err (ErrWrap "nano: parsing seed" err)
  | Panic => Panic
  | Ok b =>
      if negb (Z.of_nat (length b) =? 32)
      then Err (ErrString "nano: seed must be 32 bytes (64 hex chars)")
      else Ok (array_of 32 b)
  end.

(** [func (s Seed) Hex() string]. *)
Definition Hex (s : Seed) : string := hex.EncodeToString (vec_to_list s).

(** [binary.BigEndian.PutUint32] of a 32-bit index. *)
Definition PutUint32 (index : Z) : list byte :=
  [Z_to_byte (Z.shiftr index 24); Z_to_byte (Z.shiftr index 16);
   Z_to_byte (Z.shiftr index 8); Z_to_byte index].

Section keys.
Context {B2 : Blake2b} {E : Edwards25519}.

Definition DeriveKey (s : Seed) (index : Z) : res PrivateKey :=
  h ← blake2b256 [vec_to_list s; PutUint32 index];
  Ok (array_of 32 h).

(** The clamped secret scalar and the nonce prefix. *)
Definition expandedScalar (pk : PrivateKey) : res (Scalar * list byte) :=
  h ← blake2b512 [vec_to_list pk];
  match SetBytesWithClamping (take 32 h) with
  | None => Panic
  | Some scalar => Ok (scalar, drop 32 h)
  end.

Definition Public (pk : PrivateKey) : res PublicKey :=
  sp ← expandedScalar pk;
  Ok (array_of 32 (Point_Bytes (ScalarBaseMult sp.1))).

(** [func (pk PrivateKey) Address() string]. *)
Definition PrivateKey_Address (pk : PrivateKey) : res string :=
  pub ← Public pk; Address pub.
End keys.

(** ** Lemmas *)

Section laws.
Context {B2 : Blake2b} {B2L : Blake2bLaws} {E : Edwards25519} {EL : Edwards25519Laws}.

Lemma expandedScalar_ok pk :
  ∃ a prefix, expandedScalar pk = Ok (a, prefix) ∧
    Public pk = Ok (array_of 32 (Point_Bytes (ScalarBaseMult a))).
Proof.
  unfold Public, expandedScalar, blake2b512.
  rewrite blake2bSum_ok by lia. cbn [mbind res_bind].
  set (h := blake2b 64 _).
  assert (Hh : length (take 32 h) = 32%nat).
  { rewrite length_take. unfold h. rewrite blake2b_length by lia. done. }
  destruct (clamping_ok _ Hh) as [a ->]. cbn [mbind res_bind fst]. eauto.
Qed.

Lemma PutUint32_inj i j :
  0 ≤ i < 2 ^ 32 → 0 ≤ j < 2 ^ 32 → PutUint32 i = PutUint32 j → i = j.
Proof.
  intros Hi Hj H. unfold PutUint32 in H. injection H as H3 H2 H1 H0.
  apply (f_equal byte_to_Z) in H0, H1, H2, H3. rewrite !byte_to_Z_to_byte in *.
  rewrite !Z.shiftr_div_pow2 in * by lia.
  change (2 ^ 24) with 16777216 in *. change (2 ^ 16) with 65536 in *.
  change (2 ^ 8) with 256 in *. change (2 ^ 32) with 4294967296 in *.
  Z.div_mod_to_equations. lia.
Qed.
End laws.

(** ** Properties *)

(** A seed printed by [Hex] parses back to itself, and [ParseSeed] accepts
    exactly the strings of 64 hex digits (of either case), never panicking. *)
Theorem ParseSeed_spec :
  (∀ s, ParseSeed (Hex s) = Ok s) ∧
  (∀ h s, ParseSeed h = Ok s →
     String.length h = 64%nat ∧ hex.DecodeString h = Ok (vec_to_list s)) ∧
  (∀ h, ParseSeed h ≠ Panic).
Proof.
  split; [|split].
  - intros s. unfold ParseSeed, Hex. rewrite hex.DecodeString_EncodeToString.
    rewrite length_vec_to_list. change (negb (Z.of_nat 32 =? 32)) with false. cbv iota.
    f_equal. apply array_of_vec.
  - intros h s. unfold ParseSeed.
    destruct (hex.DecodeString h) as [b|e|] eqn:Ed; [|done..].
    destruct (Z.eqb_spec (Z.of_nat (length b)) 32) as [Hl|]; [|done]. cbn [negb].
    intros Heq. assert (s = array_of 32 b) as -> by congruence.
    rewrite array_of_to_list by lia. split; [|done].
    apply hex.decode_length in Ed. rewrite length_bytes_of in Ed. lia.
  - intros h. unfold ParseSeed. pose proof (hex.decode_no_panic (bytes_of h)) as Hp.
    unfold hex.DecodeString. destruct (hex.decode (bytes_of h)); [|done..].
    by destruct (negb _).
Qed.

(** Two derivations that give the same private key come from the same seed
    and index, unless the two 36-byte inputs are a BLAKE2b collision: the
    big-endian index loses nothing over the 32-bit range. *)
Theorem DeriveKey_injective {B2 : Blake2b} {B2L : Blake2bLaws} s1 i1 s2 i2 k :
  0 ≤ i1 < 2 ^ 32 → 0 ≤ i2 < 2 ^ 32 →
  DeriveKey s1 i1 = Ok k → DeriveKey s2 i2 = Ok k →
  (s1 = s2 ∧ i1 = i2) ∨
  (let x := vec_to_list s1 ++ PutUint32 i1 in
   let y := vec_to_list s2 ++ PutUint32 i2 in
   x ≠ y ∧ blake2b 32 x = blake2b 32 y).
Proof.
  intros Hi1 Hi2 H1 H2. cbv zeta.
  destruct (decide (vec_to_list s1 ++ PutUint32 i1 = vec_to_list s2 ++ PutUint32 i2))
    as [Heq|Hne]; [left|right; split; [done|]].
  - apply app_inj_1 in Heq as [Hs Hi]; [|by rewrite !length_vec_to_list].
    split; [by apply vec_to_list_inj2|by apply PutUint32_inj].
  - unfold DeriveKey, blake2b256 in H1, H2.
    rewrite blake2bSum_ok in H1, H2 by lia. cbn [mbind res_bind concat] in H1, H2.
    rewrite app_nil_r in H1, H2.
    rewrite <-(array_of_to_list 32 (blake2b 32 (vec_to_list s1 ++ _)))
      by (rewrite blake2b_length; lia).
    rewrite <-(array_of_to_list 32 (blake2b 32 (vec_to_list s2 ++ _)))
      by (rewrite blake2b_length; lia).
    congruence.
Qed.

Definition zero_seed : Seed := array_of 32 [].

Theorem DeriveKey_injective_witness :
  ∃ k, DeriveKey zero_seed 7 = Ok k ∧
  ((zero_seed = zero_seed ∧ 7 = 7) ∨
   (let x := vec_to_list zero_seed ++ PutUint32 7 in x ≠ x ∧ blake2b 32 x = blake2b 32 x)).
Proof.
  eexists. split; [reflexivity|].
  eapply (DeriveKey_injective zero_seed 7 zero_seed 7); [lia|lia|reflexivity|reflexivity].
Defined.
