(* ===== verification/Sign.v ===== *)
(** * Signatures and enrollment challenges (internal/nano/sign.go, auth.go)

    ed25519 with BLAKE2b over the curve's interface; that a challenge signed
    with a key verifies under its public key, and what a digest binds. *)

From S2P Require Import Prelude GoStd Base32 Hash Blake2bRef Account Edwards Keys.

Local Open Scope Z_scope.

(** [type Signature [64]byte]. *)
Definition Signature : Type := vec byte 64.

(** A value or the explicit panic of the error branch. *)
Definition or_panic {A} (o : option A) : res A :=
  match o with Some x => Ok x | None => Panic end.

Section sign.
Context {B2 : Blake2b} {E : Edwards25519}.

Definition Sign (pk : PrivateKey) (msg : list byte) : res Signature :=
  ap ← expandedScalar pk;
  let '(a, prefix) := ap in
  let pub := Point_Bytes (ScalarBaseMult a) in
  hr ← blake2b512 [prefix; msg];
  r ← or_panic (SetUniformBytes hr);
  let Rb := Point_Bytes (ScalarBaseMult r) in
  hk ← blake2b512 [Rb; pub; msg];
  k ← or_panic (SetUniformBytes hk);
  let Sc := MultiplyAdd k a r in
  (* copy(sig[:32], Rb); copy(sig[32:], S.Bytes()) *)
  Ok (array_of 64 (vec_to_list (array_of 32 Rb) ++ vec_to_list (array_of 32 (Scalar_Bytes Sc)))).

Definition Verify (pub : PublicKey) (msg : list byte) (sig : Signature) : res bool :=
  match Point_SetBytes (vec_to_list pub) with
  | None => Ok false
  | Some A =>
      match Point_SetBytes (take 32 (vec_to_list sig)) with
      | None => Ok false
      | Some R =>
          match SetCanonicalBytes (drop 32 (vec_to_list sig)) with
          | None => Ok false
          | Some Sc =>
              hk ← blake2b512 [take 32 (vec_to_list sig); vec_to_list pub; msg];
              match SetUniformBytes hk with
              | None => Ok false
              | Some k =>
                  let sB := ScalarBaseMult Sc in
                  let kA := ScalarMult k A in
                  let expected := Point_Add R kA in
                  Ok (Point_Equal sB expected =? 1)
              end
          end
      end
  end.

(** ** auth.go *)

Definition authDomain : list byte := bytes_of "nora-auth-v1".

Definition AuthChallengeDigest (nonce : list byte) (account : PublicKey) : res (list byte) :=
  blake2b256 [authDomain; nonce; vec_to_list account].

Definition SignChallenge (pk : PrivateKey) (nonce : list byte) : res Signature :=
  pub ← Public pk;
  d ← AuthChallengeDigest nonce pub;
  Sign pk d.

Definition VerifyChallenge (account : PublicKey) (nonce : list byte) (sig : Signature) : res bool :=
  d ← AuthChallengeDigest nonce account;
  Verify account d sig.

Definition PolicySyncKey (pk : PrivateKey) : res (list byte) :=
  blake2b256 [bytes_of "nora-policy-sync-v1"; vec_to_list pk].
End sign.

(** ** Lemmas *)

Section laws.
Context {B2 : Blake2b} {B2L : Blake2bLaws} {E : Edwards25519} {EL : Edwards25519Laws}.

Lemma blake2b512_uniform parts :
  ∃ h k, blake2b512 parts = Ok h ∧ SetUniformBytes h = Some k.
Proof.
  unfold blake2b512. rewrite blake2bSum_ok by lia.
  destruct (uniform_ok (blake2b 64 (concat parts))) as [k Hk]; [by rewrite blake2b_length|].
  eauto.
Qed.

(** A signature verifies under the public key of its private key. *)
Lemma Sign_Verify pk msg :
  ∃ pub sig, Public pk = Ok pub ∧ Sign pk msg = Ok sig ∧ Verify pub msg sig = Ok true.
Proof.
  destruct (expandedScalar_ok pk) as (a & prefix & Ha & Hpub).
  unfold Sign. rewrite Ha. cbn [mbind res_bind].
  destruct (blake2b512_uniform [prefix; msg]) as (hr & r & -> & Hr).
  cbn [mbind res_bind]. rewrite Hr. cbn [or_panic mbind res_bind].
  destruct (blake2b512_uniform [Point_Bytes (ScalarBaseMult r);
    Point_Bytes (ScalarBaseMult a); msg]) as (hk & k & Hhk & Hk).
  rewrite Hhk. cbn [mbind res_bind]. rewrite Hk. cbn [or_panic mbind res_bind].
  eexists _, _. split; [exact Hpub|split; [reflexivity|]].
  unfold Verify.
  rewrite (array_of_to_list 64) by (rewrite length_app, !length_vec_to_list; done).
  rewrite !(array_of_to_list 32) by (apply point_bytes_length || apply scalar_bytes_length).
  rewrite take_app_length', drop_app_length' by (by rewrite point_bytes_length).
  rewrite !point_bytes_set, scalar_bytes_canonical, Hhk. cbn [mbind res_bind]. rewrite Hk.
  by rewrite base_mult_add, point_equal_refl.
Qed.

Lemma AuthChallengeDigest_eq nonce account :
  AuthChallengeDigest nonce account = Ok (blake2b 32 (authDomain ++ nonce ++ vec_to_list account)).
Proof.
  unfold AuthChallengeDigest, blake2b256. rewrite blake2bSum_ok by lia.
  cbn [concat]. by rewrite app_nil_r.
Qed.

Lemma VerifyChallenge_total account nonce sig : ∃ b, VerifyChallenge account nonce sig = Ok b.
Proof.
  unfold VerifyChallenge. rewrite AuthChallengeDigest_eq. cbn [mbind res_bind].
  unfold Verify. repeat case_match; eauto.
  destruct (blake2b512_uniform [take 32 (vec_to_list sig); vec_to_list account;
    blake2b 32 (authDomain ++ nonce ++ vec_to_list account)]) as (h & k & -> & Hk).
  cbn [mbind res_bind]. rewrite Hk. eauto.
Qed.

Lemma SignChallenge_accepted pk nonce :
  ∃ pub sig, Public pk = Ok pub ∧ SignChallenge pk nonce = Ok sig ∧
             VerifyChallenge pub nonce sig = Ok true.
Proof.
  destruct (Public pk) as [pub|e|] eqn:Hpub;
    [|exfalso; destruct (expandedScalar_ok pk) as (? & ? & ? & ?); congruence..].
  destruct (Sign_Verify pk (blake2b 32 (authDomain ++ nonce ++ vec_to_list pub)))
    as (pub' & sig & Hpub' & Hs & Hv).
  assert (pub' = pub) as -> by congruence.
  exists pub, sig. split; [done|].
  unfold SignChallenge, VerifyChallenge. rewrite Hpub. cbn [mbind res_bind].
  rewrite AuthChallengeDigest_eq. cbn [mbind res_bind]. auto.
Qed.

(** ** Properties *)

(** The owner of a private key can always prove control of its account:
    [SignChallenge] never panics and [VerifyChallenge] accepts its signature
    for that account and nonce. *)
Theorem challenge_complete pk nonce :
  ∃ pub sig, Public pk = Ok pub ∧ SignChallenge pk nonce = Ok sig ∧
             VerifyChallenge pub nonce sig = Ok true.
Proof. apply SignChallenge_accepted. Qed.

(** A challenge digest binds both the nonce and the account, whatever the
    nonce's length: equal digests come from the same nonce and account, or the
    two preimages are a BLAKE2b collision. *)
Theorem challenge_binding n1 a1 n2 a2 d :
  AuthChallengeDigest n1 a1 = Ok d → AuthChallengeDigest n2 a2 = Ok d →
  (n1 = n2 ∧ a1 = a2) ∨
  (let x := authDomain ++ n1 ++ vec_to_list a1 in
   let y := authDomain ++ n2 ++ vec_to_list a2 in
   x ≠ y ∧ blake2b 32 x = blake2b 32 y).
Proof.
  rewrite !AuthChallengeDigest_eq. intros H1 H2. cbv zeta.
  destruct (decide (n1 ++ vec_to_list a1 = n2 ++ vec_to_list a2)) as [Heq|Hne].
  - left. apply app_inj_2 in Heq as [-> Ha]; [|by rewrite !length_vec_to_list].
    split; [done|by apply vec_to_list_inj2].
  - right. split; [|congruence]. intros Heq. by apply app_inv_head in Heq.
Qed.

(** The two domains are disjoint: the digest signed at enrollment never
    equals a policy encryption key, unless their preimages, which always
    differ, are a BLAKE2b collision. *)
Theorem auth_policy_domains nonce account pk d :
  AuthChallengeDigest nonce account = Ok d → PolicySyncKey pk = Ok d →
  let x := authDomain ++ nonce ++ vec_to_list account in
  let y := bytes_of "nora-policy-sync-v1" ++ vec_to_list pk in
  x ≠ y ∧ blake2b 32 x = blake2b 32 y.
Proof.
  rewrite AuthChallengeDigest_eq. unfold PolicySyncKey, blake2b256.
  rewrite blake2bSum_ok by lia. cbn [concat]. rewrite app_nil_r.
  intros H1 H2. split; [|congruence].
  intros Heq. apply (f_equal (take 12)) in Heq.
  rewrite take_app_length' in Heq by done. rewrite take_app_le in Heq by (simpl; lia).
  discriminate Heq.
Qed.
End laws.

(** ** Witnesses *)

Theorem challenge_complete_witness :
  ∃ pub sig, @Public _ toy25519 zero_seed = Ok pub ∧
    @SignChallenge _ toy25519 zero_seed (bytes_of "nonce") = Ok sig ∧
    @VerifyChallenge _ toy25519 pub (bytes_of "nonce") sig = Ok true.
Proof. apply (challenge_complete (EL := toy25519_laws)). Defined.

Theorem challenge_binding_witness :
  ∃ d, AuthChallengeDigest [x01] zero_account = Ok d ∧
  (([x01] = [x01] ∧ zero_account = zero_account) ∨
   (let x := authDomain ++ [x01] ++ vec_to_list zero_account in
    x ≠ x ∧ blake2b 32 x = blake2b 32 x)).
Proof.
  eexists. split; [reflexivity|].
  eapply (challenge_binding [x01] zero_account [x01] zero_account); reflexivity.
Defined.

(** A digest function that collides everywhere: it satisfies [Blake2bLaws], so
    the conclusion of [auth_policy_domains] is not an absurdity. *)
Definition constant_hash : Blake2b := λ size _, replicate (Z.to_nat size) x00.

Lemma constant_hash_laws : @Blake2bLaws constant_hash.
Proof. split. intros size data _. apply length_replicate. Qed.

Theorem auth_policy_domains_witness :
  let x := authDomain ++ [] ++ vec_to_list zero_account in
  let y := bytes_of "nora-policy-sync-v1" ++ vec_to_list zero_seed in
  x ≠ y ∧ @blake2b constant_hash 32 x = @blake2b constant_hash 32 y.
Proof.
  eapply (@auth_policy_domains constant_hash [] zero_account zero_seed);
    reflexivity.
Defined.
