(* ===== verification/BigRat.v ===== *)
(** * math/big: rationals as the relay's amounts use them

    [Rat.SetString] (with the number scanner [nat.scan] and [scanExponent] it
    calls), [Rat.Mul], [Rat.IsInt], [Rat.Sign], [Rat.SetFrac],
    [Rat.FloatString] and [Int.String].  A rational is kept in lowest terms
    with a positive denominator, as [Rat.norm] leaves it. *)

From S2P Require Import Prelude.

Local Open Scope Z_scope.

Record Rat := MkRat { rnum : Z; rden : Z }.

#[export] Instance Rat_eq_dec : EqDecision Rat.
Proof. solve_decision. Defined.

(** [Rat.norm], for a positive denominator. *)
Definition norm (n d : Z) : Rat := let g := Z.gcd n d in MkRat (n `div` g) (d `div` g).

Definition Rat_SetInt (n : Z) : Rat := MkRat n 1.
Definition Rat_Mul (x y : Rat) : Rat := norm (rnum x * rnum y) (rden x * rden y).
Definition Rat_IsInt (x : Rat) : bool := rden x =? 1.
Definition Rat_Sign (x : Rat) : Z := Z.sgn (rnum x).

(** ** Scanning *)

(** The previously seen character: a digit, a separator, anything else. *)
Inductive prev_char := PDot | PZero | PSep.

#[export] Instance prev_char_eq_dec : EqDecision prev_char.
Proof. solve_decision. Defined.

(** The digit value of a letter or a figure; large for anything else. *)
Definition digit_value (c : byte) : Z :=
  let z := byte_to_Z c in
  if ((48 <=? z) && (z <=? 57)) then z - 48
  else if ((97 <=? z) && (z <=? 122)) then z - 97 + 10
  else if ((65 <=? z) && (z <=? 90)) then z - 65 + 10
  else 63.

Record scan_state := MkScan {
  sc_z : Z; sc_count : Z; sc_dp : option Z; sc_prev : prev_char;
  sc_inval : bool; sc_fracOk : bool;
}.

(** The digit loop of [nat.scan] (base argument 0, so separators are read). *)
Fixpoint scan_digits (b : Z) (l : list byte) (st : scan_state) : scan_state * list byte :=
  match l with
  | [] => (st, [])
  | c :: l' =>
      if bool_decide (c = ch ".") && sc_fracOk st then
        scan_digits b l' (MkScan (sc_z st) (sc_count st) (Some (sc_count st)) PDot
          (sc_inval st || bool_decide (sc_prev st = PSep)) false)
      else if bool_decide (c = ch "_") then
        scan_digits b l' (MkScan (sc_z st) (sc_count st) (sc_dp st) PSep
          (sc_inval st || negb (bool_decide (sc_prev st = PZero))) (sc_fracOk st))
      else if b <=? digit_value c then (st, l)
      else
        scan_digits b l' (MkScan (sc_z st * b + digit_value c) (sc_count st + 1) (sc_dp st)
          PZero (sc_inval st) (sc_fracOk st))
  end.

(** The base prefix: the base, whether it is the lone octal "0", the digits
    already counted, the previous character and the rest of the input. *)
Definition scan_base (l : list byte) (fracOk : bool) :
    Z * bool * Z * prev_char * list byte :=
  match l with
  | c :: l1 =>
      if bool_decide (c = ch "0") then
        match l1 with
        | [] => (10, false, 1, PZero, [])
        | c2 :: l2 =>
            if bool_decide (c2 = ch "b" ∨ c2 = ch "B") then (2, false, 0, PZero, l2)
            else if bool_decide (c2 = ch "o" ∨ c2 = ch "O") then (8, false, 0, PZero, l2)
            else if bool_decide (c2 = ch "x" ∨ c2 = ch "X") then (16, false, 0, PZero, l2)
            else if fracOk then (10, false, 1, PZero, l1) else (8, true, 0, PZero, l1)
        end
      else (10, false, 0, PDot, l)
  | [] => (10, false, 0, PDot, l)
  end.

(** [nat.scan(r, 0, fracOk)]: value, base, count (the negated number of
    fractional digits when there is a point) and the unread input; [None] for
    a misplaced separator or no digits. *)
Definition nat_scan (l : list byte) (fracOk : bool) : option (Z * Z * Z * list byte) :=
  let '(b, octal0, count, prev, l1) := scan_base l fracOk in
  let '(st, rest) := scan_digits b l1 (MkScan 0 count None prev false fracOk) in
  if sc_inval st || bool_decide (sc_prev st = PSep) then None
  else if sc_count st =? 0 then (if octal0 then Some (0, 10, 1, rest) else None)
  else Some (sc_z st, b,
             match sc_dp st with Some dp => dp - sc_count st | None => sc_count st end, rest).

(** [scanSign]: the sign and the rest; [None] at the end of the input. *)
Definition scanSign (l : list byte) : option (bool * list byte) :=
  match l with
  | [] => None
  | c :: l' =>
      Some (if bool_decide (c = ch "-") then (true, l')
            else if bool_decide (c = ch "+") then (false, l')
            else (false, l))
  end.

(** The digits of an exponent: value, digits seen, previous, bad separator, rest. *)
Fixpoint exp_digits (l : list byte) (z : Z) (has : bool) (prev : prev_char) (inval : bool) :
    Z * bool * prev_char * bool * list byte :=
  match l with
  | c :: l' =>
      if (48 <=? byte_to_Z c) && (byte_to_Z c <=? 57) then
        exp_digits l' (z * 10 + (byte_to_Z c - 48)) true PZero inval
      else if bool_decide (c = ch "_") then
        exp_digits l' z has PSep (inval || negb (bool_decide (prev = PZero)))
      else (z, has, prev, inval, l)
  | [] => (z, has, prev, inval, [])
  end.

(** [scanExponent(r, true, true)]: exponent, its base and the rest. *)
Definition scanExponent (l : list byte) : option (Z * Z * list byte) :=
  let after base l1 :=
    let '(neg, l2) :=
      match l1 with
      | c :: l2 => if bool_decide (c = ch "-") then (true, l2)
                   else if bool_decide (c = ch "+") then (false, l2) else (false, l1)
      | [] => (false, l1)
      end in
    let '(z, has, prev, inval, rest) := exp_digits l2 0 false PDot false in
    let e := if (neg : bool) then - z else z in
    if negb has then None
    else if (e <? - 2 ^ 63) || (2 ^ 63 - 1 <? e) then None (* strconv.ParseInt *)
    else if inval || bool_decide (prev = PSep) then None
    else Some (e, base, rest) in
  match l with
  | [] => Some (0, 10, [])
  | c :: l1 =>
      if bool_decide (c = ch "e" ∨ c = ch "E") then after 10 l1
      else if bool_decide (c = ch "p" ∨ c = ch "P") then after 2 l1
      else Some (0, 10, l)
  end.

(** [strings.Index(s, "/")], as a split. *)
Fixpoint split_slash (l : list byte) : option (list byte * list byte) :=
  match l with
  | [] => None
  | c :: l' =>
      if bool_decide (c = ch "/") then Some ([], l')
      else p ← split_slash l'; Some (c :: p.1, p.2)
  end.

(** The fraction branch "a/b": a signed integer over an unsigned one. *)
Definition set_fraction (a b : list byte) : option Rat :=
  '(neg, a1) ← scanSign a;
  '(za, _, _, resta) ← nat_scan a1 false;
  guard (resta = []);;
  '(zb, _, _, restb) ← nat_scan b false;
  guard (restb = []);;
  guard (zb ≠ 0);;
  Some (norm (if neg : bool then - za else za) zb).

(** The powers of 2 and 5 of the scale, within the package's limits. *)
Definition scale (z exp2 exp5 : Z) : option Rat :=
  if 1000000 <? Z.abs exp5 then None
  else if (exp2 <? -10000000) || (10000000 <? exp2) then None
  else Some (norm (z * 5 ^ Z.max exp5 0 * 2 ^ Z.max exp2 0)
                  (5 ^ Z.max (- exp5) 0 * 2 ^ Z.max (- exp2) 0)).

Definition Rat_SetString (s : string) : option Rat :=
  let l := bytes_of s in
  match l with
  | [] => None
  | _ =>
    match split_slash l with
    | Some (a, b) => set_fraction a b
    | None =>
        '(neg, l1) ← scanSign l;
        '(za, base, fcount, l2) ← nat_scan l1 true;
        '(exp, ebase, l3) ← scanExponent l2;
        guard (l3 = []);;
        if za =? 0 then Some (MkRat 0 1)
        else
          let d := if fcount <? 0 then fcount else 0 in
          let exp5 := if base =? 10 then d else 0 in
          let exp2 := if base =? 8 then d * 3 else if base =? 16 then d * 4 else d in
          let exp5 := if ebase =? 10 then exp5 + exp else exp5 in
          let exp2 := exp2 + exp in
          r ← scale za exp2 exp5;
          Some (MkRat (if neg : bool then - rnum r else rnum r) (rden r))
    end
  end.

(** ** Printing *)

Definition digit_char (d : Z) : byte := Z_to_byte (48 + d).

(** [nat.utoa(10)]: decimal digits, most significant first, "0" for zero; the
    fuel bounds the number of digits. *)
Fixpoint utoa_go (fuel : nat) (n : Z) (acc : list byte) : list byte :=
  match fuel with
  | O => acc
  | S fuel' =>
      let acc' := digit_char (n `mod` 10) :: acc in
      if n <? 10 then acc' else utoa_go fuel' (n `div` 10) acc'
  end.
Definition utoa (n : Z) : list byte := utoa_go (S (Z.to_nat (Z.log2 n))) n [].

Definition Int_String (n : Z) : string :=
  string_of (if n <? 0 then ch "-" :: utoa (- n) else utoa n).

Definition Rat_SetFrac (a b : Z) : Rat := norm a b.

(** [Rat.FloatString(prec)] for a positive precision: [prec] decimals, the last
    one rounded half up. *)
Definition Rat_FloatString (x : Rat) (prec : nat) : string :=
  let sign := if rnum x <? 0 then [ch "-"] else [] in
  if Rat_IsInt x then
    string_of (sign ++ utoa (Z.abs (rnum x)) ++ ch "." :: replicate prec (ch "0"))
  else
    let p := 10 ^ Z.of_nat prec in
    let q := Z.abs (rnum x) `div` rden x in
    let r0 := Z.abs (rnum x) `mod` rden x * p in
    let r := r0 `div` rden x in
    let r2 := r0 `mod` rden x in
    let up := rden x <=? r2 + r2 in
    let r := if up then r + 1 else r in
    let '(q, r) := if up && (p <=? r) then (q + 1, r - p) else (q, r) in
    let rs := utoa r in
    string_of (sign ++ utoa q ++ ch "." :: replicate (prec - length rs) (ch "0") ++ rs).

(** ** Decimal digits *)

(** The value of a list of decimal digits, most significant first. *)
Definition dec_value (z : Z) (ds : list Z) : Z := foldl (λ z d, z * 10 + d) z ds.

Definition is_digit (d : Z) : Prop := 0 ≤ d < 10.

Lemma dec_value_app z ds1 ds2 : dec_value z (ds1 ++ ds2) = dec_value (dec_value z ds1) ds2.
Proof. apply foldl_app. Qed.

Lemma dec_value_shift z ds : dec_value z ds = z * 10 ^ Z.of_nat (length ds) + dec_value 0 ds.
Proof.
  revert z; induction ds as [|d ds IH]; intros z.
  - simpl. change (Z.of_nat 0) with 0. lia.
  - change (dec_value ?z (d :: ds)) with (dec_value (z * 10 + d) ds).
    rewrite (IH (z * 10 + d)), (IH (0 * 10 + d)). cbn [length].
    rewrite Nat2Z.inj_succ, Z.pow_succ_r by lia. lia.
Qed.

Lemma dec_value_zeros n : dec_value 0 (replicate n 0) = 0.
Proof. induction n; simpl; auto. Qed.

Lemma utoa_go_spec fuel n acc :
  0 ≤ n < 10 ^ Z.of_nat fuel → (0 < fuel)%nat →
  ∃ ds, utoa_go fuel n acc = (digit_char <$> ds) ++ acc ∧ ds ≠ [] ∧
    Forall is_digit ds ∧ dec_value 0 ds = n ∧
    (∀ k, (0 < k)%nat → n < 10 ^ Z.of_nat k → (length ds ≤ k)%nat).
Proof.
  revert n acc; induction fuel as [|fuel IH]; intros n acc Hn Hf; [lia|]. cbn [utoa_go].
  pose proof (Z.mod_pos_bound n 10 ltac:(lia)) as Hm.
  pose proof (Z.div_mod n 10 ltac:(lia)) as Hdm.
  destruct (Z.ltb_spec n 10).
  - exists [n `mod` 10]. rewrite Z.mod_small by lia.
    split; [done|split; [done|split; [by repeat constructor; lia|split; [done|]]]].
    intros k Hk _. simpl. lia.
  - assert (Hf' : (0 < fuel)%nat).
    { destruct fuel; [|lia]. change (10 ^ Z.of_nat 1) with 10 in Hn. lia. }
    destruct (IH (n `div` 10) (digit_char (n `mod` 10) :: acc)) as (ds & -> & Hne & Hd & Hv & Hk).
    { rewrite Nat2Z.inj_succ, Z.pow_succ_r in Hn by lia.
      split; [apply Z.div_pos; lia|apply Z.div_lt_upper_bound; lia]. }
    { done. }
    exists (ds ++ [n `mod` 10]). split_and!.
    + rewrite fmap_app, <-app_assoc. done.
    + by destruct ds.
    + apply Forall_app; split; [done|]. repeat constructor; lia.
    + rewrite dec_value_app, Hv. simpl. lia.
    + intros k Hk0 Hnk. rewrite length_app. simpl.
      destruct k as [|[|k]]; [lia|change (10 ^ Z.of_nat 1) with 10 in Hnk; lia|].
      assert (length ds ≤ S k)%nat; [|lia].
      apply Hk; [lia|]. rewrite Nat2Z.inj_succ, Z.pow_succ_r in Hnk by lia.
      apply Z.div_lt_upper_bound; lia.
Qed.

Lemma utoa_spec n :
  0 ≤ n →
  ∃ ds, utoa n = digit_char <$> ds ∧ ds ≠ [] ∧ Forall is_digit ds ∧ dec_value 0 ds = n ∧
    (∀ k, (0 < k)%nat → n < 10 ^ Z.of_nat k → (length ds ≤ k)%nat).
Proof.
  intros Hn. destruct (utoa_go_spec (S (Z.to_nat (Z.log2 n))) n []) as (ds & Hu & ?);
    [|lia|exists ds; unfold utoa; by rewrite Hu, app_nil_r].
  split; [done|]. rewrite Nat2Z.inj_succ, Z2Nat.id by apply Z.log2_nonneg.
  destruct (decide (n = 0)) as [->|]; [done|].
  pose proof (Z.log2_spec n ltac:(lia)) as [_ Hl].
  pose proof (Z.log2_nonneg n).
  pose proof (Z.pow_le_mono_l 2 10 (Z.succ (Z.log2 n)) ltac:(lia)). lia.
Qed.

(** ** Scanning digits *)

Lemma digit_char_scan d :
  is_digit d →
  digit_value (digit_char d) = d ∧ digit_char d ≠ ch "." ∧ digit_char d ≠ ch "_" ∧
  digit_char d ≠ ch "/" ∧ digit_char d ≠ ch "-" ∧ digit_char d ≠ ch "+" ∧
  digit_char d ≠ ch "b" ∧ digit_char d ≠ ch "B" ∧ digit_char d ≠ ch "o" ∧
  digit_char d ≠ ch "O" ∧ digit_char d ≠ ch "x" ∧ digit_char d ≠ ch "X" ∧
  (digit_char d = ch "0" ↔ d = 0).
Proof.
  intros [H1 H2].
  assert (H : d = 0 ∨ d = 1 ∨ d = 2 ∨ d = 3 ∨ d = 4 ∨ d = 5 ∨ d = 6 ∨ d = 7 ∨ d = 8 ∨ d = 9)
    by lia.
  repeat (destruct H as [->|H]; [split_and!; by vm_compute|]). subst. split_and!; by vm_compute.
Qed.

Lemma scan_digits_dec ds rest z count dp prev inval fracOk :
  Forall is_digit ds →
  scan_digits 10 ((digit_char <$> ds) ++ rest) (MkScan z count dp prev inval fracOk) =
  scan_digits 10 rest (MkScan (dec_value z ds) (count + Z.of_nat (length ds)) dp
    (if decide (ds = []) then prev else PZero) inval fracOk).
Proof.
  intros Hds. revert z count prev; induction Hds as [|d ds Hd Hds IH]; intros z count prev.
  - simpl. by rewrite Z.add_0_r.
  - destruct (digit_char_scan d Hd) as (Hv & Hdot & Hsep & _).
    cbn [fmap list_fmap app scan_digits sc_fracOk].
    rewrite (bool_decide_eq_false_2 _ Hdot), (bool_decide_eq_false_2 _ Hsep). cbn [andb].
    rewrite Hv.
    destruct (Z.leb_spec 10 d); [unfold is_digit in Hd; lia|].
    cbn [sc_z sc_count sc_dp sc_inval]. rewrite IH. cbn [length].
    replace (count + 1 + Z.of_nat (length ds)) with (count + Z.of_nat (S (length ds))) by lia.
    by destruct (decide (ds = [])).
Qed.

(** A leading zero of a decimal is counted, never taken for a base prefix. *)
Lemma scan_base_decimal ds l :
  Forall is_digit ds → ds ≠ [] →
  ∃ count prev ds',
    scan_base ((digit_char <$> ds) ++ ch "." :: l) true =
      (10, false, count, prev, (digit_char <$> ds') ++ ch "." :: l) ∧
    0 ≤ count ∧ Forall is_digit ds' ∧ dec_value 0 ds' = dec_value 0 ds ∧
    (if decide (ds' = []) then prev else PZero) = PZero.
Proof.
  intros Hds Hne. destruct ds as [|d ds]; [done|]. apply Forall_cons in Hds as [Hd Hds].
  destruct (decide (d = 0)) as [->|Hd0].
  - exists 1, PZero, ds. split; [|split_and!; [lia|done|done|by case_decide]].
    destruct ds as [|d1 ds]; [by vm_compute|].
    apply Forall_cons in Hds as [Hd1 _].
    destruct (digit_char_scan d1 Hd1)
      as (_ & _ & _ & _ & _ & _ & Hb & HB & Ho & HO & Hx & HX & _).
    cbn [fmap list_fmap app]. unfold scan_base. rewrite bool_decide_eq_true_2 by done.
    rewrite (bool_decide_eq_false_2 (_ = ch "b" ∨ _)) by tauto.
    rewrite (bool_decide_eq_false_2 (_ = ch "o" ∨ _)) by tauto.
    rewrite (bool_decide_eq_false_2 (_ = ch "x" ∨ _)) by tauto. done.
  - exists 0, PDot, (d :: ds).
    destruct (digit_char_scan d Hd) as (_ & _ & _ & _ & _ & _ & _ & _ & _ & _ & _ & _ & Hz).
    split; [|split_and!; [lia|by constructor|done|done]].
    cbn [fmap list_fmap app]. unfold scan_base.
    rewrite bool_decide_eq_false_2 by (by intros ?%Hz). done.
Qed.

(** A plain decimal number: digits, a point, digits. *)
Lemma nat_scan_decimal ds1 ds2 :
  Forall is_digit ds1 → Forall is_digit ds2 → ds1 ≠ [] → ds2 ≠ [] →
  nat_scan ((digit_char <$> ds1) ++ ch "." :: (digit_char <$> ds2)) true =
  Some (dec_value 0 ds1 * 10 ^ Z.of_nat (length ds2) + dec_value 0 ds2, 10,
        - Z.of_nat (length ds2), []).
Proof.
  intros H1 H2 N1 N2. unfold nat_scan.
  destruct (scan_base_decimal ds1 (digit_char <$> ds2) H1 N1)
    as (count & prev & ds' & -> & Hc & Hd' & Hv & Hp).
  rewrite scan_digits_dec, Hp by done.
  set (c := count + Z.of_nat (length ds')).
  cbn [scan_digits sc_fracOk]. rewrite bool_decide_eq_true_2 by done.
  cbn [andb sc_z sc_count sc_inval sc_prev]. rewrite bool_decide_eq_false_2 by done. cbn [orb].
  rewrite <-(app_nil_r (digit_char <$> ds2)), scan_digits_dec by done. cbn [scan_digits].
  rewrite decide_False by done. cbn [sc_inval sc_prev sc_count sc_dp sc_z orb].
  rewrite bool_decide_eq_false_2 by done.
  assert (0 < Z.of_nat (length ds2)) by (destruct ds2; simpl; [done|lia]).
  destruct (Z.eqb_spec (c + Z.of_nat (length ds2)) 0); [lia|].
  rewrite dec_value_shift, Hv. by replace (c - (c + Z.of_nat (length ds2)))
    with (- Z.of_nat (length ds2)) by lia.
Qed.

Lemma split_slash_None l : Forall (λ c, c ≠ ch "/") l → split_slash l = None.
Proof.
  induction 1 as [|c l Hc Hl IH]; [done|]. simpl.
  rewrite bool_decide_eq_false_2 by done. by rewrite IH.
Qed.

Lemma digit_chars_no_slash ds : Forall is_digit ds → Forall (λ c, c ≠ ch "/") (digit_char <$> ds).
Proof.
  induction 1 as [|d ds Hd Hds IH]; constructor; [|done].
  by destruct (digit_char_scan d Hd) as (_ & _ & _ & ? & _).
Qed.

(** [SetString] on a decimal with [n] places: the value over [10^n]. *)
Lemma SetString_decimal ds1 ds2 :
  Forall is_digit ds1 → Forall is_digit ds2 → ds1 ≠ [] → ds2 ≠ [] →
  (length ds2 ≤ 1000)%nat →
  Rat_SetString (string_of ((digit_char <$> ds1) ++ ch "." :: (digit_char <$> ds2))) =
  Some (norm (dec_value 0 ds1 * 10 ^ Z.of_nat (length ds2) + dec_value 0 ds2)
             (10 ^ Z.of_nat (length ds2))).
Proof.
  intros H1 H2 N1 N2 Hlen. unfold Rat_SetString. rewrite bytes_of_string_of.
  set (l := (digit_char <$> ds1) ++ ch "." :: (digit_char <$> ds2)).
  assert (Hsl : split_slash l = None).
  { apply split_slash_None, Forall_app; split; [by apply digit_chars_no_slash|].
    constructor; [done|by apply digit_chars_no_slash]. }
  assert (Hsg : scanSign l = Some (false, l)).
  { unfold l. destruct ds1 as [|d ds1]; [done|]. apply Forall_cons in H1 as [Hd _].
    destruct (digit_char_scan d Hd) as (_ & _ & _ & _ & Hm & Hp & _). simpl.
    by rewrite !bool_decide_eq_false_2 by done. }
  assert (Hne : l ≠ []) by (unfold l; by destruct ds1).
  pose proof (nat_scan_decimal ds1 ds2 H1 H2 N1 N2) as Hscan. fold l in Hscan.
  destruct l as [|c l'] eqn:El; [done|]. rewrite <-El in *. rewrite Hsl, Hsg.
  cbn [mbind option_bind]. rewrite Hscan. cbn [mbind option_bind scanExponent].
  rewrite option_guard_True by done.
  set (n := Z.of_nat (length ds2)) in *.
  set (v := dec_value 0 ds1 * 10 ^ n + dec_value 0 ds2).
  assert (Hn : 0 < n) by (unfold n; destruct ds2; simpl; [done|lia]).
  destruct (Z.eqb_spec v 0) as [Hv|Hv].
  - unfold norm. rewrite Hv, Z.gcd_0_l, Z.abs_eq by (apply Z.pow_nonneg; lia).
    rewrite Z.div_0_l, Z.div_same by (apply Z.pow_nonzero; lia). done.
  - destruct (Z.ltb_spec (- n) 0); [|lia].
    change (10 =? 10) with true. change (10 =? 8) with false. change (10 =? 16) with false.
    cbv iota. unfold scale.
    destruct (Z.ltb_spec 1000000 (Z.abs (- n + 0))); [lia|].
    destruct (Z.ltb_spec (- n + 0) (-10000000)), (Z.ltb_spec 10000000 (- n + 0)); try lia.
    cbn [orb mbind option_bind].
    replace (Z.max (- n + 0) 0) with 0 by lia. replace (Z.max (- (- n + 0)) 0) with n by lia.
    rewrite !Z.pow_0_r, !Z.mul_1_r, <-Z.pow_mul_l.
    change (5 * 2) with 10. by destruct (norm v (10 ^ n)).
Qed.
