(* ===== verification/Amount.v ===== *)
(** * Amounts (internal/nano/amount.go)

    [ParseNanoAmount] and [FormatNanoAmount] on [BigRat]'s rationals. *)

From S2P Require Import Prelude BigRat.

Local Open Scope Z_scope.

Definition RawPerNano : Z := 10 ^ 30.

Definition ParseNanoAmount (s : string) : res Z :=
  match Rat_SetString s with
  | None => Err (ErrString "nano: invalid decimal amount")
  | Some rat =>
      let rat := Rat_Mul rat (Rat_SetInt RawPerNano) in
      if negb (Rat_IsInt rat) then Err (ErrString "nano: amount has more precision than 1 raw")
      else if Rat_Sign rat <? 0 then Err (ErrString "nano: amount must not be negative")
      else Ok (rnum rat)
  end.

(** [raw] is [None] for a nil pointer. *)
Definition FormatNanoAmount (raw : option Z) : string :=
  match raw with
  | None => "0"
  | Some raw => Rat_FloatString (Rat_SetFrac raw RawPerNano) 30
  end.

(** ** Lemmas *)

(** A [guard] in a chain of option binds: it holds, or the chain is [None]. *)
Ltac guard_step :=
  match goal with
  | |- (guard ?P ≫= _) = _ → _ =>
      destruct (decide P);
      [rewrite (option_guard_True P) by assumption; cbn [mbind option_bind]
      |rewrite (option_guard_False P) by assumption; done]
  end.

Lemma gcd_pos n d : 0 < d → 0 < Z.gcd n d.
Proof.
  intros Hd. pose proof (Z.gcd_nonneg n d). assert (Hne : Z.gcd n d ≠ 0); [|lia].
  intros He. apply Z.gcd_eq_0_r in He. lia.
Qed.

(** The parts of a normalised fraction. *)
Lemma norm_parts n d :
  0 < d → ∃ g, 0 < g ∧ n = rnum (norm n d) * g ∧ d = rden (norm n d) * g ∧
               0 < rden (norm n d) ∧ Z.gcd (rnum (norm n d)) (rden (norm n d)) = 1.
Proof.
  intros Hd. exists (Z.gcd n d). pose proof (gcd_pos n d Hd) as Hg. simpl.
  destruct (Z.gcd_divide_l n d) as [a Ha]. destruct (Z.gcd_divide_r n d) as [b Hb].
  assert (Ea : n `div` Z.gcd n d = a) by (rewrite Ha at 1; apply Z.div_mul; lia).
  assert (Eb : d `div` Z.gcd n d = b) by (rewrite Hb at 1; apply Z.div_mul; lia).
  split_and!; [done|rewrite Ea; lia|rewrite Eb; lia|rewrite Eb; nia|].
  apply Z.gcd_div_gcd; [lia|done].
Qed.

Lemma norm_multiple k d : 0 < d → norm (k * d) d = MkRat k 1.
Proof.
  intros Hd. unfold norm. rewrite (Z.gcd_comm (k * d)), (Z.mul_comm k d), Z.gcd_mul_diag_l, (Z.mul_comm d k) by lia.
  rewrite Z.div_mul, Z.div_same by lia. done.
Qed.

Lemma norm_integral n d : 0 < d → rden (norm n d) = 1 → n = rnum (norm n d) * d.
Proof.
  intros Hd H1. destruct (norm_parts n d Hd) as (g & _ & Hn & Hd' & _). rewrite H1 in Hd'.
  rewrite Hn at 1. f_equal. lia.
Qed.

Lemma norm_den_pos n d : 0 < d → 0 < rden (norm n d).
Proof. intros Hd. by destruct (norm_parts n d Hd) as (g & ? & ? & ? & ? & ?). Qed.

Lemma scan_digits_nonneg b l st :
  0 ≤ b → 0 ≤ sc_z st → 0 ≤ sc_z (scan_digits b l st).1.
Proof.
  intros Hb. revert st; induction l as [|c l IH]; intros st Hz; [done|]. cbn [scan_digits].
  destruct (_ && _); [by apply IH|]. destruct (bool_decide _); [by apply IH|].
  destruct (_ <=? _); [done|]. apply IH. cbn [sc_z].
  assert (0 ≤ digit_value c); [|nia].
  unfold digit_value. pose proof (byte_to_Z_range c).
  repeat match goal with |- context [?x <=? ?y] => destruct (Z.leb_spec x y) end; simpl; lia.
Qed.

Lemma nat_scan_nonneg l fracOk z b count rest :
  nat_scan l fracOk = Some (z, b, count, rest) → 0 ≤ z.
Proof.
  unfold nat_scan. destruct (scan_base l fracOk) as [[[[b' o] c] p] l1] eqn:Eb.
  assert (Hb : 0 ≤ b').
  { unfold scan_base in Eb. destruct l as [|c1 [|c2 l2]];
      repeat case_match; simplify_eq; lia. }
  pose proof (scan_digits_nonneg b' l1 (MkScan 0 c None p false fracOk) Hb ltac:(done)) as Hz.
  destruct (scan_digits _ _ _) as [st r]. simpl in Hz.
  destruct (_ || _); [done|]. destruct (_ =? _); [destruct o; [|done]|]; intros; simplify_eq; lia.
Qed.

(** A parsed rational has a positive denominator. *)
Lemma SetString_den_pos s r : Rat_SetString s = Some r → 0 < rden r.
Proof.
  unfold Rat_SetString. destruct (bytes_of s) as [|c l]; [done|].
  destruct (split_slash _) as [[a b]|].
  - unfold set_fraction. destruct (scanSign a) as [[neg a1]|]; [|done].
    cbn [mbind option_bind]. destruct (nat_scan a1 false) as [[[[za ?] ?] resta]|]; [|done].
    cbn [mbind option_bind]. guard_step.
    destruct (nat_scan b false) as [[[[zb ?] ?] restb]|] eqn:Hb; [|done].
    cbn [mbind option_bind]. guard_step.
    guard_step. intros; simplify_eq.
    apply nat_scan_nonneg in Hb. apply norm_den_pos. lia.
  - destruct (scanSign _) as [[neg l1]|]; [|done]. cbn [mbind option_bind].
    destruct (nat_scan l1 true) as [[[[za base] fc] l2]|]; [|done]. cbn [mbind option_bind].
    destruct (scanExponent l2) as [[[e eb] l3]|]; [|done]. cbn [mbind option_bind].
    guard_step.
    destruct (za =? 0); [by intros; simplify_eq|].
    destruct (scale _ _ _) as [r'|] eqn:Hs; [|done]. cbn [mbind option_bind].
    intros; simplify_eq. cbn [rden].
    unfold scale in Hs. destruct (_ <? _); [done|]. destruct (_ || _); [done|]. simplify_eq.
    apply norm_den_pos. apply Z.mul_pos_pos; apply Z.pow_pos_nonneg; lia.
Qed.

(** Formatting writes the whole part and thirty decimals. *)
Lemma FormatNanoAmount_digits raw :
  0 ≤ raw →
  ∃ ds1 ds2, FormatNanoAmount (Some raw) =
      string_of ((digit_char <$> ds1) ++ ch "." :: (digit_char <$> ds2)) ∧
    Forall is_digit ds1 ∧ Forall is_digit ds2 ∧ ds1 ≠ [] ∧ length ds2 = 30%nat ∧
    dec_value 0 ds1 * RawPerNano + dec_value 0 ds2 = raw.
Proof.
  intros Hr. unfold FormatNanoAmount, Rat_FloatString, Rat_SetFrac, Rat_IsInt.
  assert (HP : 0 < RawPerNano) by (by vm_compute).
  destruct (norm_parts raw RawPerNano HP) as (g & Hg & Hn & Hd & Hden & _).
  set (a := rnum (norm raw RawPerNano)) in *. set (b := rden (norm raw RawPerNano)) in *.
  assert (Ha : 0 ≤ a) by nia.
  destruct (Z.ltb_spec a 0) as [|_]; [lia|]. rewrite (Z.abs_eq a) by done.
  destruct (Z.eqb_spec b 1) as [Hb1|Hb1].
  - destruct (utoa_spec a Ha) as (ds & -> & Hne & Hds & Hv & _).
    exists ds, (replicate 30 0). split_and!; try done.
    + by repeat constructor.
    + rewrite Hv, dec_value_zeros. rewrite Hb1 in Hd. nia.
  - change (10 ^ Z.of_nat 30) with RawPerNano. cbv zeta.
    assert (Hmul : a `mod` b * RawPerNano = a `mod` b * g * b) by nia.
    rewrite Hmul, Z.div_mul, Z.mod_mul by lia.
    destruct (Z.leb_spec b (0 + 0)) as [|_]; [lia|]. cbn [andb].
    pose proof (Z.mod_pos_bound a b ltac:(lia)) as Hm.
    pose proof (Z.div_mod a b ltac:(lia)) as Hdm.
    destruct (utoa_spec (a `div` b)) as (ds1 & -> & Hne1 & Hds1 & Hv1 & _);
      [apply Z.div_pos; lia|].
    destruct (utoa_spec (a `mod` b * g)) as (ds2 & -> & Hne2 & Hds2 & Hv2 & Hlen2); [nia|].
    assert (Hl2 : (length ds2 ≤ 30)%nat).
    { apply Hlen2; [lia|]. change (10 ^ Z.of_nat 30) with RawPerNano. nia. }
    exists ds1, (replicate (30 - length ds2) 0 ++ ds2). rewrite length_fmap. split_and!; try done.
    + by rewrite fmap_app, fmap_replicate.
    + apply Forall_app; split; [by apply Forall_replicate|done].
    + rewrite length_app, length_replicate. lia.
    + rewrite dec_value_app, dec_value_zeros, Hv1, Hv2. nia.
Qed.

(** ** Properties *)

(** Parsing what [FormatNanoAmount] prints gives the raw amount back, for
    every non-negative amount: no precision is lost at any magnitude. *)
Theorem ParseNanoAmount_Format raw :
  0 ≤ raw → ParseNanoAmount (FormatNanoAmount (Some raw)) = Ok raw.
Proof.
  intros Hr. destruct (FormatNanoAmount_digits raw Hr)
    as (ds1 & ds2 & -> & H1 & H2 & Hne & Hlen & Hv).
  unfold ParseNanoAmount. rewrite SetString_decimal; [|done|done|done|by destruct ds2|lia].
  rewrite Hlen. change (10 ^ Z.of_nat 30) with RawPerNano. rewrite Hv.
  assert (HP : 0 < RawPerNano) by (by vm_compute).
  destruct (norm_parts raw RawPerNano HP) as (g & Hg & Hn & Hd & Hden & _).
  unfold Rat_Mul, Rat_SetInt. cbn [rnum rden]. rewrite Z.mul_1_r.
  assert (rnum (norm raw RawPerNano) * RawPerNano = raw * rden (norm raw RawPerNano)) as -> by nia.
  rewrite norm_multiple by done. unfold Rat_Sign. cbn [rnum rden Rat_IsInt].
  change (1 =? 1) with true. cbn [negb]. destruct (Z.ltb_spec (Z.sgn raw) 0); [lia|done].
Qed.

Theorem ParseNanoAmount_Format_witness :
  ParseNanoAmount (FormatNanoAmount (Some 1234567)) = Ok 1234567.
Proof. apply ParseNanoAmount_Format. lia. Defined.

Lemma ParseNanoAmount_Ok s n :
  ParseNanoAmount s = Ok n ↔
  ∃ r, Rat_SetString s = Some r ∧ 0 ≤ n ∧ rnum r * RawPerNano = n * rden r.
Proof.
  unfold ParseNanoAmount, Rat_Mul, Rat_SetInt, Rat_IsInt, Rat_Sign. cbn [rnum rden]. split.
  - destruct (Rat_SetString s) as [r|] eqn:Er; [|done]. rewrite Z.mul_1_r.
    apply SetString_den_pos in Er as Hd.
    destruct (Z.eqb_spec (rden (norm (rnum r * RawPerNano) (rden r))) 1) as [H1|]; [|done].
    cbn [negb]. destruct (Z.ltb_spec (Z.sgn (rnum (norm (rnum r * RawPerNano) (rden r)))) 0); [done|].
    intros Hok. assert (rnum (norm (rnum r * RawPerNano) (rden r)) = n) as <- by congruence.
    exists r. split_and!; [done|lia|]. by apply norm_integral.
  - intros (r & Er & Hn & Heq). rewrite Er, Z.mul_1_r, Heq.
    rewrite norm_multiple by (by eapply SetString_den_pos). cbn [rnum rden].
    change (1 =? 1) with true. cbn [negb]. destruct (Z.ltb_spec (Z.sgn n) 0); [lia|done].
Qed.

(** C35: [ParseNanoAmount] is exact: it returns [n] precisely when the text is a
    rational [r] that math/big accepts, [n] is not negative, and [n] raw is
    [r] Nano with no rounding. *)
Theorem ParseNanoAmount_exact s n :
  ParseNanoAmount s = Ok n ↔
  ∃ r, Rat_SetString s = Some r ∧ 0 ≤ n ∧ rnum r * RawPerNano = n * rden r.
Proof. apply ParseNanoAmount_Ok. Qed.
