(* ===== verification/Sha256.v ===== *)
(** * SHA-256 (crypto/sha256) and [hashSecret] (cmd/relay/store.go)

    FIPS 180-4 on 32-bit words; the relay hashes API-key secrets with it and
    keeps only the hex of the digest. *)

From S2P Require Import Prelude GoStd.

Local Open Scope Z_scope.

Module sha256.

Definition w32 : Z := 4294967295. (* 2^32 - 1 *)
Definition add32 (x y : Z) : Z := Z.land (x + y) w32.
Definition rotr (n x : Z) : Z := Z.lor (Z.shiftr x n) (Z.land (Z.shiftl x (32 - n)) w32).
Definition not32 (x : Z) : Z := Z.lxor x w32.

(** The constants: the first 32 bits of the fractional parts of the cube (K)
    and square (H0) roots of the first primes. *)
Definition is_prime (n : Z) : bool :=
  forallb (λ d, negb (n mod (Z.of_nat d) =? 0)) (seq 2 (Z.to_nat (Z.sqrt n) - 1)).
Definition primes : list Z := filter (λ p, is_prime p = true) (Z.of_nat <$> seq 2 310).

(** The integer cube root below [2^n], bit by bit. *)
Fixpoint cbrt (n : nat) (acc x : Z) : Z :=
  match n with
  | O => acc
  | S n' => let t := acc + 2 ^ Z.of_nat n' in cbrt n' (if t * t * t <=? x then t else acc) x
  end.

Definition K : list Z := Eval vm_compute in
  (λ p, Z.land (cbrt 36 0 (p * 2 ^ 96)) w32) <$> take 64 primes.
Definition H0 : list Z := Eval vm_compute in
  (λ p, Z.land (Z.sqrt (p * 2 ^ 64)) w32) <$> take 8 primes.

Definition nth (l : list Z) (i : nat) : Z := default 0 (l !! i).

(** The schedule, most recent word first. *)
Fixpoint extend (n : nat) (w : list Z) : list Z :=
  match n with
  | O => w
  | S n' =>
      let s0 x := Z.lxor (Z.lxor (rotr 7 x) (rotr 18 x)) (Z.shiftr x 3) in
      let s1 x := Z.lxor (Z.lxor (rotr 17 x) (rotr 19 x)) (Z.shiftr x 10) in
      extend n' (add32 (add32 (s1 (nth w 1)) (nth w 6)) (add32 (s0 (nth w 14)) (nth w 15)) :: w)
  end.

Definition round (st : list Z) (kw : Z * Z) : list Z :=
  match st with
  | [a; b; c; d; e; f; g; h] =>
      let S1 := Z.lxor (Z.lxor (rotr 6 e) (rotr 11 e)) (rotr 25 e) in
      let cho := Z.lxor (Z.land e f) (Z.land (not32 e) g) in
      let t1 := add32 (add32 (add32 h S1) (add32 cho kw.1)) kw.2 in
      let S0 := Z.lxor (Z.lxor (rotr 2 a) (rotr 13 a)) (rotr 22 a) in
      let maj := Z.lxor (Z.lxor (Z.land a b) (Z.land a c)) (Z.land b c) in
      [add32 t1 (add32 S0 maj); a; b; c; add32 d t1; e; f; g]
  | _ => st
  end.

Definition block (hs w : list Z) : list Z :=
  zip_with add32 hs (foldl round hs (zip K (reverse (extend 48 (reverse w))))).

Fixpoint be_word (acc : Z) (l : list byte) : Z :=
  match l with [] => acc | b :: l' => be_word (acc * 256 + byte_to_Z b) l' end.
Fixpoint be_words (n : nat) (l : list byte) : list Z :=
  match n with O => [] | S n' => be_word 0 (take 4 l) :: be_words n' (drop 4 l) end.
Fixpoint be_bytes (n : nat) (w : Z) : list byte :=
  match n with O => [] | S n' => be_bytes n' (Z.shiftr w 8) ++ [Z_to_byte w] end.

Definition pad (l : list byte) : list byte :=
  l ++ x80 :: replicate (Z.to_nat ((55 - Z.of_nat (length l)) `mod` 64)) x00
    ++ be_bytes 8 (8 * Z.of_nat (length l)).

Fixpoint blocks (n : nat) (hs : list Z) (l : list byte) : list Z :=
  match n with O => hs | S n' => blocks n' (block hs (be_words 16 (take 64 l))) (drop 64 l) end.

Definition Sum256 (l : list byte) : list byte :=
  let p := pad l in blocks (length p / 64) H0 p ≫= be_bytes 4.

End sha256.

Definition hashSecret (s : string) : string :=
  let sum := sha256.Sum256 (bytes_of s) in
  hex.EncodeToString sum.
#[global] Arguments hashSecret : simpl never.

(** The published digests of "" and "abc". *)
Example hashSecret_empty :
  hashSecret "" = "e3b0c44298fc1c149afbf4c8996fb92427ae41e4649b934ca495991b7852b855".
Proof. by vm_compute. Qed.

Example hashSecret_abc :
  hashSecret "abc" = "ba7816bf8f01cfea414140de5dae2223b00361a396177a9cb410ff61f20015ad".
Proof. by vm_compute. Qed.

(** A message of two blocks. *)
Example hashSecret_two_blocks :
  hashSecret "abcdbcdecdefdefgefghfghighijhijkijkljklmklmnlmnomnopnopq" =
  "248d6a61d20638b8e5c026930c3e6039a33ce45964ff2167f6ecedd419db06c1".
Proof. by vm_compute. Qed.
