(* ===== verification/Utf8.v ===== *)
(** * UTF-8 (unicode/utf8)

    Decoding one rune, encoding it, [ValidString], and that they agree. *)

From S2P Require Import Prelude.

Local Open Scope Z_scope.

Definition byte_in (lo hi : Z) (b : byte) : bool := (lo <=? byte_to_Z b) && (byte_to_Z b <=? hi).
Definition cont (b : byte) : bool := byte_in 128 191 b.

(** [utf8.DecodeRune]: the rune and its size at the start of [l]; [None] where
    Go returns [(RuneError, 1)]. *)
Definition decode_rune (l : list byte) : option (Z * nat) :=
  let lo b := Z.land (byte_to_Z b) 63 in
  match l with
  | [] => None
  | b0 :: l1 =>
      if byte_to_Z b0 <? 128 then Some (byte_to_Z b0, 1%nat)
      else match l1 with
      | [] => None
      | b1 :: l2 =>
          if byte_in 194 223 b0 && cont b1
          then Some (Z.land (byte_to_Z b0) 31 * 64 + lo b1, 2%nat)
          else match l2 with
          | [] => None
          | b2 :: l3 =>
              if (byte_in 224 224 b0 && byte_in 160 191 b1 ||
                  byte_in 225 236 b0 && cont b1 ||
                  byte_in 237 237 b0 && byte_in 128 159 b1 ||
                  byte_in 238 239 b0 && cont b1) && cont b2
              then Some ((Z.land (byte_to_Z b0) 15 * 64 + lo b1) * 64 + lo b2, 3%nat)
              else match l3 with
              | [] => None
              | b3 :: _ =>
                  if (byte_in 240 240 b0 && byte_in 144 191 b1 ||
                      byte_in 241 243 b0 && cont b1 ||
                      byte_in 244 244 b0 && byte_in 128 143 b1) && cont b2 && cont b3
                  then Some (((Z.land (byte_to_Z b0) 7 * 64 + lo b1) * 64 + lo b2) * 64 + lo b3, 4%nat)
                  else None
              end
          end
      end
  end.

(** [utf8.AppendRune] of a code point. *)
Definition encode_rune (r : Z) : list byte :=
  if r <? 128 then [Z_to_byte r]
  else if r <? 2048 then [Z_to_byte (192 + r / 64); Z_to_byte (128 + r mod 64)]
  else if r <? 65536 then
    [Z_to_byte (224 + r / 4096); Z_to_byte (128 + r / 64 mod 64); Z_to_byte (128 + r mod 64)]
  else [Z_to_byte (240 + r / 262144); Z_to_byte (128 + r / 4096 mod 64);
        Z_to_byte (128 + r / 64 mod 64); Z_to_byte (128 + r mod 64)].

Definition RuneError : Z := 65533.

(** [utf8.Valid]. *)
Fixpoint valid_go (fuel : nat) (l : list byte) : bool :=
  match fuel, l with
  | _, [] => true
  | O, _ => false
  | S fuel', _ => match decode_rune l with
                  | Some (_, n) => valid_go fuel' (drop n l)
                  | None => false
                  end
  end.
Definition ValidString (s : string) : bool := valid_go (String.length s) (bytes_of s).

(** Every byte that is not part of a rune replaced by U+FFFD: what is left of a
    string that encoding/json has written and read. *)
Fixpoint replace_go (fuel : nat) (l : list byte) : list byte :=
  match fuel, l with
  | S fuel', _ :: l' => match decode_rune l with
                        | Some (_, n) => take n l ++ replace_go fuel' (drop n l)
                        | None => encode_rune RuneError ++ replace_go fuel' l'
                        end
  | _, _ => []
  end.
Definition replace_invalid (s : string) : string := string_of (replace_go (String.length s) (bytes_of s)).
#[global] Arguments replace_invalid : simpl never.

(** ** Lemmas *)

Lemma replace_go_valid g l : valid_go g l = true → replace_go g l = l.
Proof.
  revert l; induction g as [|g IH]; intros [|b l] Hv; try done. cbn [valid_go replace_go] in *.
  destruct (decode_rune (b :: l)) as [[r n]|]; [|done]. by rewrite IH, take_drop.
Qed.

Lemma replace_valid s : ValidString s = true → replace_invalid s = s.
Proof. intros Hv. unfold replace_invalid. by rewrite replace_go_valid, string_of_bytes_of. Qed.

Lemma replace_valids l : Forall (λ s, ValidString s = true) l → replace_invalid <$> l = l.
Proof. induction 1 as [|s l Hs _ IH]; [done|]. cbn. by rewrite replace_valid, IH. Qed.

Lemma decode_rune_size l r n : decode_rune l = Some (r, n) → (1 ≤ n ≤ 4)%nat ∧ (n ≤ length l)%nat.
Proof.
  unfold decode_rune. repeat case_match; intros; simplify_eq/=; lia.
Qed.

Lemma decode_rune_ascii b l : byte_to_Z b < 128 → decode_rune (b :: l) = Some (byte_to_Z b, 1%nat).
Proof. intros H. unfold decode_rune. by destruct (Z.ltb_spec (byte_to_Z b) 128); [|lia]. Qed.

(** Only the bytes of the rune itself matter. *)
Lemma decode_rune_app l r n tl :
  decode_rune l = Some (r, n) → decode_rune (take n l ++ tl) = Some (r, n).
Proof.
  destruct l as [|b0 [|b1 [|b2 [|b3 l]]]]; unfold decode_rune; intros H;
    repeat case_match; simplify_eq/=; try done; try congruence;
    repeat case_match; simplify_eq/=; try done; congruence.
Qed.

Lemma byte_in_spec lo hi b : byte_in lo hi b = true ↔ lo ≤ byte_to_Z b ≤ hi.
Proof. unfold byte_in. rewrite andb_true_iff, !Z.leb_le. done. Qed.

Lemma Z_to_byte_is z b : z = byte_to_Z b → Z_to_byte z = b.
Proof. intros ->. apply Z_to_byte_to_Z. Qed.

(** The bytes of a rune of two, three and four bytes. *)
Lemma encode_two b0 b1 :
  194 ≤ byte_to_Z b0 ≤ 223 → 128 ≤ byte_to_Z b1 ≤ 191 →
  encode_rune (byte_to_Z b0 mod 32 * 64 + byte_to_Z b1 mod 64) = [b0; b1].
Proof.
  set (x := byte_to_Z b0). set (y := byte_to_Z b1). intros Hx Hy.
  assert (Ex : x mod 32 = x - 192) by (Z.to_euclidean_division_equations; lia).
  assert (Ey : y mod 64 = y - 128) by (Z.to_euclidean_division_equations; lia). rewrite Ex, Ey.
  set (r := (x - 192) * 64 + (y - 128)). unfold encode_rune.
  destruct (Z.ltb_spec r 128); [lia|]. destruct (Z.ltb_spec r 2048); [|lia]. simpl.
  rewrite (Z_to_byte_is _ b0), (Z_to_byte_is _ b1); [done|fold y|fold x];
    subst r; Z.to_euclidean_division_equations; lia.
Qed.

Lemma encode_three b0 b1 b2 :
  224 ≤ byte_to_Z b0 ≤ 239 → 128 ≤ byte_to_Z b1 ≤ 191 → 128 ≤ byte_to_Z b2 ≤ 191 →
  (byte_to_Z b0 = 224 → 160 ≤ byte_to_Z b1) →
  encode_rune ((byte_to_Z b0 mod 16 * 64 + byte_to_Z b1 mod 64) * 64 + byte_to_Z b2 mod 64) = [b0; b1; b2].
Proof.
  set (x := byte_to_Z b0). set (y := byte_to_Z b1). set (z := byte_to_Z b2). intros Hx Hy Hz H224.
  assert (Ex : x mod 16 = x - 224) by (Z.to_euclidean_division_equations; lia).
  assert (Ey : y mod 64 = y - 128) by (Z.to_euclidean_division_equations; lia).
  assert (Ez : z mod 64 = z - 128) by (Z.to_euclidean_division_equations; lia). rewrite Ex, Ey, Ez.
  set (r := ((x - 224) * 64 + (y - 128)) * 64 + (z - 128)). unfold encode_rune.
  assert (2048 <= r < 65536) by lia.
  destruct (Z.ltb_spec r 128); [lia|]. destruct (Z.ltb_spec r 2048); [lia|].
  destruct (Z.ltb_spec r 65536); [|lia]. simpl.
  rewrite (Z_to_byte_is _ b0), (Z_to_byte_is _ b1), (Z_to_byte_is _ b2);
    [done|fold z|fold y|fold x]; subst r; Z.to_euclidean_division_equations; lia.
Qed.

Lemma encode_four b0 b1 b2 b3 :
  240 ≤ byte_to_Z b0 ≤ 244 → 128 ≤ byte_to_Z b1 ≤ 191 → 128 ≤ byte_to_Z b2 ≤ 191 → 128 ≤ byte_to_Z b3 ≤ 191 →
  (byte_to_Z b0 = 240 → 144 ≤ byte_to_Z b1) →
  encode_rune (((byte_to_Z b0 mod 8 * 64 + byte_to_Z b1 mod 64) * 64 + byte_to_Z b2 mod 64) * 64 +
    byte_to_Z b3 mod 64) = [b0; b1; b2; b3].
Proof.
  set (x := byte_to_Z b0). set (y := byte_to_Z b1). set (z := byte_to_Z b2). set (w := byte_to_Z b3).
  intros Hx Hy Hz Hw H240.
  assert (Ex : x mod 8 = x - 240) by (Z.to_euclidean_division_equations; lia).
  assert (Ey : y mod 64 = y - 128) by (Z.to_euclidean_division_equations; lia).
  assert (Ez : z mod 64 = z - 128) by (Z.to_euclidean_division_equations; lia).
  assert (Ew : w mod 64 = w - 128) by (Z.to_euclidean_division_equations; lia). rewrite Ex, Ey, Ez, Ew.
  set (r := (((x - 240) * 64 + (y - 128)) * 64 + (z - 128)) * 64 + (w - 128)).
  unfold encode_rune. assert (65536 <= r) by lia.
  destruct (Z.ltb_spec r 128); [lia|]. destruct (Z.ltb_spec r 2048); [lia|].
  destruct (Z.ltb_spec r 65536); [lia|]. simpl.
  rewrite (Z_to_byte_is _ b0), (Z_to_byte_is _ b1), (Z_to_byte_is _ b2), (Z_to_byte_is _ b3);
    [done|fold w|fold z|fold y|fold x]; subst r; Z.to_euclidean_division_equations; lia.
Qed.

(** Encoding a decoded rune gives its bytes back. *)
Lemma encode_decode_rune l r n : decode_rune l = Some (r, n) → encode_rune r = take n l.
Proof.
  destruct l as [|b0 l]; [done|]. unfold decode_rune.
  destruct (Z.ltb_spec (byte_to_Z b0) 128) as [H0|H0].
  { intros [= <- <-]. unfold encode_rune. destruct (Z.ltb_spec (byte_to_Z b0) 128); [|lia].
    by rewrite Z_to_byte_to_Z. }
  destruct l as [|b1 l]; [done|].
  change 63 with (Z.ones 6). change 31 with (Z.ones 5). change 15 with (Z.ones 4).
  change 7 with (Z.ones 3). rewrite !Z.land_ones by lia.
  change (2 ^ 6) with 64. change (2 ^ 5) with 32. change (2 ^ 4) with 16. change (2 ^ 3) with 8.
  unfold cont.
  destruct (byte_in 194 223 b0 && byte_in 128 191 b1) eqn:E2.
  { intros [= <- <-]. apply andb_true_iff in E2 as [?%byte_in_spec ?%byte_in_spec]. by apply encode_two. }
  destruct l as [|b2 l]; [done|]. rewrite !Z.land_ones by lia. change (2 ^ 6) with 64.
  match goal with |- context [if ?c then _ else _] => destruct c eqn:E3 end.
  { intros [= <- <-]. rewrite !andb_true_iff, !orb_true_iff, !andb_true_iff, !byte_in_spec in E3.
    apply encode_three; lia. }
  destruct l as [|b3 l]; [done|].
  match goal with |- context [if ?c then _ else _] => destruct c eqn:E4 end; [|done].
  intros [= <- <-]. rewrite !andb_true_iff, !orb_true_iff, !andb_true_iff, !byte_in_spec in E4.
  rewrite !Z.land_ones by lia. change (2 ^ 6) with 64. apply encode_four; lia.
Qed.
