(* ===== verification/Json.v ===== *)
(** * JSON (encoding/json), as far as the relay's own data needs it

    [Marshal] of a []string, a parser for JSON texts, [Unmarshal] into a
    []string and the decoding of an object into string fields. *)

From S2P Require Import Prelude GoStd Utf8.

Local Open Scope Z_scope.

(** ** Encoding *)

Definition hexd (n : Z) : byte := if n <? 10 then Z_to_byte (48 + n) else Z_to_byte (87 + n).

(** The double quote. *)
Definition dq : byte := x22.

(** [htmlSafeSet]: printed as they are. *)
Definition safe (b : byte) : bool :=
  byte_in 32 127 b && negb (bool_decide (b ∈ [dq; ch "&"; ch "<"; ch ">"; ch "\"])).

(** The escape of an ASCII character outside the safe set. *)
Definition escape (b : byte) : list byte :=
  if bool_decide (b = ch "\" ∨ b = dq) then [ch "\"; b]
  else if bool_decide (b = x08) then [ch "\"; ch "b"]
  else if bool_decide (b = x0c) then [ch "\"; ch "f"]
  else if bool_decide (b = x0a) then [ch "\"; ch "n"]
  else if bool_decide (b = x0d) then [ch "\"; ch "r"]
  else if bool_decide (b = x09) then [ch "\"; ch "t"]
  else [ch "\"; ch "u"; ch "0"; ch "0"; hexd (Z.shiftr (byte_to_Z b) 4); hexd (Z.land (byte_to_Z b) 15)].

(** [appendString] with HTML escaping, without the quotes; invalid UTF-8 is
    replaced by an escaped U+FFFD. *)
Fixpoint quote_body (fuel : nat) (l : list byte) : list byte :=
  match fuel, l with
  | S fuel', b :: l' =>
      if byte_to_Z b <? 128 then
        (if safe b then [b] else escape b) ++ quote_body fuel' l'
      else match decode_rune l with
      | None => bytes_of "\ufffd" ++ quote_body fuel' l'
      | Some (r, n) =>
          (if bool_decide (r = 8232 ∨ r = 8233)
           then bytes_of "\u202" ++ [hexd (Z.land r 15)] else take n l)
          ++ quote_body fuel' (drop n l)
      end
  | _, _ => []
  end.
Definition quote (s : string) : list byte :=
  dq :: quote_body (String.length s) (bytes_of s) ++ [dq].

Fixpoint quote_list (l : list string) : list byte :=
  match l with
  | [] => []
  | [s] => quote s
  | s :: l' => quote s ++ ch "," :: quote_list l'
  end.

(** [json.Marshal] of a []string. *)
Definition Marshal_strings (l : gslice string) : string :=
  match l with
  | None => "null"
  | Some l => string_of (ch "[" :: quote_list l ++ [ch "]"])
  end.

(** ** Parsing *)

Set Warnings "-register-all".

Inductive json : Type :=
| JNull
| JBool (b : bool)
| JNumber (lit : list byte)
| JString (s : string)
| JArray (l : list json)
| JObject (m : list (string * (list byte * json))).   (* a member's text and value *)

Definition is_space (b : byte) : bool := bool_decide (b ∈ [x20; x09; x0d; x0a]).
Fixpoint skip_space (l : list byte) : list byte :=
  match l with b :: l' => if is_space b then skip_space l' else l | [] => [] end.

Definition hex4 (l : list byte) : option (Z * list byte) :=
  match l with
  | a :: b :: c :: d :: l' =>
      a ← hex.digit a; b ← hex.digit b; c ← hex.digit c; d ← hex.digit d;
      Some (((a * 16 + b) * 16 + c) * 16 + d, l')
  | _ => None
  end.

Definition simple_escape (c : byte) : option byte :=
  if bool_decide (c = dq ∨ c = ch "\" ∨ c = ch "/") then Some c
  else if bool_decide (c = ch "b") then Some x08
  else if bool_decide (c = ch "f") then Some x0c
  else if bool_decide (c = ch "n") then Some x0a
  else if bool_decide (c = ch "r") then Some x0d
  else if bool_decide (c = ch "t") then Some x09
  else None.

(** The second half of a surrogate pair: [\uDC00] to [\uDFFF]. *)
Definition low_surrogate (l : list byte) : option (Z * list byte) :=
  match l with
  | a :: b :: l' =>
      if bool_decide (a = ch "\" ∧ b = ch "u") then
        p ← hex4 l'; if (56320 <=? p.1) && (p.1 <? 57344) then Some p else None
      else None
  | _ => None
  end.

(** The rest of a string literal after its opening quote. *)
Fixpoint unquote (fuel : nat) (l : list byte) : option (list byte * list byte) :=
  let push bs (o : option (list byte * list byte)) := p ← o; Some (bs ++ p.1, p.2) in
  match fuel, l with
  | S fuel', b :: l1 =>
      if bool_decide (b = dq) then Some ([], l1)
      else if bool_decide (b = ch "\") then
        match l1 with
        | [] => None
        | c :: l2 =>
            match simple_escape c with
            | Some d => push [d] (unquote fuel' l2)
            | None =>
                if bool_decide (c = ch "u") then
                  match hex4 l2 with
                  | None => None
                  | Some (r, l3) =>
                      if (55296 <=? r) && (r <? 57344) then
                        match low_surrogate l3 with
                        | Some (r1, l4) =>
                            if r <? 56320
                            then push (encode_rune ((r - 55296) * 1024 + (r1 - 56320) + 65536))
                                      (unquote fuel' l4)
                            else push (encode_rune RuneError) (unquote fuel' l3)
                        | None => push (encode_rune RuneError) (unquote fuel' l3)
                        end
                      else push (encode_rune r) (unquote fuel' l3)
                  end
                else None
            end
        end
      else if byte_to_Z b <? 32 then None
      else match decode_rune l with
      | Some (r, n) => push (encode_rune r) (unquote fuel' (drop n l))
      | None => push (encode_rune RuneError) (unquote fuel' l1)
      end
  | _, _ => None
  end.

Definition is_digit_byte (b : byte) : bool := byte_in 48 57 b.
Fixpoint span_digits (l : list byte) : list byte * list byte :=
  match l with
  | b :: l' => if is_digit_byte b then let '(d, r) := span_digits l' in (b :: d, r) else ([], l)
  | [] => ([], [])
  end.

(** A number literal: sign, integer part without a leading zero, fraction,
    exponent. *)
Definition parse_number (l : list byte) : option (list byte * list byte) :=
  let '(sign, l1) := match l with
    | b :: l' => if bool_decide (b = ch "-") then ([b], l') else ([], l)
    | [] => ([], l) end in
  '(int, l2) ← match l1 with
    | b :: l' => if bool_decide (b = ch "0") then Some ([b], l')
                 else let '(d, r) := span_digits l1 in
                      if bool_decide (d = []) then None else Some (d, r)
    | [] => None end;
  '(frac, l3) ← match l2 with
    | b :: l' => if bool_decide (b = ch ".") then
                   let '(d, r) := span_digits l' in
                   if bool_decide (d = []) then None else Some (b :: d, r)
                 else Some ([], l2)
    | [] => Some ([], l2) end;
  '(exp, l4) ← match l3 with
    | b :: l' => if bool_decide (b = ch "e" ∨ b = ch "E") then
                   let '(sg, l'') := match l' with
                     | c :: r => if bool_decide (c = ch "+" ∨ c = ch "-") then ([c], r) else ([], l')
                     | [] => ([], l') end in
                   let '(d, r) := span_digits l'' in
                   if bool_decide (d = []) then None else Some (b :: sg ++ d, r)
                 else Some ([], l3)
    | [] => Some ([], l3) end;
  Some (sign ++ int ++ frac ++ exp, l4).

(** A value after optional white space.  [depth] is the nesting still allowed;
    the fuel bounds the calls, two of them for each byte read. *)
Fixpoint parse_value (fuel : nat) (depth : Z) (l : list byte) : option (json * list byte) :=
  match fuel with
  | O => None
  | S fuel' =>
      match skip_space l with
      | [] => None
      | b :: l1 =>
          if bool_decide (b = ch "{") then
            if depth <=? 0 then None
            else match skip_space l1 with
            | c :: l2 =>
                if bool_decide (c = ch "}") then Some (JObject [], l2)
                else '(ms, r) ← parse_members fuel' (depth - 1) (c :: l2); Some (JObject ms, r)
            | [] => None
            end
          else if bool_decide (b = ch "[") then
            if depth <=? 0 then None
            else match skip_space l1 with
            | c :: l2 =>
                if bool_decide (c = ch "]") then Some (JArray [], l2)
                else '(vs, r) ← parse_elems fuel' (depth - 1) (c :: l2); Some (JArray vs, r)
            | [] => None
            end
          else if bool_decide (b = dq) then
            '(s, r) ← unquote (length l1) l1; Some (JString (string_of s), r)
          else if bool_decide (b = ch "n") then
            r ← strip_bytes (bytes_of "ull") l1; Some (JNull, r)
          else if bool_decide (b = ch "t") then
            r ← strip_bytes (bytes_of "rue") l1; Some (JBool true, r)
          else if bool_decide (b = ch "f") then
            r ← strip_bytes (bytes_of "alse") l1; Some (JBool false, r)
          else '(lit, r) ← parse_number (b :: l1); Some (JNumber lit, r)
      end
  end
with parse_elems (fuel : nat) (depth : Z) (l : list byte) : option (list json * list byte) :=
  match fuel with
  | O => None
  | S fuel' =>
      '(v, r) ← parse_value fuel' depth l;
      match skip_space r with
      | c :: r' =>
          if bool_decide (c = ch ",") then '(vs, r'') ← parse_elems fuel' depth r'; Some (v :: vs, r'')
          else if bool_decide (c = ch "]") then Some ([v], r') else None
      | [] => None
      end
  end
with parse_members (fuel : nat) (depth : Z) (l : list byte)
    : option (list (string * (list byte * json)) * list byte) :=
  match fuel with
  | O => None
  | S fuel' =>
      match skip_space l with
      | c :: l1 =>
          if bool_decide (c = dq) then
            '(k, r) ← unquote (length l1) l1;
            match skip_space r with
            | d :: r1 =>
                if bool_decide (d = ch ":") then
                  '(v, r2) ← parse_value fuel' depth r1;
                  let text := take (length (skip_space r1) - length r2) (skip_space r1) in
                  match skip_space r2 with
                  | e :: r3 =>
                      if bool_decide (e = ch ",")
                      then '(ms, r4) ← parse_members fuel' depth r3;
                           Some ((string_of k, (text, v)) :: ms, r4)
                      else if bool_decide (e = ch "}") then Some ([(string_of k, (text, v))], r3) else None
                  | [] => None
                  end
                else None
            | [] => None
            end
          else None
      | [] => None
      end
  end.

Definition maxNestingDepth : Z := 10000.

Definition parse_prefix (l : list byte) : option (json * list byte) :=
  parse_value (2 * length l + 2) maxNestingDepth l.

(** A whole text: one value and white space around it. *)
Definition parse (s : string) : option json :=
  '(v, r) ← parse_prefix (bytes_of s);
  if bool_decide (skip_space r = []) then Some v else None.

(** [json.Unmarshal] into a []string: [None] is an error; a null element
    leaves the zero string. *)
Definition elem_string (v : json) : option string :=
  match v with JString s => Some s | JNull => Some "" | _ => None end.
Definition Unmarshal_strings (s : string) : option (gslice string) :=
  v ← parse s;
  match v with
  | JNull => Some None
  | JArray vs => l ← mapM elem_string vs; Some (Some l)
  | _ => None
  end.

(** ** The round trip of []string *)

Definition push (bs : list byte) (o : option (list byte * list byte)) :
    option (list byte * list byte) := p ← o; Some (bs ++ p.1, p.2).

(** One step on an unescaped character. *)
Lemma unquote_rune f l r n tl :
  decode_rune l = Some (r, n) →
  (∀ b, head l = Some b → b ≠ dq ∧ b ≠ ch "\" ∧ 32 ≤ byte_to_Z b) →
  unquote (S f) (take n l ++ tl) = push (take n l) (unquote f tl).
Proof.
  intros Hd Hb. pose proof (decode_rune_size _ _ _ Hd) as [Hn Hl].
  pose proof (decode_rune_app _ _ _ tl Hd) as Hd'.
  pose proof (encode_decode_rune _ _ _ Hd) as He.
  assert (Hdrop : drop n (take n l ++ tl) = tl) by (apply drop_app_length'; rewrite length_take; lia).
  destruct l as [|b l]; [done|]. destruct n as [|n]; [lia|].
  destruct (Hb b eq_refl) as (H1 & H2 & H3). cbn [take app] in *. cbn [unquote].
  rewrite (bool_decide_eq_false_2 _ H1), (bool_decide_eq_false_2 _ H2).
  destruct (Z.ltb_spec (byte_to_Z b) 32); [lia|]. by rewrite Hd', He, Hdrop.
Qed.

Lemma hexd_digit b :
  hex.digit (hexd (Z.shiftr (byte_to_Z b) 4)) = Some (Z.shiftr (byte_to_Z b) 4) ∧
  hex.digit (hexd (Z.land (byte_to_Z b) 15)) = Some (Z.land (byte_to_Z b) 15) ∧
  Z.shiftr (byte_to_Z b) 4 * 16 + Z.land (byte_to_Z b) 15 = byte_to_Z b.
Proof.
  revert b. assert (H : ∀ b, bool_decide (
    hex.digit (hexd (Z.shiftr (byte_to_Z b) 4)) = Some (Z.shiftr (byte_to_Z b) 4) ∧
    hex.digit (hexd (Z.land (byte_to_Z b) 15)) = Some (Z.land (byte_to_Z b) 15) ∧
    Z.shiftr (byte_to_Z b) 4 * 16 + Z.land (byte_to_Z b) 15 = byte_to_Z b) = true)
    by (by apply byte_forall; vm_compute).
  intros b. exact (proj1 (bool_decide_eq_true _) (H b)).
Qed.

Lemma encode_rune_ascii b : byte_to_Z b < 128 → encode_rune (byte_to_Z b) = [b].
Proof.
  intros H. unfold encode_rune. destruct (Z.ltb_spec (byte_to_Z b) 128); [|lia].
  by rewrite Z_to_byte_to_Z.
Qed.

(** One step on an escaped ASCII character. *)
Lemma unquote_escape f b tl :
  byte_to_Z b < 128 → unquote (S f) (escape b ++ tl) = push [b] (unquote f tl).
Proof.
  intros Hb. unfold escape.
  case_bool_decide as Hc; [by destruct Hc as [-> | ->]|].
  do 5 (case_bool_decide; [by subst|]).
  destruct (hexd_digit b) as (D1 & D2 & D3).
  cbn [app]. cbn [unquote]. rewrite (bool_decide_eq_false_2 (ch "\" = dq)) by done.
  rewrite (bool_decide_eq_true_2 (ch "\" = ch "\")) by done.
  change (simple_escape (ch "u")) with (@None byte). cbv iota.
  rewrite (bool_decide_eq_true_2 (ch "u" = ch "u")) by done.
  cbn [hex4]. change (hex.digit (ch "0")) with (Some 0). cbn [mbind option_bind].
  rewrite D1. cbn [mbind option_bind]. rewrite D2. cbn [mbind option_bind].
  replace (((0 * 16 + 0) * 16 + Z.shiftr (byte_to_Z b) 4) * 16 + Z.land (byte_to_Z b) 15)
    with (byte_to_Z b) by lia.
  destruct (Z.leb_spec 55296 (byte_to_Z b)); [lia|]. cbn [andb].
  by rewrite encode_rune_ascii.
Qed.

Lemma safe_spec b : safe b = true → b ≠ dq ∧ b ≠ ch "\" ∧ 32 ≤ byte_to_Z b.
Proof.
  revert b. assert (H : ∀ b, negb (safe b) || bool_decide (b ≠ dq ∧ b ≠ ch "\" ∧ 32 ≤ byte_to_Z b) = true)
    by (by apply byte_forall; vm_compute).
  intros b Hb. specialize (H b). rewrite Hb in H. by apply bool_decide_eq_true in H.
Qed.

(** Decoding what [quote_body] writes: the text, its invalid bytes replaced. *)
Lemma unquote_quote g l f rest :
  (length (quote_body g l) < f)%nat →
  unquote f (quote_body g l ++ dq :: rest) = Some (replace_go g l, rest).
Proof.
  revert l f; induction g as [|g IH]; intros l f Hf.
  { destruct f; [cbn in Hf; lia|done]. }
  destruct l as [|b l]; [destruct f; [cbn in Hf; lia|done]|].
  cbn [quote_body replace_go] in *.
  assert (Hgo : ∀ piece bs l2, piece ≠ [] →
    (∀ f tl, unquote (S f) (piece ++ tl) = push bs (unquote f tl)) →
    (length (piece ++ quote_body g l2) < f)%nat →
    unquote f ((piece ++ quote_body g l2) ++ dq :: rest) = Some (bs ++ replace_go g l2, rest)).
  { intros piece bs l2 Hp Hstep Hlen. rewrite length_app in Hlen.
    destruct f as [|f]; [lia|]. rewrite <-app_assoc, Hstep.
    rewrite IH; [done|]. destruct piece; [done|]. simpl in Hlen. lia. }
  destruct (decode_rune (b :: l)) as [[r n]|] eqn:Hd.
  2: { destruct (Z.ltb_spec (byte_to_Z b) 128) as [Hb|Hb]; [by rewrite decode_rune_ascii in Hd|by apply Hgo]. }
  pose proof (decode_rune_size _ _ _ Hd) as [Hn Hl].
  destruct (Z.ltb_spec (byte_to_Z b) 128) as [Hb|Hb].
  - rewrite decode_rune_ascii in Hd by done. simplify_eq. cbn [drop take].
    apply (Hgo (if safe b then [b] else escape b) [b]); [| |done].
    + destruct (safe b); [done|]. unfold escape. repeat case_match; done.
    + intros f' tl. destruct (safe b) eqn:Hs; [|by apply unquote_escape].
      apply (unquote_rune f' (b :: l) (byte_to_Z b) 1); [by apply decode_rune_ascii|].
      intros ? [= <-]. by apply safe_spec.
  - apply (Hgo (if bool_decide (r = 8232 ∨ r = 8233) then _ else _) (take n (b :: l))); [| |done].
    + case_bool_decide; [done|]. destruct n; [lia|done].
    + intros f' tl. case_bool_decide as Hr.
      * rewrite <-(encode_decode_rune _ _ _ Hd). by destruct Hr as [-> | ->].
      * apply (unquote_rune _ _ r); [done|]. intros ? [= <-].
        split_and!; [intros ->; by vm_compute in Hb..|lia].
Qed.

Lemma parse_quote f depth s rest :
  parse_value (S f) depth (quote s ++ rest) = Some (JString (replace_invalid s), rest).
Proof.
  unfold quote. cbn [app parse_value skip_space].
  change (is_space dq) with false. cbv iota.
  rewrite (bool_decide_eq_false_2 (dq = ch "{")), (bool_decide_eq_false_2 (dq = ch "[")) by done.
  rewrite (bool_decide_eq_true_2 (dq = dq)) by done.
  rewrite <-app_assoc. cbn [app].
  by rewrite unquote_quote by (rewrite length_app; simpl; lia).
Qed.

Lemma length_quote_list l : (length l ≤ length (quote_list l))%nat.
Proof.
  induction l as [|s [|s' l] IH]; [done|simpl; lia|].
  change (quote_list (s :: s' :: l)) with (quote s ++ ch "," :: quote_list (s' :: l)).
  rewrite length_app. cbn [length] in *. lia.
Qed.

Lemma parse_elems_S f depth l :
  parse_elems (S f) depth l =
  ('(v, r) ← parse_value f depth l;
   match skip_space r with
   | c :: r' =>
       if bool_decide (c = ch ",") then '(vs, r'') ← parse_elems f depth r'; Some (v :: vs, r'')
       else if bool_decide (c = ch "]") then Some ([v], r') else None
   | [] => None
   end).
Proof. done. Qed.

Lemma parse_quote_list f depth l rest :
  l ≠ [] → (length l < f)%nat →
  parse_elems f depth (quote_list l ++ ch "]" :: rest) = Some (JString ∘ replace_invalid <$> l, rest).
Proof.
  revert f; induction l as [|s l IH]; intros f Hne Hf; [done|].
  destruct f as [|[|f]]; [simpl in Hf; lia..|].
  destruct l as [|s' l].
  - rewrite parse_elems_S. cbn [quote_list]. by rewrite parse_quote.
  - change (quote_list (s :: s' :: l)) with (quote s ++ ch "," :: quote_list (s' :: l)).
    rewrite <-app_assoc. cbn [app]. rewrite parse_elems_S, parse_quote.
    cbn [mbind option_bind skip_space]. change (is_space (ch ",")) with false. cbv iota.
    rewrite (bool_decide_eq_true_2 (ch "," = ch ",")) by done.
    rewrite IH; [done|done|cbn [length] in *; lia].
Qed.

(** Unmarshalling what [Marshal_strings] writes gives the strings back. *)
Lemma Unmarshal_Marshal l :
  Forall (λ s, ValidString s = true) (elems l) →
  Unmarshal_strings (Marshal_strings l) = Some l.
Proof.
  destruct l as [l|]; [|by vm_compute]. intros Hv. cbn [elems default] in Hv.
  unfold Unmarshal_strings, parse, parse_prefix. cbn [Marshal_strings].
  rewrite bytes_of_string_of. set (t := ch "[" :: _).
  assert (Hval : parse_value (2 * length t + 2) maxNestingDepth t = Some (JArray (JString ∘ replace_invalid <$> l), [])).
  { replace (2 * length t + 2)%nat with (S (2 * length t + 1)) by lia. unfold t at 2.
    cbn [parse_value skip_space]. change (is_space (ch "[")) with false. cbv iota.
    rewrite (bool_decide_eq_false_2 (ch "[" = ch "{")) by done.
    rewrite (bool_decide_eq_true_2 (ch "[" = ch "[")) by done.
    change (maxNestingDepth <=? 0) with false. cbv iota.
    destruct l as [|s l]; [by vm_compute|].
    assert (Hh : ∃ q, quote_list (s :: l) = dq :: q) by (destruct l; eexists; reflexivity).
    assert (Hlen : (length (s :: l) ≤ length t)%nat).
    { unfold t. cbn [length]. rewrite length_app. pose proof (length_quote_list (s :: l)).
      cbn [length] in *. lia. }
    pose proof (parse_quote_list (2 * length t + 1) (maxNestingDepth - 1) (s :: l) []) as Hp.
    destruct Hh as [q Hq]. rewrite Hq in *. cbn [app skip_space] in *.
    change (is_space dq) with false. cbv iota.
    rewrite (bool_decide_eq_false_2 (dq = ch "]")) by done.
    rewrite Hp; [done|done|lia]. }
  rewrite list_fmap_compose, replace_valids in Hval by done.
  rewrite Hval. cbn [mbind option_bind skip_space]. rewrite bool_decide_eq_true_2 by done.
  cbn [mbind option_bind].
  assert (HM : mapM elem_string (JString <$> l) = Some l).
  { apply mapM_Some. clear. induction l; constructor; done. }
  by rewrite HM.
Qed.

(** ** Decoding an object into a struct of strings *)

(** [Decoder.Decode] on a body behind [http.MaxBytesReader]: the first value
    of the first [limit] bytes; a value that is neither an object nor an array
    ends only at a further byte or at the end of the body. *)
Definition Decode (limit : nat) (body : list byte) : option json :=
  '(v, r) ← parse_prefix (take limit body);
  match v with
  | JObject _ | JArray _ => Some v
  | _ => if bool_decide (r ≠ [] ∨ (length body ≤ limit)%nat) then Some v else None
  end.

(** Names are compared case-insensitively: ASCII letters, and the two runes
    outside ASCII that fold to one (U+017F to S, U+212A to K). *)
Fixpoint fold_name (l : list byte) : list byte :=
  match l with
  | [] => []
  | b :: l' =>
      match l with
      | xc5 :: xbf :: l2 => ch "S" :: fold_name l2
      | xe2 :: x84 :: xaa :: l3 => ch "K" :: fold_name l3
      | _ => (if byte_in 97 122 b then Z_to_byte (byte_to_Z b - 32) else b) :: fold_name l'
      end
  end.

(** The last string given for the field [name], the zero string if none; a
    member of another type is an error, null leaves the field as it is. *)
Fixpoint string_field (name : string) (ms : list (string * (list byte * json))) (cur : string) : option string :=
  match ms with
  | [] => Some cur
  | (k, (_, v)) :: ms' =>
      if bool_decide (fold_name (bytes_of k) = fold_name (bytes_of name)) then
        match v with
        | JString s => string_field name ms' s
        | JNull => string_field name ms' cur
        | _ => None
        end
      else string_field name ms' cur
  end.

(** The struct's fields in order, for the names given; [null] is the zero struct. *)
Definition decode_fields (names : list string) (v : json) : option (list string) :=
  match v with
  | JObject ms => mapM (λ name, string_field name ms "") names
  | JNull => Some ((λ _, "") <$> names)
  | _ => None
  end.
