(* ===== verification/JsonText.v ===== *)
(** * A JSON value's text stands anywhere (encoding/json)

    The parser of [Json] is local: a value read at the head of a text is read
    the same from its own bytes, whatever stands after them that cannot
    continue a number, with any fuel of two calls per byte and any nesting at
    least as deep.  So the fuel of [parse_prefix] never decides a result, and
    a text that parses by itself is read back wherever it is put. *)

From S2P Require Import Prelude GoStd Utf8 Json.

Local Open Scope Z_scope.

(** ** White space *)

Lemma skip_space_idemp l : skip_space (skip_space l) = skip_space l.
Proof. induction l as [|b l IH]; [done|]. cbn. destruct (is_space b) eqn:Hb; [done|]. cbn. by rewrite Hb. Qed.

(** The spaces a text starts with. *)
Lemma skip_space_split l : ∃ sp, l = sp ++ skip_space l ∧ ∀ x, skip_space (sp ++ x) = skip_space x.
Proof.
  induction l as [|b l (sp & Hl & Hsp)]; [by exists []|]. cbn. destruct (is_space b) eqn:Hb.
  - exists (b :: sp). split; [cbn; by f_equal|]. intros x. cbn. by rewrite Hb.
  - by exists [].
Qed.

Lemma skip_space_head l b l' : skip_space l = b :: l' → is_space b = false.
Proof.
  induction l as [|c l IH]; [done|]. cbn. destruct (is_space c) eqn:Hc; [done|]. by intros [= <- _].
Qed.

(** A byte after the spaces of [l], in any text that starts with them. *)
Lemma skip_space_cons l b l' :
  skip_space l = b :: l' → ∃ sp, l = sp ++ b :: l' ∧ ∀ x, skip_space (sp ++ b :: x) = b :: x.
Proof.
  intros H. destruct (skip_space_split l) as (sp & Hl & Hsp). rewrite H in Hl. exists sp. split; [done|].
  intros x. rewrite Hsp. cbn. by rewrite (skip_space_head _ _ _ H).
Qed.

Lemma skip_space_blank t r : skip_space t ≠ [] → skip_space (t ++ r) = skip_space t ++ r.
Proof. induction t as [|b t IH]; [done|]. cbn. destruct (is_space b); [exact IH|done]. Qed.

(** ** String literals *)

(** What the fixed-size readers find before a closing quote does not depend
    on what follows the quote. *)
Lemma hex4_quote t r : (length t < 4)%nat → hex4 (t ++ dq :: r) = None.
Proof.
  intros Ht. assert (Hdq : hex.digit dq = None) by done.
  destruct t as [|a [|b [|c [|d t]]]]; [..|cbn in Ht; lia]; destruct r as [|x [|y [|z r]]]; cbn [app hex4];
    rewrite ?Hdq; repeat (done || destruct (hex.digit _)).
Qed.

Lemma hex4_stop t r r' : hex4 (t ++ dq :: r) = None → hex4 (t ++ dq :: r') = None.
Proof.
  destruct (decide (length t < 4)%nat); [by rewrite !hex4_quote|].
  destruct t as [|a [|b [|c [|d t]]]]; cbn [length] in *; [lia..|]. cbn [app hex4].
  by destruct (hex.digit a), (hex.digit b), (hex.digit c), (hex.digit d).
Qed.

Lemma hex4_split l n l' : hex4 l = Some (n, l') → ∃ h, l = h ++ l' ∧ length h = 4%nat ∧ ∀ x, hex4 (h ++ x) = Some (n, x).
Proof.
  destruct l as [|a [|b [|c [|d l]]]]; cbn [hex4]; try done.
  destruct (hex.digit a) eqn:Ha, (hex.digit b) eqn:Hb, (hex.digit c) eqn:Hc, (hex.digit d) eqn:Hd; try done.
  cbn. intros [= <- <-]. exists [a; b; c; d]. split_and!; [done..|]. intros x. cbn. by rewrite Ha, Hb, Hc, Hd.
Qed.

Lemma low_surrogate_stop t r r' : low_surrogate (t ++ dq :: r) = None → low_surrogate (t ++ dq :: r') = None.
Proof.
  destruct t as [|a [|b t]]; cbn [app low_surrogate].
  - intros _. by destruct r'.
  - intros _. rewrite bool_decide_eq_false_2; [done|]. by intros [_ ?].
  - case_bool_decide; [|done]. intros H0. destruct (hex4 (t ++ dq :: r)) as [[n l]|] eqn:E.
    + destruct (hex4 (t ++ dq :: r')) as [[n' l']|] eqn:E'; [|done].
      destruct (decide (length t < 4)%nat); [by rewrite hex4_quote in E|].
      destruct t as [|x [|y [|z [|w t]]]]; cbn [length] in *; [lia..|]. cbn [app hex4] in E, E'.
      destruct (hex.digit x), (hex.digit y), (hex.digit z), (hex.digit w); try done.
      cbn in *. simplify_eq. by case_match.
    + by rewrite (hex4_stop _ _ r' E).
Qed.

Lemma low_surrogate_split l n l' :
  low_surrogate l = Some (n, l') → ∃ h, l = h ++ l' ∧ length h = 6%nat ∧ ∀ x, low_surrogate (h ++ x) = Some (n, x).
Proof.
  destruct l as [|a [|b l]]; cbn [low_surrogate]; try done. case_bool_decide as Hab; [|done].
  destruct (hex4 l) as [[m k]|] eqn:E; [|done]. cbn. destruct (_ && _) eqn:Hr; [|done]. intros [= <- <-].
  destruct (hex4_split _ _ _ E) as (h & -> & Hh & Hx). exists (a :: b :: h). split_and!; [done|cbn; lia|].
  intros x. cbn [app low_surrogate]. rewrite bool_decide_eq_true_2 by done. rewrite Hx. cbn. by rewrite Hr.
Qed.

Lemma decode_rune_stop b t r r' : decode_rune (b :: t ++ dq :: r) = None → decode_rune (b :: t ++ dq :: r') = None.
Proof.
  destruct t as [|b1 [|b2 [|b3 t]]]; unfold decode_rune; cbn [app];
    (destruct (_ <? _); [done|]).
  all: repeat (first [done | rewrite !andb_false_r | progress change (cont dq) with false
    | progress change (byte_in ?x ?y dq) with false | case_match]).
Qed.

(** The step of [unquote] on a literal that goes on. *)
Lemma unquote_S f b l1 :
  unquote (S f) (b :: l1) =
  if bool_decide (b = dq) then Some ([], l1)
  else if bool_decide (b = ch "\") then
    match l1 with
    | [] => None
    | c :: l2 =>
        match simple_escape c with
        | Some d => push [d] (unquote f l2)
        | None =>
            if bool_decide (c = ch "u") then
              match hex4 l2 with
              | None => None
              | Some (r, l3) =>
                  if (55296 <=? r) && (r <? 57344) then
                    match low_surrogate l3 with
                    | Some (r1, l4) =>
                        if r <? 56320
                        then push (encode_rune ((r - 55296) * 1024 + (r1 - 56320) + 65536)) (unquote f l4)
                        else push (encode_rune RuneError) (unquote f l3)
                    | None => push (encode_rune RuneError) (unquote f l3)
                    end
                  else push (encode_rune r) (unquote f l3)
              end
            else None
        end
    end
  else if byte_to_Z b <? 32 then None
  else match decode_rune (b :: l1) with
  | Some (r, n) => push (encode_rune r) (unquote f (drop n (b :: l1)))
  | None => push (encode_rune RuneError) (unquote f l1)
  end.
Proof. done. Qed.

Lemma push_Some bs o s r : push bs o = Some (s, r) → ∃ s', o = Some (s', r) ∧ s = bs ++ s'.
Proof. destruct o as [[s' r']|]; [|done]. intros [= <- <-]. by exists s'. Qed.

(** [t] and a closing quote are the rest of a literal that denotes [s]. *)
Definition literal (t s : list byte) : Prop :=
  ∀ f rest, (length t < f)%nat → unquote f (t ++ dq :: rest) = Some (s, rest).

(** A piece that always takes one step and contributes [bs]. *)
Lemma literal_piece piece bs t s :
  piece ≠ [] → (∀ f rest, unquote (S f) (piece ++ t ++ dq :: rest) = push bs (unquote f (t ++ dq :: rest))) →
  literal t s → literal (piece ++ t) (bs ++ s).
Proof.
  intros Hne Hstep Ht f rest Hf. rewrite length_app in Hf. destruct f as [|f]; [lia|].
  rewrite <-app_assoc, Hstep, Ht; [done|]. destruct piece; [done|]. cbn in Hf. lia.
Qed.

(** Escapes, then runes: what one step of [unquote] reads is such a piece. *)
Lemma unquote_escaped f c l2 s r :
  (∀ l s r, unquote f l = Some (s, r) → ∃ t, l = t ++ dq :: r ∧ literal t s) →
  unquote (S f) (ch "\" :: c :: l2) = Some (s, r) →
  ∃ t, ch "\" :: c :: l2 = t ++ dq :: r ∧ literal t s.
Proof.
  intros IH. rewrite unquote_S. rewrite bool_decide_eq_false_2, bool_decide_eq_true_2 by done.
  assert (Hfin : ∀ piece bs l3, piece ≠ [] → ch "\" :: c :: l2 = piece ++ l3 →
    push bs (unquote f l3) = Some (s, r) →
    (∀ t, l3 = t ++ dq :: r → ∀ f rest,
       unquote (S f) (piece ++ t ++ dq :: rest) = push bs (unquote f (t ++ dq :: rest))) →
    ∃ t, ch "\" :: c :: l2 = t ++ dq :: r ∧ literal t s).
  { intros piece bs l3 Hne -> (s' & Hs & ->)%push_Some Hstep. destruct (IH _ _ _ Hs) as (t & -> & Ht).
    exists (piece ++ t). split; [by rewrite app_assoc|]. by apply literal_piece; [|apply Hstep|]. }
  destruct (simple_escape c) as [d|] eqn:Hc.
  { intros H. apply (Hfin [ch "\"; c] [d] l2); [done..|]. intros t _ f' rest.
    cbn [app]. rewrite unquote_S. rewrite bool_decide_eq_false_2, bool_decide_eq_true_2 by done. by rewrite Hc. }
  case_bool_decide as Hu; [|done]. subst c.
  destruct (hex4 l2) as [[n l3]|] eqn:Hh; [|done]. destruct (hex4_split _ _ _ Hh) as (h & -> & _ & Hx).
  assert (Hgo : ∀ f t rest, unquote (S f) ((ch "\" :: ch "u" :: h) ++ t ++ dq :: rest) =
    if (55296 <=? n) && (n <? 57344) then
      match low_surrogate (t ++ dq :: rest) with
      | Some (r1, l4) => if n <? 56320
          then push (encode_rune ((n - 55296) * 1024 + (r1 - 56320) + 65536)) (unquote f l4)
          else push (encode_rune RuneError) (unquote f (t ++ dq :: rest))
      | None => push (encode_rune RuneError) (unquote f (t ++ dq :: rest))
      end
    else push (encode_rune n) (unquote f (t ++ dq :: rest))).
  { intros f' t rest. cbn [app]. rewrite unquote_S.
    rewrite bool_decide_eq_false_2, bool_decide_eq_true_2 by done. rewrite Hc, Hx. done. }
  destruct ((55296 <=? n) && (n <? 57344)).
  2: { intros H. by apply (Hfin (ch "\" :: ch "u" :: h) (encode_rune n) l3). }
  destruct (low_surrogate l3) as [[r1 l4]|] eqn:Hl.
  2: { intros H. apply (Hfin (ch "\" :: ch "u" :: h) (encode_rune RuneError) l3); [done..|].
       intros t -> f' rest. by rewrite Hgo, (low_surrogate_stop _ _ _ Hl). }
  destruct (low_surrogate_split _ _ _ Hl) as (h' & Hl3 & _ & Hx'). destruct (n <? 56320).
  - intros H. apply (Hfin ((ch "\" :: ch "u" :: h) ++ h') (encode_rune ((n - 55296) * 1024 + (r1 - 56320) + 65536)) l4);
      [done|by rewrite Hl3, <-app_assoc|done|].
    intros t -> f' rest. specialize (Hgo f' (h' ++ t) rest). rewrite <-!app_assoc, Hx' in Hgo.
    by rewrite <-app_assoc, Hgo.
  - intros H. apply (Hfin (ch "\" :: ch "u" :: h) (encode_rune RuneError) l3); [done..|].
    intros t -> f' rest. rewrite Hgo. by case_match; [case_match|].
Qed.

Lemma unquote_local f l s r : unquote f l = Some (s, r) → ∃ t, l = t ++ dq :: r ∧ literal t s.
Proof.
  revert l s r; induction f as [|f IH]; intros l s r; [done|]. destruct l as [|b l1]; [done|].
  destruct (decide (b = ch "\")) as [->|Hb].
  { destruct l1 as [|c l2]; [done|]. by apply unquote_escaped. }
  rewrite unquote_S. case_bool_decide as Hq.
  { intros [= <- <-]. subst b. exists []. split; [done|]. intros [|f'] rest Hf; [cbn in Hf; lia|done]. }
  rewrite (bool_decide_eq_false_2 _ Hb). destruct (byte_to_Z b <? 32) eqn:Hlo; [done|].
  destruct (decode_rune (b :: l1)) as [[n k]|] eqn:Hd; intros (s' & (t & Hl & Ht)%IH & ->)%push_Some.
  - pose proof (decode_rune_size _ _ _ Hd) as [Hk Hkl].
    exists (take k (b :: l1) ++ t). split; [by rewrite <-app_assoc, <-Hl, take_drop|].
    apply literal_piece; [by destruct k; [lia|]| |done]. intros f' rest.
    rewrite (encode_decode_rune _ _ _ Hd). apply (unquote_rune _ _ n); [done|].
    intros b' [= <-]. split_and!; [done|done|]. by apply Z.ltb_ge in Hlo.
  - subst l1. exists (b :: t). split; [done|]. apply (literal_piece [b]); [done| |done]. intros f' rest.
    cbn [app]. rewrite unquote_S, (bool_decide_eq_false_2 _ Hq), (bool_decide_eq_false_2 _ Hb), Hlo.
    by rewrite (decode_rune_stop _ _ _ rest Hd).
Qed.

(** ** Number literals *)

Definition clear_of (p : byte → bool) (l : list byte) : Prop :=
  match l with [] => True | b :: _ => p b = false end.
Definition num_byte (b : byte) : bool := is_digit_byte b || bool_decide (b ∈ [ch "."; ch "e"; ch "E"]).

(** What may follow a value: it does not continue a number. *)
Definition stops : list byte → Prop := clear_of num_byte.

Lemma stops_digit l : stops l → clear_of is_digit_byte l.
Proof. destruct l as [|b l]; [done|]. cbn. by intros [? _]%orb_false_iff. Qed.

Lemma span_digits_local l d r :
  span_digits l = (d, r) → l = d ++ r ∧ clear_of is_digit_byte r ∧
  ∀ x, clear_of is_digit_byte x → span_digits (d ++ x) = (d, x).
Proof.
  revert d r; induction l as [|b l IH]; intros d r; cbn.
  { intros [= <- <-]. split_and!; [done..|]. intros [|b x]; [done|]. cbn. by intros ->. }
  destruct (is_digit_byte b) eqn:Hb.
  - destruct (span_digits l) as [d' r'] eqn:E. intros [= <- <-]. destruct (IH _ _ eq_refl) as (-> & Hr & Hx).
    split_and!; [done..|]. intros x Hc. cbn. by rewrite Hb, Hx.
  - intros [= <- <-]. split_and!; [done..|]. intros [|c x]; [done|]. cbn. by intros ->.
Qed.

(** The parts of [parse_number]. *)
Definition num_sign (l : list byte) : list byte * list byte :=
  match l with b :: l' => if bool_decide (b = ch "-") then ([b], l') else ([], l) | [] => ([], l) end.
Definition num_int (l1 : list byte) : option (list byte * list byte) :=
  match l1 with
  | b :: l' => if bool_decide (b = ch "0") then Some ([b], l')
               else let '(d, r) := span_digits l1 in if bool_decide (d = []) then None else Some (d, r)
  | [] => None
  end.
Definition num_frac (l2 : list byte) : option (list byte * list byte) :=
  match l2 with
  | b :: l' => if bool_decide (b = ch ".") then
                 let '(d, r) := span_digits l' in if bool_decide (d = []) then None else Some (b :: d, r)
               else Some ([], l2)
  | [] => Some ([], l2)
  end.
Definition num_expsign (l : list byte) : list byte * list byte :=
  match l with
  | c :: r => if bool_decide (c = ch "+" ∨ c = ch "-") then ([c], r) else ([], l)
  | [] => ([], l)
  end.
Definition num_exp (l3 : list byte) : option (list byte * list byte) :=
  match l3 with
  | b :: l' => if bool_decide (b = ch "e" ∨ b = ch "E") then
                 let '(sg, l'') := num_expsign l' in
                 let '(d, r) := span_digits l'' in if bool_decide (d = []) then None else Some (b :: sg ++ d, r)
               else Some ([], l3)
  | [] => Some ([], l3)
  end.

Lemma parse_number_parts l :
  parse_number l =
  let '(sign, l1) := num_sign l in
  '(int, l2) ← num_int l1; '(frac, l3) ← num_frac l2; '(exp, l4) ← num_exp l3;
  Some (sign ++ int ++ frac ++ exp, l4).
Proof. done. Qed.

Lemma num_int_local l d r :
  num_int l = Some (d, r) → l = d ++ r ∧ d ≠ [] ∧ clear_of (λ b, bool_decide (b = ch "-")) d ∧
  ∀ x, clear_of is_digit_byte x → num_int (d ++ x) = Some (d, x).
Proof.
  destruct l as [|b l]; [done|]. cbn [num_int]. case_bool_decide as Hb.
  { intros [= <- <-]. subst b. split_and!; [done..|]. intros x _. done. }
  destruct (span_digits (b :: l)) as [d' r'] eqn:E. case_bool_decide as Hd; [done|]. intros [= <- <-].
  destruct (span_digits_local _ _ _ E) as (Hl & _ & Hx). destruct d' as [|b' d']; [done|].
  injection Hl as <- Hl. split_and!; [by rewrite Hl|done| |].
  - cbn. apply bool_decide_eq_false_2. intros ->. cbn in E. by change (is_digit_byte (ch "-")) with false in E.
  - intros x Hc. specialize (Hx x Hc). cbn [app num_int] in *. rewrite (bool_decide_eq_false_2 _ Hb), Hx. done.
Qed.

(** A fraction or an exponent, if there is one, starts with its mark. *)
Lemma num_frac_local l d r :
  num_frac l = Some (d, r) → l = d ++ r ∧ (∀ x, clear_of is_digit_byte x → clear_of is_digit_byte (d ++ x)) ∧
  ∀ x, clear_of is_digit_byte x → clear_of (λ b, bool_decide (b = ch ".")) x → num_frac (d ++ x) = Some (d, x).
Proof.
  assert (Hnone : ∀ x, clear_of (λ b, bool_decide (b = ch ".")) x → num_frac x = Some ([], x)).
  { intros [|c x]; [done|]. cbn. by intros ->. }
  destruct l as [|b l]; cbn [num_frac]; [intros [= <- <-]; by split_and!; [..|intros; apply Hnone]|].
  case_bool_decide as Hb; [|intros [= <- <-]; by split_and!; [..|intros; apply Hnone]]. subst b.
  destruct (span_digits l) as [d' r'] eqn:E. case_bool_decide as Hd; [done|]. intros [= <- <-].
  destruct (span_digits_local _ _ _ E) as (-> & _ & Hx). split_and!; [done|by intros|].
  intros x Hc _. cbn [app num_frac]. rewrite bool_decide_eq_true_2, Hx by done. by rewrite bool_decide_eq_false_2.
Qed.

Lemma num_exp_local l d r :
  num_exp l = Some (d, r) → l = d ++ r ∧
  (∀ x, stops x → clear_of is_digit_byte (d ++ x) ∧ clear_of (λ b, bool_decide (b = ch ".")) (d ++ x)) ∧
  ∀ x, stops x → num_exp (d ++ x) = Some (d, x).
Proof.
  assert (Hs : ∀ x, stops x → (clear_of is_digit_byte x ∧ clear_of (λ b, bool_decide (b = ch ".")) x) ∧
    num_exp x = Some ([], x)).
  { intros [|c x]; [done|]. cbn. unfold num_byte. intros [? Hc%bool_decide_eq_false]%orb_false_iff.
    rewrite !elem_of_cons in Hc. rewrite !bool_decide_eq_false_2 by tauto. done. }
  assert (Hnone : l = [] ++ l ∧ (∀ x, stops x → clear_of is_digit_byte ([] ++ x) ∧
      clear_of (λ b, bool_decide (b = ch ".")) ([] ++ x)) ∧ ∀ x, stops x → num_exp ([] ++ x) = Some ([], x)).
  { split_and!; [done|intros x Hx; apply Hs, Hx|intros x Hx; apply Hs, Hx]. }
  destruct l as [|b l]; cbn [num_exp]; [by intros [= <- <-]|].
  case_bool_decide as Hb; [|by intros [= <- <-]]. destruct (num_expsign l) as [sg l''] eqn:Eg.
  destruct (span_digits l'') as [d' r'] eqn:E. case_bool_decide as Hd; [done|]. intros [= <- <-].
  destruct (span_digits_local _ _ _ E) as (-> & _ & Hx).
  assert (l = sg ++ d' ++ r' ∧ ∀ x, num_expsign (sg ++ d' ++ x) = (sg, d' ++ x)) as [-> Hg].
  { destruct d' as [|c d']; [done|]. destruct l as [|b' l]; [done|]. cbn [app num_expsign] in Eg.
    destruct (bool_decide (b' = ch "+" ∨ b' = ch "-")) eqn:Hb'; simplify_eq; (split; [done|]); intros x;
      cbn [app num_expsign]; by rewrite Hb'. }
  split_and!; [cbn; by rewrite <-app_assoc| |].
  - intros x _. by destruct Hb as [-> | ->].
  - intros x Hc. cbn [app num_exp]. rewrite bool_decide_eq_true_2 by done. rewrite <-app_assoc, Hg, Hx.
    + by rewrite bool_decide_eq_false_2.
    + by apply stops_digit.
Qed.

Lemma parse_number_local l t r :
  parse_number l = Some (t, r) → l = t ++ r ∧ t ≠ [] ∧ ∀ x, stops x → parse_number (t ++ x) = Some (t, x).
Proof.
  rewrite parse_number_parts. destruct (num_sign l) as [sg l1] eqn:Es. cbv beta iota.
  destruct (num_int l1) as [[int l2]|] eqn:Ei; [|done]. cbn [mbind option_bind].
  destruct (num_frac l2) as [[frac l3]|] eqn:Ef; [|done]. cbn [mbind option_bind].
  destruct (num_exp l3) as [[exp l4]|] eqn:Ee; [|done]. cbn [mbind option_bind]. intros [= <- <-].
  apply num_int_local in Ei as (-> & Hne & Hm & Hi). apply num_frac_local in Ef as (-> & Hf1 & Hf).
  apply num_exp_local in Ee as (-> & He1 & He).
  assert (Hsg : l = sg ++ int ++ frac ++ exp ++ l4 ∧ ∀ x, num_sign (sg ++ int ++ x) = (sg, int ++ x)).
  { destruct int as [|c int]; [done|]. destruct l as [|b l]; [done|]. cbn [num_sign] in Es.
    case_bool_decide; simplify_eq; (split; [done|]); intros x; cbn in *; [done|by rewrite Hm]. }
  destruct Hsg as [-> Hsg]. split_and!; [by rewrite <-!app_assoc| |].
  - destruct sg; [|done]. by destruct int.
  - intros x Hx. rewrite parse_number_parts, <-!app_assoc, Hsg. cbv beta iota. destruct (He1 x Hx) as [Hc Hp].
    rewrite Hi by (by apply Hf1). cbn [mbind option_bind]. rewrite Hf by done. cbn [mbind option_bind].
    rewrite He by done. done.
Qed.

(** ** Values *)

(** A byte found after spaces: the spaces can be read again before any text. *)
Lemma separator l c l' :
  skip_space l = c :: l' →
  ∃ sp, l = sp ++ c :: l' ∧ ∀ x, skip_space (sp ++ c :: x) = c :: x ∧ (num_byte c = false → stops (sp ++ c :: x)).
Proof.
  intros H. destruct (skip_space_cons _ _ _ H) as (sp & -> & Hsp). exists sp. split; [done|].
  intros x. split; [done|]. intros Hc. destruct sp as [|s sp]; [done|]. cbn.
  specialize (Hsp l'). cbn in Hsp. destruct (is_space s) eqn:Hs.
  - clear H Hsp. revert s Hs. assert (Hall : ∀ s, negb (is_space s) || negb (num_byte s) = true).
    { apply byte_forall; by vm_compute. }
    intros s Hs. specialize (Hall s). rewrite Hs in Hall. by apply negb_true_iff in Hall.
  - apply (f_equal length) in Hsp. cbn in Hsp. rewrite length_app in Hsp. cbn in Hsp. lia.
Qed.

(** A fuelled reader of values of type [A] within a nesting. *)
Definition reader (A : Type) : Type := nat → Z → list byte → option (A * list byte).

(** [t] is all the reader needs to read [x], before anything [ok] allows. *)
Definition text_of {A} (p : reader A) (ok : list byte → Prop) (d : Z) (t : list byte) (x : A) : Prop :=
  skip_space t ≠ [] ∧
  ∀ f d' rest, (2 * length t ≤ f)%nat → d ≤ d' → ok rest → p f d' (t ++ rest) = Some (x, rest).

(** Whatever the reader reads with fuel [f], it reads from a text of its own,
    before what there was after it and before anything [ok] allows. *)
Definition local {A} (p : reader A) (ok : list byte → Prop) (f : nat) : Prop :=
  ∀ d l x r, p f d l = Some (x, r) → ∃ t, l = t ++ r ∧ text_of p (λ rest, ok rest ∨ rest = r) d t x.

Definition any (_ : list byte) : Prop := True.

(** *** Lists of items in brackets *)

(** The loop of [parse_elems] and [parse_members] after an item. *)
Definition items_step {A} (item : reader A) (self : reader (list A)) (close : byte) (f : nat) (d : Z) (l : list byte) :
    option (list A * list byte) :=
  '(x, r) ← item f d l;
  match skip_space r with
  | c :: r' =>
      if bool_decide (c = ch ",") then '(xs, r'') ← self f d r'; Some (x :: xs, r'')
      else if bool_decide (c = close) then Some ([x], r') else None
  | [] => None
  end.

Lemma items_local {A} (item : reader A) self close f :
  num_byte close = false → close ≠ ch "," → (∀ d l, self 0%nat d l = None) →
  (∀ f d l, self (S f) d l = items_step item self close f d l) →
  local item stops f → local self any f → local self any (S f).
Proof.
  intros Hnum Hcl H0 HS Hitem Hself d l xs r. rewrite HS. unfold items_step at 1.
  destruct (item f d l) as [[x r1]|] eqn:Ei; [|done]. destruct (Hitem _ _ _ _ Ei) as (t & -> & Ht0 & Ht).
  cbn [mbind option_bind]. destruct (skip_space r1) as [|c r'] eqn:Es; [done|].
  destruct (separator _ _ _ Es) as (sp & -> & Hsp).
  assert (Hgo : ∀ t' xs', num_byte c = false → r' = t' ++ r → xs = xs' →
    (∀ f0 d' rest, (2 * length t' ≤ f0)%nat → d ≤ d' →
       (if bool_decide (c = ch ",") then '(xs, r'') ← self f0 d' (t' ++ rest); Some (x :: xs, r'')
        else if bool_decide (c = close) then Some ([x], t' ++ rest) else None) = Some (xs', rest)) →
    ∃ t0, t ++ sp ++ c :: r' = t0 ++ r ∧ text_of self (λ rest, any rest ∨ rest = r) d t0 xs).
  { intros t' xs' Hc -> -> Hrest. exists (t ++ sp ++ c :: t'). split; [by rewrite <-!app_assoc|]. split.
    { rewrite skip_space_blank by done. by destruct (skip_space t). }
    intros f' d' rest Hf Hd _. rewrite !length_app in Hf. cbn [length] in Hf. destruct f' as [|f']; [lia|].
    rewrite HS. unfold items_step. rewrite <-!app_assoc. cbn [app].
    rewrite Ht by (lia || by left; apply Hsp). cbn [mbind option_bind]. rewrite (proj1 (Hsp _)). apply Hrest; lia. }
  destruct (decide (c = ch ",")) as [->|Hc].
  - rewrite bool_decide_eq_true_2 in Hgo |- * by done.
    destruct (self f d r') as [[xs' r'']|] eqn:Exs; [|done]. intros [= <- <-].
    destruct (Hself _ _ _ _ Exs) as (t' & -> & _ & Ht'). apply (Hgo t' (x :: xs')); [done..|].
    intros f0 d' rest Hf Hd. by rewrite Ht' by (done || by left).
  - rewrite (bool_decide_eq_false_2 _ Hc) in Hgo |- *. case_bool_decide as Hc'; [|done]. subst c.
    intros [= <- <-]. by apply (Hgo [] [x]).
Qed.

(** The part of [parse_value] after an opening bracket. *)
Definition group {A} (p : reader (list A)) (close : byte) (mk : list A → json) (f : nat) (d : Z) (l1 : list byte) :
    option (json * list byte) :=
  if d <=? 0 then None
  else match skip_space l1 with
  | c :: l2 => if bool_decide (c = close) then Some (mk [], l2)
               else '(xs, r) ← p f (d - 1) (c :: l2); Some (mk xs, r)
  | [] => None
  end.

(** What is read after the byte [b] that tells the kind of the value. *)
Definition at_text (p : reader json) (d : Z) (l1 : list byte) (v : json) (r : list byte) : Prop :=
  ∃ t, l1 = t ++ r ∧
  ∀ f d' rest, (2 * length t ≤ f)%nat → d ≤ d' → stops rest ∨ rest = r → p f d' (t ++ rest) = Some (v, rest).

Lemma group_local {A} (p : reader (list A)) close mk f d l1 v r :
  local p any f → group p close mk f d l1 = Some (v, r) → at_text (group p close mk) d l1 v r.
Proof.
  intros Hp. unfold group at 1. destruct (Z.leb_spec d 0) as [|Hd]; [done|].
  destruct (skip_space l1) as [|c l2] eqn:Es; [done|]. destruct (separator _ _ _ Es) as (sp & -> & Hsp).
  assert (Hopen : ∀ d', d ≤ d' → d' <=? 0 = false) by (intros; lia).
  case_bool_decide as Hc.
  - intros [= <- <-]. exists (sp ++ [c]). split; [by rewrite <-app_assoc|]. intros f' d' rest _ Hd' _.
    unfold group. rewrite Hopen, <-app_assoc by done. cbn [app]. rewrite (proj1 (Hsp _)). by rewrite bool_decide_eq_true_2.
  - destruct (p f (d - 1) (c :: l2)) as [[xs r']|] eqn:Ep; [|done]. intros [= <- <-].
    destruct (Hp _ _ _ _ Ep) as ([|c' t] & Hl & Hne & Ht); [done|]. injection Hl as <- ->.
    exists (sp ++ c :: t). split; [by rewrite <-app_assoc|]. intros f' d' rest Hf Hd' _.
    unfold group. rewrite Hopen, <-app_assoc by done. cbn [app]. rewrite (proj1 (Hsp _)).
    rewrite (bool_decide_eq_false_2 _ Hc). rewrite length_app in Hf. cbn [app] in Ht. by rewrite Ht by (lia || by left).
Qed.

(** *** The parser *)

(** A value whose kind the byte [b] tells. *)
Definition value_at (b : byte) : reader json := λ f d l1,
  if bool_decide (b = ch "{") then group parse_members (ch "}") JObject f d l1
  else if bool_decide (b = ch "[") then group parse_elems (ch "]") JArray f d l1
  else if bool_decide (b = dq) then
    '(s, r) ← unquote (length l1) l1; Some (JString (string_of s), r)
  else if bool_decide (b = ch "n") then r ← strip_bytes (bytes_of "ull") l1; Some (JNull, r)
  else if bool_decide (b = ch "t") then r ← strip_bytes (bytes_of "rue") l1; Some (JBool true, r)
  else if bool_decide (b = ch "f") then r ← strip_bytes (bytes_of "alse") l1; Some (JBool false, r)
  else '(lit, r) ← parse_number (b :: l1); Some (JNumber lit, r).

Lemma parse_value_S f d l :
  parse_value (S f) d l = match skip_space l with [] => None | b :: l1 => value_at b f d l1 end.
Proof. done. Qed.

(** One member: its name, a colon and its value with the value's text. *)
Definition member_at : reader (string * (list byte * json)) := λ f d l,
  match skip_space l with
  | c :: l1 =>
      if bool_decide (c = dq) then
        '(k, r) ← unquote (length l1) l1;
        match skip_space r with
        | d0 :: r1 =>
            if bool_decide (d0 = ch ":") then
              '(v, r2) ← parse_value f d r1;
              Some (string_of k, (take (length (skip_space r1) - length r2) (skip_space r1), v), r2)
            else None
        | [] => None
        end
      else None
  | [] => None
  end.

Lemma parse_members_items f d l : parse_members (S f) d l = items_step member_at parse_members (ch "}") f d l.
Proof.
  unfold items_step, member_at. cbn [parse_members]. destruct (skip_space l) as [|c l1]; [done|].
  case_bool_decide; [|done]. destruct (unquote _ l1) as [[k r]|]; [|done]. cbn [mbind option_bind].
  destruct (skip_space r) as [|e r1]; [done|]. case_bool_decide; [|done].
  by destruct (parse_value f d r1) as [[v r2]|].
Qed.

Lemma strip_bytes_local p l r : strip_bytes p l = Some r → l = p ++ r ∧ ∀ x, strip_bytes p (p ++ x) = Some x.
Proof.
  revert l; induction p as [|a p IH]; intros l; [by intros [= ->]|]. destruct l as [|b l]; [done|]. cbn.
  case_decide; [|done]. subst b. intros (-> & Hx)%IH. split; [done|]. intros x. by rewrite decide_True.
Qed.

(** A keyword after its first letter. *)
Lemma word_at p v (q : reader json) d l1 r :
  (∀ f d l, q f d l = (x ← strip_bytes p l; Some (v, x))) →
  (x ← strip_bytes p l1; Some (v, x)) = Some (v, r) → at_text q d l1 v r.
Proof.
  intros Hq. destruct (strip_bytes p l1) as [x|] eqn:E; [|done]. intros [= ->].
  destruct (strip_bytes_local _ _ _ E) as [-> Hx]. exists p. split; [done|]. intros. by rewrite Hq, Hx.
Qed.

Lemma value_at_local b f d l1 v r :
  is_space b = false → local parse_members any f → local parse_elems any f →
  value_at b f d l1 = Some (v, r) → at_text (value_at b) d l1 v r.
Proof.
  intros Hb Hm He. unfold value_at.
  case_bool_decide as H1; [by apply group_local|]. case_bool_decide as H2; [by apply group_local|].
  case_bool_decide as H3.
  { destruct (unquote _ l1) as [[s r']|] eqn:E; [|done]. intros [= <- <-].
    destruct (unquote_local _ _ _ _ E) as (t & -> & Ht). exists (t ++ [dq]). split; [by rewrite <-app_assoc|].
    intros f' d' rest _ _ _. rewrite <-app_assoc. cbn [app]. rewrite Ht; [done|]. rewrite length_app. cbn. lia. }
  assert (Hword : ∀ p w, (x ← strip_bytes p l1; Some (w, x)) = Some (v, r) →
    at_text (λ _ _ l, x ← strip_bytes p l; Some (w, x)) d l1 v r).
  { intros p w H. assert (w = v) as -> by (destruct (strip_bytes p l1); by simplify_eq/=). by eapply word_at. }
  case_bool_decide as H4; [apply Hword|]. case_bool_decide as H5; [apply Hword|].
  case_bool_decide as H6; [apply Hword|].
  destruct (parse_number (b :: l1)) as [[lit r']|] eqn:E; [|done]. intros [= <- <-].
  destruct (parse_number_local _ _ _ E) as (Hl & Hne & Ht). destruct lit as [|b' t]; [done|].
  injection Hl as <- ->. exists t. split; [done|]. intros f' d' rest _ _ [Hs| ->]; [cbn [app] in Ht; by rewrite Ht|by rewrite E].
Qed.

Lemma value_local f :
  local parse_members any f → local parse_elems any f → local parse_value stops (S f).
Proof.
  intros Hm He d l v r. rewrite parse_value_S. destruct (skip_space l) as [|b l1] eqn:Es; [done|]. intros Hv.
  pose proof (skip_space_head _ _ _ Es) as Hb.
  destruct (value_at_local _ _ _ _ _ _ Hb Hm He Hv) as (t & -> & Ht).
  destruct (separator _ _ _ Es) as (sp & -> & Hsp). exists (sp ++ b :: t). split; [by rewrite <-app_assoc|]. split.
  { by rewrite (proj1 (Hsp t)). }
  intros f' d' rest Hf Hd Hr. rewrite length_app in Hf. cbn [length] in Hf. destruct f' as [|f']; [lia|].
  rewrite parse_value_S, <-app_assoc. cbn [app]. rewrite (proj1 (Hsp _)). apply Ht; [lia|done..].
Qed.

Lemma member_local f : local parse_value stops f → local member_at stops f.
Proof.
  intros Hv d l m r. unfold member_at at 1. destruct (skip_space l) as [|c l1] eqn:Es; [done|].
  destruct (separator _ _ _ Es) as (sp & -> & Hsp). case_bool_decide as Hc; [|done]. subst c.
  destruct (unquote _ l1) as [[k r1]|] eqn:Eu; [|done]. destruct (unquote_local _ _ _ _ Eu) as (tk & -> & Htk).
  cbn [mbind option_bind]. destruct (skip_space r1) as [|c r2] eqn:Es1; [done|].
  destruct (separator _ _ _ Es1) as (sp1 & -> & Hsp1). case_bool_decide as Hc; [|done]. subst c.
  destruct (parse_value f d r2) as [[v r3]|] eqn:Ev; [|done]. intros [= <- <-].
  destruct (Hv _ _ _ _ Ev) as (tv & -> & Htv0 & Htv).
  exists (sp ++ dq :: tk ++ dq :: sp1 ++ ch ":" :: tv). split; [by simplify_list_eq|]. split.
  { by rewrite (proj1 (Hsp _)). }
  intros f' d' rest Hf Hd Hr. unfold member_at. rewrite !length_app in Hf. cbn [length] in Hf.
  rewrite !length_app in Hf. cbn [length] in Hf. rewrite length_app in Hf. cbn [length] in Hf.
  rewrite <-app_assoc. cbn [app]. rewrite (proj1 (Hsp _)), bool_decide_eq_true_2 by done.
  rewrite <-app_assoc. cbn [app]. rewrite Htk by (rewrite length_app; cbn; lia). cbn [mbind option_bind].
  rewrite <-app_assoc. cbn [app]. rewrite (proj1 (Hsp1 _)), bool_decide_eq_true_2 by done.
  rewrite Htv by (lia || done). cbn [mbind option_bind].
  rewrite !skip_space_blank, !length_app, !Nat.add_sub, !take_app_length by done. done.
Qed.

(** The three readers are local, with any fuel. *)
Lemma parser_local f : local parse_value stops f ∧ local parse_elems any f ∧ local parse_members any f.
Proof.
  induction f as [|f (IHv & IHe & IHm)]; [by split_and!; intros ????|]. split_and!.
  - by apply value_local.
  - by apply (items_local parse_value parse_elems (ch "]")).
  - apply (items_local member_at parse_members (ch "}")); [done..|apply parse_members_items|by apply member_local|done].
Qed.

(** ** What it gives *)

(** The fuel of [parse_prefix] is enough: what any fuel finds, it finds. *)
Lemma parse_fuel f l v r : parse_value f maxNestingDepth l = Some (v, r) → parse_prefix l = Some (v, r).
Proof.
  intros H. destruct (proj1 (parser_local f) _ _ _ _ H) as (t & -> & _ & Ht).
  apply Ht; [rewrite length_app; lia|done|by right].
Qed.

(** A text that is one value, with [d] levels of nesting at most. *)
Definition value_text (d : Z) (t : list byte) : bool :=
  match parse_value (2 * length t + 2) d t with Some (_, []) => true | _ => false end.

(** It is read as that value before anything that can follow one. *)
Lemma value_text_read d t :
  value_text d t = true →
  skip_space t ≠ [] ∧ ∃ v, ∀ f d' rest, (2 * length t ≤ f)%nat → d ≤ d' → stops rest →
    parse_value f d' (t ++ rest) = Some (v, rest).
Proof.
  unfold value_text. destruct (parse_value _ d t) as [[v [|]]|] eqn:E; try done. intros _.
  destruct (proj1 (parser_local _) _ _ _ _ E) as (t' & -> & Hne & Ht). rewrite app_nil_r. split; [done|].
  exists v. intros f d' rest ???. apply Ht; auto.
Qed.
