(* ===== verification/Rfc3339.v ===== *)
(** * Instants and their JSON text (time: RFC 3339)

    [time.Time] as the wire types use it: an instant and the offset of the zone
    it is shown in; [MarshalJSON] (RFC3339Nano) and [UnmarshalJSON] (whose
    strict parser falls back to [time.Parse], so that it accepts what [Parse]
    does).  The calendar is the proleptic Gregorian one. *)

From S2P Require Import Prelude GoStd BigRat Utf8 Json.

Local Open Scope Z_scope.

(** Nanoseconds since the Unix epoch, seconds east of UTC. *)
Record Time := MkTime { unix_nanos : Z; zone : Z }.

(** The zero value: 1 January of the year 1, UTC. *)
Definition zero_time : Time := MkTime (- 62135596800 * 10 ^ 9) 0.

#[export] Instance Time_eq_dec : EqDecision Time.
Proof. solve_decision. Defined.

(** ** The calendar; days are counted from 1 January of the year 1 *)

Definition isLeap (y : Z) : bool :=
  (y mod 4 =? 0) && (negb (y mod 100 =? 0) || (y mod 400 =? 0)).
Definition daysIn (y m : Z) : Z :=
  if m =? 2 then if isLeap y then 29 else 28
  else if (m =? 4) || (m =? 6) || (m =? 9) || (m =? 11) then 30 else 31.

Definition days_before_year (y : Z) : Z :=
  let p := y - 1 in 365 * p + p / 4 - p / 100 + p / 400.
Fixpoint days_before_month (y : Z) (n : nat) : Z :=
  match n with O => 0 | S n' => days_before_month y n' + daysIn y (Z.of_nat n) end.
Definition days_of (y m d : Z) : Z :=
  days_before_year y + days_before_month y (Z.to_nat (m - 1)) + (d - 1).

(** The month and the day of a day of the year. *)
Fixpoint month_of (y : Z) (m fuel : nat) (yday : Z) : Z * Z :=
  match fuel with
  | O => (Z.of_nat m, yday + 1)
  | S fuel' =>
      let n := daysIn y (Z.of_nat m) in
      if yday <? n then (Z.of_nat m, yday + 1) else month_of y (S m) fuel' (yday - n)
  end.

(** Cycles of 400 years, centuries, four years, years. *)
Definition date_of (days : Z) : Z * Z * Z :=
  let n400 := days / 146097 in let r := days mod 146097 in
  let n100 := Z.min (r / 36524) 3 in let r := r - n100 * 36524 in
  let n4 := r / 1461 in let r := r - n4 * 1461 in
  let n1 := Z.min (r / 365) 3 in let r := r - n1 * 365 in
  let y := 400 * n400 + 100 * n100 + 4 * n4 + n1 + 1 in
  let '(m, d) := month_of y 1 12 r in (y, m, d).

Definition unix_day : Z := 719162.          (* 1 January 1970 *)

(** ** Printing *)

Definition fmt2 (n : Z) : list byte := [digit_char (n / 10); digit_char (n mod 10)].
Definition fmt4 (n : Z) : list byte := fmt2 (n / 100) ++ fmt2 (n mod 100).

(** The decimals of a number of nanoseconds without trailing zeros. *)
Fixpoint decimals (k : nat) (ns : Z) : list Z :=
  match k with
  | O => []
  | S k' => if ns =? 0 then [] else (ns / 10 ^ Z.of_nat k') :: decimals k' (ns mod 10 ^ Z.of_nat k')
  end.
Definition fmt_nanos (ns : Z) : list byte :=
  if ns =? 0 then [] else ch "." :: (digit_char <$> decimals 9 ns).

Definition fmt_zone (offset : Z) : list byte :=
  if offset =? 0 then [ch "Z"]
  else let z := Z.quot offset 60 in
    (if z <? 0 then ch "-" else ch "+") :: fmt2 (Z.abs z / 60) ++ ch ":" :: fmt2 (Z.abs z mod 60).

(** [appendStrictRFC3339]: [None] for a year or a zone RFC 3339 cannot write. *)
Definition format (t : Time) : option (list byte) :=
  let local := unix_nanos t + zone t * 10 ^ 9 in
  let secs := local / 10 ^ 9 in
  let '(y, m, d) := date_of (secs / 86400 + unix_day) in
  let s := secs mod 86400 in
  if (0 <=? y) && (y <=? 9999) && (Z.abs (Z.quot (zone t) 60) / 60 <? 24) then
    Some (fmt4 y ++ ch "-" :: fmt2 m ++ ch "-" :: fmt2 d ++ ch "T" ::
          fmt2 (s / 3600) ++ ch ":" :: fmt2 (s / 60 mod 60) ++ ch ":" :: fmt2 (s mod 60) ++
          fmt_nanos (local mod 10 ^ 9) ++ fmt_zone (zone t))
  else None.

Definition MarshalTime (t : Time) : option (list byte) := s ← format t; Some (dq :: s ++ [dq]).

(** ** Parsing *)

Definition num (b : byte) : Z := byte_to_Z b - 48.

Definition getnum (fixed : bool) (l : list byte) : option (Z * list byte) :=
  match l with
  | a :: l1 =>
      if is_digit_byte a then
        match l1 with
        | b :: l2 => if is_digit_byte b then Some (num a * 10 + num b, l2)
                     else if fixed then None else Some (num a, l1)
        | [] => if fixed then None else Some (num a, l1)
        end
      else None
  | [] => None
  end.

(** Four digits. *)
Definition getyear (l : list byte) : option (Z * list byte) :=
  '(hi, l) ← getnum true l; '(lo, l) ← getnum true l; Some (hi * 100 + lo, l).

Definition skip1 (c : byte) (l : list byte) : option (list byte) :=
  match l with b :: l' => if bool_decide (b = c) then Some l' else None | [] => None end.

(** A fraction of a second the layout does not ask for: at most nine of its
    digits count. *)
Definition getnanos (l : list byte) : Z * list byte :=
  match l with
  | c :: (b :: _) as l1 =>
      if bool_decide (c = ch "." ∨ c = ch ",") && is_digit_byte b then
        let '(ds, r) := span_digits l1 in
        let ds := take 9 ds in
        (dec_value 0 (num <$> ds) * 10 ^ (9 - Z.of_nat (length ds)), r)
      else (0, l)
  | _ => (0, l)
  end.

(** Hours up to 24 and minutes up to 60 pass. *)
Definition getzone (l : list byte) : option (Z * list byte) :=
  match l with
  | [] => None
  | sign :: l1 =>
      if bool_decide (sign = ch "Z") then Some (0, l1)
      else
        '(hr, l2) ← getnum true l1; l3 ← skip1 (ch ":") l2; '(mm, l4) ← getnum true l3;
        if (24 <? hr) || (60 <? mm) then None
        else if bool_decide (sign = ch "+") then Some ((hr * 60 + mm) * 60, l4)
        else if bool_decide (sign = ch "-") then Some (- ((hr * 60 + mm) * 60), l4)
        else None
  end.

(** [time.Parse(time.RFC3339, l)]. *)
Definition Parse (l : list byte) : option Time :=
  '(y, l) ← getyear l; l ← skip1 (ch "-") l;
  '(m, l) ← getnum true l; l ← skip1 (ch "-") l;
  '(d, l) ← getnum true l; l ← skip1 (ch "T") l;
  '(hh, l) ← getnum false l; l ← skip1 (ch ":") l;
  '(mi, l) ← getnum true l; l ← skip1 (ch ":") l;
  '(ss, l) ← getnum true l;
  let '(ns, l) := getnanos l in
  '(off, l) ← getzone l;
  if (1 <=? m) && (m <=? 12) && (1 <=? d) && (d <=? daysIn y m) && (hh <? 24) && (mi <? 60) && (ss <? 60) &&
     bool_decide (l = [])
  then Some (MkTime (((days_of y m d - unix_day) * 86400 + hh * 3600 + mi * 60 + ss - off) * 10 ^ 9 + ns) off)
  else None.

(** [UnmarshalJSON] on the text of the value: null leaves the time as it is;
    escapes are not undone. *)
Definition UnmarshalTime (raw : list byte) (cur : Time) : option Time :=
  if bool_decide (raw = bytes_of "null") then Some cur
  else match raw, last raw with
  | b :: (_ :: _) as raw', Some e =>
      if bool_decide (b = dq ∧ e = dq) then Parse (take (length raw' - 1) raw') else None
  | _, _ => None
  end.

(** ** The calendar's round trip *)

Lemma daysIn_bound y m : 28 ≤ daysIn y m ≤ 31.
Proof. unfold daysIn. repeat case_match; lia. Qed.

(** [month_of] subtracts the months before, one after the other. *)
Lemma month_of_spec y fuel m yday md :
  (0 < m)%nat → 0 ≤ yday →
  days_before_month y (m - 1) + yday < days_before_month y (m - 1 + fuel) →
  month_of y m fuel yday = md →
  Z.of_nat m ≤ md.1 < Z.of_nat (m + fuel) ∧ 1 ≤ md.2 ≤ daysIn y md.1 ∧
  days_before_month y (Z.to_nat (md.1 - 1)) + (md.2 - 1) = days_before_month y (m - 1) + yday.
Proof.
  revert m yday. induction fuel as [|fuel IH]; intros m yday Hm H0 Hlt; [rewrite Nat.add_0_r in Hlt; lia|].
  assert (Hstep : days_before_month y m = days_before_month y (m - 1) + daysIn y (Z.of_nat m))
    by (destruct m as [|m]; [lia|]; cbn [days_before_month]; by rewrite Nat.sub_1_r).
  cbn [month_of]. destruct (Z.ltb_spec yday (daysIn y (Z.of_nat m))) as [Hl|Hl].
  - intros <-. cbn [fst snd]. replace (Z.to_nat (Z.of_nat m - 1)) with (m - 1)%nat by lia. lia.
  - intros Hmd. specialize (IH (S m) (yday - daysIn y (Z.of_nat m))).
    replace (S m - 1)%nat with m in IH by lia.
    replace (m - 1 + S fuel)%nat with (m + fuel)%nat in Hlt by lia.
    destruct IH as (H1 & H2 & H3); [lia|lia|lia|done|]. split_and!; lia.
Qed.

Lemma days_before_month_12 y : days_before_month y 12 = 365 + (if isLeap y then 1 else 0).
Proof.
  unfold days_before_month, daysIn. cbn. destruct (isLeap y); reflexivity.
Qed.

Lemma isLeap_spec y : isLeap y = true ↔ y mod 4 = 0 ∧ (y mod 100 ≠ 0 ∨ y mod 400 = 0).
Proof. unfold isLeap. rewrite andb_true_iff, orb_true_iff, negb_true_iff. lia. Qed.

(** A quotient clipped at 3 leaves a remainder of at most the divisor. *)
Lemma clipped_quotient r k :
  0 < k → 0 ≤ r ≤ 4 * k →
  let q := Z.min (r / k) 3 in 0 ≤ q ≤ 3 ∧ 0 ≤ r - q * k ≤ k ∧ (q < 3 → r - q * k < k).
Proof.
  intros Hk Hr q. pose proof (Z.div_mod r k ltac:(lia)). pose proof (Z.mod_pos_bound r k Hk).
  assert (0 ≤ r / k) by (apply Z.div_pos; lia).
  subst q. destruct (Z.min_spec (r / k) 3) as [[? ->]|[? ->]]; [nia|]. split_and!; nia.
Qed.

(** Every day has a date, and the date gives the day back. *)
Lemma date_of_spec n y m d :
  date_of n = (y, m, d) → days_of y m d = n ∧ 1 ≤ m ≤ 12 ∧ 1 ≤ d ≤ daysIn y m.
Proof.
  unfold date_of. cbv zeta. pose proof (Z.div_mod n 146097 ltac:(lia)) as Hn.
  pose proof (Z.mod_pos_bound n 146097 ltac:(lia)) as Hr.
  set (a := n / 146097) in *. set (r := n mod 146097) in *. clearbody a r.
  pose proof (clipped_quotient r 36524 ltac:(lia) ltac:(lia)) as Hb. cbv zeta in Hb.
  set (b := Z.min (r / 36524) 3) in *. clearbody b.
  pose proof (Z.div_mod (r - b * 36524) 1461 ltac:(lia)) as Hc.
  pose proof (Z.mod_pos_bound (r - b * 36524) 1461 ltac:(lia)) as Hc'.
  set (c := (r - b * 36524) / 1461) in *. set (r2 := (r - b * 36524) mod 1461) in *. clearbody c r2.
  replace (r - b * 36524 - c * 1461) with r2 by lia. assert (0 ≤ c ≤ 24) by lia.
  pose proof (clipped_quotient r2 365 ltac:(lia) ltac:(lia)) as He. cbv zeta in He.
  set (e := Z.min (r2 / 365) 3) in *. clearbody e. set (yd := r2 - e * 365) in *.
  assert (Hyd : r2 = e * 365 + yd) by lia. clearbody yd.
  set (Y := 400 * a + 100 * b + 4 * c + e + 1).
  assert (HY : days_before_year Y = 146097 * a + 36524 * b + 1461 * c + 365 * e).
  { unfold days_before_year, Y. rewrite <- (Z.div_unique _ 4 (100 * a + 25 * b + c) e) by lia.
    rewrite <- (Z.div_unique _ 100 (4 * a + b) (4 * c + e)) by lia.
    rewrite <- (Z.div_unique _ 400 a (100 * b + 4 * c + e)) by lia. lia. }
  assert (Hlt : yd < days_before_month Y 12).
  { rewrite days_before_month_12. destruct (isLeap Y) eqn:Hl; [lia|].
    enough (yd ≠ 365) by lia. intros H365.
    enough (isLeap Y = true) by congruence. apply isLeap_spec. assert (e = 3) by lia.
    split; [symmetry; apply (Z.mod_unique_pos _ _ (100 * a + 25 * b + c + 1)); unfold Y; lia|].
    destruct (decide (c = 24)) as [->|Hc24]; [right|left].
    - assert (b = 3) by lia. symmetry. apply (Z.mod_unique_pos _ _ (a + 1)); unfold Y; lia.
    - rewrite <- (Z.mod_unique_pos _ 100 (4 * a + b) (4 * c + 4)); unfold Y; lia. }
  destruct (month_of Y 1 12 yd) as [m' d'] eqn:Hm. intros [= <- <- <-].
  destruct (month_of_spec Y 12 1 yd (m', d')) as (H1 & H2 & H3); [lia|lia|done|done|].
  cbn [fst snd days_before_month Nat.sub] in *. unfold days_of. split_and!; lia.
Qed.

(** ** The text's round trip *)

Lemma digit_char_num d : is_digit d → is_digit_byte (digit_char d) = true ∧ num (digit_char d) = d.
Proof.
  unfold is_digit, is_digit_byte, byte_in, num, digit_char. intros Hd. rewrite byte_to_Z_to_byte.
  rewrite Z.mod_small by lia. lia.
Qed.

Lemma getnum_fmt2 fixed n l : 0 ≤ n < 100 → getnum fixed (fmt2 n ++ l) = Some (n, l).
Proof.
  intros Hn. pose proof (Z.div_mod n 10 ltac:(lia)) as Hdm. pose proof (Z.mod_pos_bound n 10 ltac:(lia)).
  destruct (digit_char_num (n / 10)) as [H1 H2]; [unfold is_digit; lia|].
  destruct (digit_char_num (n mod 10)) as [H3 H4]; [unfold is_digit; lia|].
  cbn [fmt2 app getnum]. rewrite H1, H3, H2, H4. f_equal. f_equal. lia.
Qed.

Lemma getyear_fmt4 n l : 0 ≤ n ≤ 9999 → getyear (fmt4 n ++ l) = Some (n, l).
Proof.
  intros Hn. pose proof (Z.div_mod n 100 ltac:(lia)). pose proof (Z.mod_pos_bound n 100 ltac:(lia)).
  unfold getyear, fmt4. rewrite <- app_assoc, getnum_fmt2 by lia. cbn [mbind option_bind].
  rewrite getnum_fmt2 by lia. cbn [mbind option_bind]. f_equal. f_equal. lia.
Qed.

Lemma skip1_same c l : skip1 c (c :: l) = Some l.
Proof. cbn. by rewrite bool_decide_eq_true_2. Qed.

(** The decimals have the value they were made from, scaled. *)
Lemma decimals_spec k ns :
  0 ≤ ns < 10 ^ Z.of_nat k →
  Forall is_digit (decimals k ns) ∧ (length (decimals k ns) ≤ k)%nat ∧
  dec_value 0 (decimals k ns) * 10 ^ (Z.of_nat k - Z.of_nat (length (decimals k ns))) = ns.
Proof.
  revert ns. induction k as [|k IH]; intros ns Hns; cbn [decimals].
  - change (10 ^ Z.of_nat 0) with 1 in Hns. split_and!; [constructor|done|]. cbn. lia.
  - destruct (Z.eqb_spec ns 0) as [->|Hne]; [split_and!; [constructor|cbn; lia|done]|].
    rewrite Nat2Z.inj_succ, Z.pow_succ_r in Hns by lia.
    assert (Hp : 0 < 10 ^ Z.of_nat k) by lia.
    pose proof (Z.div_mod ns (10 ^ Z.of_nat k) ltac:(lia)) as Hdm.
    pose proof (Z.mod_pos_bound ns (10 ^ Z.of_nat k) Hp) as Hm.
    destruct (IH (ns mod 10 ^ Z.of_nat k) Hm) as (Hd & Hl & Hv).
    set (ds := decimals k (ns mod 10 ^ Z.of_nat k)) in *. cbn [length].
    assert (0 ≤ ns / 10 ^ Z.of_nat k < 10).
    { split; [apply Z.div_pos; lia|apply Z.div_lt_upper_bound; lia]. }
    split_and!; [by constructor|lia|].
    change (dec_value 0 (?d :: ds)) with (dec_value (0 * 10 + d) ds). rewrite dec_value_shift, Z.mul_add_distr_r.
    replace (Z.of_nat (S k) - Z.of_nat (S (length ds))) with (Z.of_nat k - Z.of_nat (length ds)) by lia.
    rewrite Hv, <- Z.mul_assoc, <- Z.pow_add_r by lia.
    replace (Z.of_nat (length ds) + (Z.of_nat k - Z.of_nat (length ds))) with (Z.of_nat k) by lia. lia.
Qed.

Lemma span_digits_app ds l :
  Forall is_digit ds → match l with b :: _ => is_digit_byte b = false | [] => True end →
  span_digits ((digit_char <$> ds) ++ l) = (digit_char <$> ds, l).
Proof.
  intros Hds Hl. induction Hds as [|d ds Hd _ IH]; cbn [fmap list_fmap app].
  - destruct l as [|b l]; [done|]. cbn. by rewrite Hl.
  - cbn [span_digits]. rewrite (proj1 (digit_char_num d Hd)), IH. done.
Qed.

Lemma num_digits ds : Forall is_digit ds → num <$> (digit_char <$> ds) = ds.
Proof. induction 1 as [|d ds Hd _ IH]; [done|]. cbn. rewrite (proj2 (digit_char_num d Hd)). by f_equal. Qed.

(** What follows the seconds is not taken for decimals. *)
Definition no_fraction (l : list byte) : Prop :=
  match l with b :: _ => b ≠ ch "." ∧ b ≠ ch "," ∧ is_digit_byte b = false | [] => True end.

Lemma getnanos_fmt ns l : 0 ≤ ns < 10 ^ 9 → no_fraction l → getnanos (fmt_nanos ns ++ l) = (ns, l).
Proof.
  intros Hns Hl. unfold fmt_nanos. destruct (Z.eqb_spec ns 0) as [->|Hne]; cbn [app].
  - destruct l as [|b [|c l]]; [done..|]. destruct Hl as (H1 & H2 & _). cbn [getnanos].
    rewrite bool_decide_eq_false_2; [done|]. by intros [?|?].
  - destruct (decimals_spec 9 ns Hns) as (Hd & Hlen & Hv).
    destruct (decimals 9 ns) as [|d ds] eqn:Hds.
    { cbn in Hds. destruct (Z.eqb_spec ns 0); [done|discriminate]. }
    cbn [fmap list_fmap app getnanos]. rewrite bool_decide_eq_true_2 by by left.
    pose proof Hd as [Hd1 _]%Forall_cons. rewrite (proj1 (digit_char_num d Hd1)). cbn [andb].
    change (digit_char d :: ((digit_char <$> ds) ++ l)) with ((digit_char <$> (d :: ds)) ++ l).
    rewrite span_digits_app; [|done|by destruct l; [|destruct Hl as (_ & _ & ?)]].
    rewrite take_ge by (rewrite length_fmap; lia). rewrite num_digits, length_fmap by done.
    f_equal. exact Hv.
Qed.

Lemma no_fraction_zone z : no_fraction (fmt_zone z).
Proof. unfold fmt_zone. destruct (z =? 0); [done|]. by destruct (_ <? 0). Qed.

Lemma getzone_fmt z :
  z mod 60 = 0 → Z.abs (Z.quot z 60) / 60 < 24 → getzone (fmt_zone z) = Some (z, []).
Proof.
  intros Hz H24. unfold fmt_zone. destruct (Z.eqb_spec z 0) as [->|Hne]; [done|].
  assert (Hq : z = 60 * Z.quot z 60) by (apply Z.quot_exact; [lia|by apply Z.rem_divide, Z.mod_divide]).
  set (q := Z.quot z 60) in *. clearbody q. subst z. cbv zeta.
  pose proof (Z.div_mod (Z.abs q) 60 ltac:(lia)). pose proof (Z.mod_pos_bound (Z.abs q) 60 ltac:(lia)).
  assert (0 ≤ Z.abs q / 60) by (apply Z.div_pos; lia).
  assert (Hs : (if q <? 0 then ch "-" else ch "+") ≠ ch "Z") by by destruct (q <? 0).
  cbn [getzone app]. rewrite bool_decide_eq_false_2 by done.
  rewrite getnum_fmt2 by lia. cbn [mbind option_bind]. rewrite skip1_same. cbn [mbind option_bind].
  rewrite <- (app_nil_r (fmt2 (Z.abs q mod 60))), getnum_fmt2 by lia. cbn [mbind option_bind].
  destruct (Z.ltb_spec 24 (Z.abs q / 60)), (Z.ltb_spec 60 (Z.abs q mod 60)); try lia. cbn [orb].
  destruct (Z.ltb_spec q 0); cbn; (f_equal; f_equal; lia).
Qed.

(** The numbers a text is made of, and the time they make. *)
Lemma format_parts t s :
  format t = Some s →
  ∃ y m d hh mi ss ns,
    s = fmt4 y ++ ch "-" :: fmt2 m ++ ch "-" :: fmt2 d ++ ch "T" :: fmt2 hh ++ ch ":" :: fmt2 mi ++ ch ":" ::
        fmt2 ss ++ fmt_nanos ns ++ fmt_zone (zone t) ∧
    0 ≤ y ≤ 9999 ∧ 1 ≤ m ≤ 12 ∧ 1 ≤ d ≤ daysIn y m ∧ 0 ≤ hh < 24 ∧ 0 ≤ mi < 60 ∧ 0 ≤ ss < 60 ∧ 0 ≤ ns < 10 ^ 9 ∧
    Z.abs (Z.quot (zone t) 60) / 60 < 24 ∧
    unix_nanos t = ((days_of y m d - unix_day) * 86400 + hh * 3600 + mi * 60 + ss - zone t) * 10 ^ 9 + ns.
Proof.
  destruct t as [ns z]. unfold format. cbn [unix_nanos zone].
  set (local := ns + z * 10 ^ 9). set (secs := local / 10 ^ 9).
  destruct (date_of (secs / 86400 + unix_day)) as [[y m] d] eqn:Hdate.
  destruct (date_of_spec _ _ _ _ Hdate) as (Hdays & Hm & Hd).
  destruct (_ && _) eqn:Hok; [|done]. intros <-%(inj Some). rewrite !andb_true_iff in Hok. destruct Hok as [[? ?] ?].
  pose proof (Z.mod_pos_bound secs 86400 ltac:(lia)) as Hs.
  pose proof (Z.div_mod secs 86400 ltac:(lia)) as Hsecs. pose proof (Z.div_mod local (10 ^ 9) ltac:(lia)) as Hlocal.
  pose proof (Z.mod_pos_bound local (10 ^ 9) ltac:(lia)) as Hns.
  fold secs in Hlocal. set (s := secs mod 86400) in *. set (nano := local mod 10 ^ 9) in *.
  pose proof (Z.div_mod s 60 ltac:(lia)) as H60. pose proof (Z.mod_pos_bound s 60 ltac:(lia)).
  pose proof (Z.div_mod (s / 60) 60 ltac:(lia)) as H3600. pose proof (Z.mod_pos_bound (s / 60) 60 ltac:(lia)).
  rewrite Z.div_div in H3600 by lia. change (60 * 60) with 3600 in H3600.
  assert (0 ≤ s / 3600 < 24) by (split; [apply Z.div_pos; lia|apply Z.div_lt_upper_bound; lia]).
  exists y, m, d, (s / 3600), (s / 60 mod 60), (s mod 60), nano. split; [done|].
  unfold local in *. split_and!; lia.
Qed.

(** A time whose zone is a whole number of minutes is read back from its text. *)
Lemma Parse_format t s : zone t mod 60 = 0 → format t = Some s → Parse s = Some t.
Proof.
  intros Hz (y & m & d & hh & mi & ss & ns & -> & ? & ? & ? & ? & ? & ? & ? & ? & Ht)%format_parts.
  pose proof (daysIn_bound y m).
  unfold Parse. rewrite getyear_fmt4 by lia. cbn [mbind option_bind]. rewrite skip1_same. cbn [mbind option_bind].
  do 4 (rewrite getnum_fmt2 by lia; cbn [mbind option_bind]; rewrite skip1_same; cbn [mbind option_bind]).
  rewrite getnum_fmt2 by lia. cbn [mbind option_bind].
  rewrite getnanos_fmt by (done || apply no_fraction_zone). rewrite getzone_fmt by lia. cbn [mbind option_bind].
  rewrite bool_decide_eq_true_2 by done.
  destruct (_ && true) eqn:Hc; [|exfalso; revert Hc; rewrite andb_true_r, <- not_true_iff_false, !andb_true_iff; lia].
  rewrite <- Ht. by destruct t.
Qed.

(** [MarshalJSON] and [UnmarshalJSON]. *)
Lemma Unmarshal_MarshalTime t s cur : zone t mod 60 = 0 → MarshalTime t = Some s → UnmarshalTime s cur = Some t.
Proof.
  intros Hz. unfold MarshalTime. destruct (format t) as [l|] eqn:Hf; [|done]. intros [= <-].
  unfold UnmarshalTime. rewrite bool_decide_eq_false_2 by done.
  destruct (l ++ [dq]) as [|b l'] eqn:Hl; [by destruct l|].
  assert (Hlast : last (dq :: b :: l') = Some dq) by (rewrite <- Hl; apply (last_snoc dq (dq :: l))).
  rewrite Hlast, bool_decide_eq_true_2 by done. rewrite <- Hl, length_app, take_app_length'; [|cbn; lia].
  by apply Parse_format.
Qed.
