(* ===== verification/Base64.v ===== *)
(** * Base64 (encoding/base64: StdEncoding), the JSON text of a []byte *)

From S2P Require Import Prelude Utf8 Json.

Local Open Scope Z_scope.

Definition alphabet : list byte :=
  bytes_of "ABCDEFGHIJKLMNOPQRSTUVWXYZabcdefghijklmnopqrstuvwxyz0123456789+/".

Definition b64char (n : Z) : byte := default x00 (alphabet !! Z.to_nat n).
Definition b64val (b : byte) : option Z :=
  (λ p : nat * byte, Z.of_nat p.1) <$> list_find (λ c, c = b) alphabet.

(** [EncodeToString]: four characters for three bytes, padded. *)
Fixpoint EncodeToString (l : list byte) : list byte :=
  match l with
  | a :: b :: c :: l' =>
      let v := byte_to_Z a * 65536 + byte_to_Z b * 256 + byte_to_Z c in
      b64char (v / 262144) :: b64char (v / 4096 mod 64) :: b64char (v / 64 mod 64) :: b64char (v mod 64) ::
      EncodeToString l'
  | [a; b] =>
      let v := byte_to_Z a * 65536 + byte_to_Z b * 256 in
      [b64char (v / 262144); b64char (v / 4096 mod 64); b64char (v / 64 mod 64); ch "="]
  | [a] =>
      let v := byte_to_Z a * 65536 in
      [b64char (v / 262144); b64char (v / 4096 mod 64); ch "="; ch "="]
  | [] => []
  end.

(** Quanta of four characters; padding ends the text, its spare bits are not
    looked at. *)
Fixpoint decode_quanta (l : list byte) : option (list byte) :=
  match l with
  | [] => Some []
  | a :: b :: c :: d :: l' =>
      x ← b64val a; y ← b64val b;
      let first := Z_to_byte (x * 4 + y / 16) in
      if bool_decide (c = ch "=") then
        if bool_decide (d = ch "=" ∧ l' = []) then Some [first] else None
      else
        z ← b64val c;
        let second := Z_to_byte (y mod 16 * 16 + z / 4) in
        if bool_decide (d = ch "=") then if bool_decide (l' = []) then Some [first; second] else None
        else
          w ← b64val d; rest ← decode_quanta l';
          Some (first :: second :: Z_to_byte (z mod 4 * 64 + w) :: rest)
  | _ => None
  end.

(** [DecodeString]: line breaks are skipped wherever they are. *)
Definition DecodeString (l : list byte) : option (list byte) :=
  decode_quanta (filter (λ b, b ≠ x0a ∧ b ≠ x0d) l).

(** ** The round trip *)

Lemma b64_char n :
  0 ≤ n < 64 → b64val (b64char n) = Some n ∧ b64char n ≠ ch "=" ∧ b64char n ≠ x0a ∧ b64char n ≠ x0d ∧
  safe (b64char n) = true ∧ byte_to_Z (b64char n) < 128.
Proof.
  intros Hn. assert (H : forallb (λ k : nat, let n := Z.of_nat k in bool_decide (b64val (b64char n) = Some n ∧
    b64char n ≠ ch "=" ∧ b64char n ≠ x0a ∧ b64char n ≠ x0d ∧ safe (b64char n) = true ∧ byte_to_Z (b64char n) < 128)) (seq 0 64) = true)
    by (vm_compute; reflexivity).
  rewrite forallb_forall in H. specialize (H (Z.to_nat n)). cbv zeta in H. rewrite Z2Nat.id in H by lia.
  apply bool_decide_eq_true in H; [done|]. apply in_seq. lia.
Qed.

(** Lists by threes. *)
Lemma by_threes {A} (P : list A → Prop) :
  P [] → (∀ a, P [a]) → (∀ a b, P [a; b]) → (∀ a b c l, P l → P (a :: b :: c :: l)) → ∀ l, P l.
Proof.
  intros H0 H1 H2 H3. assert (H : ∀ n l, (length l ≤ n)%nat → P l); [|by intros l; apply (H (length l))].
  induction n as [|n IH]; intros [|a [|b [|c l]]] Hl; try done; [cbn in Hl; lia|].
  apply H3, IH. cbn in Hl. lia.
Qed.

Lemma div_chain v : 0 ≤ v < 16777216 →
  0 ≤ v / 262144 < 64 ∧ 0 ≤ v / 4096 mod 64 < 64 ∧ 0 ≤ v / 64 mod 64 < 64 ∧ 0 ≤ v mod 64 < 64 ∧
  v / 262144 * 4 + v / 4096 mod 64 / 16 = v / 65536 ∧
  (v / 4096 mod 64) mod 16 * 16 + v / 64 mod 64 / 4 = v / 256 mod 256 ∧
  (v / 64 mod 64) mod 4 * 64 + v mod 64 = v mod 256.
Proof. intros Hv. Z.to_euclidean_division_equations. lia. Qed.

Lemma encoded_safe l :
  Forall (λ b, b ≠ x0a ∧ b ≠ x0d ∧ safe b = true ∧ byte_to_Z b < 128) (EncodeToString l).
Proof.
  assert (Hc : ∀ n, 0 ≤ n < 64 →
    b64char n ≠ x0a ∧ b64char n ≠ x0d ∧ safe (b64char n) = true ∧ byte_to_Z (b64char n) < 128)
    by (intros n Hn; by apply b64_char in Hn as (_ & _ & ?)).
  induction l as [|a|a b|a b c l IH] using by_threes; cbn [EncodeToString]; [constructor|..];
    pose proof (byte_to_Z_range a); try pose proof (byte_to_Z_range b); try pose proof (byte_to_Z_range c).
  - destruct (div_chain (byte_to_Z a * 65536)) as (? & ? & _); [lia|].
    repeat (constructor; [by (apply Hc || split_and!)|]). constructor.
  - destruct (div_chain (byte_to_Z a * 65536 + byte_to_Z b * 256)) as (? & ? & ? & _); [lia|].
    repeat (constructor; [by (apply Hc || split_and!)|]). constructor.
  - destruct (div_chain (byte_to_Z a * 65536 + byte_to_Z b * 256 + byte_to_Z c)) as (? & ? & ? & ? & _); [lia|].
    repeat (constructor; [by apply Hc|]). done.
Qed.

Lemma Z_to_byte_eq n b : n = byte_to_Z b → Z_to_byte n = b.
Proof. intros ->. apply Z_to_byte_to_Z. Qed.

Lemma decode_encode_quanta l : decode_quanta (EncodeToString l) = Some l.
Proof.
  induction l as [|a|a b|a b c l IH] using by_threes; cbn [EncodeToString decode_quanta]; [done|..];
    pose proof (byte_to_Z_range a) as Ha; try pose proof (byte_to_Z_range b) as Hb;
    try pose proof (byte_to_Z_range c) as Hc.
  - set (v := byte_to_Z a * 65536). destruct (div_chain v) as (H1 & H2 & H3 & H4 & E1 & E2 & E3); [lia|].
    apply b64_char in H1 as (-> & _), H2 as (-> & _). cbn [mbind option_bind].
    rewrite E1, !bool_decide_eq_true_2 by done. f_equal. f_equal. apply Z_to_byte_eq. unfold v.
    rewrite Z.div_mul; lia.
  - set (v := byte_to_Z a * 65536 + byte_to_Z b * 256).
    destruct (div_chain v) as (H1 & H2 & H3 & H4 & E1 & E2 & E3); [lia|].
    apply b64_char in H1 as (-> & _), H2 as (-> & _), H3 as (-> & Hp & _). cbn [mbind option_bind].
    rewrite E1, E2, (bool_decide_eq_false_2 _ Hp), !bool_decide_eq_true_2 by done.
    f_equal. f_equal; [|f_equal]; apply Z_to_byte_eq; unfold v; Z.to_euclidean_division_equations; lia.
  - set (v := byte_to_Z a * 65536 + byte_to_Z b * 256 + byte_to_Z c).
    destruct (div_chain v) as (H1 & H2 & H3 & H4 & E1 & E2 & E3); [lia|].
    apply b64_char in H1 as (-> & _), H2 as (-> & _), H3 as (-> & Hp & _), H4 as (-> & Hq & _).
    cbn [mbind option_bind]. rewrite E1, E2, E3, (bool_decide_eq_false_2 _ Hp), (bool_decide_eq_false_2 _ Hq), IH.
    cbn [mbind option_bind].
    f_equal. f_equal; [|f_equal; [|f_equal]]; apply Z_to_byte_eq; unfold v; Z.to_euclidean_division_equations; lia.
Qed.

Lemma DecodeString_Encode l : DecodeString (EncodeToString l) = Some l.
Proof.
  unfold DecodeString. rewrite <- (decode_encode_quanta l). f_equal.
  pose proof (encoded_safe l) as Hp. induction Hp as [|b bs (H1 & H2 & _) _ IH]; [done|].
  rewrite filter_cons_True by done. by f_equal.
Qed.
