(* ===== verification/Codec.v ===== *)
(** * JSON of structs (encoding/json by struct tags)

    A [codec] prints the values of a type and reads them back into a variable
    that already holds one; a [field] is a struct's field with its tag.
    [put_struct] is the encoder's pass over the fields, [get_struct] the
    decoder's over the members of an object.  The lemmas reduce the round trip
    of a struct to those of its fields. *)

From stdpp Require Import sorting.
From S2P Require Import Prelude GoStd BigRat Utf8 Json JsonText Rfc3339 Base64.

Local Open Scope Z_scope.

(** ** Codecs *)

(** [get text v cur] reads the value [v] with text [text] into a variable that
    holds [cur]; [None] is an error. *)
Record codec (A : Type) := Codec {
  zero : A;
  put : A → option (list byte);
  get : list byte → json → A → option A;
}.
Arguments Codec {A}.
Arguments zero {A}.
Arguments put {A}.
Arguments get {A}.

Definition string_codec : codec string :=
  Codec "" (λ s, Some (quote s))
    (λ _ v cur, match v with JString s => Some s | JNull => Some cur | _ => None end).

(** [strconv.ParseInt], [ParseUint] on a number literal. *)
Definition ParseNat (l : list byte) : option Z :=
  if bool_decide (l = []) || negb (forallb is_digit_byte l) then None else Some (dec_value 0 (num <$> l)).
Definition ParseInt (l : list byte) : option Z :=
  n ← match l with
      | b :: l' => if bool_decide (b = ch "-") then Z.opp <$> ParseNat l' else ParseNat l
      | [] => None
      end;
  if (- 2 ^ 63 <=? n) && (n <? 2 ^ 63) then Some n else None.

Definition int_codec : codec Z :=
  Codec 0 (λ n, Some (bytes_of (Int_String n)))
    (λ _ v cur, match v with JNumber lit => ParseInt lit | JNull => Some cur | _ => None end).

(** An array read into a slice: null leaves the element that was there. *)
Fixpoint get_elems {A} (elem : json → A → option A) (z : A) (vs : list json) (cur : list A) : option (list A) :=
  match vs with
  | [] => Some []
  | v :: vs' =>
      a ← elem v (default z (head cur)); rest ← get_elems elem z vs' (tail cur); Some (a :: rest)
  end.

Definition strings_codec : codec (gslice string) :=
  Codec None (λ l, Some (bytes_of (Marshal_strings l)))
    (λ _ v cur, match v with
                | JNull => Some None
                | JArray vs => Some <$> get_elems (get string_codec []) "" vs (elems cur)
                | _ => None
                end).

(** A []byte is base64; an array of numbers is read too. *)
Definition get_byte (v : json) (cur : byte) : option byte :=
  match v with
  | JNumber lit => n ← ParseNat lit; if n <? 256 then Some (Z_to_byte n) else None
  | JNull => Some cur
  | _ => None
  end.
Definition bytes_codec : codec (gslice byte) :=
  Codec None (λ l, Some match l with None => bytes_of "null" | Some l => dq :: EncodeToString l ++ [dq] end)
    (λ _ v cur, match v with
                | JNull => Some None
                | JString s => Some <$> DecodeString (bytes_of s)
                | JArray vs => Some <$> get_elems get_byte x00 vs (elems cur)
                | _ => None
                end).

Definition time_codec (z : Time) : codec Time :=
  Codec z MarshalTime (λ text _ cur, UnmarshalTime text cur).

(** ** Objects *)

Fixpoint members_text (ms : list (string * list byte)) : list byte :=
  match ms with
  | [] => []
  | [(k, t)] => quote k ++ ch ":" :: t
  | (k, t) :: ms' => quote k ++ ch ":" :: t ++ ch "," :: members_text ms'
  end.
Definition object_text (ms : list (string * list byte)) : list byte :=
  ch "{" :: members_text ms ++ [ch "}"].

(** A map[string]string: keys in order; members are added to the map there is. *)
Definition put_map (m : gmap string string) : list byte :=
  object_text ((λ p : string * string, (p.1, quote p.2)) <$>
    merge_sort (λ p q : string * string, String.le p.1 q.1) (map_to_list m)).
Fixpoint get_map (ms : list (string * (list byte * json))) (cur : gmap string string) : option (gmap string string) :=
  match ms with
  | [] => Some cur
  | (k, (_, JString s)) :: ms' => get_map ms' (<[k := s]> cur)
  | (k, (_, JNull)) :: ms' => get_map ms' (<[k := ""]> cur)
  | _ => None
  end.
Definition map_codec : codec (gmap string string) :=
  Codec ∅ (λ m, Some (put_map m))
    (λ _ v cur, match v with JObject ms => get_map ms cur | JNull => Some ∅ | _ => None end).

(** A field: its name and omitempty in the tag, its codec, its place in the
    struct. *)
Record field (R : Type) := Field {
  f_type : Type;
  f_name : string;
  f_omit : f_type → bool;
  f_codec : codec f_type;
  f_prj : R → f_type;
  f_upd : f_type → R → R;
}.
Arguments Field {R f_type}.
Arguments f_type {R}.
Arguments f_name {R}.
Arguments f_omit {R}.
Arguments f_codec {R}.
Arguments f_prj {R}.
Arguments f_upd {R}.

Definition keep {A} (_ : A) : bool := false.          (* no omitempty *)

Section struct.
Context {R : Type}.

Fixpoint put_fields (fs : list (field R)) (r : R) : option (list (string * list byte)) :=
  match fs with
  | [] => Some []
  | f :: fs' =>
      if f_omit f (f_prj f r) then put_fields fs' r
      else t ← put (f_codec f) (f_prj f r); rest ← put_fields fs' r; Some ((f_name f, t) :: rest)
  end.
Definition put_struct (fs : list (field R)) (r : R) : option (list byte) := object_text <$> put_fields fs r.

(** By exact name, else by folded name. *)
Definition find_field (fs : list (field R)) (k : string) : option (field R) :=
  match filter (λ f, f_name f = k) fs with
  | f :: _ => Some f
  | [] => head (filter (λ f, fold_name (bytes_of (f_name f)) = fold_name (bytes_of k)) fs)
  end.

Definition get_field (f : field R) (text : list byte) (v : json) (r : R) : option R :=
  (λ a, f_upd f a r) <$> get (f_codec f) text v (f_prj f r).

(** Members without a field are skipped. *)
Fixpoint get_members (fs : list (field R)) (ms : list (string * (list byte * json))) (r : R) : option R :=
  match ms with
  | [] => Some r
  | (k, (text, v)) :: ms' =>
      r' ← match find_field fs k with Some f => get_field f text v r | None => Some r end;
      get_members fs ms' r'
  end.
Definition get_struct (fs : list (field R)) (v : json) (r : R) : option R :=
  match v with JObject ms => get_members fs ms r | JNull => Some r | _ => None end.

(** A pointer to the struct: null is nil, else the struct there is is filled. *)
Definition ptr_codec (fs : list (field R)) (z : R) : codec (option R) :=
  Codec None (λ o, match o with None => Some (bytes_of "null") | Some r => put_struct fs r end)
    (λ _ v cur, match v with JNull => Some None | _ => Some <$> get_struct fs v (default z cur) end).
End struct.

(** ** Texts that a parser reads back, wherever they stand *)

(** What may follow a value. *)
Definition follows (rest : list byte) : Prop :=
  match rest with [] => True | b :: _ => b ∈ [ch ","; ch "}"; ch "]"; x0a] end.

(** In any text, [t] is read as one value, of which [P] holds, with [d] levels
    of nesting. *)
Definition text_ok (d : Z) (t : list byte) (P : json → Prop) : Prop :=
  skip_space t = t ∧ t ≠ [] ∧
  ∀ f depth rest, (2 * length t ≤ f)%nat → d ≤ depth → follows rest →
    ∃ v, parse_value f depth (t ++ rest) = Some (v, rest) ∧ P v.

(** What a codec prints for [a] is read back as [a']. *)
Definition codec_reads {A} (c : codec A) (d : Z) (a a' : A) : Prop :=
  ∀ t, put c a = Some t → text_ok d t (λ v, get c t v (zero c) = Some a').

Lemma text_ok_mono d d' t P Q : text_ok d t P → d ≤ d' → (∀ v, P v → Q v) → text_ok d' t Q.
Proof.
  intros (Hs & Hne & H) Hd HPQ. split_and!; [done..|]. intros f depth rest ???.
  destruct (H f depth rest) as (v & ? & ?); [done|lia|done|]. exists v. auto.
Qed.

Lemma skip_space_app t rest : skip_space t = t → t ≠ [] → skip_space (t ++ rest) = t ++ rest.
Proof.
  destruct t as [|b t]; [done|]. intros Hs _. cbn in *. destruct (is_space b) eqn:Hb; [|done].
  exfalso. assert (length (skip_space t) ≤ length t)%nat; [|rewrite Hs in H; cbn in H; lia].
  clear. induction t as [|b t IH]; cbn; [lia|]. destruct (is_space b); cbn; lia.
Qed.

Lemma follows_head b rest : follows (b :: rest) → is_space b = true ∨ b = ch "," ∨ b = ch "}" ∨ b = ch "]".
Proof. cbn. intros H. repeat apply elem_of_cons in H as [->|H]; [auto..|by apply elem_of_nil in H]. Qed.

(** *** Scalars *)

Lemma quote_head s : ∃ l, quote s = dq :: l.
Proof. by eexists. Qed.

Lemma quote_ok d s : text_ok d (quote s) (λ v, v = JString (replace_invalid s)).
Proof.
  split; [done|split; [done|]]. intros [|f] depth rest Hf _ _; [cbn in Hf; lia|].
  eexists. by rewrite parse_quote.
Qed.

Lemma string_codec_reads d s : codec_reads string_codec d s (replace_invalid s).
Proof. intros t [= <-]. eapply text_ok_mono; [by apply quote_ok|reflexivity|]. by intros v ->. Qed.

Lemma null_ok d : text_ok d (bytes_of "null") (λ v, v = JNull).
Proof.
  split; [done|split; [done|]]. intros [|f] depth rest Hf _ _; [cbn in Hf; lia|]. by exists JNull.
Qed.

(** The decimal digits of a number: no leading zero. *)
Lemma utoa_digits n :
  0 ≤ n → ∃ d ds, utoa n = digit_char <$> (d :: ds) ∧ Forall is_digit (d :: ds) ∧ dec_value 0 (d :: ds) = n ∧
    (d = 0 → ds = []).
Proof.
  intros Hn. destruct (utoa_spec n Hn) as ([|d ds] & Hu & Hne & Hd & Hv & Hk); [done|].
  exists d, ds. split_and!; [done..|]. intros ->. destruct ds as [|e ds]; [done|]. exfalso.
  assert (Hlt : dec_value 0 (e :: ds) < 10 ^ Z.of_nat (length (e :: ds))).
  { apply Forall_cons in Hd as [_ Hd]. clear -Hd. induction (e :: ds) as [|x l IH] using rev_ind; [done|].
    apply Forall_app in Hd as [Hd [Hx _]%Forall_cons]. rewrite dec_value_app, length_app, Nat2Z.inj_add.
    cbn [length]. rewrite Z.pow_add_r by lia. cbn. specialize (IH Hd). unfold is_digit in Hx. lia. }
  change (dec_value 0 (0 :: e :: ds)) with (dec_value 0 (e :: ds)) in Hv. rewrite Hv in Hlt.
  specialize (Hk (length (e :: ds)) ltac:(cbn; lia) Hlt). cbn in Hk. lia.
Qed.

Lemma digit_not_special d :
  is_digit d → (d ≠ 0 → digit_char d ≠ ch "0") ∧ digit_char 0 = ch "0" ∧ is_space (digit_char d) = false ∧
  Forall (λ b, digit_char d ≠ b) [ch "-"; ch "{"; ch "["; dq; ch "n"; ch "t"; ch "f"; ch "."; ch "e"; ch "E"].
Proof.
  unfold is_digit. intros Hd.
  assert (d ∈ [0; 1; 2; 3; 4; 5; 6; 7; 8; 9]) as Hin.
  { repeat (rewrite elem_of_cons). lia. }
  repeat apply elem_of_cons in Hin as [->|Hin]; [..|by apply elem_of_nil in Hin];
    (split; [done|split; [done|split; [done|by repeat constructor]]]).
Qed.

(** What ends a number. *)
Lemma follows_no_number rest :
  follows rest →
  match rest with b :: _ => is_digit_byte b = false ∧ b ≠ ch "." ∧ b ≠ ch "e" ∧ b ≠ ch "E" | [] => True end.
Proof.
  destruct rest as [|b rest]; [done|]. cbn. intros H.
  repeat apply elem_of_cons in H as [->|H]; [done..|by apply elem_of_nil in H].
Qed.

Lemma follows_end rest :
  follows rest →
  (match rest with b :: l' => if bool_decide (b = ch ".") then
       let '(d, r) := span_digits l' in if bool_decide (d = []) then None else Some (b :: d, r)
     else Some ([], rest) | [] => Some ([], rest) end) = Some ([], rest) ∧
  (match rest with b :: l' => if bool_decide (b = ch "e" ∨ b = ch "E") then
       let '(sg, l'') := match l' with
         | c :: r => if bool_decide (c = ch "+" ∨ c = ch "-") then ([c], r) else ([], l')
         | [] => ([], l') end in
       let '(d, r) := span_digits l'' in if bool_decide (d = []) then None else Some (b :: sg ++ d, r)
     else Some ([], rest) | [] => Some ([], rest) end) = Some ([], rest).
Proof.
  intros H%follows_no_number. destruct rest as [|b rest]; [done|]. destruct H as (_ & H1 & H2 & H3).
  rewrite !bool_decide_eq_false_2; [done|naive_solver|naive_solver].
Qed.

(** A sign and digits without a leading zero are one number. *)
Lemma parse_number_int (neg : bool) d ds rest :
  Forall is_digit (d :: ds) → (d = 0 → ds = []) → follows rest →
  let lit := (if neg then [ch "-"] else []) ++ (digit_char <$> d :: ds) in
  parse_number (lit ++ rest) = Some (lit, rest).
Proof.
  intros Hds Hz Hrest lit. pose proof Hds as [Hd Hds']%Forall_cons.
  destruct (digit_not_special d Hd) as (H0 & H00 & _ & Hsp).
  assert (Hm : digit_char d ≠ ch "-") by by apply Forall_cons in Hsp as [? _].
  destruct (follows_end rest Hrest) as [He1 He2].
  assert (Hint : match (digit_char <$> d :: ds) ++ rest with
    | b :: l' => if bool_decide (b = ch "0") then Some ([b], l')
                 else let '(d, r) := span_digits ((digit_char <$> d :: ds) ++ rest) in
                      if bool_decide (d = []) then None else Some (d, r)
    | [] => None end = Some (digit_char <$> d :: ds, rest)).
  { rewrite span_digits_app; [|done|].
    2: { apply follows_no_number in Hrest. by destruct rest; [|destruct Hrest]. }
    cbn [fmap list_fmap app]. destruct (decide (d = 0)) as [->|Hne].
    - rewrite (Hz eq_refl), H00. done.
    - rewrite bool_decide_eq_false_2 by auto. done. }
  unfold parse_number, lit.
  assert (Hsign : (match ((if neg then [ch "-"] else []) ++ (digit_char <$> d :: ds)) ++ rest with
    | b :: l' => if bool_decide (b = ch "-") then ([b], l')
                 else ([], ((if neg then [ch "-"] else []) ++ (digit_char <$> d :: ds)) ++ rest)
    | [] => ([], ((if neg then [ch "-"] else []) ++ (digit_char <$> d :: ds)) ++ rest) end) =
    (if neg then [ch "-"] else [], (digit_char <$> d :: ds) ++ rest)).
  { destruct neg; cbn [app fmap list_fmap]; [by rewrite bool_decide_eq_true_2|by rewrite bool_decide_eq_false_2]. }
  rewrite Hsign, Hint. cbn [mbind option_bind]. rewrite He1. cbn [mbind option_bind]. rewrite He2.
  cbn [mbind option_bind]. by rewrite !app_nil_r.
Qed.

Lemma ParseNat_digits ds : Forall is_digit ds → ds ≠ [] → ParseNat (digit_char <$> ds) = Some (dec_value 0 ds).
Proof.
  intros Hds Hne. unfold ParseNat. rewrite bool_decide_eq_false_2 by by destruct ds.
  rewrite num_digits by done.
  assert (forallb is_digit_byte (digit_char <$> ds) = true) as ->; [|done].
  clear Hne. induction Hds as [|d ds Hd _ IH]; [done|]. cbn. by rewrite (proj1 (digit_char_num d Hd)).
Qed.

(** The text of an int, and what it is read as. *)
Lemma int_text n :
  - 2 ^ 63 ≤ n < 2 ^ 63 →
  ∃ (neg : bool) d ds, Forall is_digit (d :: ds) ∧ (d = 0 → ds = []) ∧
    bytes_of (Int_String n) = (if neg then [ch "-"] else []) ++ (digit_char <$> d :: ds) ∧
    ParseInt (bytes_of (Int_String n)) = Some n.
Proof.
  intros Hn. unfold Int_String. rewrite bytes_of_string_of.
  destruct (Z.ltb_spec n 0) as [Hneg|Hpos].
  - destruct (utoa_digits (- n)) as (d & ds & Hu & Hd & Hv & Hz); [lia|].
    exists true, d, ds. rewrite Hu. split_and!; [done..|]. unfold ParseInt.
    rewrite bool_decide_eq_true_2, ParseNat_digits, Hv by done. cbn [fmap option_fmap option_map mbind option_bind].
    destruct (Z.leb_spec (- 2 ^ 63) (- - n)), (Z.ltb_spec (- - n) (2 ^ 63)); try lia. cbn. f_equal. lia.
  - destruct (utoa_digits n) as (d & ds & Hu & Hd & Hv & Hz); [lia|].
    exists false, d, ds. rewrite Hu. split_and!; [done..|]. unfold ParseInt.
    pose proof Hd as [Hd' _]%Forall_cons. destruct (digit_not_special d Hd') as (_ & _ & _ & [Hm _]%Forall_cons).
    change (digit_char <$> d :: ds) with (digit_char d :: (digit_char <$> ds)) at 1.
    cbv iota. rewrite bool_decide_eq_false_2 by done. rewrite ParseNat_digits, Hv by done. cbn [mbind option_bind].
    destruct (Z.leb_spec (- 2 ^ 63) n), (Z.ltb_spec n (2 ^ 63)); try lia. done.
Qed.

Lemma int_codec_ok d n : - 2 ^ 63 ≤ n < 2 ^ 63 → codec_reads int_codec d n n.
Proof.
  intros Hn t [= <-]. destruct (int_text n Hn) as (neg & x & ds & Hds & Hz & Ht & Hp).
  pose proof Hds as [Hx _]%Forall_cons. destruct (digit_not_special x Hx) as (_ & _ & Hsp & Hne).
  rewrite Ht. set (t := _ ++ _) in *. split_and!.
  - unfold t. destruct neg; cbn; [done|]. by rewrite Hsp.
  - unfold t. by destruct neg.
  - intros [|f] depth rest Hf _ Hrest; [unfold t in Hf; destruct neg; cbn in Hf; lia|].
    exists (JNumber t). split; [|cbn; by rewrite <- Ht].
    pose proof (parse_number_int neg x ds rest Hds Hz Hrest) as Hnum. cbv zeta in Hnum. fold t in Hnum.
    repeat (apply Forall_cons in Hne as [? Hne]).
    assert (Hb : ∃ b l, t ++ rest = b :: l ∧ is_space b = false ∧
      Forall (λ c, b ≠ c) [ch "{"; ch "["; dq; ch "n"; ch "t"; ch "f"]).
    { unfold t. destruct neg; cbn [app fmap list_fmap]; eexists _, _; split; [reflexivity|by repeat constructor
        |reflexivity|by split; [|repeat constructor]]. }
    destruct Hb as (b & l & Hl & Hb & Hc). rewrite Hl in *. cbn [parse_value skip_space]. rewrite Hb.
    repeat (apply Forall_cons in Hc as [? Hc]). rewrite !bool_decide_eq_false_2 by done.
    by rewrite Hnum.
Qed.

(** *** Texts in quotes *)

(** A text of plain characters is its own string. *)
Definition plain (l : list byte) : Prop := Forall (λ b, safe b = true ∧ byte_to_Z b < 128) l.

Lemma plain_valid f l : plain l → (length l ≤ f)%nat → valid_go f l = true ∧ quote_body f l = l.
Proof.
  revert l. induction f as [|f IH]; intros [|b l] Hp Hf; [done|cbn in Hf; lia|done|].
  apply Forall_cons in Hp as [[Hs Hb] Hp]. destruct (IH l Hp ltac:(cbn in Hf; lia)) as [Hv Hq].
  cbn [valid_go quote_body]. rewrite decode_rune_ascii by done.
  destruct (Z.ltb_spec (byte_to_Z b) 128); [|lia]. rewrite Hs.
  change (drop 1 (b :: l)) with l. by rewrite Hv, Hq.
Qed.

Lemma plain_quote l : plain l → ValidString (string_of l) = true ∧ quote (string_of l) = dq :: l ++ [dq].
Proof.
  intros Hp. unfold ValidString, quote. rewrite bytes_of_string_of.
  rewrite length_string_of.
  destruct (plain_valid (length l) l Hp ltac:(lia)) as [Hv Hq]. by rewrite Hq.
Qed.

Lemma plain_text_ok d l : plain l → text_ok d (dq :: l ++ [dq]) (λ v, v = JString (string_of l)).
Proof.
  intros Hp. destruct (plain_quote l Hp) as [Hv <-].
  eapply text_ok_mono; [apply quote_ok|reflexivity|]. intros v ->. by rewrite replace_valid.
Qed.

Lemma b64_plain l : plain (EncodeToString l).
Proof. eapply Forall_impl; [apply encoded_safe|]. by intros b (_ & _ & ?). Qed.

Lemma bytes_codec_ok d l : codec_reads bytes_codec d l l.
Proof.
  intros t [= <-]. destruct l as [l|].
  - eapply text_ok_mono; [apply (plain_text_ok d), b64_plain|reflexivity|].
    intros v ->. cbn. by rewrite bytes_of_string_of, DecodeString_Encode.
  - eapply text_ok_mono; [apply null_ok|reflexivity|]. by intros v ->.
Qed.

Lemma digit_plain d : is_digit d → safe (digit_char d) = true ∧ byte_to_Z (digit_char d) < 128.
Proof.
  unfold is_digit. intros Hd. assert (d ∈ [0; 1; 2; 3; 4; 5; 6; 7; 8; 9]) as Hin by (repeat rewrite elem_of_cons; lia).
  repeat apply elem_of_cons in Hin as [->|Hin]; [done..|by apply elem_of_nil in Hin].
Qed.

Lemma fmt2_plain n : 0 ≤ n < 100 → plain (fmt2 n).
Proof.
  intros Hn. pose proof (Z.mod_pos_bound n 10 ltac:(lia)).
  assert (0 ≤ n / 10 < 10) by (split; [apply Z.div_pos; lia|apply Z.div_lt_upper_bound; lia]).
  repeat constructor; by apply digit_plain.
Qed.

Lemma plain_cons b l : safe b && (byte_to_Z b <? 128) = true → plain l → plain (b :: l).
Proof. intros [? ?]%andb_true_iff ?. constructor; [|done]. split; [done|lia]. Qed.

Lemma fmt_zone_plain z : Z.abs (Z.quot z 60) / 60 < 24 → plain (fmt_zone z).
Proof.
  intros H. unfold fmt_zone. destruct (z =? 0); [by repeat constructor|]. cbv zeta.
  pose proof (Z.mod_pos_bound (Z.abs (Z.quot z 60)) 60 ltac:(lia)).
  assert (0 ≤ Z.abs (Z.quot z 60) / 60) by (apply Z.div_pos; lia).
  apply plain_cons; [by destruct (_ <? 0)|]. apply Forall_app; split; [apply fmt2_plain; lia|].
  apply plain_cons; [done|]. apply fmt2_plain. lia.
Qed.

Lemma format_plain t s : format t = Some s → plain s.
Proof.
  intros (y & m & d & hh & mi & ss & ns & -> & ? & ? & ? & ? & ? & ? & ? & ? & _)%format_parts.
  pose proof (daysIn_bound y m).
  assert (0 ≤ y / 100 < 100) by (split; [apply Z.div_pos; lia|apply Z.div_lt_upper_bound; lia]).
  pose proof (Z.mod_pos_bound y 100 ltac:(lia)).
  unfold fmt4. rewrite <- app_assoc.
  repeat first [apply plain_cons; [done|]|apply Forall_app; split; [apply fmt2_plain; lia|]].
  apply Forall_app; split; [|by apply fmt_zone_plain].
  unfold fmt_nanos. destruct (ns =? 0); [constructor|]. apply plain_cons; [done|].
  destruct (decimals_spec 9 ns) as [Hd _]; [done|]. apply Forall_fmap.
  eapply Forall_impl; [exact Hd|]. apply digit_plain.
Qed.

Lemma time_codec_ok z d t : zone t mod 60 = 0 → codec_reads (time_codec z) d t t.
Proof.
  intros Hz s. cbn [put time_codec]. intros Hs. pose proof (Unmarshal_MarshalTime t s z Hz Hs) as Hu.
  unfold MarshalTime in Hs. destruct (format t) as [l|] eqn:Hf; [|done]. injection Hs as <-.
  eapply text_ok_mono; [apply (plain_text_ok d); by eapply format_plain|reflexivity|]. by intros v _.
Qed.

(** *** Arrays of strings *)

Lemma get_elems_strings l : get_elems (get string_codec []) "" (JString <$> l) [] = Some l.
Proof. induction l as [|s l IH]; [done|]. cbn in *. by rewrite IH. Qed.

Definition replace_all (l : gslice string) : gslice string :=
  match l with Some l => Some (replace_invalid <$> l) | None => None end.

Lemma strings_codec_reads d l : 1 ≤ d → codec_reads strings_codec d l (replace_all l).
Proof.
  intros Hd t [= <-]. destruct l as [l|]; [|eapply text_ok_mono; [apply null_ok|reflexivity|]; by intros v ->].
  cbn [Marshal_strings]. rewrite bytes_of_string_of. split; [done|split; [done|]].
  intros [|f] depth rest Hf Hdep Hrest; [cbn in Hf; lia|]. exists (JArray (JString ∘ replace_invalid <$> l)).
  split; [|cbn; by rewrite list_fmap_compose, get_elems_strings].
  cbn [app parse_value skip_space]. change (is_space (ch "[")) with false. cbv iota.
  rewrite (bool_decide_eq_false_2 (ch "[" = ch "{")), (bool_decide_eq_true_2 (ch "[" = ch "[")) by done.
  destruct (Z.leb_spec depth 0); [lia|]. rewrite <- app_assoc. destruct l as [|s l]; [done|].
  assert (Hh : ∃ q, quote_list (s :: l) = dq :: q) by (destruct l; eexists; reflexivity).
  pose proof (length_quote_list (s :: l)) as Hl. cbn [length] in Hf. rewrite length_app in Hf. cbn [length] in Hf.
  pose proof (parse_quote_list f (depth - 1) (s :: l) rest ltac:(done) ltac:(lia)) as Hp.
  destruct Hh as [q Hq]. rewrite Hq in *. cbn [app skip_space] in *. change (is_space dq) with false. cbv iota.
  rewrite (bool_decide_eq_false_2 (dq = ch "]")) by done. by rewrite Hp.
Qed.

(** *** Objects *)

(** A member: its key, its text, what holds of the value it is read as. *)
Definition member : Type := string * list byte * (json → Prop).
Definition member_ok (d : Z) (s : member) : Prop := ValidString s.1.1 = true ∧ text_ok d s.1.2 s.2.
Definition read_as (s : member) (m : string * (list byte * json)) : Prop :=
  m.1 = s.1.1 ∧ m.2.1 = s.1.2 ∧ s.2 m.2.2.

Lemma parse_members_S f depth l :
  parse_members (S f) depth l =
  match skip_space l with
  | c :: l1 =>
      if bool_decide (c = dq) then
        '(k, r) ← unquote (length l1) l1;
        match skip_space r with
        | d :: r1 =>
            if bool_decide (d = ch ":") then
              '(v, r2) ← parse_value f depth r1;
              let text := take (length (skip_space r1) - length r2) (skip_space r1) in
              match skip_space r2 with
              | e :: r3 =>
                  if bool_decide (e = ch ",")
                  then '(ms, r4) ← parse_members f depth r3; Some ((string_of k, (text, v)) :: ms, r4)
                  else if bool_decide (e = ch "}") then Some ([(string_of k, (text, v))], r3) else None
              | [] => None
              end
            else None
        | [] => None
        end
      else None
  | [] => None
  end.
Proof. done. Qed.

(** One member, up to what follows it. *)
Lemma parse_member_ok d s f depth tl :
  member_ok d s → (2 * length s.1.2 ≤ f)%nat → d ≤ depth → follows tl →
  ∃ m, read_as s m ∧
    parse_members (S f) depth (quote s.1.1 ++ ch ":" :: s.1.2 ++ tl) =
    match skip_space tl with
    | e :: r3 =>
        if bool_decide (e = ch ",") then '(ms, r4) ← parse_members f depth r3; Some (m :: ms, r4)
        else if bool_decide (e = ch "}") then Some ([m], r3) else None
    | [] => None
    end.
Proof.
  destruct s as [[k t] P]. unfold member_ok. cbn [fst snd]. intros (Hk & Hs & Hne & Ht) Hf Hd Htl.
  destruct (Ht f depth tl Hf Hd Htl) as (v & Hv & HP).
  exists (k, (t, v)). split; [by split_and!|]. rewrite parse_members_S. unfold quote at 1. cbn [app skip_space].
  change (is_space dq) with false. cbv iota. rewrite (bool_decide_eq_true_2 (dq = dq)) by done.
  rewrite <- app_assoc. cbn [app]. rewrite unquote_quote by (rewrite length_app; cbn; lia).
  cbn [mbind option_bind skip_space]. change (is_space (ch ":")) with false. cbv iota.
  rewrite (bool_decide_eq_true_2 (ch ":" = ch ":")) by done. rewrite Hv. cbn [mbind option_bind]. cbv zeta.
  fold (replace_invalid k). rewrite replace_valid, skip_space_app, length_app by done.
  replace (length t + length tl - length tl)%nat with (length t) by lia. rewrite take_app_length. done.
Qed.

Lemma members_text_cons k t ms :
  members_text ((k, t) :: ms) =
    quote k ++ ch ":" :: t ++ match ms with [] => [] | _ => ch "," :: members_text ms end.
Proof. destruct ms; cbn; [by rewrite app_nil_r|done]. Qed.

Lemma parse_members_ok d specs f depth rest :
  specs ≠ [] → Forall (member_ok d) specs → (2 * length (members_text specs.*1) ≤ f)%nat → d ≤ depth →
  ∃ ms, parse_members f depth (members_text specs.*1 ++ ch "}" :: rest) = Some (ms, rest) ∧
    Forall2 read_as specs ms.
Proof.
  revert f. induction specs as [|s specs IH]; intros f Hne Hok Hf Hd; [done|].
  apply Forall_cons in Hok as [Hs Hok]. destruct s as [[k t] P] eqn:Es. rewrite <- Es in Hs.
  cbn [fmap list_fmap fst] in *. rewrite members_text_cons in *. rewrite <- app_assoc.
  rewrite !length_app in Hf. cbn [length] in Hf. rewrite length_app in Hf.
  assert (Hq : (2 ≤ length (quote k))%nat) by (unfold quote; cbn [length]; rewrite length_app; cbn; lia).
  destruct f as [|f]; [lia|]. cbn [app]. rewrite <- app_assoc.
  set (tl := _ ++ ch "}" :: rest).
  destruct (parse_member_ok d s f depth tl Hs) as (m & Hm & Hp); [subst s; cbn; lia|done| |].
  { unfold tl. destruct specs; cbn; set_solver. }
  subst s. cbn [fst snd] in Hp. rewrite Hp. unfold tl. destruct specs as [|s' specs].
  - exists [m]. split; [done|by constructor].
  - cbn [app fmap list_fmap skip_space]. change (is_space (ch ",")) with false. cbv iota.
    rewrite (bool_decide_eq_true_2 (ch "," = ch ",")) by done.
    destruct (IH f) as (ms & Hms & Hall); [done|done| |done|].
    { cbn [fmap list_fmap length] in Hf |- *. lia. }
    cbn [fmap list_fmap] in Hms. rewrite Hms. exists (m :: ms). split; [done|by constructor].
Qed.

(** An object is read member by member. *)
Lemma object_ok d specs :
  0 ≤ d → Forall (member_ok d) specs →
  text_ok (d + 1) (object_text specs.*1) (λ v, ∃ ms, v = JObject ms ∧ Forall2 read_as specs ms).
Proof.
  intros H0 Hok. split; [done|split; [done|]]. intros [|f] depth rest Hf Hd Hrest; [cbn in Hf; lia|].
  unfold object_text in *. cbn [length] in Hf. rewrite length_app in Hf. cbn [length] in Hf.
  cbn [app parse_value skip_space]. change (is_space (ch "{")) with false. cbv iota.
  rewrite (bool_decide_eq_true_2 (ch "{" = ch "{")) by done. rewrite <- app_assoc.
  destruct specs as [|s specs].
  - cbn [fmap list_fmap members_text app]. exists (JObject []). split; [|by exists []].
    destruct (Z.leb_spec depth 0); [lia|]. done.
  - destruct (parse_members_ok d (s :: specs) f (depth - 1) rest) as (ms & Hms & Hall); [done|done|lia|lia|].
    exists (JObject ms). split; [|by exists ms].
    destruct (Z.leb_spec depth 0); [lia|].
    assert (Hh : ∃ q, members_text (s :: specs).*1 = dq :: q).
    { destruct s as [[k t] P]. cbn [fmap list_fmap fst]. rewrite members_text_cons. by eexists. }
    destruct Hh as [q Hq]. rewrite Hq in *. cbn [app skip_space] in *. change (is_space dq) with false. cbv iota.
    rewrite (bool_decide_eq_false_2 (dq = ch "}")) by done. by rewrite Hms.
Qed.

(** *** Structs *)

Section struct_laws.
Context {R : Type}.
Implicit Types (f : field R) (fs all : list (field R)) (r base : R).

(** The field of [r] is read back as that of [r']. *)
Definition field_reads (d : Z) r (r' : R) f : Prop :=
  ValidString (f_name f) = true ∧ (f_omit f (f_prj f r) = false → codec_reads (f_codec f) d (f_prj f r) (f_prj f r')).

(** What the printed members are read as. *)
Fixpoint specs_of fs r (r' : R) : option (list member) :=
  match fs with
  | [] => Some []
  | f :: fs' =>
      if f_omit f (f_prj f r) then specs_of fs' r r'
      else t ← put (f_codec f) (f_prj f r); rest ← specs_of fs' r r';
           Some ((f_name f, t, λ v, get (f_codec f) t v (zero (f_codec f)) = Some (f_prj f r')) :: rest)
  end.

Lemma specs_of_ok d fs r r' ms :
  Forall (field_reads d r r') fs → put_fields fs r = Some ms →
  ∃ specs, specs_of fs r r' = Some specs ∧ specs.*1 = ms ∧ Forall (member_ok d) specs.
Proof.
  intros Hfs. revert ms. induction Hfs as [|f fs [Hn Hf] _ IH]; intros ms; cbn [put_fields specs_of].
  - intros [= <-]. by exists [].
  - destruct (f_omit f (f_prj f r)) eqn:Ho; [apply IH|].
    destruct (put (f_codec f) (f_prj f r)) as [t|] eqn:Hp; [|done]. cbn [mbind option_bind].
    destruct (put_fields fs r) as [l|]; [|done]. intros [= <-].
    destruct (IH l eq_refl) as (specs & -> & <- & Hok). eexists. split; [done|]. split; [done|].
    constructor; [|done]. split; [done|]. by apply Hf.
Qed.

(** The members still to be read for the fields [fs]. *)
Definition pending fs r (r' : R) ms : Prop := ∃ specs, specs_of fs r r' = Some specs ∧ Forall2 read_as specs ms.

Definition struct_reads fs (z : R) (d : Z) r (r' : R) : Prop :=
  ∀ t, put_struct fs r = Some t → text_ok d t (λ v, ∃ ms, v = JObject ms ∧ get_members fs ms z = Some r').

(** The next field: its member, if it was printed, sets it. *)
Lemma member_step all f fs r r' ms base :
  pending (f :: fs) r r' ms → find_field all (f_name f) = Some f → f_prj f base = zero (f_codec f) →
  (f_omit f (f_prj f r) = true → f_upd f (f_prj f r') base = base) →
  ∃ ms', pending fs r r' ms' ∧ get_members all ms base = get_members all ms' (f_upd f (f_prj f r') base).
Proof.
  intros (specs & Hs & Hall) Hfind Hz Ho. cbn [specs_of] in Hs. destruct (f_omit f (f_prj f r)).
  - exists ms. split; [by exists specs|]. by rewrite Ho.
  - destruct (put (f_codec f) (f_prj f r)) as [t|]; [|done]. cbn [mbind option_bind] in Hs.
    destruct (specs_of fs r r') as [specs'|] eqn:Hs'; [|done]. injection Hs as <-.
    apply Forall2_cons_inv_l in Hall as ([k [t' v]] & ms' & (Hk & Ht & Hg) & Hall & ->). cbn in Hk, Ht, Hg. subst k t'.
    exists ms'. split; [by exists specs'|]. cbn [get_members]. rewrite Hfind. unfold get_field. rewrite Hz, Hg. done.
Qed.

Lemma pending_nil r r' ms : pending [] r r' ms → ms = [].
Proof. intros (specs & [= <-] & Hall). by inversion Hall. Qed.

(** A struct is right if its fields are, and reading them one after the other
    rebuilds it. *)
Lemma struct_reads_intro fs z d r r' :
  0 ≤ d → Forall (field_reads d r r') fs → (∀ ms, pending fs r r' ms → get_members fs ms z = Some r') →
  struct_reads fs z (d + 1) r r'.
Proof.
  intros Hd Hfs Hget t. unfold put_struct. destruct (put_fields fs r) as [l|] eqn:Hp; [|done]. intros [= <-].
  destruct (specs_of_ok d fs r r' l Hfs Hp) as (specs & Hs & <- & Hok).
  eapply text_ok_mono; [by apply object_ok|reflexivity|]. intros v (ms & -> & Hall). exists ms.
  split; [done|]. apply Hget. by exists specs.
Qed.

Lemma ptr_codec_reads fs z d (nf : R → R) o :
  (∀ r, o = Some r → struct_reads fs z d r (nf r)) → codec_reads (ptr_codec fs z) d o (nf <$> o).
Proof.
  intros Hok t Ht. destruct o as [r|]; cbn [put ptr_codec] in Ht.
  - eapply text_ok_mono; [by eapply Hok|reflexivity|]. intros v (ms & -> & Hms). cbn. by rewrite Hms.
  - injection Ht as <-. eapply text_ok_mono; [apply null_ok|reflexivity|]. by intros v ->.
Qed.
End struct_laws.

(** *** Maps *)

Lemma get_map_spec (l : list (string * string)) ms (m : gmap string string) :
  Forall2 read_as ((λ p : string * string, (p.1, quote p.2, λ v, v = JString (replace_invalid p.2))) <$> l) ms →
  get_map ms m = Some (foldl (λ m p, <[p.1 := p.2]> m) m (prod_map id replace_invalid <$> l)).
Proof.
  revert ms m. induction l as [|[k s] l IH]; intros ms m Hall.
  - by inversion Hall.
  - cbn [fmap list_fmap] in Hall.
    apply Forall2_cons_inv_l in Hall as ([k' [t v]] & ms' & (Hk & Ht & Hv) & Hall & ->). cbn in Hk, Hv. subst k' v.
    cbn [get_map foldl fmap list_fmap]. by apply IH.
Qed.

Lemma foldl_insert (l : list (string * string)) (m : gmap string string) :
  NoDup l.*1 → (∀ k, k ∈ l.*1 → m !! k = None) →
  foldl (λ m p, <[p.1 := p.2]> m) m l = list_to_map l ∪ m.
Proof.
  revert m. induction l as [|[k s] l IH]; intros m Hnd Hm; [cbn; by rewrite (left_id_L ∅ (∪))|].
  apply NoDup_cons in Hnd as [Hk Hnd]. cbn [foldl fst snd list_to_map foldr].
  rewrite IH; [|done|].
  - rewrite <- insert_union_l, <- insert_union_r; [done|]. by apply not_elem_of_list_to_map_1.
  - intros k' Hk'. rewrite lookup_insert_ne by (intros ->; done). apply Hm. by right.
Qed.

(** Keys that are not valid UTF-8 could become one. *)
Lemma map_codec_reads d m :
  0 ≤ d → map_Forall (λ k s, ValidString k = true) m → codec_reads map_codec (d + 1) m (replace_invalid <$> m).
Proof.
  intros Hd Hv t [= <-]. unfold put_map.
  set (l := merge_sort _ (map_to_list m)).
  assert (Hperm : l ≡ₚ map_to_list m) by apply merge_sort_Permutation.
  set (specs := (λ p : string * string, (p.1, quote p.2, λ v, v = JString (replace_invalid p.2))) <$> l : list member).
  assert (Hfst : specs.*1 = (λ p : string * string, (p.1, quote p.2)) <$> l)
    by (unfold specs; rewrite <- list_fmap_compose; done).
  rewrite <- Hfst. eapply text_ok_mono; [apply (object_ok d); [done|]|reflexivity|].
  - unfold specs. apply Forall_fmap, Forall_forall. intros [k s] Hin. rewrite Hperm in Hin.
    apply elem_of_map_to_list, Hv in Hin as Hk. split; [done|]. apply quote_ok.
  - intros v (ms & -> & Hall). cbn [get map_codec zero]. rewrite (get_map_spec l ms ∅ Hall). f_equal.
    assert (Hnd : NoDup l.*1) by (rewrite Hperm; apply NoDup_fst_map_to_list).
    rewrite foldl_insert, (right_id_L ∅ (∪)), list_to_map_fmap, (list_to_map_proper l (map_to_list m)); try done.
    + by rewrite list_to_map_to_list.
    + by rewrite <-list_fmap_compose.
Qed.

(** *** Slices whose nil the model does not tell from empty, and raw JSON *)

Definition slice_codec {A} (c : codec (gslice A)) : codec (list A) :=
  Codec [] (λ l, put c (Some l)) (λ text v cur, elems <$> get c text v (if cur is [] then None else Some cur)).

Lemma slice_codec_reads {A} (c : codec (gslice A)) d l l' :
  zero c = None → codec_reads c d (Some l) (Some l') → codec_reads (slice_codec c) d l l'.
Proof.
  intros Hz Hc t Ht. eapply text_ok_mono; [by apply Hc|reflexivity|]. intros v Hv. cbn in *.
  rewrite Hz in Hv. by rewrite Hv.
Qed.

(** [appendCompact] on a valid text: no space outside strings, HTML characters
    and U+2028, U+2029 escaped. *)
Fixpoint compact (in_str esc : bool) (l : list byte) : list byte :=
  match l with
  | [] => []
  | b :: l' =>
      let in_str' := if in_str then esc || negb (bool_decide (b = dq)) else bool_decide (b = dq) in
      let esc' := in_str && negb esc && bool_decide (b = ch "\") in
      let one :=
        let next := compact in_str' esc' l' in
        if bool_decide (b ∈ [ch "<"; ch ">"; ch "&"])
        then bytes_of "\u00" ++ [hexd (Z.shiftr (byte_to_Z b) 4); hexd (Z.land (byte_to_Z b) 15)] ++ next
        else if negb in_str && is_space b then next else b :: next in
      match l' with
      | c :: d :: l3 =>
          if bool_decide (b = xe2 ∧ c = x80 ∧ (d = xa8 ∨ d = xa9))
          then bytes_of "\u202" ++ [hexd (Z.land (byte_to_Z d) 15)] ++ compact in_str false l3
          else one
      | _ => one
      end
  end.

Definition raw_codec : codec (list byte) :=
  Codec [] (λ raw, if parse (string_of raw) is Some _ then Some (compact false false raw) else None)
    (λ text _ _, Some text).

(** A text [compact] leaves alone starts with no space. *)
Lemma compact_no_space l : skip_space (compact false false l) = compact false false l.
Proof.
  induction l as [|b l IH]; [done|]. cbn [compact negb andb].
  set (next := compact (bool_decide (b = dq)) false l).
  assert (Hone : skip_space (if bool_decide (b ∈ [ch "<"; ch ">"; ch "&"])
      then bytes_of "\u00" ++ [hexd (Z.shiftr (byte_to_Z b) 4); hexd (Z.land (byte_to_Z b) 15)] ++ next
      else if is_space b then next else b :: next) =
    (if bool_decide (b ∈ [ch "<"; ch ">"; ch "&"])
      then bytes_of "\u00" ++ [hexd (Z.shiftr (byte_to_Z b) 4); hexd (Z.land (byte_to_Z b) 15)] ++ next
      else if is_space b then next else b :: next)).
  { case_bool_decide; [done|]. destruct (is_space b) eqn:Hb; [|cbn; by rewrite Hb].
    subst next. rewrite bool_decide_eq_false_2; [done|]. by intros ->. }
  destruct l as [|c [|d l3]]; [exact Hone..|].
  destruct (bool_decide (b = xe2 ∧ c = x80 ∧ (d = xa8 ∨ d = xa9))); [done|exact Hone].
Qed.

Lemma follows_stops rest : follows rest → stops rest.
Proof.
  destruct rest as [|b rest]; [done|]. cbn. intros H.
  by repeat apply elem_of_cons in H as [->|H]; [..|apply elem_of_nil in H].
Qed.

(** Compact text of one value stands for that value anywhere. *)
Lemma value_text_ok d t : value_text d t = true → compact false false t = t → text_ok d t (λ _, True).
Proof.
  intros Hv Hc. destruct (value_text_read _ _ Hv) as (Hne & v & Hread).
  assert (Hs : skip_space t = t) by (rewrite <-Hc; apply compact_no_space).
  split; [done|split; [by rewrite <-Hs|]]. intros f depth rest ?? ?%follows_stops. exists v. split; [|done]. by apply Hread.
Qed.

Lemma raw_codec_ok d raw :
  (raw ≠ [] → value_text d raw = true) → compact false false raw = raw → codec_reads raw_codec d raw raw.
Proof.
  intros Hv Hc t. cbn [put raw_codec]. destruct (parse (string_of raw)) eqn:Hp; [|done]. intros [= <-]. rewrite Hc.
  eapply text_ok_mono; [apply value_text_ok; [apply Hv|done]|done|done]. by intros ->.
Qed.

Lemma codec_reads_mono {A} (c : codec A) d d' a a' : codec_reads c d a a' → d ≤ d' → codec_reads c d' a a'.
Proof. intros Hc Hd t Ht. eapply text_ok_mono; [by apply Hc|done|done]. Qed.
