(* ===== verification/Protocol.v ===== *)
(** * Wire types (internal/protocol/protocol.go)

    The structs are records with the source's field names, prefixed by the
    struct's name; a pointer field is an [option].  The string types
    ([EnvelopeType], [TxKind], [TxStatus]) stay strings: a peer may send any
    value, and the code compares with the constants. *)

From S2P Require Import Prelude Rfc3339.

Definition ProtocolVersion : Z := 2.

Definition EnvelopeType : Type := string.
Definition TypeHello : EnvelopeType := "hello".
Definition TypeChallenge : EnvelopeType := "challenge".
Definition TypeAuth : EnvelopeType := "auth".
Definition TypeWelcome : EnvelopeType := "welcome".
Definition TypeRequest : EnvelopeType := "request".
Definition TypeResult : EnvelopeType := "result".
Definition TypeWithdraw : EnvelopeType := "withdraw".
Definition TypeControl : EnvelopeType := "control".
Definition TypeQuery : EnvelopeType := "query".
Definition TypeQueryResult : EnvelopeType := "query_result".
Definition TypeError : EnvelopeType := "error".

Record Query := MkQuery {
  Query_Op : string;
  Query_ContactID : string;
  Query_Account : string;
  Query_Nonce : string;
}.

Record QueryResult := MkQueryResult {
  QueryResult_Error : string;
  QueryResult_Data : list byte; (* json.RawMessage *)
}.

Record Hello := MkHello {
  Hello_DeviceID : string;
  Hello_Accounts : list string;
}.

Record Challenge := MkChallenge { Challenge_Nonce : list byte }.

Record Auth := MkAuth { Auth_Signatures : gmap string string }.

Record Welcome := MkWelcome { Welcome_Accounts : list string }.

Record Control := MkControl {
  Control_Op : string;
  Control_CorrID : string;
  Control_Account : string;
  Control_KeyID : string;
  Control_Hash : string;
  Control_AllowedOrigins : gslice string;
  Control_Version : Z;
  Control_Blob : gslice byte;
  Control_Error : string;
}.

Definition TxKind : Type := string.
Definition KindSend : TxKind := "send".

Record TxRequest := MkTxRequest {
  TxRequest_ID : string;
  TxRequest_ContactID : string;
  TxRequest_ContactName : string;
  TxRequest_Kind : TxKind;
  TxRequest_Account : string;
  TxRequest_Counterparty : string;
  TxRequest_Destination : string;
  TxRequest_AmountRaw : string;
  TxRequest_Memo : string;
  TxRequest_Nonce : string;
  TxRequest_CreatedAt : Time;
  TxRequest_ActionOverride : string;
}.

Definition TxStatus : Type := string.
Definition StatusPending : TxStatus := "pending".
Definition StatusSigned : TxStatus := "signed".
Definition StatusBroadcast : TxStatus := "broadcast".
Definition StatusRejected : TxStatus := "rejected".
Definition StatusFailed : TxStatus := "failed".

Record SignedBlock := MkSignedBlock {
  SignedBlock_Type : string;
  SignedBlock_Account : string;
  SignedBlock_Previous : string;
  SignedBlock_Representative : string;
  SignedBlock_Balance : string;
  SignedBlock_Link : string;
  SignedBlock_Signature : string;
  SignedBlock_Work : string;
  SignedBlock_Subtype : string;
}.

Record TxResult := MkTxResult {
  TxResult_RequestID : string;
  TxResult_Status : TxStatus;
  TxResult_BlockHash : string;
  TxResult_SignedBlock : option SignedBlock;
  TxResult_Reason : string;
  TxResult_DecidedAt : Time;
}.

Record Envelope := MkEnvelope {
  Envelope_Version : Z;
  Envelope_Type : EnvelopeType;
  Envelope_ID : string;
  Envelope_Hello : option Hello;
  Envelope_Challenge : option Challenge;
  Envelope_Auth : option Auth;
  Envelope_Welcome : option Welcome;
  Envelope_Request : option TxRequest;
  Envelope_Result : option TxResult;
  Envelope_Control : option Control;
  Envelope_Query : option Query;
  Envelope_QueryResult : option QueryResult;
  Envelope_Error : string;
}.

(** ** Composite literals: the frames the relay writes, other fields zero *)

Definition challengeEnv (c : Challenge) : Envelope :=
  MkEnvelope ProtocolVersion TypeChallenge "" None (Some c) None None None None None None None "".
Definition welcomeEnv (w : Welcome) : Envelope :=
  MkEnvelope ProtocolVersion TypeWelcome "" None None None (Some w) None None None None None "".
Definition requestEnv (id : string) (r : TxRequest) : Envelope :=
  MkEnvelope ProtocolVersion TypeRequest id None None None None (Some r) None None None None "".
Definition withdrawEnv (id : string) : Envelope :=
  MkEnvelope ProtocolVersion TypeWithdraw id None None None None None None None None None "".
Definition controlEnv (c : Control) : Envelope :=
  MkEnvelope ProtocolVersion TypeControl "" None None None None None None (Some c) None None "".
Definition queryEnv (id : string) (q : Query) : Envelope :=
  MkEnvelope ProtocolVersion TypeQuery id None None None None None None None (Some q) None "".
Definition errorEnv (msg : string) : Envelope :=
  MkEnvelope ProtocolVersion TypeError "" None None None None None None None None None msg.

(** [&protocol.Control{Op: "result", CorrID: id}]. *)
Definition resultControl (id : string) : Control :=
  MkControl "result" id "" "" "" None 0 None "".

(** ** Decidable equality: frames are compared in the lemmas about delivery *)

#[export] Instance Query_eq_dec : EqDecision Query.
Proof. solve_decision. Defined.
#[export] Instance QueryResult_eq_dec : EqDecision QueryResult.
Proof. solve_decision. Defined.
#[export] Instance Hello_eq_dec : EqDecision Hello.
Proof. solve_decision. Defined.
#[export] Instance Control_eq_dec : EqDecision Control.
Proof. solve_decision. Defined.
#[export] Instance TxRequest_eq_dec : EqDecision TxRequest.
Proof. unfold EqDecision. solve_decision. Defined.
#[export] Instance SignedBlock_eq_dec : EqDecision SignedBlock.
Proof. solve_decision. Defined.
#[export] Instance TxResult_eq_dec : EqDecision TxResult.
Proof. solve_decision. Defined.
