(* ===== verification/Wire.v ===== *)
(** * Frames and bodies as JSON text (internal/protocol/protocol.go's tags)

    What gorilla's [WriteJSON] and [ReadJSON] and the handlers' [writeJSON]
    make of the wire types.  The structs are lists of fields in the source's
    order, with their tags. *)

From S2P Require Import Prelude GoStd BigRat Utf8 Json JsonText Rfc3339 Base64 Codec Protocol.

Local Open Scope Z_scope.

(** ** The structs and their tags *)

Definition blank {A} `{EqDecision A} (z a : A) : bool := bool_decide (a = z).
Definition is_nil {A} (o : option A) : bool := if o is None then true else false.
Definition no_elems {A} (l : gslice A) : bool := if elems l is [] then true else false.
Definition no_items {A} (l : list A) : bool := if l is [] then true else false.

Definition Query_fields : list (field Query) := [
  Field "op" keep string_codec Query_Op (λ a r, MkQuery a (Query_ContactID r) (Query_Account r) (Query_Nonce r));
  Field "contact_id" keep string_codec Query_ContactID (λ a r, MkQuery (Query_Op r) a (Query_Account r) (Query_Nonce r));
  Field "account" keep string_codec Query_Account (λ a r, MkQuery (Query_Op r) (Query_ContactID r) a (Query_Nonce r));
  Field "nonce" (blank "") string_codec Query_Nonce (λ a r, MkQuery (Query_Op r) (Query_ContactID r) (Query_Account r) a)].
Definition zero_Query : Query := MkQuery "" "" "" "".

Definition QueryResult_fields : list (field QueryResult) := [
  Field "error" (blank "") string_codec QueryResult_Error (λ a r, MkQueryResult a (QueryResult_Data r));
  Field "data" no_items raw_codec QueryResult_Data (λ a r, MkQueryResult (QueryResult_Error r) a)].
Definition zero_QueryResult : QueryResult := MkQueryResult "" [].

Definition Hello_fields : list (field Hello) := [
  Field "device_id" keep string_codec Hello_DeviceID (λ a r, MkHello a (Hello_Accounts r));
  Field "accounts" no_items (slice_codec strings_codec) Hello_Accounts (λ a r, MkHello (Hello_DeviceID r) a)].
Definition zero_Hello : Hello := MkHello "" [].

Definition Challenge_fields : list (field Challenge) := [
  Field "nonce" keep (slice_codec bytes_codec) Challenge_Nonce (λ a _, MkChallenge a)].
Definition zero_Challenge : Challenge := MkChallenge [].

Definition Auth_fields : list (field Auth) := [
  Field "signatures" keep map_codec Auth_Signatures (λ a _, MkAuth a)].
Definition zero_Auth : Auth := MkAuth ∅.

Definition Welcome_fields : list (field Welcome) := [
  Field "accounts" keep (slice_codec strings_codec) Welcome_Accounts (λ a _, MkWelcome a)].
Definition zero_Welcome : Welcome := MkWelcome [].

Definition Control_fields : list (field Control) := [
  Field "op" keep string_codec Control_Op
    (λ a r, MkControl a (Control_CorrID r) (Control_Account r) (Control_KeyID r) (Control_Hash r)
      (Control_AllowedOrigins r) (Control_Version r) (Control_Blob r) (Control_Error r));
  Field "corr_id" keep string_codec Control_CorrID
    (λ a r, MkControl (Control_Op r) a (Control_Account r) (Control_KeyID r) (Control_Hash r)
      (Control_AllowedOrigins r) (Control_Version r) (Control_Blob r) (Control_Error r));
  Field "account" (blank "") string_codec Control_Account
    (λ a r, MkControl (Control_Op r) (Control_CorrID r) a (Control_KeyID r) (Control_Hash r)
      (Control_AllowedOrigins r) (Control_Version r) (Control_Blob r) (Control_Error r));
  Field "key_id" (blank "") string_codec Control_KeyID
    (λ a r, MkControl (Control_Op r) (Control_CorrID r) (Control_Account r) a (Control_Hash r)
      (Control_AllowedOrigins r) (Control_Version r) (Control_Blob r) (Control_Error r));
  Field "hash" (blank "") string_codec Control_Hash
    (λ a r, MkControl (Control_Op r) (Control_CorrID r) (Control_Account r) (Control_KeyID r) a
      (Control_AllowedOrigins r) (Control_Version r) (Control_Blob r) (Control_Error r));
  Field "allowed_origins" no_elems strings_codec Control_AllowedOrigins
    (λ a r, MkControl (Control_Op r) (Control_CorrID r) (Control_Account r) (Control_KeyID r) (Control_Hash r) a
      (Control_Version r) (Control_Blob r) (Control_Error r));
  Field "version" (blank 0) int_codec Control_Version
    (λ a r, MkControl (Control_Op r) (Control_CorrID r) (Control_Account r) (Control_KeyID r) (Control_Hash r)
      (Control_AllowedOrigins r) a (Control_Blob r) (Control_Error r));
  Field "blob" no_elems bytes_codec Control_Blob
    (λ a r, MkControl (Control_Op r) (Control_CorrID r) (Control_Account r) (Control_KeyID r) (Control_Hash r)
      (Control_AllowedOrigins r) (Control_Version r) a (Control_Error r));
  Field "error" (blank "") string_codec Control_Error
    (λ a r, MkControl (Control_Op r) (Control_CorrID r) (Control_Account r) (Control_KeyID r) (Control_Hash r)
      (Control_AllowedOrigins r) (Control_Version r) (Control_Blob r) a)].
Definition zero_Control : Control := MkControl "" "" "" "" "" None 0 None "".

Definition TxRequest_fields : list (field TxRequest) := [
  Field "id" keep string_codec TxRequest_ID
    (λ a r, MkTxRequest a (TxRequest_ContactID r) (TxRequest_ContactName r) (TxRequest_Kind r)
      (TxRequest_Account r) (TxRequest_Counterparty r) (TxRequest_Destination r) (TxRequest_AmountRaw r)
      (TxRequest_Memo r) (TxRequest_Nonce r) (TxRequest_CreatedAt r) (TxRequest_ActionOverride r));
  Field "contact_id" keep string_codec TxRequest_ContactID
    (λ a r, MkTxRequest (TxRequest_ID r) a (TxRequest_ContactName r) (TxRequest_Kind r) (TxRequest_Account r)
      (TxRequest_Counterparty r) (TxRequest_Destination r) (TxRequest_AmountRaw r) (TxRequest_Memo r)
      (TxRequest_Nonce r) (TxRequest_CreatedAt r) (TxRequest_ActionOverride r));
  Field "contact_name" (blank "") string_codec TxRequest_ContactName
    (λ a r, MkTxRequest (TxRequest_ID r) (TxRequest_ContactID r) a (TxRequest_Kind r) (TxRequest_Account r)
      (TxRequest_Counterparty r) (TxRequest_Destination r) (TxRequest_AmountRaw r) (TxRequest_Memo r)
      (TxRequest_Nonce r) (TxRequest_CreatedAt r) (TxRequest_ActionOverride r));
  Field "kind" keep string_codec TxRequest_Kind
    (λ a r, MkTxRequest (TxRequest_ID r) (TxRequest_ContactID r) (TxRequest_ContactName r) a (TxRequest_Account
      r) (TxRequest_Counterparty r) (TxRequest_Destination r) (TxRequest_AmountRaw r) (TxRequest_Memo r)
      (TxRequest_Nonce r) (TxRequest_CreatedAt r) (TxRequest_ActionOverride r));
  Field "account" (blank "") string_codec TxRequest_Account
    (λ a r, MkTxRequest (TxRequest_ID r) (TxRequest_ContactID r) (TxRequest_ContactName r) (TxRequest_Kind r) a
      (TxRequest_Counterparty r) (TxRequest_Destination r) (TxRequest_AmountRaw r) (TxRequest_Memo r)
      (TxRequest_Nonce r) (TxRequest_CreatedAt r) (TxRequest_ActionOverride r));
  Field "counterparty" (blank "") string_codec TxRequest_Counterparty
    (λ a r, MkTxRequest (TxRequest_ID r) (TxRequest_ContactID r) (TxRequest_ContactName r) (TxRequest_Kind r)
      (TxRequest_Account r) a (TxRequest_Destination r) (TxRequest_AmountRaw r) (TxRequest_Memo r)
      (TxRequest_Nonce r) (TxRequest_CreatedAt r) (TxRequest_ActionOverride r));
  Field "destination" (blank "") string_codec TxRequest_Destination
    (λ a r, MkTxRequest (TxRequest_ID r) (TxRequest_ContactID r) (TxRequest_ContactName r) (TxRequest_Kind r)
      (TxRequest_Account r) (TxRequest_Counterparty r) a (TxRequest_AmountRaw r) (TxRequest_Memo r)
      (TxRequest_Nonce r) (TxRequest_CreatedAt r) (TxRequest_ActionOverride r));
  Field "amount_raw" (blank "") string_codec TxRequest_AmountRaw
    (λ a r, MkTxRequest (TxRequest_ID r) (TxRequest_ContactID r) (TxRequest_ContactName r) (TxRequest_Kind r)
      (TxRequest_Account r) (TxRequest_Counterparty r) (TxRequest_Destination r) a (TxRequest_Memo r)
      (TxRequest_Nonce r) (TxRequest_CreatedAt r) (TxRequest_ActionOverride r));
  Field "memo" (blank "") string_codec TxRequest_Memo
    (λ a r, MkTxRequest (TxRequest_ID r) (TxRequest_ContactID r) (TxRequest_ContactName r) (TxRequest_Kind r)
      (TxRequest_Account r) (TxRequest_Counterparty r) (TxRequest_Destination r) (TxRequest_AmountRaw r) a
      (TxRequest_Nonce r) (TxRequest_CreatedAt r) (TxRequest_ActionOverride r));
  Field "nonce" keep string_codec TxRequest_Nonce
    (λ a r, MkTxRequest (TxRequest_ID r) (TxRequest_ContactID r) (TxRequest_ContactName r) (TxRequest_Kind r)
      (TxRequest_Account r) (TxRequest_Counterparty r) (TxRequest_Destination r) (TxRequest_AmountRaw r)
      (TxRequest_Memo r) a (TxRequest_CreatedAt r) (TxRequest_ActionOverride r));
  Field "created_at" keep (time_codec zero_time) TxRequest_CreatedAt
    (λ a r, MkTxRequest (TxRequest_ID r) (TxRequest_ContactID r) (TxRequest_ContactName r) (TxRequest_Kind r)
      (TxRequest_Account r) (TxRequest_Counterparty r) (TxRequest_Destination r) (TxRequest_AmountRaw r)
      (TxRequest_Memo r) (TxRequest_Nonce r) a (TxRequest_ActionOverride r));
  Field "action_override" (blank "") string_codec TxRequest_ActionOverride
    (λ a r, MkTxRequest (TxRequest_ID r) (TxRequest_ContactID r) (TxRequest_ContactName r) (TxRequest_Kind r)
      (TxRequest_Account r) (TxRequest_Counterparty r) (TxRequest_Destination r) (TxRequest_AmountRaw r)
      (TxRequest_Memo r) (TxRequest_Nonce r) (TxRequest_CreatedAt r) a)].
Definition zero_TxRequest : TxRequest := MkTxRequest "" "" "" "" "" "" "" "" "" "" zero_time "".

Definition SignedBlock_fields : list (field SignedBlock) := [
  Field "type" keep string_codec SignedBlock_Type
    (λ a r, MkSignedBlock a (SignedBlock_Account r) (SignedBlock_Previous r) (SignedBlock_Representative r)
      (SignedBlock_Balance r) (SignedBlock_Link r) (SignedBlock_Signature r) (SignedBlock_Work r)
      (SignedBlock_Subtype r));
  Field "account" keep string_codec SignedBlock_Account
    (λ a r, MkSignedBlock (SignedBlock_Type r) a (SignedBlock_Previous r) (SignedBlock_Representative r)
      (SignedBlock_Balance r) (SignedBlock_Link r) (SignedBlock_Signature r) (SignedBlock_Work r)
      (SignedBlock_Subtype r));
  Field "previous" keep string_codec SignedBlock_Previous
    (λ a r, MkSignedBlock (SignedBlock_Type r) (SignedBlock_Account r) a (SignedBlock_Representative r)
      (SignedBlock_Balance r) (SignedBlock_Link r) (SignedBlock_Signature r) (SignedBlock_Work r)
      (SignedBlock_Subtype r));
  Field "representative" keep string_codec SignedBlock_Representative
    (λ a r, MkSignedBlock (SignedBlock_Type r) (SignedBlock_Account r) (SignedBlock_Previous r) a
      (SignedBlock_Balance r) (SignedBlock_Link r) (SignedBlock_Signature r) (SignedBlock_Work r)
      (SignedBlock_Subtype r));
  Field "balance" keep string_codec SignedBlock_Balance
    (λ a r, MkSignedBlock (SignedBlock_Type r) (SignedBlock_Account r) (SignedBlock_Previous r)
      (SignedBlock_Representative r) a (SignedBlock_Link r) (SignedBlock_Signature r) (SignedBlock_Work r)
      (SignedBlock_Subtype r));
  Field "link" keep string_codec SignedBlock_Link
    (λ a r, MkSignedBlock (SignedBlock_Type r) (SignedBlock_Account r) (SignedBlock_Previous r)
      (SignedBlock_Representative r) (SignedBlock_Balance r) a (SignedBlock_Signature r) (SignedBlock_Work r)
      (SignedBlock_Subtype r));
  Field "signature" keep string_codec SignedBlock_Signature
    (λ a r, MkSignedBlock (SignedBlock_Type r) (SignedBlock_Account r) (SignedBlock_Previous r)
      (SignedBlock_Representative r) (SignedBlock_Balance r) (SignedBlock_Link r) a (SignedBlock_Work r)
      (SignedBlock_Subtype r));
  Field "work" keep string_codec SignedBlock_Work
    (λ a r, MkSignedBlock (SignedBlock_Type r) (SignedBlock_Account r) (SignedBlock_Previous r)
      (SignedBlock_Representative r) (SignedBlock_Balance r) (SignedBlock_Link r) (SignedBlock_Signature r) a
      (SignedBlock_Subtype r));
  Field "subtype" keep string_codec SignedBlock_Subtype
    (λ a r, MkSignedBlock (SignedBlock_Type r) (SignedBlock_Account r) (SignedBlock_Previous r)
      (SignedBlock_Representative r) (SignedBlock_Balance r) (SignedBlock_Link r) (SignedBlock_Signature r)
      (SignedBlock_Work r) a)].
Definition zero_SignedBlock : SignedBlock := MkSignedBlock "" "" "" "" "" "" "" "" "".

Definition TxResult_fields : list (field TxResult) := [
  Field "request_id" keep string_codec TxResult_RequestID
    (λ a r, MkTxResult a (TxResult_Status r) (TxResult_BlockHash r) (TxResult_SignedBlock r) (TxResult_Reason r)
      (TxResult_DecidedAt r));
  Field "status" keep string_codec TxResult_Status
    (λ a r, MkTxResult (TxResult_RequestID r) a (TxResult_BlockHash r) (TxResult_SignedBlock r) (TxResult_Reason
      r) (TxResult_DecidedAt r));
  Field "block_hash" (blank "") string_codec TxResult_BlockHash
    (λ a r, MkTxResult (TxResult_RequestID r) (TxResult_Status r) a (TxResult_SignedBlock r) (TxResult_Reason r)
      (TxResult_DecidedAt r));
  Field "signed_block" is_nil (ptr_codec SignedBlock_fields zero_SignedBlock) TxResult_SignedBlock
    (λ a r, MkTxResult (TxResult_RequestID r) (TxResult_Status r) (TxResult_BlockHash r) a (TxResult_Reason r)
      (TxResult_DecidedAt r));
  Field "reason" (blank "") string_codec TxResult_Reason
    (λ a r, MkTxResult (TxResult_RequestID r) (TxResult_Status r) (TxResult_BlockHash r) (TxResult_SignedBlock
      r) a (TxResult_DecidedAt r));
  Field "decided_at" keep (time_codec zero_time) TxResult_DecidedAt
    (λ a r, MkTxResult (TxResult_RequestID r) (TxResult_Status r) (TxResult_BlockHash r) (TxResult_SignedBlock
      r) (TxResult_Reason r) a)].
Definition zero_TxResult : TxResult := MkTxResult "" "" "" None "" zero_time.

Definition Envelope_fields : list (field Envelope) := [
  Field "version" keep int_codec Envelope_Version
    (λ a r, MkEnvelope a (Envelope_Type r) (Envelope_ID r) (Envelope_Hello r) (Envelope_Challenge r)
      (Envelope_Auth r) (Envelope_Welcome r) (Envelope_Request r) (Envelope_Result r) (Envelope_Control r)
      (Envelope_Query r) (Envelope_QueryResult r) (Envelope_Error r));
  Field "type" keep string_codec Envelope_Type
    (λ a r, MkEnvelope (Envelope_Version r) a (Envelope_ID r) (Envelope_Hello r) (Envelope_Challenge r)
      (Envelope_Auth r) (Envelope_Welcome r) (Envelope_Request r) (Envelope_Result r) (Envelope_Control r)
      (Envelope_Query r) (Envelope_QueryResult r) (Envelope_Error r));
  Field "id" (blank "") string_codec Envelope_ID
    (λ a r, MkEnvelope (Envelope_Version r) (Envelope_Type r) a (Envelope_Hello r) (Envelope_Challenge r)
      (Envelope_Auth r) (Envelope_Welcome r) (Envelope_Request r) (Envelope_Result r) (Envelope_Control r)
      (Envelope_Query r) (Envelope_QueryResult r) (Envelope_Error r));
  Field "hello" is_nil (ptr_codec Hello_fields zero_Hello) Envelope_Hello
    (λ a r, MkEnvelope (Envelope_Version r) (Envelope_Type r) (Envelope_ID r) a (Envelope_Challenge r)
      (Envelope_Auth r) (Envelope_Welcome r) (Envelope_Request r) (Envelope_Result r) (Envelope_Control r)
      (Envelope_Query r) (Envelope_QueryResult r) (Envelope_Error r));
  Field "challenge" is_nil (ptr_codec Challenge_fields zero_Challenge) Envelope_Challenge
    (λ a r, MkEnvelope (Envelope_Version r) (Envelope_Type r) (Envelope_ID r) (Envelope_Hello r) a
      (Envelope_Auth r) (Envelope_Welcome r) (Envelope_Request r) (Envelope_Result r) (Envelope_Control r)
      (Envelope_Query r) (Envelope_QueryResult r) (Envelope_Error r));
  Field "auth" is_nil (ptr_codec Auth_fields zero_Auth) Envelope_Auth
    (λ a r, MkEnvelope (Envelope_Version r) (Envelope_Type r) (Envelope_ID r) (Envelope_Hello r)
      (Envelope_Challenge r) a (Envelope_Welcome r) (Envelope_Request r) (Envelope_Result r) (Envelope_Control r)
      (Envelope_Query r) (Envelope_QueryResult r) (Envelope_Error r));
  Field "welcome" is_nil (ptr_codec Welcome_fields zero_Welcome) Envelope_Welcome
    (λ a r, MkEnvelope (Envelope_Version r) (Envelope_Type r) (Envelope_ID r) (Envelope_Hello r)
      (Envelope_Challenge r) (Envelope_Auth r) a (Envelope_Request r) (Envelope_Result r) (Envelope_Control r)
      (Envelope_Query r) (Envelope_QueryResult r) (Envelope_Error r));
  Field "request" is_nil (ptr_codec TxRequest_fields zero_TxRequest) Envelope_Request
    (λ a r, MkEnvelope (Envelope_Version r) (Envelope_Type r) (Envelope_ID r) (Envelope_Hello r)
      (Envelope_Challenge r) (Envelope_Auth r) (Envelope_Welcome r) a (Envelope_Result r) (Envelope_Control r)
      (Envelope_Query r) (Envelope_QueryResult r) (Envelope_Error r));
  Field "result" is_nil (ptr_codec TxResult_fields zero_TxResult) Envelope_Result
    (λ a r, MkEnvelope (Envelope_Version r) (Envelope_Type r) (Envelope_ID r) (Envelope_Hello r)
      (Envelope_Challenge r) (Envelope_Auth r) (Envelope_Welcome r) (Envelope_Request r) a (Envelope_Control r)
      (Envelope_Query r) (Envelope_QueryResult r) (Envelope_Error r));
  Field "control" is_nil (ptr_codec Control_fields zero_Control) Envelope_Control
    (λ a r, MkEnvelope (Envelope_Version r) (Envelope_Type r) (Envelope_ID r) (Envelope_Hello r)
      (Envelope_Challenge r) (Envelope_Auth r) (Envelope_Welcome r) (Envelope_Request r) (Envelope_Result r) a
      (Envelope_Query r) (Envelope_QueryResult r) (Envelope_Error r));
  Field "query" is_nil (ptr_codec Query_fields zero_Query) Envelope_Query
    (λ a r, MkEnvelope (Envelope_Version r) (Envelope_Type r) (Envelope_ID r) (Envelope_Hello r)
      (Envelope_Challenge r) (Envelope_Auth r) (Envelope_Welcome r) (Envelope_Request r) (Envelope_Result r)
      (Envelope_Control r) a (Envelope_QueryResult r) (Envelope_Error r));
  Field "query_result" is_nil (ptr_codec QueryResult_fields zero_QueryResult) Envelope_QueryResult
    (λ a r, MkEnvelope (Envelope_Version r) (Envelope_Type r) (Envelope_ID r) (Envelope_Hello r)
      (Envelope_Challenge r) (Envelope_Auth r) (Envelope_Welcome r) (Envelope_Request r) (Envelope_Result r)
      (Envelope_Control r) (Envelope_Query r) a (Envelope_Error r));
  Field "error" (blank "") string_codec Envelope_Error
    (λ a r, MkEnvelope (Envelope_Version r) (Envelope_Type r) (Envelope_ID r) (Envelope_Hello r)
      (Envelope_Challenge r) (Envelope_Auth r) (Envelope_Welcome r) (Envelope_Request r) (Envelope_Result r)
      (Envelope_Control r) (Envelope_Query r) (Envelope_QueryResult r) a)].
Definition zero_Envelope : Envelope := MkEnvelope 0 "" "" None None None None None None None None None "".

(** ** Messages *)

(** [WriteJSON]: the text and a line feed; [None] when a value cannot be written. *)
Definition WriteJSON (env : Envelope) : option (list byte) :=
  t ← put_struct Envelope_fields env; Some (t ++ [x0a]).

(** [ReadJSON]: the first value of the message, whatever follows it. *)
Definition ReadJSON (text : list byte) : option Envelope :=
  '(v, _) ← parse_prefix text; get_struct Envelope_fields v zero_Envelope.

(** ** What can be written and read back *)

(** Strings that are valid UTF-8, integers of 64 bits, times with a zone of
    whole minutes; a slice with omitempty is nil or has elements (an empty one
    is read back as nil); the device's data is one compact JSON value. *)
Definition valid (l : list string) : Prop := Forall (λ s, ValidString s = true) l.
Definition int64 (n : Z) : Prop := - 2 ^ 63 ≤ n < 2 ^ 63.
Definition nil_or_some {A} (l : gslice A) : Prop := l ≠ Some [].

(** The nesting left to the values inside the innermost struct of a frame. *)
Definition depth0 : Z := maxNestingDepth - 3.

Definition Query_ok (q : Query) : Prop :=
  valid [Query_Op q; Query_ContactID q; Query_Account q; Query_Nonce q].
Definition QueryResult_ok (q : QueryResult) : Prop :=
  valid [QueryResult_Error q] ∧
  (QueryResult_Data q ≠ [] → value_text (depth0 + 1) (QueryResult_Data q) = true) ∧
  compact false false (QueryResult_Data q) = QueryResult_Data q.
Definition Hello_ok (h : Hello) : Prop := valid (Hello_DeviceID h :: Hello_Accounts h).
Definition Auth_ok (a : Auth) : Prop :=
  map_Forall (λ k s, ValidString k = true ∧ ValidString s = true) (Auth_Signatures a).
Definition Control_ok (c : Control) : Prop :=
  valid ([Control_Op c; Control_CorrID c; Control_Account c; Control_KeyID c; Control_Hash c; Control_Error c] ++
         elems (Control_AllowedOrigins c)) ∧
  int64 (Control_Version c) ∧ nil_or_some (Control_AllowedOrigins c) ∧ nil_or_some (Control_Blob c).
Definition time_ok (t : Time) : Prop := zone t mod 60 = 0.
Definition TxRequest_ok (r : TxRequest) : Prop :=
  valid [TxRequest_ID r; TxRequest_ContactID r; TxRequest_ContactName r; TxRequest_Kind r; TxRequest_Account r;
         TxRequest_Counterparty r; TxRequest_Destination r; TxRequest_AmountRaw r; TxRequest_Memo r;
         TxRequest_Nonce r; TxRequest_ActionOverride r] ∧ time_ok (TxRequest_CreatedAt r).
Definition SignedBlock_ok (b : SignedBlock) : Prop :=
  valid [SignedBlock_Type b; SignedBlock_Account b; SignedBlock_Previous b; SignedBlock_Representative b;
         SignedBlock_Balance b; SignedBlock_Link b; SignedBlock_Signature b; SignedBlock_Work b; SignedBlock_Subtype b].
Definition TxResult_ok (r : TxResult) : Prop :=
  valid [TxResult_RequestID r; TxResult_Status r; TxResult_BlockHash r; TxResult_Reason r] ∧
  time_ok (TxResult_DecidedAt r) ∧ (∀ b, TxResult_SignedBlock r = Some b → SignedBlock_ok b).

Record Envelope_ok (e : Envelope) : Prop := {
  eo_strings : valid [Envelope_Type e; Envelope_ID e; Envelope_Error e];
  eo_version : int64 (Envelope_Version e);
  eo_hello h : Envelope_Hello e = Some h → Hello_ok h;
  eo_auth a : Envelope_Auth e = Some a → Auth_ok a;
  eo_welcome w : Envelope_Welcome e = Some w → valid (Welcome_Accounts w);
  eo_request r : Envelope_Request e = Some r → TxRequest_ok r;
  eo_result r : Envelope_Result e = Some r → TxResult_ok r;
  eo_control c : Envelope_Control e = Some c → Control_ok c;
  eo_query q : Envelope_Query e = Some q → Query_ok q;
  eo_query_result q : Envelope_QueryResult e = Some q → QueryResult_ok q;
}.

(** *** What is read back

    Strings are read with their invalid bytes replaced, the slices that are left
    out when empty are read as nil, and everything else as it was. *)

Definition read_Query (q : Query) : Query :=
  MkQuery (replace_invalid (Query_Op q)) (replace_invalid (Query_ContactID q)) (replace_invalid (Query_Account q))
    (replace_invalid (Query_Nonce q)).
Definition read_QueryResult (q : QueryResult) : QueryResult :=
  MkQueryResult (replace_invalid (QueryResult_Error q)) (QueryResult_Data q).
Definition read_Hello (h : Hello) : Hello :=
  MkHello (replace_invalid (Hello_DeviceID h)) (replace_invalid <$> Hello_Accounts h).
Definition read_Auth (a : Auth) : Auth := MkAuth (replace_invalid <$> Auth_Signatures a).
Definition read_Welcome (w : Welcome) : Welcome := MkWelcome (replace_invalid <$> Welcome_Accounts w).
Definition nil_empty {A} (l : gslice A) : gslice A := match l with Some [] => None | _ => l end.
Definition read_Control (c : Control) : Control :=
  MkControl (replace_invalid (Control_Op c)) (replace_invalid (Control_CorrID c))
    (replace_invalid (Control_Account c)) (replace_invalid (Control_KeyID c)) (replace_invalid (Control_Hash c))
    (nil_empty (replace_all (Control_AllowedOrigins c))) (Control_Version c) (nil_empty (Control_Blob c))
    (replace_invalid (Control_Error c)).
Definition read_TxRequest (r : TxRequest) : TxRequest :=
  MkTxRequest (replace_invalid (TxRequest_ID r)) (replace_invalid (TxRequest_ContactID r))
    (replace_invalid (TxRequest_ContactName r)) (replace_invalid (TxRequest_Kind r))
    (replace_invalid (TxRequest_Account r)) (replace_invalid (TxRequest_Counterparty r))
    (replace_invalid (TxRequest_Destination r)) (replace_invalid (TxRequest_AmountRaw r))
    (replace_invalid (TxRequest_Memo r)) (replace_invalid (TxRequest_Nonce r)) (TxRequest_CreatedAt r)
    (replace_invalid (TxRequest_ActionOverride r)).
Definition read_SignedBlock (b : SignedBlock) : SignedBlock :=
  MkSignedBlock (replace_invalid (SignedBlock_Type b)) (replace_invalid (SignedBlock_Account b))
    (replace_invalid (SignedBlock_Previous b)) (replace_invalid (SignedBlock_Representative b))
    (replace_invalid (SignedBlock_Balance b)) (replace_invalid (SignedBlock_Link b))
    (replace_invalid (SignedBlock_Signature b)) (replace_invalid (SignedBlock_Work b))
    (replace_invalid (SignedBlock_Subtype b)).
Definition read_TxResult (r : TxResult) : TxResult :=
  MkTxResult (replace_invalid (TxResult_RequestID r)) (replace_invalid (TxResult_Status r))
    (replace_invalid (TxResult_BlockHash r)) (read_SignedBlock <$> TxResult_SignedBlock r)
    (replace_invalid (TxResult_Reason r)) (TxResult_DecidedAt r).
Definition read_Envelope (e : Envelope) : Envelope :=
  MkEnvelope (Envelope_Version e) (replace_invalid (Envelope_Type e)) (replace_invalid (Envelope_ID e))
    (read_Hello <$> Envelope_Hello e) (Envelope_Challenge e) (read_Auth <$> Envelope_Auth e)
    (read_Welcome <$> Envelope_Welcome e) (read_TxRequest <$> Envelope_Request e)
    (read_TxResult <$> Envelope_Result e) (read_Control <$> Envelope_Control e) (read_Query <$> Envelope_Query e)
    (read_QueryResult <$> Envelope_QueryResult e) (replace_invalid (Envelope_Error e)).

(** What that takes: integers of 64 bits, zones of whole minutes, account names
    that are valid UTF-8 where they are the keys of a map, data that is one
    compact JSON value. *)
Definition data_ok (data : list byte) : Prop :=
  (data ≠ [] → value_text (depth0 + 1) data = true) ∧ compact false false data = data.

Record Envelope_fits (e : Envelope) : Prop := {
  ef_version : int64 (Envelope_Version e);
  ef_auth a : Envelope_Auth e = Some a → map_Forall (λ k s, ValidString k = true) (Auth_Signatures a);
  ef_request r : Envelope_Request e = Some r → time_ok (TxRequest_CreatedAt r);
  ef_result r : Envelope_Result e = Some r → time_ok (TxResult_DecidedAt r);
  ef_control c : Envelope_Control e = Some c → int64 (Control_Version c);
  ef_query_result q : Envelope_QueryResult e = Some q → data_ok (QueryResult_Data q);
}.

(** Nothing changes in an envelope whose strings are valid. *)

Lemma replace_map_valid (m : gmap string string) :
  map_Forall (λ k s, ValidString s = true) m → replace_invalid <$> m = m.
Proof.
  intros Hm. apply map_eq; intros k. rewrite lookup_fmap. destruct (m !! k) as [s|] eqn:Hk; [|done].
  cbn. f_equal. by eapply replace_valid, Hm.
Qed.

Lemma nil_empty_id {A} (l : gslice A) : nil_or_some l → nil_empty l = l.
Proof. by destruct l as [[|]|]. Qed.

Lemma replace_all_valid l : valid (elems l) → replace_all l = l.
Proof. destruct l as [l|]; [|done]. intros Hv. cbn. f_equal. by apply replace_valids. Qed.

Lemma fmap_id_if {A} (f : A → A) (o : option A) : (∀ a, o = Some a → f a = a) → f <$> o = o.
Proof. destruct o as [a|]; [|done]. intros H. cbn. f_equal. auto. Qed.

(** The parts of [valid] and of the conjunctions in the context. *)
Ltac split_valid :=
  repeat match goal with
  | H : valid (_ ++ _) |- _ => apply Forall_app in H as [? ?]
  | H : valid (_ :: _) |- _ => apply Forall_cons in H as [? ?]
  | H : valid [] |- _ => clear H
  | H : Forall _ (_ :: _) |- _ => apply Forall_cons in H as [? ?]
  | H : Forall _ [] |- _ => clear H
  | H : _ ∧ _ |- _ => destruct H
  end.

Ltac same_strings := cbn in *; split_valid; rewrite ?replace_valid by assumption; try reflexivity.

Lemma read_SignedBlock_id b : SignedBlock_ok b → read_SignedBlock b = b.
Proof. destruct b. unfold SignedBlock_ok, read_SignedBlock. intros. same_strings. Qed.

Lemma read_TxResult_id r : TxResult_ok r → read_TxResult r = r.
Proof.
  destruct r. unfold TxResult_ok, read_TxResult. intros. same_strings.
  f_equal. apply fmap_id_if. auto using read_SignedBlock_id.
Qed.

Lemma read_Control_id c : Control_ok c → read_Control c = c.
Proof.
  destruct c. unfold Control_ok, read_Control. intros. same_strings.
  by rewrite replace_all_valid, !nil_empty_id.
Qed.

Lemma read_Envelope_id e : Envelope_ok e → read_Envelope e = e.
Proof.
  destruct e. intros [Hs ? Hhello Hauth Hwelcome Hreq Hres Hctl Hq Hqr]. unfold read_Envelope. same_strings.
  f_equal; apply fmap_id_if.
  - intros [] Hv%Hhello. unfold Hello_ok, read_Hello in *. same_strings. by rewrite replace_valids.
  - intros [] Hv%Hauth. unfold Auth_ok, read_Auth in *. cbn in *. f_equal. apply replace_map_valid. by intros k s [_ ?]%Hv.
  - intros [] Hv%Hwelcome. unfold read_Welcome. cbn in *. f_equal. by apply replace_valids.
  - intros [] Hv%Hreq. unfold TxRequest_ok, read_TxRequest in *. same_strings.
  - intros r Hv. apply read_TxResult_id. auto.
  - intros c Hv. apply read_Control_id. auto.
  - intros [] Hv%Hq. unfold Query_ok, read_Query in *. same_strings.
  - intros [] Hv%Hqr. unfold QueryResult_ok, read_QueryResult in *. same_strings.
Qed.

Lemma Envelope_ok_fits e : Envelope_ok e → Envelope_fits e.
Proof.
  intros [_ ? _ Hauth _ Hreq Hres Hctl _ Hqr]. split; [done|..].
  - intros a Ha k s Hk. by destruct (Hauth a Ha k s Hk).
  - intros r Hr. by destruct (Hreq r Hr).
  - intros r Hr. by destruct (Hres r Hr) as (_ & ? & _).
  - intros c Hc. by destruct (Hctl c Hc) as (_ & ? & _).
  - intros q Hq. by destruct (Hqr q Hq).
Qed.

(** ** Struct by struct *)

Create HintDb wire.
#[local] Hint Resolve string_codec_reads int_codec_ok bytes_codec_ok time_codec_ok : wire.

(** The omitted field is the zero value already. *)
Ltac omitted :=
  cbn [f_omit f_prj f_upd]; unfold keep, blank; intros Ho;
  first [discriminate Ho
        |apply bool_decide_eq_true in Ho; cbn in Ho; subst; reflexivity
        |lazymatch type of Ho with
         | no_elems ?x = true =>
             let y := eval cbn in x in change (no_elems y = true) in Ho;
             destruct y as [[|]|]; [reflexivity|discriminate Ho|reflexivity]
         | ?p ?x = true =>
             let y := eval cbn in x in change (p y = true) in Ho; destruct y; first [discriminate Ho|reflexivity]
         end].

(** Reads the members of a struct, field by field. *)
Ltac read_members all :=
  let ms := fresh "ms" in let Hp := fresh "Hp" in
  intros ms Hp;
  repeat (let ms' := fresh "ms" in let Hp' := fresh "Hp" in let He := fresh "He" in
    match goal with
    | Hp : pending _ ?r ?r' ?ms |- get_members _ ?ms ?base = _ =>
        destruct (member_step all _ _ r r' ms base Hp) as (ms' & Hp' & He);
        [reflexivity|reflexivity|omitted|]; rewrite He; clear He Hp
    end;
    match goal with
    | |- get_members _ _ ?base = _ => let base' := eval cbn in base in change base with base'
    end);
  match goal with Hp : pending [] _ _ _ |- _ => apply pending_nil in Hp; subst; reflexivity end.

Ltac each_field :=
  repeat (apply Forall_cons; split; [split; [reflexivity|intros Ho; cbn [f_codec f_prj f_omit] in *; eauto with wire]|]);
  try apply Forall_nil; try done.

Lemma Query_reads q : struct_reads Query_fields zero_Query (depth0 + 1) q (read_Query q).
Proof. destruct q. apply struct_reads_intro; [done|each_field|read_members Query_fields]. Qed.

Lemma QueryResult_reads q :
  data_ok (QueryResult_Data q) → struct_reads QueryResult_fields zero_QueryResult (depth0 + 2) q (read_QueryResult q).
Proof.
  destruct q as [err data]. intros [Hv Hc]. cbn in Hv, Hc.
  apply (struct_reads_intro _ _ (depth0 + 1)); [done| |read_members QueryResult_fields].
  constructor; [split; [reflexivity|intros _; cbn; eauto with wire]|]. constructor; [|done].
  split; [reflexivity|]. intros _. by apply raw_codec_ok.
Qed.

Lemma slice_strings_reads d l : 1 ≤ d → codec_reads (slice_codec strings_codec) d l (replace_invalid <$> l).
Proof. intros Hd. apply slice_codec_reads; [done|]. by apply (strings_codec_reads d (Some l)). Qed.
Lemma slice_bytes_ok d l : codec_reads (slice_codec bytes_codec) d l l.
Proof. apply slice_codec_reads; [done|apply bytes_codec_ok]. Qed.
#[local] Hint Resolve slice_strings_reads slice_bytes_ok : wire.
#[local] Hint Extern 1 (_ ≤ _) => by vm_compute : wire.

Lemma Hello_reads h : struct_reads Hello_fields zero_Hello (depth0 + 1) h (read_Hello h).
Proof. destruct h. apply struct_reads_intro; [done|each_field|read_members Hello_fields]. Qed.

Lemma Challenge_reads c : struct_reads Challenge_fields zero_Challenge (depth0 + 1) c c.
Proof. destruct c. apply struct_reads_intro; [done|each_field|read_members Challenge_fields]. Qed.

Lemma Welcome_reads w : struct_reads Welcome_fields zero_Welcome (depth0 + 1) w (read_Welcome w).
Proof. destruct w. apply struct_reads_intro; [done|each_field|read_members Welcome_fields]. Qed.

Lemma Auth_reads a :
  map_Forall (λ k s, ValidString k = true) (Auth_Signatures a) →
  struct_reads Auth_fields zero_Auth (depth0 + 1) a (read_Auth a).
Proof.
  destruct a. cbn. intros Hv. apply struct_reads_intro; [done| |read_members Auth_fields].
  each_field. by apply (map_codec_reads (depth0 - 1)).
Qed.

(** A slice that is left out when empty. *)
Lemma nonempty_reads {A} (c : codec (gslice A)) d (l l' : gslice A) :
  codec_reads c d l l' → length (elems l') = length (elems l) → no_elems l = false → codec_reads c d l (nil_empty l').
Proof. intros Hc Hl Hn. by destruct l' as [[|x l']|], l as [[|y l]|]. Qed.

Lemma Control_reads c :
  int64 (Control_Version c) → struct_reads Control_fields zero_Control (depth0 + 1) c (read_Control c).
Proof.
  destruct c as [op corr acc kid hash origins version blob err]. cbn. intros Hv.
  apply struct_reads_intro; [done| |read_members Control_fields].
  each_field.
  - apply nonempty_reads; [by apply strings_codec_reads| |exact Ho]. destruct origins; cbn; [by rewrite length_fmap|done].
  - apply nonempty_reads; [apply bytes_codec_ok|done|exact Ho].
Qed.

Lemma TxRequest_reads r :
  time_ok (TxRequest_CreatedAt r) → struct_reads TxRequest_fields zero_TxRequest (depth0 + 1) r (read_TxRequest r).
Proof. destruct r. intros Hv. apply struct_reads_intro; [done|each_field|read_members TxRequest_fields]. Qed.

Lemma SignedBlock_reads b : struct_reads SignedBlock_fields zero_SignedBlock (depth0 + 1) b (read_SignedBlock b).
Proof. destruct b. apply struct_reads_intro; [done|each_field|read_members SignedBlock_fields]. Qed.

Lemma TxResult_reads r :
  time_ok (TxResult_DecidedAt r) → struct_reads TxResult_fields zero_TxResult (depth0 + 2) r (read_TxResult r).
Proof.
  destruct r. intros Hv. apply (struct_reads_intro _ _ (depth0 + 1)); [done|each_field|read_members TxResult_fields].
  apply ptr_codec_reads. intros b _. apply SignedBlock_reads.
Qed.

Lemma struct_reads_mono {R} (fs : list (field R)) z d d' r r' :
  struct_reads fs z d r r' → d ≤ d' → struct_reads fs z d' r r'.
Proof. intros H Hd t Ht. eapply text_ok_mono; [by apply H|done|done]. Qed.

Lemma Challenge_ok o : codec_reads (ptr_codec Challenge_fields zero_Challenge) (depth0 + 2) o o.
Proof.
  rewrite <-(option_fmap_id o) at 2. apply ptr_codec_reads. intros c _.
  eapply struct_reads_mono; [apply Challenge_reads|by vm_compute].
Qed.

Lemma Envelope_reads e :
  Envelope_fits e → struct_reads Envelope_fields zero_Envelope (depth0 + 3) e (read_Envelope e).
Proof.
  destruct e. intros [Hv Hauth Hreq Hres Hctl Hqr]. cbn in *.
  apply (struct_reads_intro _ _ (depth0 + 2)); [done| |read_members Envelope_fields].
  each_field. all: first [apply Challenge_ok|apply ptr_codec_reads; intros x Hx; cbn in Hx; subst].
  all: eapply struct_reads_mono; [auto using Hello_reads, Auth_reads, Welcome_reads, TxRequest_reads, TxResult_reads,
    Control_reads, Query_reads, QueryResult_reads|by vm_compute].
Qed.

(** Struct to text to struct, as a whole message. *)
Lemma message_roundtrip {R} (fs : list (field R)) z d r r' t rest :
  struct_reads fs z d r r' → d ≤ maxNestingDepth → put_struct fs r = Some t → follows rest →
  ∃ ms, parse_prefix (t ++ rest) = Some (JObject ms, rest) ∧ get_struct fs (JObject ms) z = Some r'.
Proof.
  intros Hok Hd Ht Hrest. destruct (Hok t Ht) as (_ & _ & Hp).
  destruct (Hp (2 * length (t ++ rest) + 2)%nat maxNestingDepth rest) as (v & Hv & ms & -> & Hms);
    [rewrite length_app; lia|done|done|].
  by exists ms.
Qed.

(** A struct can be written when its fields can. *)
Lemma put_struct_Some {R} (fs : list (field R)) r :
  is_Some (put_struct fs r) ↔ Forall (λ f, f_omit f (f_prj f r) = true ∨ is_Some (put (f_codec f) (f_prj f r))) fs.
Proof.
  unfold put_struct. rewrite fmap_is_Some. induction fs as [|f fs IH]; cbn [put_fields].
  - split; [by constructor|by eexists].
  - rewrite Forall_cons, <- IH. destruct (f_omit f (f_prj f r)); [naive_solver|].
    destruct (put (f_codec f) (f_prj f r)) as [t|]; cbn [mbind option_bind].
    + destruct (put_fields fs r); split; [by split; [right; eexists|by eexists]|by eexists|by intros [? ?]|by intros [_ [? ?]]].
    + split; [by intros [? ?]|]. by intros [[?|[? ?]] _].
Qed.

Definition total {A} (c : codec A) : Prop := ∀ a, is_Some (put c a).

Lemma put_struct_total {R} (fs : list (field R)) r : Forall (λ f, total (f_codec f)) fs → is_Some (put_struct fs r).
Proof. intros H. apply put_struct_Some. eapply Forall_impl; [exact H|]. intros f Hf. right. apply Hf. Qed.

Lemma ptr_total {R} (fs : list (field R)) z : Forall (λ f, total (f_codec f)) fs → total (ptr_codec fs z).
Proof. intros H [r|]; [by apply put_struct_total|by eexists]. Qed.

Lemma scalars_total :
  total string_codec ∧ total int_codec ∧ total strings_codec ∧ total bytes_codec ∧ total map_codec ∧
  total (slice_codec strings_codec) ∧ total (slice_codec bytes_codec).
Proof. split_and!; intros a; by eexists. Qed.

(** Everything but a request, whose time has to be written. *)
Ltac all_total :=
  pose proof scalars_total as (? & ? & ? & ? & ? & ? & ?);
  repeat (apply Forall_cons; split; [assumption|]); apply Forall_nil; exact I.

Lemma TxRequest_writable r : is_Some (MarshalTime (TxRequest_CreatedAt r)) → is_Some (put_struct TxRequest_fields r).
Proof.
  intros Ht. pose proof scalars_total as (Hs & _). apply put_struct_Some.
  repeat (apply Forall_cons; split; [cbn [f_omit f_prj f_codec]|]); [..|by apply Forall_nil].
  all: right; first [apply Hs|exact Ht].
Qed.

(** The frames the relay writes: a time it cannot write is the only obstacle. *)
Definition relay_frame (env : Envelope) : Prop :=
  Envelope_Result env = None ∧ Envelope_QueryResult env = None ∧
  ∀ r, Envelope_Request env = Some r → is_Some (MarshalTime (TxRequest_CreatedAt r)).

Lemma frames_writable env : relay_frame env → is_Some (WriteJSON env).
Proof.
  intros (H2 & H3 & H1). unfold WriteJSON.
  enough (is_Some (put_struct Envelope_fields env)) as [t ->] by by eexists.
  pose proof scalars_total as (? & ? & _). apply put_struct_Some.
  repeat (apply Forall_cons; split; [cbn [f_omit f_prj f_codec]|]); [..|by apply Forall_nil].
  all: first [by left; rewrite ?H2, ?H3|right; match goal with Ht : total ?c |- is_Some (put ?c _) => apply Ht end
    |right; apply ptr_total; all_total|idtac].
  right. cbn [put ptr_codec]. destruct (Envelope_Request env) as [r|]; [|by eexists].
  by apply TxRequest_writable, H1.
Qed.

Lemma ReadJSON_WriteJSON env rest t :
  Envelope_fits env → WriteJSON env = Some t → ReadJSON (t ++ rest) = Some (read_Envelope env).
Proof.
  intros Hok. unfold WriteJSON, ReadJSON.
  destruct (put_struct Envelope_fields env) as [u|] eqn:Hu; [|done]. intros [= <-]. rewrite <- app_assoc.
  destruct (message_roundtrip Envelope_fields zero_Envelope (depth0 + 3) env (read_Envelope env) u ([x0a] ++ rest))
    as (ms & -> & Hms); [by apply Envelope_reads|done|done|cbn; set_solver|done].
Qed.

Lemma ReadJSON_same env rest t : Envelope_ok env → WriteJSON env = Some t → ReadJSON (t ++ rest) = Some env.
Proof.
  intros Hok Ht. by rewrite (ReadJSON_WriteJSON env rest t (Envelope_ok_fits _ Hok) Ht), read_Envelope_id.
Qed.

(** ** Properties *)

(** C27: what a frame is read as: an envelope written as JSON (any kind of
    frame, with its nested structs, omitted fields, base64, times and maps) is
    read by [ReadJSON], whatever follows in the message, as [read_Envelope]
    says: every field as it was, but for bytes of a string that are not UTF-8,
    read as U+FFFD (the nonce of a request_status query can have them), and
    an empty list of origins or an empty policy blob, read as nil (the reply
    to a get_policy can have that).  So it is read back as the same envelope when
    its strings are valid UTF-8 and those two are nil or not empty
    ([Envelope_ok]).  This is for envelopes with integers of 64 bits, times with
    zones of whole minutes, signatures under account names that are valid UTF-8,
    and query data that is absent or one JSON value in compact form, of a depth
    the nesting limit leaves room for ([Envelope_fits]).  A frame the relay
    writes can be written, unless it carries a time outside the years 0 to
    9999. *)
Theorem frames_roundtrip env rest :
  Envelope_fits env →
  (∀ t, WriteJSON env = Some t → ReadJSON (t ++ rest) = Some (read_Envelope env)) ∧
  (Envelope_ok env → read_Envelope env = env) ∧
  (relay_frame env → is_Some (WriteJSON env)).
Proof.
  intros Hok. split_and!; [|apply read_Envelope_id|apply frames_writable]. intros t. by apply ReadJSON_WriteJSON.
Qed.

(** ** Witness: a frame with a bit of everything *)

Definition w_envelope : Envelope :=
  MkEnvelope 2 TypeResult "q1" (Some (MkHello "dev" ["nano_1"; "nano_3"])) (Some (MkChallenge [x00; xff; x10; x2a]))
    (Some (MkAuth {["nano_3" := "ab"; "nano_1" := "cd"]})) (Some (MkWelcome ["nano_1"]))
    None
    (Some (MkTxResult "req_1" StatusSigned "" (Some (MkSignedBlock "state" "nano_1" "0" "" "1" "" "" "" "send"))
      "<a & b>" (MkTime 1700000000123450000 7200)))
    (Some (MkControl "put_policy" "c1" "nano_1" "" "" (Some ["https://a.example"]) (-5) (Some (bytes_of "blob")) ""))
    None (Some (MkQueryResult "" (bytes_of "{" ++ quote "k" ++ bytes_of ":[1.5e-3,null," ++ quote "v" ++ bytes_of "]}"))) "".

Lemma w_envelope_ok : Envelope_ok w_envelope.
Proof.
  constructor; cbn.
  - by repeat constructor.
  - by split.
  - intros h [= <-]. by repeat constructor.
  - intros a [= <-]. unfold Auth_ok. apply map_Forall_insert_2; [by split|]. by apply map_Forall_singleton.
  - intros w [= <-]. by repeat constructor.
  - done.
  - intros r [= <-]. split; [by repeat constructor|split; [done|]]. intros b [= <-]. by repeat constructor.
  - intros c [= <-]. split; [by repeat constructor|split; [by split|by split]].
  - done.
  - intros q [= <-]. split; [by repeat constructor|by split].
Qed.

Theorem frames_roundtrip_witness : ∃ t, WriteJSON w_envelope = Some t ∧ ReadJSON (t ++ bytes_of " ") = Some w_envelope.
Proof.
  destruct (frames_roundtrip w_envelope (bytes_of " ") (Envelope_ok_fits _ w_envelope_ok)) as (H & Hid & _).
  destruct (WriteJSON w_envelope) as [t|] eqn:Ht; [|by vm_compute in Ht].
  exists t. split; [reflexivity|]. by rewrite (H _ eq_refl), (Hid w_envelope_ok).
Defined.

(** The query of [GET /v1/requests?nonce=%FF], and the reply to a get_policy of
    an empty blob. *)
Definition query_frame (nonce : string) : Envelope :=
  MkEnvelope 2 TypeQuery "q1" None None None None None None None (Some (MkQuery "request_status" "c1" "nano_1" nonce)) None "".
Definition policy_frame (blob : gslice byte) : Envelope :=
  MkEnvelope 2 TypeControl "" None None None None None None
    (Some (MkControl "result" "c1" "nano_1" "" "" None 3 blob "")) None None "".

Example nonce_replaced :
  (WriteJSON (query_frame (string_of [xff])) ≫= ReadJSON) = Some (query_frame (string_of [xef; xbf; xbd])).
Proof. vm_compute. reflexivity. Qed.

Example empty_blob_nil : (WriteJSON (policy_frame (Some [])) ≫= ReadJSON) = Some (policy_frame None).
Proof. vm_compute. reflexivity. Qed.
