(* ===== verification/Store.v ===== *)
(** * The persistence boundary (cmd/relay/store.go: type Store)

    [store_spec] is what the relay keeps, whatever holds it: the registered
    keys and the policy blobs.  The class [Store] lists the interface's
    operations and [StoreLaws] the contract of an implementation: each call
    either does what the [spec_*] function says, or reports a failure of the
    database; what the laws ask of the arguments is [op_ok], and without it (but
    for the hash of a registration, [op_free]) a call still changes only its
    own key or policy.  MemStore.v and SqliteStore.v are the two implementations. *)

From S2P Require Import Prelude Sha256 Utf8.

Record APIKey := MkAPIKey {
  ID : string;
  OwnerAccount : string;
  AllowedOrigins : gslice string;
}.

Definition APIKey0 : APIKey := MkAPIKey "" "" None.

#[export] Instance APIKey_eq_dec : EqDecision APIKey.
Proof. solve_decision. Defined.

(** What the context of a call and the database under it make of the call: it
    runs, or it reports an error, with or without having been applied. *)
Inductive fate := Runs | Fails (applied : bool) (e : error).

(** ** The interface *)

Class Store (S : Type) := {
  RegisterAPIKey : fate → string → string → string → S → option error * S;
  RevokeAPIKey : fate → string → string → S → option error * S;
  ResolveAPIKey : fate → string → S → res APIKey;
  RebindAPIKey : fate → string → string → string → S → option error * S;
  UpdateKeyOrigins : fate → string → string → gslice string → S → option error * S;
  OriginAllowed : fate → string → S → res bool;
  PutPolicy : fate → string → Z → gslice byte → S → option error * S;
  GetPolicy : fate → string → S → res (Z * gslice byte * bool);
}.

(** ** The abstract store *)

Record key_spec := MkKeySpec {
  ks_owner : string;
  ks_hash : string;
  ks_origins : list string;
}.

Record store_spec := MkSpec {
  sp_keys : gmap string key_spec;
  sp_policy : gmap string (Z * list byte);
}.

Definition empty_spec : store_spec := MkSpec ∅ ∅.

Definition with_keys (f : gmap string key_spec → gmap string key_spec) (sp : store_spec) :=
  MkSpec (f (sp_keys sp)) (sp_policy sp).

(** The key [id], if [owner] owns it. *)
Definition owned (sp : store_spec) (id owner : string) : option key_spec :=
  k ← sp_keys sp !! id; if bool_decide (ks_owner k = owner) then Some k else None.

Definition spec_register (id owner hash : string) (sp : store_spec) : option error * store_spec :=
  let origins := match sp_keys sp !! id with Some k => ks_origins k | None => [] end in
  (None, with_keys (<[id := MkKeySpec owner hash origins]>) sp).

Definition spec_update (id owner : string) (f : key_spec → option key_spec) (sp : store_spec) :
    option error * store_spec :=
  match owned sp id owner with
  | None => (Some ErrNotFound, sp)
  | Some k => (None, with_keys (partial_alter (λ _, f k) id) sp)
  end.

Definition spec_revoke (owner id : string) := spec_update id owner (λ _, None).
Definition spec_rebind (id old new : string) :=
  spec_update id old (λ k, Some (MkKeySpec new (ks_hash k) (ks_origins k))).
Definition spec_origins (id owner : string) (origins : list string) :=
  spec_update id owner (λ k, Some (MkKeySpec (ks_owner k) (ks_hash k) origins)).

Definition spec_put (account : string) (version : Z) (blob : list byte) (sp : store_spec) :
    option error * store_spec :=
  let newer := match sp_policy sp !! account with
               | Some cur => (cur.1 <? version)%Z
               | None => true end in
  (None, if newer then MkSpec (sp_keys sp) (<[account := (version, blob)]> (sp_policy sp)) else sp).

(** The key a plaintext resolves to. *)
Definition resolves (sp : store_spec) (plaintext : string) (k : APIKey) : Prop :=
  ∃ ks, sp_keys sp !! ID k = Some ks ∧ ks_hash ks = hashSecret plaintext ∧
        ks_owner ks = OwnerAccount k ∧ ks_origins ks = elems (AllowedOrigins k).
Definition unresolved (sp : store_spec) (plaintext : string) : Prop :=
  ∀ id ks, sp_keys sp !! id = Some ks → ks_hash ks ≠ hashSecret plaintext.
Definition spec_resolve (sp : store_spec) (plaintext : string) (r : res APIKey) : Prop :=
  match r with
  | Ok k => resolves sp plaintext k
  | Err e => e = ErrNotFound ∧ unresolved sp plaintext
  | Panic => False
  end.

Definition lists_origin (sp : store_spec) (origin : string) : Prop :=
  ∃ id ks, sp_keys sp !! id = Some ks ∧ origin ∈ ks_origins ks.
Definition spec_allowed (sp : store_spec) (origin : string) (r : res bool) : Prop :=
  ∃ b, r = Ok b ∧ (b = true ↔ lists_origin sp origin).

Definition spec_get (sp : store_spec) (account : string) (r : res (Z * gslice byte * bool)) : Prop :=
  match sp_policy sp !! account with
  | Some (v, bs) => ∃ blob, r = Ok (v, blob, true) ∧ elems blob = bs
  | None => r = Ok (0%Z, None, false)
  end.

(** No other key has this hash. *)
Definition hash_free (sp : store_spec) (id hash : string) : Prop :=
  ∀ id' ks, sp_keys sp !! id' = Some ks → ks_hash ks = hash → id' = id.

(** Two keys never share a hash. *)
Definition hashes_unique (sp : store_spec) : Prop :=
  ∀ id1 id2 k1 k2, sp_keys sp !! id1 = Some k1 → sp_keys sp !! id2 = Some k2 →
    ks_hash k1 = ks_hash k2 → id1 = id2.

(** ** The contract *)

Section contract.
Context {S : Type} (represents : S → store_spec → Prop).

(** A write: done as specified, or a reported failure after which it was
    applied or not. *)
Definition writes (f : fate) (out : option error * S) (sp : store_spec)
    (op : store_spec → option error * store_spec) : Prop :=
  (out.1 = (op sp).1 ∧ represents out.2 (op sp).2) ∨
  (∃ b e, f = Fails b e ∧ out.1 = Some e ∧
          (represents out.2 sp ∨ represents out.2 (op sp).2)).

(** A write that was applied or not, whatever it reports. *)
Definition lands (s' : S) (sp : store_spec) (op : store_spec → option error * store_spec) : Prop :=
  represents s' sp ∨ represents s' (op sp).2.

Lemma writes_lands f out sp op : writes f out sp op → lands out.2 sp op.
Proof. by intros [[_ ?]|(b & e & _ & _ & ?)]; [right|]. Qed.

(** A read: answered as specified, or a reported failure. *)
Definition reads {A} (f : fate) (r : res A) (P : res A → Prop) : Prop :=
  P r ∨ (∃ b e, f = Fails b e ∧ r = Err e).
End contract.

Class StoreLaws (S : Type) {St : Store S} := {
  represents : S → store_spec → Prop;
  represents_unique s sp : represents s sp → hashes_unique sp;
  register_law f id owner hash s sp :
    represents s sp → hash_free sp id hash →
    writes represents f (RegisterAPIKey f id owner hash s) sp (spec_register id owner hash);
  revoke_law f owner id s sp :
    represents s sp → writes represents f (RevokeAPIKey f owner id s) sp (spec_revoke owner id);
  resolve_law f plaintext s sp :
    represents s sp → reads f (ResolveAPIKey f plaintext s) (spec_resolve sp plaintext);
  rebind_law f id old new s sp :
    represents s sp → writes represents f (RebindAPIKey f id old new s) sp (spec_rebind id old new);
  origins_law f id owner origins s sp :
    represents s sp → Forall (λ o, ValidString o = true) (elems origins) →
    writes represents f (UpdateKeyOrigins f id owner origins s) sp
      (spec_origins id owner (elems origins));
  allowed_law f origin s sp :
    represents s sp → reads f (OriginAllowed f origin s) (spec_allowed sp origin);
  put_law f account version blob s sp :
    represents s sp → is_Some blob →
    writes represents f (PutPolicy f account version blob s) sp
      (spec_put account version (elems blob));
  get_law f account s sp :
    represents s sp → reads f (GetPolicy f account s) (spec_get sp account);
  (* Whatever the arguments, these two change nothing but that key's origins,
     that account's policy. *)
  origins_any f id owner origins s sp :
    represents s sp →
    ∃ os, lands represents (UpdateKeyOrigins f id owner origins s).2 sp (spec_origins id owner os);
  put_any f account version blob s sp :
    represents s sp →
    lands represents (PutPolicy f account version blob s).2 sp (spec_put account version (elems blob));
}.

(** ** Lemmas on the abstract store *)

Lemma owned_Some sp id owner k :
  owned sp id owner = Some k ↔ sp_keys sp !! id = Some k ∧ ks_owner k = owner.
Proof.
  unfold owned. destruct (sp_keys sp !! id) as [k'|]; simpl; [|naive_solver].
  case_bool_decide; naive_solver.
Qed.

Lemma owned_None sp id owner :
  owned sp id owner = None ↔ ∀ k, sp_keys sp !! id = Some k → ks_owner k ≠ owner.
Proof.
  unfold owned. destruct (sp_keys sp !! id) as [k'|]; simpl; [|naive_solver].
  case_bool_decide; naive_solver.
Qed.

(** ** Writes as data *)

Inductive store_op :=
| OpRegister (id owner hash : string)
| OpRevoke (owner id : string)
| OpRebind (id old new : string)
| OpOrigins (id owner : string) (origins : gslice string)
| OpPut (account : string) (version : Z) (blob : gslice byte).

Definition apply_op {S} {St : Store S} (f : fate) (op : store_op) (s : S) : option error * S :=
  match op with
  | OpRegister id owner hash => RegisterAPIKey f id owner hash s
  | OpRevoke owner id => RevokeAPIKey f owner id s
  | OpRebind id old new => RebindAPIKey f id old new s
  | OpOrigins id owner origins => UpdateKeyOrigins f id owner origins s
  | OpPut account version blob => PutPolicy f account version blob s
  end.

Definition spec_op (op : store_op) : store_spec → option error * store_spec :=
  match op with
  | OpRegister id owner hash => spec_register id owner hash
  | OpRevoke owner id => spec_revoke owner id
  | OpRebind id old new => spec_rebind id old new
  | OpOrigins id owner origins => spec_origins id owner (elems origins)
  | OpPut account version blob => spec_put account version (elems blob)
  end.

(** What the contract asks of a write's arguments. *)
Definition op_ok (op : store_op) (sp : store_spec) : Prop :=
  match op with
  | OpRegister id owner hash => hash_free sp id hash
  | OpOrigins id owner origins => Forall (λ o, ValidString o = true) (elems origins)
  | OpPut account version blob => is_Some blob
  | _ => True
  end.

Lemma write_law {S} {St : Store S} {SL : StoreLaws S} f op s sp :
  represents s sp → op_ok op sp →
  writes represents f (apply_op f op s) sp (spec_op op).
Proof.
  destruct op; simpl; intros.
  - by apply register_law.
  - by apply revoke_law.
  - by apply rebind_law.
  - by apply origins_law.
  - by apply put_law.
Qed.

Lemma write_runs {S} {St : Store S} {SL : StoreLaws S} op s sp :
  represents s sp → op_ok op sp →
  (apply_op Runs op s).1 = (spec_op op sp).1 ∧
  represents (apply_op Runs op s).2 (spec_op op sp).2.
Proof. intros Hr Hok. by destruct (write_law Runs op s sp Hr Hok) as [?|(? & ? & ? & _)]. Qed.

(** What every store needs for its hash index: registrations do not share a
    hash between two keys. *)
Definition op_free (op : store_op) (sp : store_spec) : Prop :=
  match op with OpRegister id owner hash => hash_free sp id hash | _ => True end.

(** The same write, up to the origins it sets. *)
Definition same_target (op op' : store_op) : Prop :=
  op' = op ∨ ∃ id owner os os', op = OpOrigins id owner os ∧ op' = OpOrigins id owner os'.

(** A write leaves the store related to what it was, if its specification
    does for every list of origins. *)
Lemma write_related {S} {St : Store S} {SL : StoreLaws S} (R : relation store_spec) `{!Reflexive R} f op s sp :
  represents s sp → op_free op sp → (∀ op', same_target op op' → R sp (spec_op op' sp).2) →
  ∃ sp', represents (apply_op f op s).2 sp' ∧ R sp sp'.
Proof.
  intros Hr Hf HR.
  enough (∃ op', same_target op op' ∧ lands represents (apply_op f op s).2 sp (spec_op op')) as (op' & Ht & [H|H])
    by (eexists; split; [exact H|]; auto).
  destruct op as [id owner hash|owner id|id old new|id owner origins|account version blob]; cbn [apply_op].
  - eexists. split; [by left|]. by eapply writes_lands, register_law.
  - eexists. split; [by left|]. by eapply writes_lands, revoke_law.
  - eexists. split; [by left|]. by eapply writes_lands, rebind_law.
  - destruct (origins_any f id owner origins s sp Hr) as [os Ho].
    exists (OpOrigins id owner (Some os)). split; [right; by eexists _, _, _, _|exact Ho].
  - eexists. split; [by left|]. by apply put_any.
Qed.
