(* ===== verification/MemStore.v ===== *)
(** * The in-memory store (cmd/relay/store.go: type memStore)

    Every method holds the store's lock for its whole body, so it is one step
    on the state; the context is not consulted. *)

From S2P Require Import Prelude GoStd Sha256 Utf8 Store.

Record policyBlob := MkPolicyBlob {
  version : Z;
  blob : gslice byte;
}.

Record memStore := MkMemStore {
  keys : gmap string APIKey;       (* id -> key *)
  byHash : gmap string string;     (* key hash -> id *)
  policy : gmap string policyBlob; (* account -> encrypted policy *)
}.

Definition newMemStore : memStore := MkMemStore ∅ ∅ ∅.

Definition mem_PutPolicy (account : string) (ver : Z) (bl : gslice byte) (s : memStore) :
    option error * memStore :=
  let put := (None, MkMemStore (keys s) (byHash s) (<[account := MkPolicyBlob ver bl]> (policy s))) in
  match policy s !! account with
  | Some cur => if (ver <=? version cur)%Z then (None, s) else put
  | None => put
  end.

Definition mem_GetPolicy (account : string) (s : memStore) : res (Z * gslice byte * bool) :=
  match policy s !! account with
  | None => Ok (0%Z, None, false)
  | Some p => Ok (version p, blob p, true)
  end.

(** [for h, kid := range s.byHash { if kid == id { delete(s.byHash, h) } }],
    over the entries in the order [order]. *)
Definition drop_hashes (id : string) (order : list (string * string)) (m : gmap string string) :
    gmap string string :=
  foldl (λ m '(h, kid), if bool_decide (kid = id) then delete h m else m) m order.
Definition delete_hashes (id : string) (m : gmap string string) : gmap string string :=
  drop_hashes id (map_to_list m) m.

Definition mem_RegisterAPIKey (keyID ownerAccount hash : string) (s : memStore) :
    option error * memStore :=
  let byHash1 := delete_hashes keyID (byHash s) in
  let k := default APIKey0 (keys s !! keyID) in
  let k := MkAPIKey keyID ownerAccount (AllowedOrigins k) in
  (None, MkMemStore (<[keyID := k]> (keys s)) (<[hash := keyID]> byHash1) (policy s)).

Definition mem_RebindAPIKey (keyID oldAccount newAccount : string) (s : memStore) :
    option error * memStore :=
  match keys s !! keyID with
  | None => (Some ErrNotFound, s)
  | Some k =>
      if bool_decide (OwnerAccount k ≠ oldAccount) then (Some ErrNotFound, s)
      else let k := MkAPIKey (ID k) newAccount (AllowedOrigins k) in
           (None, MkMemStore (<[keyID := k]> (keys s)) (byHash s) (policy s))
  end.

Definition mem_UpdateKeyOrigins (keyID ownerAccount : string) (origins : gslice string)
    (s : memStore) : option error * memStore :=
  match keys s !! keyID with
  | None => (Some ErrNotFound, s)
  | Some k =>
      if bool_decide (OwnerAccount k ≠ ownerAccount) then (Some ErrNotFound, s)
      else let k := MkAPIKey (ID k) (OwnerAccount k) origins in
           (None, MkMemStore (<[keyID := k]> (keys s)) (byHash s) (policy s))
  end.

Definition mem_OriginAllowed (origin : string) (s : memStore) : res bool :=
  Ok (existsb (λ '(_, k), existsb (λ o, bool_decide (o = origin)) (elems (AllowedOrigins k)))
        (map_to_list (keys s))).

Definition mem_RevokeAPIKey (ownerAccount id : string) (s : memStore) : option error * memStore :=
  match keys s !! id with
  | None => (Some ErrNotFound, s)
  | Some k =>
      if bool_decide (OwnerAccount k ≠ ownerAccount) then (Some ErrNotFound, s)
      else (None, MkMemStore (delete id (keys s)) (delete_hashes id (byHash s)) (policy s))
  end.

(** [s.keys[id]] of an absent id is the zero key. *)
Definition mem_ResolveAPIKey (plaintext : string) (s : memStore) : res APIKey :=
  match byHash s !! hashSecret plaintext with
  | None => Err ErrNotFound
  | Some id => Ok (default APIKey0 (keys s !! id))
  end.

#[export] Instance memStore_Store : Store memStore := {
  RegisterAPIKey _ := mem_RegisterAPIKey;
  RevokeAPIKey _ := mem_RevokeAPIKey;
  ResolveAPIKey _ := mem_ResolveAPIKey;
  RebindAPIKey _ := mem_RebindAPIKey;
  UpdateKeyOrigins _ := mem_UpdateKeyOrigins;
  OriginAllowed _ := mem_OriginAllowed;
  PutPolicy _ := mem_PutPolicy;
  GetPolicy _ := mem_GetPolicy;
}.

(** ** The range-and-delete loop *)

Lemma drop_hashes_lookup id order m h :
  drop_hashes id order m !! h =
  if existsb (λ e, bool_decide (e.1 = h) && bool_decide (e.2 = id)) order then None else m !! h.
Proof.
  revert m; induction order as [|[h' kid] order IH]; intros m; [done|].
  change (drop_hashes id ((h', kid) :: order) m)
    with (drop_hashes id order (if bool_decide (kid = id) then delete h' m else m)).
  rewrite IH. cbn [existsb fst snd].
  destruct (existsb _ order); [by rewrite orb_true_r|]. rewrite orb_false_r.
  destruct (bool_decide_reflect (kid = id)); [|by rewrite andb_false_r]. rewrite andb_true_r.
  destruct (bool_decide_reflect (h' = h)) as [->|]; by simplify_map_eq.
Qed.

(** Whatever the iteration order, the loop drops the hashes of [id]. *)
Lemma drop_hashes_any_order id order m :
  order ≡ₚ map_to_list m → drop_hashes id order m = filter (λ e, e.2 ≠ id) m.
Proof.
  intros Hp. apply map_eq; intros h. rewrite drop_hashes_lookup.
  assert (Hex : existsb (λ e, bool_decide (e.1 = h) && bool_decide (e.2 = id)) order = true ↔
                m !! h = Some id).
  { rewrite existsb_exists. rewrite <-elem_of_map_to_list. split.
    - intros ([h' k'] & Hin & [H1 H2]%andb_true_iff). apply bool_decide_eq_true in H1, H2.
      simpl in *; subst. apply list_elem_of_In in Hin. by rewrite Hp in Hin.
    - intros Hin. exists (h, id). rewrite <-Hp in Hin. split; [by apply list_elem_of_In|].
      simpl. by rewrite !bool_decide_eq_true_2. }
  destruct (existsb _ order).
  - symmetry. apply map_lookup_filter_None_2. right. intros x Hx.
    destruct Hex as [Hex _]. rewrite Hex in Hx by done. naive_solver.
  - destruct (m !! h) as [k|] eqn:Hm.
    + symmetry. apply map_lookup_filter_Some_2; [done|]. simpl. intros ->. naive_solver.
    + symmetry. apply map_lookup_filter_None_2. by left.
Qed.

Lemma delete_hashes_Some id m h k :
  delete_hashes id m !! h = Some k ↔ m !! h = Some k ∧ k ≠ id.
Proof. unfold delete_hashes. rewrite drop_hashes_any_order by done. by rewrite map_lookup_filter_Some. Qed.

(** ** Refinement of the abstract store *)

Definition key_repr (s : memStore) (id : string) (k : APIKey) (ks : key_spec) : Prop :=
  ID k = id ∧ OwnerAccount k = ks_owner ks ∧ elems (AllowedOrigins k) = ks_origins ks ∧
  byHash s !! ks_hash ks = Some id.

Record mem_repr (s : memStore) (sp : store_spec) : Prop := {
  repr_none id : keys s !! id = None → sp_keys sp !! id = None;
  repr_some id k : keys s !! id = Some k →
    ∃ ks, sp_keys sp !! id = Some ks ∧ key_repr s id k ks;
  repr_hash h id : byHash s !! h = Some id →
    ∃ ks, sp_keys sp !! id = Some ks ∧ ks_hash ks = h;
  repr_policy : sp_policy sp = (λ p, (version p, elems (blob p))) <$> policy s;
}.

Lemma mem_repr_spec s sp id ks :
  mem_repr s sp → sp_keys sp !! id = Some ks → ∃ k, keys s !! id = Some k ∧ key_repr s id k ks.
Proof.
  intros Hr Hs. destruct (keys s !! id) as [k|] eqn:Hk.
  - destruct (repr_some _ _ Hr id k Hk) as (ks' & ? & ?). exists k. by simplify_eq.
  - apply (repr_none _ _ Hr) in Hk. congruence.
Qed.

Lemma mem_repr_unique s sp : mem_repr s sp → hashes_unique sp.
Proof.
  intros Hr id1 id2 k1 k2 H1 H2 He.
  destruct (mem_repr_spec _ _ _ _ Hr H1) as (? & _ & _ & _ & _ & Hb1).
  destruct (mem_repr_spec _ _ _ _ Hr H2) as (? & _ & _ & _ & _ & Hb2). congruence.
Qed.

Lemma newMemStore_repr : mem_repr newMemStore empty_spec.
Proof. split; by intros; simplify_map_eq. Qed.

Lemma mem_register_repr id owner hash s sp :
  mem_repr s sp → hash_free sp id hash →
  mem_repr (mem_RegisterAPIKey id owner hash s).2 (spec_register id owner hash sp).2.
Proof.
  intros Hr Hfree. split; cbn.
  - intros id' [Hid Hne]%lookup_insert_None. rewrite lookup_insert_ne by done.
    by apply (repr_none _ _ Hr).
  - intros id' k' Hk'. destruct (decide (id' = id)) as [->|Hne]; simplify_map_eq.
    + eexists; split; [done|]. split_and!; [done|done| |by simplify_map_eq]. cbn.
      destruct (keys s !! id) as [k|] eqn:Hk; cbn.
      * destruct (repr_some _ _ Hr id k Hk) as (ks & -> & _ & _ & ? & _). done.
      * by rewrite (repr_none _ _ Hr id Hk).
    + destruct (repr_some _ _ Hr id' k' Hk') as (ks & Hs & ? & ? & ? & Hb).
      exists ks. split; [done|]. unfold key_repr. split_and!; [done..|]. cbn.
      rewrite lookup_insert_ne by (intros ->; by apply Hne, (Hfree id' ks)).
      by apply delete_hashes_Some.
  - intros h id' Hh. destruct (decide (h = hash)) as [->|Hne]; simplify_map_eq.
    + eexists; by split.
    + apply delete_hashes_Some in Hh as [Hh Hid]. rewrite lookup_insert_ne by done.
      by apply (repr_hash _ _ Hr).
  - apply (repr_policy _ _ Hr).
Qed.

Lemma mem_repr_owned s sp id owner :
  mem_repr s sp →
  owned sp id owner =
    (k ← keys s !! id; if bool_decide (OwnerAccount k ≠ owner) then None else sp_keys sp !! id).
Proof.
  intros Hr. unfold owned. destruct (keys s !! id) as [k|] eqn:Hk; simpl.
  - destruct (repr_some _ _ Hr id k Hk) as (ks & -> & _ & -> & _). simpl.
    repeat case_bool_decide; naive_solver.
  - by rewrite (repr_none _ _ Hr id Hk).
Qed.

(** A key replaced by one with the same id and hash. *)
Lemma mem_replace_repr s sp id k ks k' ks' :
  mem_repr s sp → keys s !! id = Some k → sp_keys sp !! id = Some ks →
  key_repr s id k' ks' → ks_hash ks' = ks_hash ks →
  mem_repr (MkMemStore (<[id := k']> (keys s)) (byHash s) (policy s))
    (with_keys (partial_alter (λ _, Some ks') id) sp).
Proof.
  intros Hr Hk Hks Hkr Hh. split; cbn.
  - intros id' [Hid Hne]%lookup_insert_None. rewrite lookup_partial_alter_ne by done.
    by apply (repr_none _ _ Hr).
  - intros id' k1 Hk1. destruct (decide (id' = id)) as [->|Hne].
    + simplify_map_eq. rewrite lookup_partial_alter_eq. eexists; by split.
    + rewrite lookup_insert_ne in Hk1 by done. rewrite lookup_partial_alter_ne by done.
      by apply (repr_some _ _ Hr).
  - intros h id' Hb. destruct (repr_hash _ _ Hr h id' Hb) as (ks1 & Hs1 & <-).
    destruct (decide (id' = id)) as [->|Hne].
    + rewrite lookup_partial_alter_eq. exists ks'. split; [done|]. congruence.
    + rewrite lookup_partial_alter_ne by done. eauto.
  - apply (repr_policy _ _ Hr).
Qed.

Lemma mem_revoke_repr s sp id :
  mem_repr s sp →
  mem_repr (MkMemStore (delete id (keys s)) (delete_hashes id (byHash s)) (policy s))
    (with_keys (partial_alter (λ _, None) id) sp).
Proof.
  intros Hr. change (partial_alter (λ _, None) id) with (delete (M:=gmap string key_spec) id).
  split; cbn.
  - intros id' [->|Hid]%lookup_delete_None; [by simplify_map_eq|].
    apply lookup_delete_None. right. by apply (repr_none _ _ Hr).
  - intros id' k [Hne Hk]%lookup_delete_Some.
    destruct (repr_some _ _ Hr id' k Hk) as (ks & Hs & ? & ? & ? & ?).
    exists ks. rewrite lookup_delete_ne by done. unfold key_repr. split_and!; [done..|].
    apply delete_hashes_Some. naive_solver.
  - intros h id' [Hb Hne]%delete_hashes_Some.
    rewrite lookup_delete_ne by done. by apply (repr_hash _ _ Hr).
  - apply (repr_policy _ _ Hr).
Qed.

(** An update guarded by the owner, against its specification. *)
Lemma mem_update_writes f s sp id owner g (upd : APIKey → memStore) :
  mem_repr s sp →
  (∀ k ks, keys s !! id = Some k → sp_keys sp !! id = Some ks → OwnerAccount k = owner →
     key_repr s id k ks → mem_repr (upd k) (with_keys (partial_alter (λ _, g ks) id) sp)) →
  writes mem_repr f
    (match keys s !! id with
     | None => (Some ErrNotFound, s)
     | Some k => if bool_decide (OwnerAccount k ≠ owner) then (Some ErrNotFound, s)
                 else (None, upd k)
     end) sp (spec_update id owner g).
Proof.
  intros Hr Hupd. left. unfold spec_update. rewrite (mem_repr_owned _ _ _ _ Hr).
  destruct (keys s !! id) as [k|] eqn:Hk; simpl; [|done].
  case_bool_decide as Ho; simpl; [done|].
  destruct (repr_some _ _ Hr id k Hk) as (ks & Hs & Hkr). rewrite Hs. simpl.
  split; [done|]. apply Hupd; [done..| |done]. by destruct (decide (OwnerAccount k = owner)).
Qed.

Lemma mem_allowed s sp origin :
  mem_repr s sp → spec_allowed sp origin (mem_OriginAllowed origin s).
Proof.
  intros Hr. eexists; split; [reflexivity|]. rewrite existsb_exists. unfold lists_origin. split.
  - intros ([id k] & Hin & (o & Ho & ->%bool_decide_eq_true)%existsb_exists).
    apply list_elem_of_In, elem_of_map_to_list in Hin. apply list_elem_of_In in Ho.
    destruct (repr_some _ _ Hr id k Hin) as (ks & Hs & _ & _ & He & _).
    exists id, ks. by rewrite <-He.
  - intros (id & ks & Hs & Ho). destruct (mem_repr_spec _ _ _ _ Hr Hs) as (k & Hk & _ & _ & He & _).
    exists (id, k). split; [by apply list_elem_of_In, elem_of_map_to_list|].
    apply existsb_exists. exists origin. rewrite bool_decide_eq_true_2 by done.
    rewrite He. split; [by apply list_elem_of_In|done].
Qed.

Lemma mem_put_repr account ver bl s sp :
  mem_repr s sp →
  (mem_PutPolicy account ver bl s).1 = None ∧
  mem_repr (mem_PutPolicy account ver bl s).2 (spec_put account ver (elems bl) sp).2.
Proof.
  intros Hr. unfold mem_PutPolicy, spec_put. rewrite (repr_policy _ _ Hr), lookup_fmap.
  assert (Hnew : mem_repr
      (MkMemStore (keys s) (byHash s) (<[account := MkPolicyBlob ver bl]> (policy s)))
      (MkSpec (sp_keys sp) (<[account := (ver, elems bl)]> ((λ p, (version p, elems (blob p))) <$> policy s)))).
  { destruct Hr. split; [done..|]. cbn. by rewrite fmap_insert. }
  destruct (policy s !! account) as [cur|]; cbn; [|done].
  destruct (Z.leb_spec ver (version cur)), (Z.ltb_spec (version cur) ver); cbn; done || lia.
Qed.

Lemma mem_origins_writes f s sp id owner origins :
  mem_repr s sp →
  writes mem_repr f (mem_UpdateKeyOrigins id owner origins s) sp (spec_origins id owner (elems origins)).
Proof.
  intros Hr.
  apply (mem_update_writes _ _ _ id owner _
    (λ k, MkMemStore (<[id := MkAPIKey (ID k) (OwnerAccount k) origins]> (keys s)) (byHash s) (policy s)));
    [done|]. intros k ks Hk Hks _ (H1 & H2 & H3 & H4).
  by apply (mem_replace_repr s sp id k ks).
Qed.

#[export] Instance memStore_laws : StoreLaws memStore.
Proof.
  refine {| represents := mem_repr |}.
  - apply mem_repr_unique.
  - intros. left. split; [done|]. by apply mem_register_repr.
  - intros. apply (mem_update_writes _ _ _ id owner (λ _, None)
      (λ _, MkMemStore (delete id (keys s)) (delete_hashes id (byHash s)) (policy s))); [done|].
    intros. by apply mem_revoke_repr.
  - intros f plaintext s sp Hr. left. cbn. unfold mem_ResolveAPIKey.
    destruct (byHash s !! hashSecret plaintext) as [id|] eqn:Hb; cbn.
    + destruct (repr_hash _ _ Hr _ _ Hb) as (ks & Hs & Hh).
      destruct (mem_repr_spec _ _ _ _ Hr Hs) as (k & -> & Hid & Ho & He & _).
      exists ks. cbn. rewrite Hid. by split_and!.
    + split; [done|]. intros id ks Hs Hh.
      destruct (mem_repr_spec _ _ _ _ Hr Hs) as (k & _ & _ & _ & _ & Hb'). congruence.
  - intros f id old new s sp Hr. cbn.
    apply (mem_update_writes _ _ _ id old _
      (λ k, MkMemStore (<[id := MkAPIKey (ID k) new (AllowedOrigins k)]> (keys s)) (byHash s) (policy s)));
      [done|]. intros k ks Hk Hks _ (H1 & H2 & H3 & H4).
    by apply (mem_replace_repr s sp id k ks).
  - intros. by apply mem_origins_writes.
  - intros. left. by apply mem_allowed.
  - intros f account ver bl s sp Hr _. left. by apply mem_put_repr.
  - intros f account s sp Hr. left. unfold spec_get. rewrite (repr_policy _ _ Hr), lookup_fmap. cbn.
    unfold mem_GetPolicy. destruct (policy s !! account) as [p|]; cbn; eauto.
  - intros f id owner origins s sp Hr. exists (elems origins). by eapply (writes_lands _ f), mem_origins_writes.
  - intros f account ver bl s sp Hr. right. by apply mem_put_repr.
Defined.
