(* ===== verification/SqliteStore.v ===== *)
(** * The SQLite store (cmd/relay/store_sqlite.go)

    A table is a map from its primary key; a statement is the function its SQL
    text denotes, with the UNIQUE and NOT NULL constraints of the schema.  The
    driver (modernc.org/sqlite) is the class [SqliteDriver]: the errors it
    reports for a violated constraint, how it binds and scans byte slices, and
    the rows it delivers before a failure.  The columns created_at and
    updated_at, which nothing reads, are left out. *)

From S2P Require Import Prelude GoStd Sha256 Utf8 Json Store.

Record api_row := MkApiRow {
  owner_account : string;
  key_hash : string;
  allowed_origins : string; (* JSON text *)
}.

Record sqliteDB := MkDB {
  api_keys : gmap string api_row;                 (* PRIMARY KEY id *)
  policy_blobs : gmap string (Z * list byte);     (* PRIMARY KEY account *)
}.

Class SqliteDriver := {
  unique_error : error;
  notnull_error : error;
  bind_bytes : gslice byte → option (list byte);  (* None: NULL *)
  scan_bytes : list byte → gslice byte;
  delivered : error → list string → list string;  (* rows read before an error *)
}.

Class SqliteDriverLaws {D : SqliteDriver} : Prop := {
  bind_bytes_some bs : bind_bytes (Some bs) = Some bs;
  bind_bytes_none : bind_bytes None = None ∨ bind_bytes None = Some [];
  scan_bytes_elems bs : elems (scan_bytes bs) = bs;
  delivered_sub e rows : delivered e rows ⊆ rows;
}.

(** ** The schema and the opening of a database file *)

(** [CREATE TABLE IF NOT EXISTS]: [None] is a file without the tables. *)
Definition sqliteSchema (file : option sqliteDB) : sqliteDB :=
  match file with Some db => db | None => MkDB ∅ ∅ end.

Definition quoted (s : string) : string := String (Ascii.ascii_of_nat 34) s +:+ String (Ascii.ascii_of_nat 34) EmptyString.

Definition pragmas : list string :=
  ["PRAGMA journal_mode=WAL"; "PRAGMA busy_timeout=5000"; "PRAGMA foreign_keys=ON"].

Fixpoint run_pragmas (ctx : nat → fate) (i : nat) (l : list string) : option error :=
  match l with
  | [] => None
  | pragma :: l' =>
      match ctx i with
      | Fails _ err => Some (ErrWrap ("relay: sqlite pragma " +:+ quoted pragma) err)
      | Runs => run_pragmas ctx (S i) l'
      end
  end.

(** The handle or an error, and the file afterwards: [opened] is what
    [sql.Open] reports, [ctx i] the fate of the [i]th statement. *)
Definition newSQLiteStore (opened : option error) (ctx : nat → fate) (file : option sqliteDB) :
    res sqliteDB * option sqliteDB :=
  match opened with
  | Some err => (Err (ErrWrap "relay: opening sqlite" err), file)
  | None =>
      match run_pragmas ctx 0 pragmas with
      | Some err => (Err err, file)
      | None =>
          match ctx (length pragmas) with
          | Fails applied err =>
              (Err (ErrWrap "relay: applying sqlite schema" err),
               if applied then Some (sqliteSchema file) else file)
          | Runs => (Ok (sqliteSchema file), Some (sqliteSchema file))
          end
      end
  end.

(** ** Statements *)

(** A writing statement: the rows affected and the new database, or the
    violated constraint. *)
Definition stmt : Type := sqliteDB → res (Z * sqliteDB).

(** [db.ExecContext] under a fate. *)
Definition ExecContext (f : fate) (st : stmt) (db : sqliteDB) : res Z * sqliteDB :=
  match f, st db with
  | Runs, Ok (n, db') => (Ok n, db')
  | Runs, Err e => (Err e, db)
  | Runs, Panic => (Panic, db)
  | Fails true e, Ok (_, db') => (Err e, db')
  | Fails _ e, _ => (Err e, db)
  end.

(** Some row other than [id]'s has this key_hash. *)
Definition hash_taken (id hash : string) (db : sqliteDB) : bool :=
  existsb (λ e, bool_decide (e.1 ≠ id) && bool_decide (key_hash e.2 = hash)) (map_to_list (api_keys db)).

Section store.
Context {D : SqliteDriver}.

(** [INSERT INTO api_keys ... ON CONFLICT(id) DO UPDATE SET owner_account,
    key_hash]: allowed_origins keeps its value, or its default '[]'. *)
Definition upsert_key (id owner hash : string) : stmt := λ db,
  if hash_taken id hash db then Err unique_error
  else let origins := match api_keys db !! id with Some r => allowed_origins r | None => "[]" end in
       Ok (1%Z, MkDB (<[id := MkApiRow owner hash origins]> (api_keys db)) (policy_blobs db)).

(** [WHERE id=? AND owner_account=?]. *)
Definition where_owned (id owner : string) (upd : api_row → option api_row) : stmt := λ db,
  match api_keys db !! id with
  | Some r => if bool_decide (owner_account r = owner)
              then Ok (1%Z, MkDB (partial_alter (λ _, upd r) id (api_keys db)) (policy_blobs db))
              else Ok (0%Z, db)
  | None => Ok (0%Z, db)
  end.

(** [UPDATE api_keys SET owner_account=? WHERE id=? AND owner_account=?]. *)
Definition update_owner (new id old : string) : stmt :=
  where_owned id old (λ r, Some (MkApiRow new (key_hash r) (allowed_origins r))).
(** [DELETE FROM api_keys WHERE id=? AND owner_account=?]. *)
Definition delete_key (id owner : string) : stmt := where_owned id owner (λ _, None).
(** [UPDATE api_keys SET allowed_origins=? WHERE id=? AND owner_account=?]. *)
Definition update_origins (text id owner : string) : stmt :=
  where_owned id owner (λ r, Some (MkApiRow (owner_account r) (key_hash r) text)).

(** [SELECT id, owner_account, allowed_origins ... WHERE key_hash=?], first row. *)
Definition select_by_hash (hash : string) (db : sqliteDB) : option (string * api_row) :=
  head (filter (λ e, key_hash e.2 = hash) (map_to_list (api_keys db))).

(** [SELECT allowed_origins FROM api_keys WHERE allowed_origins <> '[]']. *)
Definition select_origins (db : sqliteDB) : list string :=
  filter (λ t, t ≠ "[]") (allowed_origins <$> (map_to_list (api_keys db)).*2).

(** [INSERT INTO policy_blobs ... ON CONFLICT(account) DO UPDATE ... WHERE
    excluded.version > policy_blobs.version]. *)
Definition upsert_policy (account : string) (version : Z) (bs : option (list byte)) : stmt := λ db,
  match bs with
  | None => Err notnull_error
  | Some bs =>
      let put := MkDB (api_keys db) (<[account := (version, bs)]> (policy_blobs db)) in
      match policy_blobs db !! account with
      | Some cur => if (cur.1 <? version)%Z then Ok (1%Z, put) else Ok (0%Z, db)
      | None => Ok (1%Z, put)
      end
  end.

(** ** The methods *)

(** The error of an update that must touch a row. *)
Definition affected (r : res Z) : option error :=
  match r with
  | Err e => Some e
  | Ok n => if (n =? 0)%Z then Some ErrNotFound else None
  | Panic => None
  end.
Definition exec_error {A} (r : res A) : option error :=
  match r with Err e => Some e | _ => None end.

(** [decodeOrigins]: empty or invalid text is no origins. *)
Definition decodeOrigins (s : string) : gslice string :=
  if bool_decide (s = "" ∨ s = "[]") then None
  else match Unmarshal_strings s with Some out => out | None => None end.

Definition sql_RegisterAPIKey (f : fate) (keyID ownerAccount hash : string) (db : sqliteDB) :
    option error * sqliteDB :=
  let '(r, db') := ExecContext f (upsert_key keyID ownerAccount hash) db in
  (exec_error r, db').

Definition sql_RebindAPIKey (f : fate) (keyID oldAccount newAccount : string) (db : sqliteDB) :
    option error * sqliteDB :=
  let '(r, db') := ExecContext f (update_owner newAccount keyID oldAccount) db in
  (affected r, db').

Definition sql_RevokeAPIKey (f : fate) (ownerAccount id : string) (db : sqliteDB) :
    option error * sqliteDB :=
  let '(r, db') := ExecContext f (delete_key id ownerAccount) db in
  (affected r, db').

Definition sql_ResolveAPIKey (f : fate) (plaintext : string) (db : sqliteDB) : res APIKey :=
  match f with
  | Fails _ err => Err err
  | Runs =>
      match select_by_hash (hashSecret plaintext) db with
      | None => Err ErrNotFound (* sql.ErrNoRows *)
      | Some (id, r) => Ok (MkAPIKey id (owner_account r) (decodeOrigins (allowed_origins r)))
      end
  end.

Definition sql_UpdateKeyOrigins (f : fate) (keyID ownerAccount : string) (origins : gslice string)
    (db : sqliteDB) : option error * sqliteDB :=
  let origins := match origins with None => Some [] | Some _ => origins end in
  let text := Marshal_strings origins in
  let '(r, db') := ExecContext f (update_origins text keyID ownerAccount) db in
  (affected r, db').

(** [rows.Next]/[rows.Err]: a failure either prevents the query or ends the
    iteration after some of the rows. *)
Definition sql_OriginAllowed (f : fate) (origin : string) (db : sqliteDB) : res bool :=
  let scan rows := existsb (λ t, existsb (λ o, bool_decide (o = origin)) (elems (decodeOrigins t))) rows in
  match f with
  | Runs => Ok (scan (select_origins db))
  | Fails false err => Err err
  | Fails true err => if scan (delivered err (select_origins db)) then Ok true else Err err
  end.

Definition sql_PutPolicy (f : fate) (account : string) (version : Z) (blob : gslice byte)
    (db : sqliteDB) : option error * sqliteDB :=
  let '(r, db') := ExecContext f (upsert_policy account version (bind_bytes blob)) db in
  (exec_error r, db').

Definition sql_GetPolicy (f : fate) (account : string) (db : sqliteDB) : res (Z * gslice byte * bool) :=
  match f with
  | Fails _ err => Err err
  | Runs =>
      match policy_blobs db !! account with
      | None => Ok (0%Z, None, false) (* sql.ErrNoRows *)
      | Some (version, bs) => Ok (version, scan_bytes bs, true)
      end
  end.

#[export] Instance sqliteStore_Store : Store sqliteDB := {
  RegisterAPIKey := sql_RegisterAPIKey;
  RevokeAPIKey := sql_RevokeAPIKey;
  ResolveAPIKey := sql_ResolveAPIKey;
  RebindAPIKey := sql_RebindAPIKey;
  UpdateKeyOrigins := sql_UpdateKeyOrigins;
  OriginAllowed := sql_OriginAllowed;
  PutPolicy := sql_PutPolicy;
  GetPolicy := sql_GetPolicy;
}.
End store.

(** ** Refinement of the abstract store *)

Section laws.
Context {D : SqliteDriver} {DL : SqliteDriverLaws}.

Definition row_spec (r : api_row) : key_spec :=
  MkKeySpec (owner_account r) (key_hash r) (elems (decodeOrigins (allowed_origins r))).

Definition db_spec (db : sqliteDB) : store_spec :=
  MkSpec (row_spec <$> api_keys db) (policy_blobs db).

Definition sql_repr (db : sqliteDB) (sp : store_spec) : Prop :=
  sp = db_spec db ∧ hashes_unique sp.

Lemma db_spec_lookup db id : sp_keys (db_spec db) !! id = row_spec <$> api_keys db !! id.
Proof. apply lookup_fmap. Qed.

Lemma hash_taken_false db id hash :
  hash_taken id hash db = false ↔ hash_free (db_spec db) id hash.
Proof.
  unfold hash_taken. rewrite <-not_true_iff_false, existsb_exists. split.
  - intros Hn id' ks Hs Hh. rewrite db_spec_lookup in Hs.
    destruct (api_keys db !! id') as [r|] eqn:Hr; [|done]. simplify_eq/=.
    destruct (decide (id' = id)) as [|Hne]; [done|]. destruct Hn. exists (id', r).
    rewrite !bool_decide_eq_true_2 by done.
    split; [by apply list_elem_of_In, elem_of_map_to_list|done].
  - intros Hf ([id' r] & Hin & [Hne Hh]%andb_true_iff).
    apply list_elem_of_In, elem_of_map_to_list in Hin. apply bool_decide_eq_true in Hne, Hh.
    apply Hne, (Hf id' (row_spec r)); [|done]. by rewrite db_spec_lookup, Hin.
Qed.

(** A statement that runs or not, against its specification. *)
Lemma ExecContext_writes f st db sp op (err : res Z → option error) :
  (∀ n, err (Ok n) = None ∨ err (Ok n) = Some ErrNotFound) → (∀ e, err (Err e) = Some e) →
  sql_repr db sp →
  (∃ n db', st db = Ok (n, db') ∧ err (Ok n) = (op sp).1 ∧ sql_repr db' (op sp).2) →
  writes sql_repr f (err (ExecContext f st db).1, (ExecContext f st db).2) sp op.
Proof.
  intros _ He Hr (n & db' & Hst & Hout & Hr'). unfold ExecContext. rewrite Hst.
  destruct f as [|[] e]; cbn.
  - by left.
  - right. exists true, e. rewrite He. auto.
  - right. exists false, e. rewrite He. auto.
Qed.

Lemma unique_insert sp id owner hash origins :
  hashes_unique sp → hash_free sp id hash →
  hashes_unique (with_keys (<[id := MkKeySpec owner hash origins]>) sp).
Proof.
  intros Hu Hf id1 id2 k1 k2; cbn. intros [[<- <-]|[N1 H1]]%lookup_insert_Some
    [[<- <-]|[N2 H2]]%lookup_insert_Some He; cbn in *; try done.
  - symmetry. by apply (Hf id2 k2).
  - by apply (Hf id1 k1).
  - by eapply Hu.
Qed.

Lemma unique_alter sp id k o :
  hashes_unique sp → sp_keys sp !! id = Some k → (∀ k', o = Some k' → ks_hash k' = ks_hash k) →
  hashes_unique (with_keys (partial_alter (λ _, o) id) sp).
Proof.
  intros Hu Hk Ho id1 id2 k1 k2; cbn. intros H1 H2 He.
  destruct (decide (id1 = id)) as [->|N1], (decide (id2 = id)) as [->|N2]; [done| | |].
  - rewrite lookup_partial_alter_eq in H1. rewrite lookup_partial_alter_ne in H2 by done.
    eapply Hu; [done..|]. rewrite <-He. symmetry. by apply Ho.
  - rewrite lookup_partial_alter_eq in H2. rewrite lookup_partial_alter_ne in H1 by done.
    eapply Hu; [done..|]. rewrite He. by apply Ho.
  - rewrite lookup_partial_alter_ne in H1, H2 by done. by eapply Hu.
Qed.

Lemma upsert_key_spec id owner hash db sp :
  sql_repr db sp → hash_free sp id hash →
  ∃ db', upsert_key id owner hash db = Ok (1%Z, db') ∧
         sql_repr db' (spec_register id owner hash sp).2.
Proof.
  intros [-> Hu] Hf. unfold upsert_key. rewrite (proj2 (hash_taken_false _ _ _) Hf).
  eexists; split; [done|]. split; [|by apply unique_insert].
  unfold spec_register, with_keys, db_spec. cbn. rewrite fmap_insert, lookup_fmap.
  do 3 f_equal. unfold row_spec at 1. cbn.
  by destruct (api_keys db !! id).
Qed.

Lemma where_owned_spec id owner upd g db sp :
  sql_repr db sp →
  (∀ r, row_spec <$> upd r = g (row_spec r)) →
  (∀ k k', g k = Some k' → ks_hash k' = ks_hash k) →
  ∃ n db', where_owned id owner upd db = Ok (n, db') ∧
    affected (Ok n) = (spec_update id owner g sp).1 ∧ sql_repr db' (spec_update id owner g sp).2.
Proof.
  intros [-> Hu] Hg Hh. unfold where_owned, spec_update, owned. rewrite db_spec_lookup.
  destruct (api_keys db !! id) as [r|] eqn:Hr; cbn; [|by eexists _, _].
  destruct (bool_decide_reflect (owner_account r = owner)) as [Ho|Ho]; cbn; [|by eexists _, _].
  eexists _, _. split; [done|split; [done|]]. cbn. split.
  - unfold with_keys, db_spec; cbn. f_equal. apply map_eq; intros id'.
    destruct (decide (id' = id)) as [->|].
    + by rewrite lookup_fmap, !lookup_partial_alter_eq, Hg.
    + by rewrite lookup_fmap, !lookup_partial_alter_ne, lookup_fmap.
  - apply (unique_alter _ _ (row_spec r)); [done| |by apply Hh].
    by rewrite db_spec_lookup, Hr.
Qed.

Lemma decode_Marshal l :
  Forall (λ o, ValidString o = true) l → elems (decodeOrigins (Marshal_strings (Some l))) = l.
Proof.
  intros Hv. unfold decodeOrigins. case_bool_decide as Hs.
  - destruct l as [|s l]; [done|]. exfalso.
    assert (Hl : (4 ≤ String.length (Marshal_strings (Some (s :: l))))%nat).
    { cbn [Marshal_strings]. rewrite length_string_of. cbn [length].
      rewrite length_app. cbn [length].
      assert (2 ≤ length (quote_list (s :: l)))%nat; [|lia].
      destruct l; simpl; rewrite ?length_app; simpl; lia. }
    destruct Hs as [Hs|Hs]; rewrite Hs in Hl; simpl in Hl; lia.
  - by rewrite Unmarshal_Marshal.
Qed.

Lemma select_by_hash_spec db hash :
  match select_by_hash hash db with
  | Some (id, r) => api_keys db !! id = Some r ∧ key_hash r = hash
  | None => ∀ id r, api_keys db !! id = Some r → key_hash r ≠ hash
  end.
Proof.
  unfold select_by_hash. destruct (filter _ _) as [|[id r] rest] eqn:Hf; cbn.
  - intros id r Hr Hh.
    assert (Hin : (id, r) ∈ filter (λ e, key_hash e.2 = hash) (map_to_list (api_keys db)))
      by (apply list_elem_of_filter; by rewrite elem_of_map_to_list).
    rewrite Hf in Hin. by apply elem_of_nil in Hin.
  - assert (Hin : (id, r) ∈ filter (λ e, key_hash e.2 = hash) (map_to_list (api_keys db)))
      by (rewrite Hf; by left).
    apply list_elem_of_filter in Hin as [? Hin]. by rewrite elem_of_map_to_list in Hin.
Qed.

(** The scan of some of the rows finds only origins that are listed; of all
    the rows, every one. *)
Lemma select_origins_spec db origin t :
  t ∈ select_origins db → origin ∈ elems (decodeOrigins t) → lists_origin (db_spec db) origin.
Proof.
  unfold select_origins. intros [_ (r & -> & ([id r'] & -> & Hin)%list_elem_of_fmap)%list_elem_of_fmap]
    %list_elem_of_filter Ho.
  apply elem_of_map_to_list in Hin. exists id, (row_spec r'). by rewrite db_spec_lookup, Hin.
Qed.

Lemma select_origins_complete db origin :
  lists_origin (db_spec db) origin →
  ∃ t, t ∈ select_origins db ∧ origin ∈ elems (decodeOrigins t).
Proof.
  intros (id & ks & Hs & Ho). rewrite db_spec_lookup in Hs.
  destruct (api_keys db !! id) as [r|] eqn:Hr; [|done]. simplify_eq/=.
  exists (allowed_origins r). split; [|done]. apply list_elem_of_filter. split.
  - intros He. rewrite He in Ho. by apply elem_of_nil in Ho.
  - apply list_elem_of_fmap. exists r. split; [done|]. apply list_elem_of_fmap. exists (id, r).
    split; [done|]. by apply elem_of_map_to_list.
Qed.

Lemma scan_true origin rows :
  existsb (λ t, existsb (λ o, bool_decide (o = origin)) (elems (decodeOrigins t))) rows = true ↔
  ∃ t, t ∈ rows ∧ origin ∈ elems (decodeOrigins t).
Proof.
  rewrite existsb_exists. split.
  - intros (t & Hin & (o & Ho & ->%bool_decide_eq_true)%existsb_exists). exists t.
    by rewrite !list_elem_of_In.
  - intros (t & Hin & Ho). exists t. split; [by apply list_elem_of_In|].
    apply existsb_exists. exists origin. rewrite bool_decide_eq_true_2 by done.
    by rewrite <-list_elem_of_In.
Qed.

Lemma sql_allowed f origin db :
  reads f (sql_OriginAllowed f origin db) (spec_allowed (db_spec db) origin).
Proof.
  destruct f as [|[] e]; cbn.
  - left. eexists; split; [done|]. rewrite scan_true. split.
    + intros (t & ? & ?). by eapply select_origins_spec.
    + apply select_origins_complete.
  - destruct (existsb _ _) eqn:Hs; [|right; by eexists _, _].
    left. eexists; split; [done|]. split; [intros _|done].
    apply scan_true in Hs as (t & Hin & Ho). apply delivered_sub in Hin.
    by eapply select_origins_spec.
  - right. by eexists _, _.
Qed.

Lemma upsert_policy_spec account ver bl db sp :
  sql_repr db sp →
  ∃ n db', upsert_policy account ver (Some bl) db = Ok (n, db') ∧
    sql_repr db' (spec_put account ver bl sp).2.
Proof.
  intros [-> Hu]. unfold upsert_policy, spec_put, db_spec; cbn.
  destruct (policy_blobs db !! account) as [cur|]; cbn; [|by eexists _, _].
  destruct (cur.1 <? ver)%Z; by eexists _, _.
Qed.

(** Whatever text an update of the origins writes. *)
Lemma sql_origins_writes f id owner origins db sp :
  sql_repr db sp →
  let text := Marshal_strings (match origins with None => Some [] | Some _ => origins end) in
  writes sql_repr f (sql_UpdateKeyOrigins f id owner origins db) sp
    (spec_origins id owner (elems (decodeOrigins text))).
Proof.
  intros Hr text. unfold sql_UpdateKeyOrigins. fold text.
  pose proof (ExecContext_writes f (update_origins text id owner) db sp
    (spec_origins id owner (elems (decodeOrigins text))) affected) as Hw.
  destruct (ExecContext _ _ _) as [r d]. apply Hw; [intros; cbn; case_match; auto|done|done|].
  apply where_owned_spec; [done|done|]. by intros k k' [= <-].
Qed.

Lemma sql_put_writes f account ver bs db sp :
  sql_repr db sp → writes sql_repr f (sql_PutPolicy f account ver (Some bs) db) sp (spec_put account ver bs).
Proof.
  intros Hr. unfold sql_PutPolicy. rewrite bind_bytes_some.
  destruct (upsert_policy_spec account ver bs db sp Hr) as (n & db' & Hst & Hr').
  pose proof (ExecContext_writes f (upsert_policy account ver (Some bs)) db sp
    (spec_put account ver bs) exec_error) as Hw.
  destruct (ExecContext _ _ _) as [r d]. apply Hw; [by left|done|done|]. by eexists _, _.
Qed.

(** A nil blob is bound as NULL, which the column refuses, or as some bytes. *)
Lemma sql_put_lands f account ver blob db sp :
  sql_repr db sp → lands sql_repr (sql_PutPolicy f account ver blob db).2 sp (spec_put account ver (elems blob)).
Proof.
  intros Hr. destruct blob as [bs|]; [by eapply writes_lands, sql_put_writes|].
  unfold sql_PutPolicy. destruct bind_bytes_none as [->| ->].
  - left. by destruct f as [|[] e].
  - rewrite <-(bind_bytes_some []). by eapply writes_lands, sql_put_writes.
Qed.

#[export] Instance sqliteStore_laws : StoreLaws sqliteDB.
Proof.
  refine {| represents := sql_repr |}.
  - by intros s sp [].
  - intros f id owner hash db sp Hr Hf. cbn. unfold sql_RegisterAPIKey.
    destruct (upsert_key_spec id owner hash db sp Hr Hf) as (db' & Hst & Hr').
    pose proof (ExecContext_writes f (upsert_key id owner hash) db sp
      (spec_register id owner hash) exec_error) as Hw.
    destruct (ExecContext _ _ _) as [r d]. apply Hw; [by left|done|done|]. by eexists _, _.
  - intros f owner id db sp Hr. cbn. unfold sql_RevokeAPIKey.
    pose proof (ExecContext_writes f (delete_key id owner) db sp (spec_revoke owner id) affected) as Hw.
    destruct (ExecContext _ _ _) as [r d]. apply Hw; [intros; cbn; case_match; auto|done|done|].
    by apply where_owned_spec.
  - intros f plaintext db sp [-> Hu]. cbn. unfold sql_ResolveAPIKey.
    destruct f as [|b e]; [left|right; by eexists _, _].
    pose proof (select_by_hash_spec db (hashSecret plaintext)) as Hsel.
    destruct (select_by_hash _ _) as [[id r]|]; cbn.
    + destruct Hsel as [Hr Hh]. exists (row_spec r). cbn.
      rewrite lookup_fmap, Hr. by split_and!.
    + split; [done|]. intros id ks Hs. rewrite db_spec_lookup in Hs.
      destruct (api_keys db !! id) as [r|] eqn:Hr; [|done]. simplify_eq/=. by eapply Hsel.
  - intros f id old new db sp Hr. cbn. unfold sql_RebindAPIKey.
    pose proof (ExecContext_writes f (update_owner new id old) db sp (spec_rebind id old new) affected) as Hw.
    destruct (ExecContext _ _ _) as [r d]. apply Hw; [intros; cbn; case_match; auto|done|done|].
    apply where_owned_spec; [done|done|]. by intros k k' [= <-].
  - intros f id owner origins db sp Hr Hv. pose proof (sql_origins_writes f id owner origins db sp Hr) as H.
    cbn zeta in H. by destruct origins as [l|]; rewrite decode_Marshal in H by done.
  - intros f origin db sp [-> Hu]. apply sql_allowed.
  - intros f account ver bl db sp Hr [bs ->]. by apply sql_put_writes.
  - intros f account db sp [-> Hu]. cbn. unfold sql_GetPolicy, spec_get.
    destruct f as [|b e]; [left|right; by eexists _, _]. cbn.
    destruct (policy_blobs db !! account) as [[v bs]|]; [|done].
    exists (scan_bytes bs). by rewrite scan_bytes_elems.
  - intros f id owner origins db sp Hr. eexists. by eapply (writes_lands _ f), sql_origins_writes.
  - intros. by apply sql_put_lands.
Defined.
End laws.

(** A driver for the examples: NULL for nil, nothing delivered before an error. *)
Definition plain_driver : SqliteDriver := {|
  unique_error := ErrString "constraint failed: UNIQUE constraint failed: api_keys.key_hash";
  notnull_error := ErrString "constraint failed: NOT NULL constraint failed: policy_blobs.blob";
  bind_bytes := id;
  scan_bytes := Some;
  delivered _ _ := [];
|}.

Lemma plain_driver_laws : @SqliteDriverLaws plain_driver.
Proof. split; [done|by left|done|]. intros e rows x Hx. by apply elem_of_nil in Hx. Qed.
