(* ===== verification/StoreProps.v ===== *)
(** * Properties of the stores

    What both implementations guarantee is proved once against the interface
    [Store]/[StoreLaws] (rotation, ownership, last write wins); the rest
    compares the two implementations and covers the cases the contract
    excludes. *)

From S2P Require Import Prelude GoStd Sha256 Utf8 Store MemStore SqliteStore.

(** ** Runs of writes *)

Fixpoint run_ops {S} {St : Store S} (ops : list store_op) (s : S) : list (option error) * S :=
  match ops with
  | [] => ([], s)
  | op :: ops' => let '(e, s1) := apply_op Runs op s in
                  let '(es, s2) := run_ops ops' s1 in (e :: es, s2)
  end.

Fixpoint spec_run (ops : list store_op) (sp : store_spec) : list (option error) * store_spec :=
  match ops with
  | [] => ([], sp)
  | op :: ops' => let '(e, sp1) := spec_op op sp in
                  let '(es, sp2) := spec_run ops' sp1 in (e :: es, sp2)
  end.

Fixpoint ops_ok (ops : list store_op) (sp : store_spec) : Prop :=
  match ops with
  | [] => True
  | op :: ops' => op_ok op sp ∧ ops_ok ops' (spec_op op sp).2
  end.

Lemma run_ops_refines {S} {St : Store S} {SL : StoreLaws S} ops s sp :
  represents s sp → ops_ok ops sp →
  (run_ops ops s).1 = (spec_run ops sp).1 ∧ represents (run_ops ops s).2 (spec_run ops sp).2.
Proof.
  revert s sp; induction ops as [|op ops IH]; intros s sp Hr Hok; [done|].
  destruct Hok as [Hop Hok]. destruct (write_runs op s sp Hr Hop) as [He Hr1].
  cbn [run_ops spec_run]. destruct (apply_op Runs op s) as [e s1], (spec_op op sp) as [e' sp1].
  cbn [fst snd] in *. subst e'. destruct (IH s1 sp1 Hr1 Hok) as [Hes Hr2].
  destruct (run_ops ops s1), (spec_run ops sp1). cbn in *. by subst.
Qed.

(** A secret stays unresolved unless its hash is registered. *)
Lemma spec_op_unresolved op sp secret :
  unresolved sp secret → (∀ i o, op ≠ OpRegister i o (hashSecret secret)) →
  unresolved (spec_op op sp).2 secret.
Proof.
  intros Hun Hne. destruct op as [i o h|o i|i o n|i o l|a v b]; cbn.
  - intros id ks. cbn. intros [[<- <-]|[_ Hs]]%lookup_insert_Some; [|by eapply Hun].
    cbn. intros ->. by eapply Hne.
  - unfold spec_revoke, spec_update. destruct (owned _ _ _) eqn:Ho; [|done].
    intros id ks. cbn. rewrite lookup_partial_alter_Some. intros [[_ ?]|[_ ?]]; [done|by eapply Hun].
  - unfold spec_rebind, spec_update. destruct (owned _ _ _) eqn:Ho; [|done].
    apply owned_Some in Ho as [Ho _]. intros id ks. cbn.
    rewrite lookup_partial_alter_Some. intros [[_ ?]|[_ ?]]; simplify_eq/=; by eapply Hun.
  - unfold spec_origins, spec_update. destruct (owned _ _ _) eqn:Ho; [|done].
    apply owned_Some in Ho as [Ho _]. intros id ks. cbn.
    rewrite lookup_partial_alter_Some. intros [[_ ?]|[_ ?]]; simplify_eq/=; by eapply Hun.
  - unfold spec_put. by case_match.
Qed.

Lemma spec_run_unresolved ops sp secret :
  unresolved sp secret → (∀ i o, OpRegister i o (hashSecret secret) ∉ ops) →
  unresolved (spec_run ops sp).2 secret.
Proof.
  revert sp; induction ops as [|op ops IH]; intros sp Hun Hnot; [done|]. cbn [spec_run].
  pose proof (spec_op_unresolved op sp secret Hun) as H1.
  destruct (spec_op op sp) as [e sp1]. specialize (IH sp1).
  destruct (spec_run ops sp1) as [es sp2]. cbn in *. apply IH; [apply H1|]; set_solver.
Qed.

(** ** Two implementations of the interface *)

(** The same answer, nil and empty slices alike. *)
Definition same_key (r1 r2 : res APIKey) : Prop :=
  match r1, r2 with
  | Ok k1, Ok k2 => ID k1 = ID k2 ∧ OwnerAccount k1 = OwnerAccount k2 ∧
                    elems (AllowedOrigins k1) = elems (AllowedOrigins k2)
  | Err e1, Err e2 => e1 = e2
  | _, _ => False
  end.
Definition same_policy (r1 r2 : res (Z * gslice byte * bool)) : Prop :=
  match r1, r2 with
  | Ok (v1, b1, f1), Ok (v2, b2, f2) => v1 = v2 ∧ elems b1 = elems b2 ∧ f1 = f2
  | _, _ => False
  end.

Lemma reads_runs {A} (r : res A) P : reads Runs r P → P r.
Proof. by intros [?|(? & ? & ? & _)]. Qed.

Section equiv.
Context {S1 S2 : Type} {St1 : Store S1} {St2 : Store S2} {L1 : StoreLaws S1} {L2 : StoreLaws S2}.
Context (s1 : S1) (s2 : S2) (sp : store_spec) (H1 : represents s1 sp) (H2 : represents s2 sp).

Lemma same_resolve plaintext :
  same_key (ResolveAPIKey Runs plaintext s1) (ResolveAPIKey Runs plaintext s2).
Proof.
  pose proof (reads_runs _ _ (resolve_law Runs plaintext s1 sp H1)) as R1.
  pose proof (reads_runs _ _ (resolve_law Runs plaintext s2 sp H2)) as R2.
  pose proof (represents_unique _ _ H1) as Hu.
  destruct (ResolveAPIKey Runs plaintext s1) as [k1|e1|], (ResolveAPIKey Runs plaintext s2) as [k2|e2|];
    cbn in *; try done.
  - destruct R1 as (ks1 & A1 & B1 & C1 & D1), R2 as (ks2 & A2 & B2 & C2 & D2).
    assert (ID k1 = ID k2) as He by (eapply Hu; [done..|congruence]).
    rewrite He in A1. simplify_eq. split_and!; congruence.
  - destruct R1 as (ks1 & A1 & B1 & _), R2 as [_ R2]. by destruct (R2 _ _ A1).
  - destruct R2 as (ks2 & A2 & B2 & _), R1 as [_ R1]. by destruct (R1 _ _ A2).
  - destruct R1, R2. congruence.
Qed.

Lemma same_allowed origin : OriginAllowed Runs origin s1 = OriginAllowed Runs origin s2.
Proof.
  destruct (reads_runs _ _ (allowed_law Runs origin s1 sp H1)) as (b1 & -> & B1).
  destruct (reads_runs _ _ (allowed_law Runs origin s2 sp H2)) as (b2 & -> & B2).
  f_equal. destruct b1, b2; naive_solver.
Qed.

Lemma same_get account : same_policy (GetPolicy Runs account s1) (GetPolicy Runs account s2).
Proof.
  pose proof (reads_runs _ _ (get_law Runs account s1 sp H1)) as R1.
  pose proof (reads_runs _ _ (get_law Runs account s2 sp H2)) as R2.
  unfold spec_get in *. destruct (sp_policy sp !! account) as [[v bs]|].
  - destruct R1 as (b1 & -> & E1), R2 as (b2 & -> & E2). cbn. split_and!; congruence.
  - by rewrite R1, R2.
Qed.
End equiv.

(** C11: the in-memory and the SQLite store are interchangeable under the store's
    contract: started empty and given the same writes, with no database
    failure, they report the same errors, and every later read answers the
    same, provided no key hash is registered under two ids, the origins are
    valid UTF-8 and no policy blob is nil. Without the first of these
    conditions they differ, as [duplicate_hash_diverges] shows. *)
Theorem stores_interchangeable {D : SqliteDriver} {DL : SqliteDriverLaws} ops :
  ops_ok ops empty_spec →
  let '(es1, m) := run_ops ops newMemStore in
  let '(es2, d) := run_ops ops (sqliteSchema None) in
  es1 = es2 ∧
  (∀ plaintext, same_key (ResolveAPIKey Runs plaintext m) (ResolveAPIKey Runs plaintext d)) ∧
  (∀ origin, OriginAllowed Runs origin m = OriginAllowed Runs origin d) ∧
  (∀ account, same_policy (GetPolicy Runs account m) (GetPolicy Runs account d)).
Proof.
  intros Hok.
  assert (Hm : represents newMemStore empty_spec) by exact newMemStore_repr.
  destruct (run_ops_refines ops newMemStore empty_spec Hm Hok) as [E1 R1].
  assert (Hd : represents (sqliteSchema None) empty_spec) by (split; by intros; simplify_map_eq).
  destruct (run_ops_refines ops (sqliteSchema None) empty_spec Hd Hok) as [E2 R2].
  destruct (run_ops ops newMemStore) as [es1 m], (run_ops ops (sqliteSchema None)) as [es2 d].
  cbn [fst snd] in *. split_and!; [congruence|intros..].
  - by eapply same_resolve.
  - by eapply same_allowed.
  - by eapply same_get.
Qed.

Definition example_ops : list store_op :=
  [OpRegister "key_1" "nano_a" "h1"; OpOrigins "key_1" "nano_a" (Some ["https://shop.example"]);
   OpRegister "key_1" "nano_a" "h2"; OpRebind "key_1" "nano_a" "nano_b";
   OpRevoke "nano_a" "key_1"; OpPut "nano_b" 1 (Some [x01]); OpPut "nano_b" 1 (Some [x02])].

Theorem stores_interchangeable_witness :
  let '(es1, m) := run_ops example_ops newMemStore in
  let '(es2, d) := run_ops (St:=@sqliteStore_Store plain_driver) example_ops (sqliteSchema None) in
  es1 = es2 ∧
  (∀ plaintext, same_key (ResolveAPIKey Runs plaintext m)
     (ResolveAPIKey (Store:=@sqliteStore_Store plain_driver) Runs plaintext d)) ∧
  (∀ origin, OriginAllowed Runs origin m =
     OriginAllowed (Store:=@sqliteStore_Store plain_driver) Runs origin d) ∧
  (∀ account, same_policy (GetPolicy Runs account m)
     (GetPolicy (Store:=@sqliteStore_Store plain_driver) Runs account d)).
Proof.
  apply (@stores_interchangeable plain_driver plain_driver_laws example_ops).
  unfold example_ops. cbn [ops_ok op_ok]. split_and!; try done.
  - by repeat constructor.
  - match goal with |- hash_free ?sp _ _ =>
      replace sp with (MkSpec {["key_1" := MkKeySpec "nano_a" "h1" ["https://shop.example"]]} ∅)
        by (by vm_compute) end.
    intros id' ks H _. cbn [sp_keys] in H. by apply lookup_singleton_Some in H as [<- _].
Defined.

(** ** Key management, on any implementation *)

Section any.
Context {S : Type} {St : Store S} {SL : StoreLaws S}.

Lemma resolve_Ok s sp plaintext k ks :
  represents s sp → sp_keys sp !! ID k = Some ks → ks_hash ks = hashSecret plaintext →
  ks_owner ks = OwnerAccount k → ks_origins ks = elems (AllowedOrigins k) →
  same_key (ResolveAPIKey Runs plaintext s) (Ok k).
Proof.
  intros Hr Hk Hh Ho He.
  pose proof (reads_runs _ _ (resolve_law Runs plaintext s sp Hr)) as R.
  destruct (ResolveAPIKey Runs plaintext s) as [k'|e|]; cbn in *; [| |done].
  - destruct R as (ks' & A & B & C & F).
    assert (ID k' = ID k) as Hid by (apply (represents_unique s sp Hr _ _ ks' ks); [done..|congruence]).
    rewrite Hid in A. simplify_eq. split_and!; congruence.
  - destruct R as [_ R]. by destruct (R _ _ Hk).
Qed.

Lemma resolve_None s sp plaintext :
  represents s sp → unresolved sp plaintext → ResolveAPIKey Runs plaintext s = Err ErrNotFound.
Proof.
  intros Hr Hn. pose proof (reads_runs _ _ (resolve_law Runs plaintext s sp Hr)) as R.
  destruct (ResolveAPIKey Runs plaintext s) as [k'|e|]; cbn in *; [|by destruct R as [-> _]|done].
  destruct R as (ks & A & B & _). by destruct (Hn _ _ A).
Qed.

(** Registering a key id again rotates its secret: the new secret resolves
    to the key, with the account just given and the origins it had; a secret
    that resolved to this key before no longer resolves; and a secret of
    another key still resolves as it did. *)
Theorem register_rotates s sp id owner newSecret :
  represents s sp → hash_free sp id (hashSecret newSecret) →
  let s' := (RegisterAPIKey Runs id owner (hashSecret newSecret) s).2 in
  (RegisterAPIKey Runs id owner (hashSecret newSecret) s).1 = None ∧
  (∃ k, ResolveAPIKey Runs newSecret s' = Ok k ∧ ID k = id ∧ OwnerAccount k = owner ∧
        elems (AllowedOrigins k) = from_option ks_origins [] (sp_keys sp !! id)) ∧
  (∀ old k, ResolveAPIKey Runs old s = Ok k → hashSecret old ≠ hashSecret newSecret →
     if decide (ID k = id) then ResolveAPIKey Runs old s' = Err ErrNotFound
     else same_key (ResolveAPIKey Runs old s') (Ok k)).
Proof.
  intros Hr Hf s'. pose proof (represents_unique s sp Hr) as Hu.
  destruct (write_runs (OpRegister id owner (hashSecret newSecret)) s sp Hr Hf) as [He Hr'].
  cbn [apply_op spec_op] in He, Hr'. fold s' in Hr'.
  set (sp' := (spec_register id owner (hashSecret newSecret) sp).2) in *.
  assert (Hid : sp_keys sp' !! id = Some (MkKeySpec owner (hashSecret newSecret)
    (from_option ks_origins [] (sp_keys sp !! id)))).
  { cbn. rewrite lookup_insert_eq. by destruct (sp_keys sp !! id). }
  split; [done|split].
  - pose proof (resolve_Ok s' sp' newSecret
      (MkAPIKey id owner (Some (from_option ks_origins [] (sp_keys sp !! id)))) _ Hr' Hid
      eq_refl eq_refl eq_refl) as Hs.
    destruct (ResolveAPIKey Runs newSecret s') as [k|e|]; [|done..]. cbn in Hs. eauto.
  - intros old k Hold Hne.
    pose proof (reads_runs _ _ (resolve_law Runs old s sp Hr)) as R. rewrite Hold in R.
    destruct R as (ks & A & B & C & F). case_decide as Hk.
    + apply (resolve_None s' sp' old Hr'). intros id' ks' Hs' Hh.
      destruct (decide (id' = id)) as [->|Hn]; [rewrite Hid in Hs'; by simplify_eq/=|].
      cbn in Hs'. rewrite lookup_insert_ne in Hs' by done.
      apply Hn. rewrite <-Hk. apply (Hu _ _ ks' ks); [done..|congruence].
    + apply (resolve_Ok s' sp' old k ks Hr'); [|done..]. cbn. by rewrite lookup_insert_ne.
Qed.

(** Only the account that owns a key can revoke it, rebind it or set its
    origins: for any other account the call reports [ErrNotFound] and the
    stored keys and policies are what they were. *)
Theorem not_owner_refused s sp op id acct :
  represents s sp → op_ok op sp → owned sp id acct = None →
  match op with
  | OpRevoke o i => o = acct ∧ i = id
  | OpRebind i o _ => o = acct ∧ i = id
  | OpOrigins i o _ => o = acct ∧ i = id
  | _ => False
  end →
  (apply_op Runs op s).1 = Some ErrNotFound ∧ represents (apply_op Runs op s).2 sp.
Proof.
  intros Hr Hok Hn Hop. destruct (write_runs op s sp Hr Hok) as [He Hr'].
  rewrite He. destruct op; try done; destruct Hop as [-> ->]; cbn in *;
    unfold spec_revoke, spec_rebind, spec_origins, spec_update in *; by rewrite Hn in *.
Qed.

(** Rebinding a key to another account of its owner keeps its secret, its
    id and its origins: every secret that resolved still resolves to the same
    key, which now names the new account. *)
Theorem rebind_keeps_secret s sp id old new secret k :
  represents s sp → ResolveAPIKey Runs secret s = Ok k → ID k = id → OwnerAccount k = old →
  (RebindAPIKey Runs id old new s).1 = None ∧
  same_key (ResolveAPIKey Runs secret (RebindAPIKey Runs id old new s).2)
    (Ok (MkAPIKey id new (AllowedOrigins k))).
Proof.
  intros Hr Hres Hid Ho.
  pose proof (reads_runs _ _ (resolve_law Runs secret s sp Hr)) as R. rewrite Hres in R.
  destruct R as (ks & A & B & C & F). rewrite Hid in A.
  destruct (write_runs (OpRebind id old new) s sp Hr I) as [He Hr'].
  cbn [apply_op spec_op] in *. unfold spec_rebind, spec_update in *.
  rewrite (proj2 (owned_Some sp id old ks)) in He, Hr' by (split; congruence).
  split; [done|]. eapply resolve_Ok; [done|cbn; by rewrite lookup_partial_alter_eq|done..].
Qed.

(** C16: a revoked key is gone: when a stored key's owner revokes it and the store
    does not fail, the key's secret resolves to nothing, whatever is written
    afterwards within the store's contract ([ops_ok]: no hash under two ids,
    origins in UTF-8, no nil blob) except a registration of that secret's hash. *)
Theorem revoke_is_final s sp id owner secret k ops :
  represents s sp → ResolveAPIKey Runs secret s = Ok k → ID k = id → OwnerAccount k = owner →
  let s' := (RevokeAPIKey Runs owner id s).2 in
  ops_ok ops (spec_revoke owner id sp).2 →
  (∀ i o, OpRegister i o (hashSecret secret) ∉ ops) →
  (RevokeAPIKey Runs owner id s).1 = None ∧
  ResolveAPIKey Runs secret (run_ops ops s').2 = Err ErrNotFound.
Proof.
  intros Hr Hres Hid Ho s' Hok Hnot.
  pose proof (reads_runs _ _ (resolve_law Runs secret s sp Hr)) as R. rewrite Hres in R.
  destruct R as (ks & A & B & C & F). rewrite Hid in A.
  destruct (write_runs (OpRevoke owner id) s sp Hr I) as [He Hr']. fold s' in Hr'.
  cbn [apply_op spec_op] in *.
  assert (Hun : unresolved (spec_revoke owner id sp).2 secret).
  { unfold spec_revoke, spec_update. rewrite (proj2 (owned_Some sp id owner ks)) by (split; congruence).
    intros id' ks' Hs' Hh. cbn in Hs'. destruct (decide (id' = id)) as [->|Hn].
    - by rewrite lookup_partial_alter_eq in Hs'.
    - rewrite lookup_partial_alter_ne in Hs' by done. apply Hn.
      apply (represents_unique s sp Hr _ _ ks' ks); [done..|congruence]. }
  split.
  - rewrite He. unfold spec_revoke, spec_update.
    by rewrite (proj2 (owned_Some sp id owner ks)) by (split; congruence).
  - destruct (run_ops_refines ops s' _ Hr' Hok) as [_ Hr2].
    apply (resolve_None _ _ _ Hr2). clear -Hun Hnot.
    by apply spec_run_unresolved.
Qed.
End any.

(** ** The witnesses' store: one key of nano_a, registered on both stores *)

Definition mem1 : memStore :=
  (run_ops [OpRegister "key_1" "nano_a" (hashSecret "s1")] newMemStore).2.
Definition spec1 : store_spec :=
  (spec_run [OpRegister "key_1" "nano_a" (hashSecret "s1")] empty_spec).2.

Lemma mem1_repr : represents mem1 spec1.
Proof.
  apply run_ops_refines; [exact newMemStore_repr|]. split; [|done]. intros id ks H. by simplify_map_eq.
Qed.

Lemma spec1_eq : spec1 = MkSpec {["key_1" := MkKeySpec "nano_a" (hashSecret "s1") []]} ∅.
Proof. by vm_compute. Qed.

Lemma spec1_free hash : hash_free spec1 "key_1" hash.
Proof. rewrite spec1_eq. intros id ks H _. cbn [sp_keys] in H. by apply lookup_singleton_Some in H as [<- _]. Qed.

Theorem register_rotates_witness :
  let s' := (RegisterAPIKey Runs "key_1" "nano_b" (hashSecret "s2") mem1).2 in
  (RegisterAPIKey Runs "key_1" "nano_b" (hashSecret "s2") mem1).1 = None ∧
  (∃ k, ResolveAPIKey Runs "s2" s' = Ok k ∧ ID k = "key_1" ∧ OwnerAccount k = "nano_b" ∧
        elems (AllowedOrigins k) = from_option ks_origins [] (sp_keys spec1 !! "key_1")) ∧
  (∀ old k, ResolveAPIKey Runs old mem1 = Ok k → hashSecret old ≠ hashSecret "s2" →
     if decide (ID k = "key_1") then ResolveAPIKey Runs old s' = Err ErrNotFound
     else same_key (ResolveAPIKey Runs old s') (Ok k)).
Proof. apply (register_rotates mem1 spec1 "key_1" "nano_b" "s2"); [apply mem1_repr|apply spec1_free]. Defined.

Theorem not_owner_refused_witness :
  (apply_op Runs (OpRevoke "nano_b" "key_1") mem1).1 = Some ErrNotFound ∧
  represents (apply_op Runs (OpRevoke "nano_b" "key_1") mem1).2 spec1.
Proof.
  apply (not_owner_refused mem1 spec1 (OpRevoke "nano_b" "key_1") "key_1" "nano_b");
    [apply mem1_repr|done|by vm_compute|done].
Defined.

Theorem rebind_keeps_secret_witness :
  (RebindAPIKey Runs "key_1" "nano_a" "nano_b" mem1).1 = None ∧
  same_key (ResolveAPIKey Runs "s1" (RebindAPIKey Runs "key_1" "nano_a" "nano_b" mem1).2)
    (Ok (MkAPIKey "key_1" "nano_b" None)).
Proof.
  apply (rebind_keeps_secret mem1 spec1 "key_1" "nano_a" "nano_b" "s1" (MkAPIKey "key_1" "nano_a" None));
    [apply mem1_repr|by vm_compute|done|done].
Defined.

Theorem revoke_is_final_witness :
  (RevokeAPIKey Runs "nano_a" "key_1" mem1).1 = None ∧
  ResolveAPIKey Runs "s1"
    (run_ops [OpRegister "key_1" "nano_a" (hashSecret "s2")]
       (RevokeAPIKey Runs "nano_a" "key_1" mem1).2).2 = Err ErrNotFound.
Proof.
  apply (revoke_is_final mem1 spec1 "key_1" "nano_a" "s1" (MkAPIKey "key_1" "nano_a" None)
    [OpRegister "key_1" "nano_a" (hashSecret "s2")]);
    [apply mem1_repr|by vm_compute|done|done| |].
  - split; [|done]. replace (spec_revoke "nano_a" "key_1" spec1).2 with empty_spec by (by vm_compute).
    intros id ks H. cbn [empty_spec sp_keys] in H.
    rewrite lookup_empty in H. discriminate H.
  - intros i o H. apply list_elem_of_singleton in H.
    assert (hashSecret "s1" = hashSecret "s2") by congruence. by vm_compute in H0.
Defined.

(** ** Policies: last write wins *)

Definition put_ops (account : string) (ps : list (Z * list byte)) : list store_op :=
  (λ p, OpPut account p.1 (Some p.2)) <$> ps.

(** [p] is the first of the greatest version in [l]. *)
Definition first_newest (p : Z * list byte) (l : list (Z * list byte)) : Prop :=
  ∃ l1 l2, l = l1 ++ p :: l2 ∧ Forall (λ c, (c.1 < p.1)%Z) l1 ∧ Forall (λ c, (c.1 ≤ p.1)%Z) l2.

Lemma spec_puts account ps sp :
  ops_ok (put_ops account ps) sp ∧
  (∀ other, other ≠ account →
     sp_policy (spec_run (put_ops account ps) sp).2 !! other = sp_policy sp !! other) ∧
  sp_keys (spec_run (put_ops account ps) sp).2 = sp_keys sp ∧
  (∀ p, sp_policy (spec_run (put_ops account ps) sp).2 !! account = Some p →
     first_newest p (option_list (sp_policy sp !! account) ++ ps)) ∧
  (sp_policy (spec_run (put_ops account ps) sp).2 !! account = None →
     ps = [] ∧ sp_policy sp !! account = None).
Proof.
  revert sp; induction ps as [|[v bs] ps IH]; intros sp.
  { cbn. split_and!; try done. intros p ->. cbn. by exists [], []. }
  cbn [put_ops fmap list_fmap ops_ok spec_run]. change (_ <$> ps) with (put_ops account ps).
  specialize (IH (spec_put account v bs sp).2) as (Hok & Hother & Hkeys & Hsome & Hnone).
  cbn [spec_op fst snd] in *. change (elems (Some bs)) with bs in *.
  destruct (spec_put account v bs sp) as [e sp1] eqn:Hp. cbn [snd] in *.
  destruct (spec_run (put_ops account ps) sp1) as [es sp2] eqn:Hrun. cbn [snd] in *.
  unfold spec_put in Hp. injection Hp as _ Hp.
  assert (Hk1 : sp_keys sp1 = sp_keys sp) by (subst sp1; by repeat case_match).
  assert (Ho1 : ∀ other, other ≠ account → sp_policy sp1 !! other = sp_policy sp !! other).
  { intros other Hne. subst sp1. repeat case_match; cbn; by rewrite ?lookup_insert_ne by done. }
  split; [split; [by eexists|done]|]. split; [intros; cbn; by rewrite Hother, Ho1|].
  split; [cbn; congruence|]. cbn [snd].
  destruct (sp_policy sp !! account) as [cur|] eqn:Hcur; cbn [option_list app].
  - destruct (Z.ltb_spec cur.1 v) as [Hlt|Hge]; subst sp1; cbn in *.
    + rewrite lookup_insert_eq in *. split; [|intros Hn; by apply Hnone in Hn as [_ ?]].
      intros p (l1 & l2 & Hl & H1 & H2)%Hsome. exists (cur :: l1), l2. cbn in Hl. split_and!; [by cbn; f_equal| |done].
      constructor; [|done]. destruct l1 as [|c l1]; simplify_eq/=; [lia|].
      apply Forall_cons in H1 as [? _]. cbn in *. lia.
    + rewrite Hcur in *. split; [|intros Hn; by apply Hnone in Hn as [_ ?]].
      intros p (l1 & l2 & Hl & H1 & H2)%Hsome. cbn in Hl.
      destruct l1 as [|c l1]; simplify_eq/=.
      * exists [], ((v, bs) :: l2). split_and!; [done..|]. by constructor.
      * apply Forall_cons in H1 as [Hc H1]. exists (c :: (v, bs) :: l1), l2.
        split_and!; [done| |done]. constructor; [done|]. constructor; [cbn; lia|done].
  - subst sp1; cbn in *. rewrite lookup_insert_eq in *.
    split; [|intros Hn; by apply Hnone in Hn as [_ ?]]. intros p Hp'. by apply Hsome.
Qed.

(** The stored policy is the newest: after any sequence of [PutPolicy]
    calls for an account, [GetPolicy] returns the first blob of the greatest
    version among the one stored before and those put, whatever their order;
    no other account's policy changes. *)
Theorem put_policy_newest {S : Type} {St : Store S} {SL : StoreLaws S} s sp account ps :
  represents s sp → ps ≠ [] →
  let s' := (run_ops (put_ops account ps) s).2 in
  (∃ v blob, GetPolicy Runs account s' = Ok (v, blob, true) ∧
     first_newest (v, elems blob) (option_list (sp_policy sp !! account) ++ ps)) ∧
  (∀ other, other ≠ account → same_policy (GetPolicy Runs other s') (GetPolicy Runs other s)).
Proof.
  intros Hr Hne s'. destruct (spec_puts account ps sp) as (Hok & Hother & _ & Hsome & Hnone).
  destruct (run_ops_refines _ _ _ Hr Hok) as [_ Hr']. fold s' in Hr'.
  set (sp' := (spec_run (put_ops account ps) sp).2) in *. split.
  - pose proof (reads_runs _ _ (get_law Runs account s' sp' Hr')) as R. unfold spec_get in R.
    destruct (sp_policy sp' !! account) as [[v bs]|]; [|by destruct Hnone].
    destruct R as (blob & -> & He). exists v, blob. split; [done|]. rewrite He. by apply Hsome.
  - intros other Ho. pose proof (reads_runs _ _ (get_law Runs other s' sp' Hr')) as R1.
    pose proof (reads_runs _ _ (get_law Runs other s sp Hr)) as R2. unfold spec_get in *.
    rewrite Hother in R1 by done. destruct (sp_policy sp !! other) as [[v bs]|].
    + destruct R1 as (b1 & -> & E1), R2 as (b2 & -> & E2). cbn. split_and!; congruence.
    + by rewrite R1, R2.
Qed.

Theorem put_policy_newest_witness :
  let s' := (run_ops (put_ops "nano_a" [(2%Z, [x02]); (1%Z, [x01])]) mem1).2 in
  (∃ v blob, GetPolicy Runs "nano_a" s' = Ok (v, blob, true) ∧
     first_newest (v, elems blob)
       (option_list (sp_policy spec1 !! "nano_a") ++ [(2%Z, [x02]); (1%Z, [x01])])) ∧
  (∀ other, other ≠ "nano_a" → same_policy (GetPolicy Runs other s') (GetPolicy Runs other mem1)).
Proof.
  apply (put_policy_newest mem1 spec1 "nano_a" [(2%Z, [x02]); (1%Z, [x01])]); [apply mem1_repr|done].
Defined.

(** ** Outside the contract *)

(** The hash table of the in-memory store, after any writes. *)
Record mem_inv (s : memStore) : Prop := {
  inv_hash h id : byHash s !! h = Some id → is_Some (keys s !! id);
  inv_id id k : keys s !! id = Some k → ID k = id;
  inv_one h1 h2 id : byHash s !! h1 = Some id → byHash s !! h2 = Some id → h1 = h2;
}.

Lemma mem_replace_inv s id k k' :
  mem_inv s → keys s !! id = Some k → ID k' = id →
  mem_inv (MkMemStore (<[id := k']> (keys s)) (byHash s) (policy s)).
Proof.
  intros [I1 I2 I3] Hk Hid. split; cbn; [|  |done].
  - intros h i Hh. destruct (decide (i = id)) as [->|]; [by simplify_map_eq|].
    rewrite lookup_insert_ne by done. by eapply I1.
  - intros i k1 [[<- <-]|[_ ?]]%lookup_insert_Some; [done|by apply I2].
Qed.

Lemma mem_op_inv op s : mem_inv s → mem_inv (apply_op Runs op s).2.
Proof.
  intros Hi. pose proof Hi as [I1 I2 I3]. destruct op as [i o h|o i|i o n|i o l|a v b]; cbn.
  - split; cbn.
    + intros h' i' Hh. destruct (decide (i' = i)) as [->|]; [by simplify_map_eq|].
      rewrite lookup_insert_ne by done.
      apply lookup_insert_Some in Hh as [[_ ?]|[_ [Hh _]%delete_hashes_Some]]; [done|by eapply I1].
    + intros i' k [[<- <-]|[_ ?]]%lookup_insert_Some; [done|by apply I2].
    + intros h1 h2 i' [[<- <-]|[_ [? ?]%delete_hashes_Some]]%lookup_insert_Some
        [[<- ?]|[_ [? ?]%delete_hashes_Some]]%lookup_insert_Some; try done; try congruence.
      by eapply I3.
  - unfold mem_RevokeAPIKey. destruct (keys s !! i) as [k|] eqn:Hk; [|done].
    case_bool_decide; [done|]. split; cbn.
    + intros h i' [Hh Hne]%delete_hashes_Some. rewrite lookup_delete_ne by done. by eapply I1.
    + intros i' k' [_ ?]%lookup_delete_Some. by apply I2.
    + intros h1 h2 i' [? _]%delete_hashes_Some [? _]%delete_hashes_Some. by eapply I3.
  - unfold mem_RebindAPIKey. destruct (keys s !! i) as [k|] eqn:Hk; [|done].
    case_bool_decide; [done|]. apply (mem_replace_inv s i k); [done..|]. cbn. by apply I2.
  - unfold mem_UpdateKeyOrigins. destruct (keys s !! i) as [k|] eqn:Hk; [|done].
    case_bool_decide; [done|]. apply (mem_replace_inv s i k); [done..|]. cbn. by apply I2.
  - unfold mem_PutPolicy. repeat case_match; try done; by split.
Qed.

Lemma mem_ops_inv ops s : mem_inv s → mem_inv (run_ops ops s).2.
Proof.
  revert s; induction ops as [|op ops IH]; intros s Hi; [done|]. cbn [run_ops].
  pose proof (mem_op_inv op s Hi) as H1. destruct (apply_op Runs op s) as [e s1].
  specialize (IH s1 H1). by destruct (run_ops ops s1).
Qed.

(** Whatever is written to the in-memory store, colliding hashes included,
    a secret that resolves gives a key that is stored under its own id, never
    the zero value of an absent key; and a key never has two live secrets. *)
Theorem mem_resolve_stored ops :
  let m := (run_ops ops newMemStore).2 in
  (∀ plaintext k, mem_ResolveAPIKey plaintext m = Ok k → keys m !! ID k = Some k) ∧
  (∀ p1 p2 k1 k2, mem_ResolveAPIKey p1 m = Ok k1 → mem_ResolveAPIKey p2 m = Ok k2 →
     ID k1 = ID k2 → hashSecret p1 = hashSecret p2).
Proof.
  intros m. assert (Hi : mem_inv m) by (apply mem_ops_inv; split; intros; simplify_map_eq).
  assert (Hres : ∀ p k, mem_ResolveAPIKey p m = Ok k →
    keys m !! ID k = Some k ∧ byHash m !! hashSecret p = Some (ID k)).
  { intros p k. unfold mem_ResolveAPIKey. destruct (byHash m !! hashSecret p) as [id|] eqn:Hb; [|done].
    destruct (inv_hash m Hi _ _ Hb) as [k' Hk]. rewrite Hk. intros [= <-].
    by rewrite (inv_id m Hi id k' Hk). }
  split; [intros; by eapply Hres|].
  intros p1 p2 k1 k2 [_ E1]%Hres [_ E2]%Hres He. rewrite He in E1. by eapply (inv_one m Hi).
Qed.

(** C37: the contract's side condition matters: when a hash is registered under
    a second id, the in-memory store moves the secret to the new key without an
    error, while SQLite reports its UNIQUE violation and keeps the first. *)
Theorem duplicate_hash_diverges {D : SqliteDriver} id1 id2 o1 o2 secret :
  id1 ≠ id2 →
  let ops := [OpRegister id1 o1 (hashSecret secret); OpRegister id2 o2 (hashSecret secret)] in
  let '(es1, m) := run_ops ops newMemStore in
  let '(es2, d) := run_ops ops (sqliteSchema None) in
  es1 = [None; None] ∧ ResolveAPIKey Runs secret m = Ok (MkAPIKey id2 o2 None) ∧
  es2 = [None; Some unique_error] ∧ ResolveAPIKey Runs secret d = Ok (MkAPIKey id1 o1 None).
Proof.
  intros Hne ops. set (h := hashSecret secret) in *.
  assert (E1 : run_ops ops newMemStore = ([None; None], MkMemStore
    (<[id2 := MkAPIKey id2 o2 None]> (<[id1 := MkAPIKey id1 o1 None]> ∅))
    (<[h := id2]> (delete_hashes id2 (<[h := id1]> ∅))) ∅)).
  { cbn. unfold mem_RegisterAPIKey. cbn. by rewrite lookup_insert_ne. }
  set (row := MkApiRow o1 h "[]"). set (d1 := MkDB (<[id1 := row]> ∅) ∅).
  assert (E2 : run_ops ops (sqliteSchema None) = ([None; Some unique_error], d1)).
  { subst ops. cbn [run_ops apply_op RegisterAPIKey sqliteStore_Store]. unfold sql_RegisterAPIKey.
    change (ExecContext Runs (upsert_key id1 o1 h) (sqliteSchema None)) with (Ok 1%Z, d1).
    cbn [ExecContext]. unfold upsert_key. destruct (hash_taken id2 h d1) eqn:Ht; [done|].
    apply hash_taken_false in Ht. destruct Hne. apply (Ht id1 (row_spec row)); [|done].
    rewrite db_spec_lookup. cbn. by rewrite lookup_insert_eq. }
  rewrite E1, E2. split_and!; [done| |done|].
  - cbn. unfold mem_ResolveAPIKey. fold h. cbn. by rewrite !lookup_insert_eq.
  - cbn [ResolveAPIKey sqliteStore_Store sql_ResolveAPIKey]. fold h.
    pose proof (select_by_hash_spec d1 h) as Hs. destruct (select_by_hash h d1) as [[id r]|].
    + destruct Hs as [Hs _]. cbn in Hs.
      apply lookup_insert_Some in Hs as [[<- <-]|[_ Hr]]; [done|by rewrite lookup_empty in Hr].
    + destruct (Hs id1 row); [|done]. cbn. by rewrite lookup_insert_eq.
Qed.

Theorem duplicate_hash_diverges_witness :
  let ops := [OpRegister "key_1" "nano_a" (hashSecret "s"); OpRegister "key_2" "nano_b" (hashSecret "s")] in
  let '(es1, m) := run_ops ops newMemStore in
  let '(es2, d) := run_ops (St:=@sqliteStore_Store plain_driver) ops (sqliteSchema None) in
  es1 = [None; None] ∧ ResolveAPIKey Runs "s" m = Ok (MkAPIKey "key_2" "nano_b" None) ∧
  es2 = [None; Some (@unique_error plain_driver)] ∧
  ResolveAPIKey (Store:=@sqliteStore_Store plain_driver) Runs "s" d = Ok (MkAPIKey "key_1" "nano_a" None).
Proof. by apply (@duplicate_hash_diverges plain_driver "key_1" "key_2" "nano_a" "nano_b" "s"). Defined.

(** ** The database file *)

(** Opening the SQLite store never loses data: the handle and the file hold
    the tables the file had (empty ones in a new file); when a step fails the
    error is wrapped with the step's name and the file is as it was, or is the
    same data with the schema applied. *)
Theorem newSQLiteStore_keeps_data opened ctx file :
  let '(r, file') := newSQLiteStore opened ctx file in
  match r with
  | Ok db => db = sqliteSchema file ∧ file' = Some db
  | Err e => (file' = file ∨ file' = Some (sqliteSchema file)) ∧
             ∃ s e', e = ErrWrap s e' ∧ HasPrefix s "relay: " = true
  | Panic => False
  end.
Proof.
  unfold newSQLiteStore. destruct opened as [err|]; [split; [by left|by eexists _, _]|].
  destruct (run_pragmas ctx 0 pragmas) as [err|] eqn:Hp.
  - split; [by left|]. unfold pragmas in Hp. cbn in Hp.
    repeat case_match; simplify_eq; by eexists _, _.
  - destruct (ctx (length pragmas)) as [|applied err]; [done|].
    split; [destruct applied; auto|by eexists _, _].
Qed.
