(* ===== verification/Hub.v ===== *)
(** * The hub (cmd/relay/hub.go)

    First the functions that run under one lock, then the goroutines: a call
    of [sendRequest], [sendQuery], [deliverResult] or [deliverQueryResult] is a
    [task] that advances one lock region, one socket write or one channel
    operation at a time, so that [step] interleaves them as the scheduler may.
    A [*agentConn] is a number, [nil] is 0. *)

From S2P Require Import Prelude Protocol.

Definition conn : Type := nat.
Definition nil_conn : conn := 0.

Record agentConn := MkAgentConn {
  deviceID : string;
  accounts : list string; (* proven accounts *)
}.

(** ** The bindings: account address to devices, most recent last *)

Abbreviation bindings_t := (gmap string (list conn)).

(** [h.bindings[acc]]: nil when absent. *)
Definition bound (b : bindings_t) (acc : string) : list conn := default [] (b !! acc).

Fixpoint removeConn_loop (list_ : list conn) (c : conn) (out : list conn) : list conn :=
  match list_ with
  | [] => out
  | x :: rest => removeConn_loop rest c (if bool_decide (x ≠ c) then out ++ [x] else out)
  end.
Definition removeConn (list_ : list conn) (c : conn) : list conn := removeConn_loop list_ c [].

Definition bind (a : conn) (accs : list string) (b : bindings_t) : bindings_t :=
  foldl (λ b acc, <[acc := removeConn (bound b acc) a ++ [a]]> b) b accs.

Definition unbind (a : conn) (accs : list string) (b : bindings_t) : bindings_t :=
  foldl (λ b acc, let rest := removeConn (bound b acc) a in
                  if bool_decide (length rest = 0) then delete acc b else <[acc := rest]> b) b accs.

Definition accountOnline (account : string) (b : bindings_t) : bool :=
  (0 <? Z.of_nat (length (bound b account)))%Z.

(** [out[len(list)-1-i] = c] for each [i, c] of the list. *)
Definition place (n : Z) (ic : Z * conn) (out : list conn) : res (list conn) :=
  set_index out (n - 1 - ic.1)%Z ic.2.
Definition devicesForAccount (account : string) (b : bindings_t) : res (list conn) :=
  let list_ := bound b account in
  for_range (zip (Z.of_nat <$> seq 0 (length list_)) list_) (place (Z.of_nat (length list_)))
    (replicate (length list_) nil_conn).

(** ** Goroutines *)

(** What a waiter's channel carries; a query's reply names the envelope id it
    came with. *)
Inductive reply :=
| RTx (r : TxResult)
| RQuery (id : string) (qr : QueryResult).

(** A channel of capacity one, and the request or query it was made for. *)
Record chan := MkChan {
  chan_query : bool;
  chan_id : string;
  chan_buf : option reply;
}.

Inductive task :=
(* sendRequest: devices snapshot taken, pending entry not yet made *)
| ReqRegister (account : string) (req : TxRequest) (devices : list conn)
(* sendRequest: writing the request to the remaining devices *)
| ReqSend (account : string) (req : TxRequest) (ch : nat) (todo : list conn) (delivered : nat)
(* sendRequest: in the select *)
| ReqWait (account : string) (req : TxRequest) (ch : nat)
(* sendRequest: deferred function, before delete(h.pending, req.ID) *)
| ReqCleanup (account : string) (req : TxRequest) (ch : nat) (out : res TxResult)
(* withdraw: before its devices snapshot, then writing to the rest *)
| ReqWithdrawStart (account : string) (id : string) (out : res TxResult)
| ReqWithdraw (account : string) (id : string) (todo : list conn) (out : res TxResult)
| ReqDone (id : string) (out : res TxResult)
| QryRegister (account : string) (q : Query) (id : string) (devices : list conn)
| QrySend (account : string) (q : Query) (id : string) (ch : nat) (todo : list conn)
| QryWait (id : string) (ch : nat)
| QryCleanup (id : string) (ch : nat) (out : res QueryResult)
| QryDone (id : string) (out : res QueryResult)
(* deliverResult, deliverQueryResult: waiter found, before the send *)
| Deliver (ch : nat) (r : reply)
| DeliverDone.

(** [wire] logs every frame written: for which account, to which device. *)
Record hstate := MkHub {
  conns : gmap conn agentConn;             (* every connection ever enrolled *)
  bindings : bindings_t;
  pending : gmap string nat;               (* request id -> waiter *)
  queryPending : gmap string nat;          (* query id -> waiter *)
  chans : gmap nat chan;
  tasks : gmap nat task;
  used : gset string;                      (* request and query ids drawn so far *)
  wire : list (string * conn * Envelope);
}.

Definition newHub : hstate := MkHub ∅ ∅ ∅ ∅ ∅ ∅ ∅ [].

Definition set_conns f s := MkHub (f (conns s)) (bindings s) (pending s) (queryPending s) (chans s) (tasks s) (used s) (wire s).
Definition set_bindings f s := MkHub (conns s) (f (bindings s)) (pending s) (queryPending s) (chans s) (tasks s) (used s) (wire s).
Definition set_pending f s := MkHub (conns s) (bindings s) (f (pending s)) (queryPending s) (chans s) (tasks s) (used s) (wire s).
Definition set_queryPending f s := MkHub (conns s) (bindings s) (pending s) (f (queryPending s)) (chans s) (tasks s) (used s) (wire s).
Definition set_chans f s := MkHub (conns s) (bindings s) (pending s) (queryPending s) (f (chans s)) (tasks s) (used s) (wire s).
Definition set_tasks f s := MkHub (conns s) (bindings s) (pending s) (queryPending s) (chans s) (f (tasks s)) (used s) (wire s).
Definition set_used f s := MkHub (conns s) (bindings s) (pending s) (queryPending s) (chans s) (tasks s) (f (used s)) (wire s).
Definition set_wire f s := MkHub (conns s) (bindings s) (pending s) (queryPending s) (chans s) (tasks s) (used s) (f (wire s)).

Definition goto (t : nat) (tk : task) : hstate → hstate := set_tasks (<[t := tk]>).

(** [d.writeJSON(env)]: [ok] is whether the socket takes the frame. *)
Definition writeFrame (ok : bool) (account : string) (d : conn) (env : Envelope) : hstate → hstate :=
  if ok then set_wire (λ w, w ++ [(account, d, env)]) else id.

(** [make(chan T, 1)]. *)
Definition fresh_chan (s : hstate) : nat := fresh (dom (chans s)).

(** A non-blocking send: dropped when the buffer is full. *)
Definition try_send (ch : nat) (r : reply) (s : hstate) : hstate :=
  match chans s !! ch with
  | Some (MkChan q id None) => set_chans (<[ch := MkChan q id (Some r)]>) s
  | _ => s
  end.

(** The next step of task [t], which is at [tk]; [ok] is the outcome of the
    socket write it makes, if it makes one. *)
Definition run_task (t : nat) (tk : task) (ok : bool) (s : hstate) : option hstate :=
  match tk with
  | ReqRegister account req devices =>
      let ch := fresh_chan s in
      Some (goto t (ReqSend account req ch devices 0)
             (set_pending (<[TxRequest_ID req := ch]>)
               (set_chans (<[ch := MkChan false (TxRequest_ID req) None]>) s)))
  | ReqSend account req ch (d :: todo) delivered =>
      Some (goto t (ReqSend account req ch todo (if ok then S delivered else delivered))
             (writeFrame ok account d (requestEnv (TxRequest_ID req) req) s))
  | ReqSend account req ch [] delivered =>
      Some (goto t (if bool_decide (delivered = 0)
                    then ReqCleanup account req ch (Err errAccountOffline)
                    else ReqWait account req ch) s)
  | ReqCleanup account req ch out =>
      Some (goto t (ReqWithdrawStart account (TxRequest_ID req) out)
             (set_pending (delete (TxRequest_ID req)) s))
  | ReqWithdrawStart account id out =>
      match devicesForAccount account (bindings s) with
      | Ok devices => Some (goto t (ReqWithdraw account id devices out) s)
      | _ => None
      end
  | ReqWithdraw account id (d :: todo) out =>
      Some (goto t (ReqWithdraw account id todo out) (writeFrame ok account d (withdrawEnv id) s))
  | ReqWithdraw account id [] out => Some (goto t (ReqDone id out) s)
  | QryRegister account q id devices =>
      let ch := fresh_chan s in
      Some (goto t (QrySend account q id ch devices)
             (set_queryPending (<[id := ch]>) (set_chans (<[ch := MkChan true id None]>) s)))
  | QrySend account q id ch (d :: todo) =>
      Some (goto t (if ok then QryWait id ch else QrySend account q id ch todo)
             (writeFrame ok account d (queryEnv id q) s))
  | QrySend account q id ch [] => Some (goto t (QryCleanup id ch (Err errAccountOffline)) s)
  | QryCleanup id ch out =>
      Some (goto t (QryDone id out) (set_queryPending (delete id) s))
  | Deliver ch r => Some (goto t DeliverDone (try_send ch r s))
  | ReqWait _ _ _ | QryWait _ _ | ReqDone _ _ | QryDone _ _ | DeliverDone => None
  end.

Inductive label :=
| LBind (c : conn) (a : agentConn)                       (* enrolled, then bind *)
| LUnbind (c : conn)
| LRequest (t : nat) (account : string) (req : TxRequest) (* sendRequest is called *)
| LQuery (t : nat) (account : string) (q : Query) (id : string)
| LResult (t : nat) (r : TxResult)                       (* deliverResult is called *)
| LQueryResult (t : nat) (id : string) (qr : QueryResult)
| LRun (t : nat) (ok : bool)
| LTake (t : nat)                                        (* select: <-waiter *)
| LCtx (t : nat) (e : error).                            (* select: <-ctx.Done() *)

Definition step (l : label) (s : hstate) : option hstate :=
  match l with
  | LBind c a =>
      guard (conns s !! c = None ∧ c ≠ nil_conn);;
      Some (set_bindings (bind c (accounts a)) (set_conns (<[c := a]>) s))
  | LUnbind c =>
      a ← conns s !! c; Some (set_bindings (unbind c (accounts a)) s)
  | LRequest t account req =>
      guard (tasks s !! t = None ∧ TxRequest_ID req ∉ used s);;
      match devicesForAccount account (bindings s) with
      | Ok devices =>
          Some (set_used (union {[TxRequest_ID req]})
            (goto t (if bool_decide (length devices = 0)
                     then ReqDone (TxRequest_ID req) (Err errAccountOffline)
                     else ReqRegister account req devices) s))
      | _ => None
      end
  | LQuery t account q id =>
      guard (tasks s !! t = None ∧ id ∉ used s);;
      match devicesForAccount account (bindings s) with
      | Ok devices =>
          Some (set_used (union {[id]})
            (goto t (if bool_decide (length devices = 0)
                     then QryDone id (Err errAccountOffline)
                     else QryRegister account q id devices) s))
      | _ => None
      end
  | LResult t r =>
      guard (tasks s !! t = None);;
      Some (goto t (match pending s !! TxResult_RequestID r with
                    | Some ch => Deliver ch (RTx r)
                    | None => DeliverDone
                    end) s)
  | LQueryResult t id qr =>
      guard (tasks s !! t = None);;
      Some (goto t (match queryPending s !! id with
                    | Some ch => Deliver ch (RQuery id qr)
                    | None => DeliverDone
                    end) s)
  | LRun t ok => tk ← tasks s !! t; run_task t tk ok s
  | LTake t =>
      match tasks s !! t with
      | Some (ReqWait account req ch) =>
          match chans s !! ch with
          | Some (MkChan q id (Some (RTx r))) =>
              Some (goto t (ReqCleanup account req ch (Ok r)) (set_chans (<[ch := MkChan q id None]>) s))
          | _ => None
          end
      | Some (QryWait id ch) =>
          match chans s !! ch with
          | Some (MkChan q id' (Some (RQuery _ qr))) =>
              Some (goto t (QryCleanup id ch (Ok qr)) (set_chans (<[ch := MkChan q id' None]>) s))
          | _ => None
          end
      | _ => None
      end
  | LCtx t e =>
      guard (e = DeadlineExceeded ∨ e = Canceled);;
      match tasks s !! t with
      | Some (ReqWait account req ch) => Some (goto t (ReqCleanup account req ch (Err e)) s)
      | Some (QryWait id ch) => Some (goto t (QryCleanup id ch (Err e)) s)
      | _ => None
      end
  end.

Fixpoint run (ls : list label) (s : hstate) : option hstate :=
  match ls with
  | [] => Some s
  | l :: ls' => s' ← step l s; run ls' s'
  end.

Inductive reachable : hstate → Prop :=
| reachable_new : reachable newHub
| reachable_step s l s' : reachable s → step l s = Some s' → reachable s'.
