(* ===== verification/HubProps.v ===== *)
(** * Properties of the hub

    The bindings after [bind] and [unbind], and the invariant that every frame
    about an account goes to a connection that proved it. *)

From S2P Require Import Prelude Rfc3339 Protocol Hub.

(** ** Bindings *)

Lemma removeConn_filter l c : removeConn l c = filter (λ x, x ≠ c) l.
Proof.
  unfold removeConn. assert (H : ∀ out, removeConn_loop l c out = out ++ filter (λ x, x ≠ c) l);
    [|by rewrite H].
  induction l as [|x l IH]; intros out; [cbn; by rewrite app_nil_r|].
  cbn [removeConn_loop]. rewrite IH, filter_cons. case_bool_decide as Hx.
  - rewrite decide_True by done. by rewrite <-app_assoc.
  - rewrite decide_False; [done|naive_solver].
Qed.

Lemma filter_ne_id (l : list conn) a : a ∉ l → filter (λ x, x ≠ a) l = l.
Proof.
  intros Ha. induction l as [|x l IH]; [done|]. apply not_elem_of_cons in Ha as [Hx Hl].
  rewrite filter_cons_True by done. by rewrite IH.
Qed.

Lemma filter_ne_snoc (l : list conn) a :
  filter (λ x, x ≠ a) (filter (λ x, x ≠ a) l ++ [a]) = filter (λ x, x ≠ a) l.
Proof.
  rewrite filter_app, list_filter_filter_l by done.
  rewrite filter_cons_False by naive_solver. by rewrite app_nil_r.
Qed.

Lemma place_spec l1 l2 (out : list conn) :
  out = replicate (length l2) nil_conn ++ reverse l1 →
  for_range (zip (Z.of_nat <$> seq (length l1) (length l2)) l2)
    (place (Z.of_nat (length l1 + length l2))) out = Ok (reverse (l1 ++ l2)).
Proof.
  revert l1 out; induction l2 as [|c l2 IH]; intros l1 out ->; [by rewrite app_nil_r|].
  cbn [length seq fmap list_fmap zip zip_with for_range].
  change (place ?n (?i, ?d) ?o) with (set_index o (n - 1 - i)%Z d).
  replace (Z.of_nat (length l1 + S (length l2)) - 1 - Z.of_nat (length l1))%Z
    with (Z.of_nat (length l2)) by lia.
  rewrite set_index_lt by (rewrite length_app, length_replicate; lia). cbn [mbind res_bind].
  replace (length l1 + S (length l2)) with (length (l1 ++ [c]) + length l2)
    by (rewrite length_app; simpl; lia).
  replace (S (length l1)) with (length (l1 ++ [c])) by (rewrite length_app; simpl; lia).
  rewrite IH; [by rewrite <-app_assoc|].
  rewrite reverse_snoc. rewrite <-Nat.add_1_r, replicate_add, <-app_assoc. cbn.
  rewrite insert_app_r_alt by (rewrite length_replicate; lia).
  by rewrite length_replicate, Nat.sub_diag.
Qed.

(** Most recently connected first; the index arithmetic is in bounds. *)
Lemma devicesForAccount_eq account b :
  devicesForAccount account b = Ok (reverse (bound b account)).
Proof.
  unfold devicesForAccount. apply (place_spec [] (bound b account)). by rewrite app_nil_r.
Qed.

Lemma bound_insert b acc l acc' :
  bound (<[acc := l]> b) acc' = if decide (acc' = acc) then l else bound b acc'.
Proof. unfold bound. case_decide; by simplify_map_eq. Qed.

Lemma bound_delete b acc acc' :
  bound (delete acc b) acc' = if decide (acc' = acc) then [] else bound b acc'.
Proof. unfold bound. case_decide; by simplify_map_eq. Qed.

Lemma bound_bind a accs b acc :
  bound (bind a accs b) acc =
  if decide (acc ∈ accs) then filter (λ x, x ≠ a) (bound b acc) ++ [a] else bound b acc.
Proof.
  revert b; induction accs as [|x accs IH]; intros b; [done|].
  change (bind a (x :: accs) b) with (bind a accs (<[x := removeConn (bound b x) a ++ [a]]> b)).
  rewrite IH, bound_insert, removeConn_filter.
  destruct (decide (acc = x)) as [->|Hne].
  - rewrite (decide_True (P:=x ∈ x :: accs)) by set_solver.
    case_decide; [|done]. by rewrite filter_ne_snoc.
  - by destruct (decide (acc ∈ accs)), (decide (acc ∈ x :: accs)); set_solver.
Qed.

Lemma bound_unbind a accs b acc :
  bound (unbind a accs b) acc =
  if decide (acc ∈ accs) then filter (λ x, x ≠ a) (bound b acc) else bound b acc.
Proof.
  revert b; induction accs as [|x accs IH]; intros b; [done|].
  change (unbind a (x :: accs) b) with (unbind a accs
    (let rest := removeConn (bound b x) a in
     if bool_decide (length rest = 0) then delete x b else <[x := rest]> b)).
  cbv zeta. rewrite IH.
  assert (Hb : bound (if bool_decide (length (removeConn (bound b x) a) = 0)
      then delete x b else <[x := removeConn (bound b x) a]> b) acc =
    if decide (acc = x) then filter (λ y, y ≠ a) (bound b acc) else bound b acc).
  { rewrite removeConn_filter. case_bool_decide as Hl.
    - rewrite bound_delete. apply nil_length_inv in Hl. repeat case_decide; subst; try done; congruence.
    - rewrite bound_insert. repeat case_decide; subst; done. }
  rewrite Hb. destruct (decide (acc = x)) as [->|Hne].
  - rewrite (decide_True (P:=x ∈ x :: accs)) by set_solver.
    case_decide; [|done]. by rewrite list_filter_filter_l.
  - by destruct (decide (acc ∈ accs)), (decide (acc ∈ x :: accs)); set_solver.
Qed.

(** No account is bound to an empty list. *)
Definition no_empty (b : bindings_t) : Prop := ∀ acc, b !! acc ≠ Some [].

Lemma bind_no_empty a accs b : no_empty b → no_empty (bind a accs b).
Proof.
  revert b; induction accs as [|x accs IH]; intros b Hb; [done|]. apply IH. intros acc.
  destruct (decide (acc = x)) as [->|]; simplify_map_eq; [|done]. by destruct (removeConn _ _).
Qed.

Lemma unbind_no_empty a accs b : no_empty b → no_empty (unbind a accs b).
Proof.
  revert b; induction accs as [|x accs IH]; intros b Hb; [done|]. apply IH. intros acc. cbv zeta.
  case_bool_decide as Hl; destruct (decide (acc = x)) as [->|]; simplify_map_eq; try done.
  intros ?. by destruct (removeConn (bound b x) a).
Qed.

Lemma no_empty_ext b1 b2 :
  no_empty b1 → no_empty b2 → (∀ acc, bound b1 acc = bound b2 acc) → b1 = b2.
Proof.
  intros H1 H2 He. apply map_eq; intros acc. specialize (H1 acc). specialize (H2 acc).
  specialize (He acc). unfold bound in He.
  destruct (b1 !! acc) as [[]|], (b2 !! acc) as [[]|]; cbn in *; congruence.
Qed.

Lemma accountOnline_spec account b :
  accountOnline account b = true ↔ bound b account ≠ [].
Proof.
  unfold accountOnline. rewrite Z.ltb_lt. destruct (bound b account); cbn; [|naive_solver lia].
  split; [lia|done].
Qed.

(** Disconnecting undoes connecting: for a connection that was bound to
    nothing, [unbind] after [bind] gives back exactly the bindings there were,
    with no empty entry left behind, duplicates in the account list included;
    in between, the device is first in line for each of its accounts. *)
Theorem bind_unbind a accs b :
  no_empty b → (∀ acc, a ∉ bound b acc) →
  unbind a accs (bind a accs b) = b ∧
  (∀ acc, acc ∈ accs →
     devicesForAccount acc (bind a accs b) = Ok (a :: reverse (bound b acc)) ∧
     accountOnline acc (bind a accs b) = true) ∧
  (∀ acc, acc ∉ accs → bound (bind a accs b) acc = bound b acc).
Proof.
  intros Hb Ha.
  assert (Hf : ∀ acc, filter (λ x, x ≠ a) (bound b acc) = bound b acc).
  { intros acc. by apply filter_ne_id. }
  split_and!.
  - apply no_empty_ext; [by apply unbind_no_empty, bind_no_empty|done|]. intros acc.
    rewrite bound_unbind, bound_bind. case_decide; [|done].
    by rewrite filter_ne_snoc, Hf.
  - intros acc Hin. rewrite devicesForAccount_eq, accountOnline_spec, bound_bind, Hf.
    rewrite decide_True by done. rewrite reverse_snoc. split; [done|].
    by destruct (bound b acc).
  - intros acc Hin. by rewrite bound_bind, decide_False.
Qed.

Theorem bind_unbind_witness :
  let b := bind 1 ["nano_a"] ∅ in
  unbind 2 ["nano_a"; "nano_a"] (bind 2 ["nano_a"; "nano_a"] b) = b ∧
  (∀ acc, acc ∈ ["nano_a"; "nano_a"] →
     devicesForAccount acc (bind 2 ["nano_a"; "nano_a"] b) = Ok (2 :: reverse (bound b acc)) ∧
     accountOnline acc (bind 2 ["nano_a"; "nano_a"] b) = true) ∧
  (∀ acc, acc ∉ ["nano_a"; "nano_a"] → bound (bind 2 ["nano_a"; "nano_a"] b) acc = bound b acc).
Proof.
  apply bind_unbind.
  - apply bind_no_empty. intros acc. by rewrite lookup_empty.
  - intros acc. rewrite bound_bind. case_decide; unfold bound; rewrite lookup_empty; cbn; set_solver.
Defined.

(** ** Routing: invariants of the interleaved hub *)

(** The connection proved control of the account when it enrolled. *)
Definition serves (s : hstate) (c : conn) (account : string) : Prop :=
  ∃ a, conns s !! c = Some a ∧ account ∈ accounts a.

(** The devices a task still has to write to, and for which account. *)
Definition targets (tk : task) : option (string * list conn) :=
  match tk with
  | ReqRegister acc _ ds | ReqSend acc _ _ ds _ | ReqWithdraw acc _ ds _
  | QryRegister acc _ _ ds | QrySend acc _ _ _ ds => Some (acc, ds)
  | _ => None
  end.

Definition targets_ok (s : hstate) (tk : task) : Prop :=
  ∀ acc ds c, targets tk = Some (acc, ds) → c ∈ ds → serves s c acc.

Record routing (s : hstate) : Prop := {
  rt_empty : no_empty (bindings s);
  rt_nodup acc : NoDup (bound (bindings s) acc);
  rt_bound acc c : c ∈ bound (bindings s) acc → serves s c acc;
  rt_tasks t tk : tasks s !! t = Some tk → targets_ok s tk;
  rt_wire acc c env : (acc, c, env) ∈ wire s → serves s c acc;
}.

(** A step that changes neither the connections nor the bindings. *)
Lemma routing_frame s s' t tk' :
  routing s → conns s' = conns s → bindings s' = bindings s →
  tasks s' = <[t := tk']> (tasks s) → targets_ok s tk' →
  (∀ acc c env, (acc, c, env) ∈ wire s' → (acc, c, env) ∈ wire s ∨ serves s c acc) →
  routing s'.
Proof.
  intros [H1 H2 H3 H4 H5] Hc Hb Ht Hok Hw.
  assert (Hs : ∀ c acc, serves s c acc → serves s' c acc) by (unfold serves; by rewrite Hc).
  split; rewrite ?Hb; try done.
  - intros acc c Hin. by apply Hs, H3.
  - intros t' tk. rewrite Ht. intros [[<- <-]|[_ Htk]]%lookup_insert_Some acc ds c Hds Hin;
      apply Hs; [by eapply Hok|by eapply H4].
  - intros acc c env [Hin|Hin]%Hw; apply Hs; [by eapply H5|done].
Qed.

Lemma targets_ok_tail s tk tk' acc d ds :
  targets_ok s tk → targets tk = Some (acc, d :: ds) → targets tk' = Some (acc, ds) ∨ targets tk' = None →
  targets_ok s tk' ∧ serves s d acc.
Proof.
  intros Hok Ht Ht'. split; [|eapply Hok; [done|by left]].
  intros acc' ds' c Hds Hin. destruct Ht' as [Ht'|Ht']; [|congruence].
  simplify_eq. eapply Hok; [done|by right].
Qed.

Lemma in_writeFrame ok account d env s acc c e :
  (acc, c, e) ∈ wire (writeFrame ok account d env s) →
  (acc, c, e) ∈ wire s ∨ (acc = account ∧ c = d).
Proof.
  unfold writeFrame. destruct ok; cbn; [|by left].
  intros [Hin|Hin]%elem_of_app; [by left|right]. apply list_elem_of_singleton in Hin. by simplify_eq.
Qed.

Lemma routing_write s t tk tk' ok acc d ds env :
  routing s → tasks s !! t = Some tk → targets tk = Some (acc, d :: ds) →
  targets tk' = Some (acc, ds) ∨ targets tk' = None →
  routing (goto t tk' (writeFrame ok acc d env s)).
Proof.
  intros Hr Ht Htk Htk'. pose proof (rt_tasks s Hr t tk Ht) as Hok.
  destruct (targets_ok_tail s tk tk' acc d ds Hok Htk Htk') as [Hok' Hd].
  apply (routing_frame s _ t tk'); try done; try by destruct ok.
  intros acc' c e [?|[-> ->]]%in_writeFrame; auto.
Qed.

(** A move to a task with the same targets, fewer, or none. *)
Lemma routing_goto s s' t tk tk' :
  routing s → tasks s !! t = Some tk → conns s' = conns s → bindings s' = bindings s →
  tasks s' = tasks s → wire s' = wire s → targets tk' = targets tk ∨ targets tk' = None →
  routing (goto t tk' s').
Proof.
  intros Hr Ht Hc Hb Hts Hw Htk'. apply (routing_frame s _ t tk'); cbn; try done; try congruence.
  - intros acc ds c Hds Hin. destruct Htk' as [He|He]; [|congruence].
    rewrite He in Hds. by eapply (rt_tasks s Hr).
  - rewrite Hw. auto.
Qed.

Lemma routing_run t tk ok s s' :
  routing s → tasks s !! t = Some tk → run_task t tk ok s = Some s' → routing s'.
Proof.
  intros Hr Ht. destruct tk; cbn [run_task]; try done.
  - intros; simplify_eq. by eapply (routing_goto s); [..|left].
  - destruct todo as [|d todo]; intros; simplify_eq.
    + eapply (routing_goto s); try done. right. by case_bool_decide.
    + eapply routing_write; [done..|]. by left.
  - intros; simplify_eq. by eapply (routing_goto s); [..|right].
  - rewrite devicesForAccount_eq. intros; simplify_eq.
    apply (routing_frame s _ t (ReqWithdraw account id (reverse (bound (bindings s) account)) out));
      try done; [|by left].
    intros acc ds c [= <- <-] Hin. apply (rt_bound s Hr). by apply elem_of_reverse.
  - destruct todo as [|d todo]; intros; simplify_eq.
    + by eapply (routing_goto s); [..|right].
    + eapply routing_write; [done..|]. by left.
  - intros; simplify_eq. by eapply (routing_goto s); [..|left].
  - destruct todo as [|d todo]; intros; simplify_eq.
    + by eapply (routing_goto s); [..|right].
    + eapply routing_write; [done..|]. destruct ok; auto.
  - intros; simplify_eq. by eapply (routing_goto s); [..|right].
  - intros; simplify_eq. unfold try_send.
    eapply (routing_goto s); try done; repeat case_match; try done; by right.
Qed.

(** A task that starts has no targets but the account's devices. *)
Lemma routing_start s s' t tk account :
  routing s → conns s' = conns s → bindings s' = bindings s → wire s' = wire s →
  tasks s' = <[t := tk]> (tasks s) →
  (targets tk = None ∨ targets tk = Some (account, reverse (bound (bindings s) account))) →
  routing s'.
Proof.
  intros Hr Hc Hb Hw Ht Htk. apply (routing_frame s _ t tk); try done; [|rewrite Hw; by left].
  intros acc ds c Hds Hin. destruct Htk as [Htk|Htk]; rewrite Hds in Htk; [done|].
  simplify_eq. apply (rt_bound s Hr). by apply elem_of_reverse.
Qed.

Lemma routing_bind s c a :
  routing s → conns s !! c = None →
  routing (set_bindings (bind c (accounts a)) (set_conns (<[c := a]>) s)).
Proof.
  intros [H1 H2 H3 H4 H5] Hc.
  assert (Hs : ∀ d acc, serves s d acc →
    serves (set_bindings (bind c (accounts a)) (set_conns (<[c := a]>) s)) d acc).
  { intros d acc (a' & Ha' & Hin). exists a'. cbn. rewrite lookup_insert_ne; [done|congruence]. }
  split; cbn.
  - by apply bind_no_empty.
  - intros acc. rewrite bound_bind. case_decide; [|done].
    apply NoDup_app; split_and!; [by apply NoDup_filter| |by apply NoDup_singleton].
    intros x [Hx _]%list_elem_of_filter ->%list_elem_of_singleton. done.
  - intros acc d. rewrite bound_bind. case_decide as Hin; [|intros; by apply Hs, H3].
    intros [[_ Hd]%list_elem_of_filter| ->%list_elem_of_singleton]%elem_of_app; [by apply Hs, H3|].
    exists a. cbn. by rewrite lookup_insert_eq.
  - intros t tk Ht acc ds d Hds Hd. apply Hs. by eapply H4.
  - intros acc d env Hin. apply Hs. by eapply H5.
Qed.

Lemma routing_unbind s c accs :
  routing s → routing (set_bindings (unbind c accs) s).
Proof.
  intros [H1 H2 H3 H4 H5]. split; cbn; try done.
  - by apply unbind_no_empty.
  - intros acc. rewrite bound_unbind. case_decide; [by apply NoDup_filter|done].
  - intros acc d. rewrite bound_unbind. intros Hd. apply H3.
    case_decide; [by apply list_elem_of_filter in Hd as [_ ?]|done].
Qed.

Lemma routing_step l s s' : routing s → step l s = Some s' → routing s'.
Proof.
  intros Hr. destruct l; cbn [step].
  - case_guard as Hg; [|done]. intros; simplify_eq/=.
    apply routing_bind; [done|apply Hg].
  - destruct (conns s !! c) as [a|]; [|done]. intros; simplify_eq/=. by apply routing_unbind.
  - case_guard; [|done]. rewrite devicesForAccount_eq. intros; simplify_eq/=.
    eapply (routing_start s _ t _ account); try done. case_bool_decide; auto.
  - case_guard; [|done]. rewrite devicesForAccount_eq. intros; simplify_eq/=.
    eapply (routing_start s _ t _ account); try done. case_bool_decide; auto.
  - case_guard; [|done]. intros; simplify_eq/=.
    eapply (routing_start s _ t _ ""); try done. case_match; auto.
  - case_guard; [|done]. intros; simplify_eq/=.
    eapply (routing_start s _ t _ ""); try done. case_match; auto.
  - destruct (tasks s !! t) as [tk|] eqn:Ht; [|done]. cbn. by apply routing_run.
  - destruct (tasks s !! t) as [tk|] eqn:Ht; [|done].
    repeat case_match; try done; intros; simplify_eq; by eapply (routing_goto s); [..|right].
  - case_guard; [|done]. cbn. destruct (tasks s !! t) as [tk|] eqn:Ht; [|done].
    repeat case_match; try done; intros; simplify_eq; by eapply (routing_goto s); [..|right].
Qed.

Lemma routing_reachable s : reachable s → routing s.
Proof.
  induction 1 as [|s l s' _ IH Hs]; [|by eapply routing_step].
  split; cbn; try (intros; by simplify_map_eq); try done.
  - intros acc. unfold bound. rewrite lookup_empty. constructor.
  - intros acc c. unfold bound. rewrite lookup_empty. by intros ?%elem_of_nil.
  - by intros ??? ?%elem_of_nil.
Qed.

(** Whatever the interleaving, a frame about an account, be it a request, a
    withdrawal or a query, is only ever written to a connection that proved
    control of that account; and every device bound to an account proved it,
    appears once, and no account is left bound to an empty list. *)
Theorem frames_reach_proven_devices s :
  reachable s →
  (∀ account c env, (account, c, env) ∈ wire s → serves s c account) ∧
  (∀ account c, c ∈ bound (bindings s) account → serves s c account) ∧
  (∀ account, NoDup (bound (bindings s) account)) ∧ no_empty (bindings s).
Proof. intros [? ? ? ? ?]%routing_reachable. done. Qed.

(** Two devices, a request, an answer, the withdrawal. *)
Definition example_req : TxRequest :=
  MkTxRequest "req_1" "key_1" "" KindSend "nano_a" "" "nano_b" "1" "" "n" zero_time "".
Definition example_res : TxResult := MkTxResult "req_1" StatusSigned "" None "" zero_time.
Definition example_run : list label :=
  [LBind 1 (MkAgentConn "dev1" ["nano_a"]); LBind 2 (MkAgentConn "dev2" ["nano_a"; "nano_c"]);
   LRequest 0 "nano_a" example_req; LRun 0 true; LRun 0 true; LRun 0 false; LRun 0 true;
   LResult 1 example_res; LRun 1 true; LTake 0; LRun 0 true; LRun 0 true; LRun 0 true; LRun 0 true;
   LRun 0 true].

Lemma run_reachable ls s s' : reachable s → run ls s = Some s' → reachable s'.
Proof.
  revert s; induction ls as [|l ls IH]; intros s Hr; cbn; [by intros [= <-]|].
  destruct (step l s) as [s1|] eqn:Hs; [|done]. cbn. apply IH. by eapply reachable_step.
Qed.

Theorem frames_reach_proven_devices_witness :
  ∃ s, run example_run newHub = Some s ∧ length (wire s) = 3 ∧
  (∀ account c env, (account, c, env) ∈ wire s → serves s c account) ∧
  (∀ account c, c ∈ bound (bindings s) account → serves s c account) ∧
  (∀ account, NoDup (bound (bindings s) account)) ∧ no_empty (bindings s).
Proof.
  destruct (run example_run newHub) as [s|] eqn:Hrun; [|by vm_compute in Hrun].
  exists s. split; [done|]. split; [vm_compute in Hrun; by injection Hrun as <-|].
  apply (frames_reach_proven_devices s). by eapply run_reachable, Hrun; constructor.
Defined.
