(* ===== verification/HubTasks.v ===== *)
(** * Requests and queries in flight: correlation, no leaks, termination

    The invariant [calls] relates tasks, waiters and channels; [rank] is the
    measure that makes every call return. *)

From S2P Require Import Prelude Rfc3339 Protocol Hub HubProps.

(** The waiter a task has registered: kind, id, channel. *)
Definition holds (tk : task) : option (bool * string * nat) :=
  match tk with
  | ReqSend _ req ch _ _ | ReqWait _ req ch | ReqCleanup _ req ch _ => Some (false, TxRequest_ID req, ch)
  | QrySend _ _ id ch _ | QryWait id ch | QryCleanup id ch _ => Some (true, id, ch)
  | _ => None
  end.

(** The id of the request or query a task serves. *)
Definition task_id (tk : task) : option string :=
  match tk with
  | ReqRegister _ req _ | ReqSend _ req _ _ _ | ReqWait _ req _ | ReqCleanup _ req _ _ => Some (TxRequest_ID req)
  | ReqWithdrawStart _ id _ | ReqWithdraw _ id _ _ | ReqDone id _
  | QryRegister _ _ id _ | QrySend _ _ id _ _ | QryWait id _ | QryCleanup id _ _ | QryDone id _ => Some id
  | Deliver _ _ | DeliverDone => None
  end.

(** The outcome a request task has settled on. *)
Definition settled (tk : task) : option (string * res TxResult) :=
  match tk with
  | ReqCleanup _ req _ out => Some (TxRequest_ID req, out)
  | ReqWithdrawStart _ id out | ReqWithdraw _ id _ out | ReqDone id out => Some (id, out)
  | _ => None
  end.

Definition reply_query (r : reply) : bool := match r with RTx _ => false | RQuery _ _ => true end.
Definition reply_id (r : reply) : string :=
  match r with RTx r => TxResult_RequestID r | RQuery id _ => id end.

Definition pend (q : bool) (s : hstate) : gmap string nat := if q then queryPending s else pending s.

Record calls (s : hstate) : Prop := {
  cl_used t tk id : tasks s !! t = Some tk → task_id tk = Some id → id ∈ used s;
  cl_ids t1 t2 tk1 tk2 id : tasks s !! t1 = Some tk1 → tasks s !! t2 = Some tk2 →
    task_id tk1 = Some id → task_id tk2 = Some id → t1 = t2;
  cl_pend q id ch : pend q s !! id = Some ch →
    ∃ t tk, tasks s !! t = Some tk ∧ holds tk = Some (q, id, ch);
  cl_hold t tk q id ch : tasks s !! t = Some tk → holds tk = Some (q, id, ch) →
    pend q s !! id = Some ch ∧ ∃ buf, chans s !! ch = Some (MkChan q id buf);
  cl_deliver t ch r : tasks s !! t = Some (Deliver ch r) →
    ∃ buf, chans s !! ch = Some (MkChan (reply_query r) (reply_id r) buf);
  cl_buf ch q id r : chans s !! ch = Some (MkChan q id (Some r)) → reply_query r = q ∧ reply_id r = id;
  cl_out t tk id r : tasks s !! t = Some tk → settled tk = Some (id, Ok r) → TxResult_RequestID r = id;
}.

(** Channels are never removed nor relabelled. *)
Definition chans_le (s s' : hstate) : Prop :=
  ∀ ch q id buf, chans s !! ch = Some (MkChan q id buf) → ∃ buf', chans s' !! ch = Some (MkChan q id buf').
Definition bufs_ok (s : hstate) : Prop :=
  ∀ ch q id r, chans s !! ch = Some (MkChan q id (Some r)) → reply_query r = q ∧ reply_id r = id.

Lemma holds_id tk q id ch : holds tk = Some (q, id, ch) → task_id tk = Some id.
Proof. destruct tk; cbn; congruence. Qed.

(** One task moves to [tk']. *)
Lemma calls_frame s s' t tk' :
  calls s → tasks s' = <[t := tk']> (tasks s) → used s ⊆ used s' →
  (∀ id, task_id tk' = Some id → id ∈ used s' ∧
     ∀ t2 tk2, t2 ≠ t → tasks s !! t2 = Some tk2 → task_id tk2 ≠ Some id) →
  chans_le s s' → bufs_ok s' →
  (∀ q id ch, pend q s' !! id = Some ch → holds tk' = Some (q, id, ch) ∨
     (pend q s !! id = Some ch ∧ ∀ tk, tasks s !! t = Some tk → holds tk ≠ Some (q, id, ch))) →
  (∀ q id ch, holds tk' = Some (q, id, ch) →
     pend q s' !! id = Some ch ∧ ∃ buf, chans s' !! ch = Some (MkChan q id buf)) →
  (∀ q id ch t2 tk2, t2 ≠ t → tasks s !! t2 = Some tk2 → holds tk2 = Some (q, id, ch) →
     pend q s' !! id = Some ch) →
  (∀ ch r, tk' = Deliver ch r → ∃ buf, chans s' !! ch = Some (MkChan (reply_query r) (reply_id r) buf)) →
  (∀ id r, settled tk' = Some (id, Ok r) → TxResult_RequestID r = id) →
  calls s'.
Proof.
  intros [C1 C2 C3 C4 C5 C6 C7] Ht Hu Hid Hle Hbuf Hp Hh Hoth Hdel Hout. split.
  - intros t1 tk1 id. rewrite Ht. intros [[<- <-]|[_ H1]]%lookup_insert_Some Hi; [by apply Hid|].
    eapply Hu, C1; done.
  - intros t1 t2 tk1 tk2 id. rewrite Ht.
    intros [[<- <-]|[N1 H1]]%lookup_insert_Some [[<- <-]|[N2 H2]]%lookup_insert_Some I1 I2; [done|..].
    + by destruct (proj2 (Hid id I1) t2 tk2).
    + by destruct (proj2 (Hid id I2) t1 tk1).
    + by eapply C2.
  - intros q id ch [Hk|[Hk Hn]]%Hp; rewrite Ht.
    + exists t, tk'. by rewrite lookup_insert_eq.
    + destruct (C3 q id ch Hk) as (t1 & tk1 & H1 & Hh1). exists t1, tk1.
      rewrite lookup_insert_ne; [done|]. intros <-. by apply (Hn tk1).
  - intros t1 tk1 q id ch. rewrite Ht. intros [[<- <-]|[N1 H1]]%lookup_insert_Some Hh1; [by apply Hh|].
    split; [by eapply Hoth|]. destruct (C4 t1 tk1 q id ch H1 Hh1) as [_ [buf Hb]]. by eapply Hle.
  - intros t1 ch r. rewrite Ht. intros [[<- ->]|[N1 H1]]%lookup_insert_Some; [by apply Hdel|].
    destruct (C5 t1 ch r H1) as [buf Hb]. by eapply Hle.
  - done.
  - intros t1 tk1 id r. rewrite Ht. intros [[<- <-]|[N1 H1]]%lookup_insert_Some; [by apply Hout|by eapply C7].
Qed.

Lemma chans_le_eq s s' : chans s' = chans s → chans_le s s'.
Proof. intros He ch q id buf. rewrite He. eauto. Qed.

(** The task keeps its id and its waiter. *)
Lemma calls_goto s s' t tk tk' :
  calls s → tasks s !! t = Some tk → tasks s' = tasks s → used s' = used s →
  pending s' = pending s → queryPending s' = queryPending s →
  chans_le s s' → bufs_ok s' → task_id tk' = task_id tk → holds tk' = holds tk →
  (∀ ch r, tk' ≠ Deliver ch r) →
  (∀ id r, settled tk' = Some (id, Ok r) → TxResult_RequestID r = id) →
  calls (goto t tk' s').
Proof.
  intros Hc Ht Hts Hu Hp Hq Hle Hbuf Hid Hh Hnd Hout.
  assert (Hpend : ∀ q, pend q s' = pend q s) by (intros []; done).
  apply (calls_frame s _ t tk' Hc); cbn.
  - by rewrite Hts.
  - by rewrite Hu.
  - intros id Hi. rewrite Hu. rewrite Hid in Hi. split; [by eapply cl_used|].
    intros t2 tk2 Hne H2 Hi2. by apply Hne, (cl_ids s Hc t2 t tk2 tk id).
  - done.
  - done.
  - intros q id ch Hk. change (pend q (goto t tk' s')) with (pend q s') in Hk. rewrite Hpend in Hk.
    destruct (decide (holds tk = Some (q, id, ch))) as [Hd|Hd]; [left; congruence|].
    right. split; [done|]. intros tk1 H1. congruence.
  - intros q id ch Hk. change (pend q (goto t tk' s')) with (pend q s'). rewrite Hpend.
    rewrite Hh in Hk. destruct (cl_hold s Hc t tk q id ch Ht Hk) as [? [buf Hb]].
    split; [done|by eapply Hle].
  - intros q id ch t2 tk2 _ H2 Hk. change (pend q (goto t tk' s')) with (pend q s'). rewrite Hpend.
    by eapply (cl_hold s Hc t2 tk2).
  - intros ch r ->. by destruct (Hnd ch r).
  - done.
Qed.

(** A call starts: its id was never used. *)
Lemma calls_start s t tk' us :
  calls s → tasks s !! t = None → (∀ id, task_id tk' = Some id → id ∉ used s ∧ (us = {[id]})) →
  (task_id tk' = None → us = ∅) → holds tk' = None →
  (∀ ch r, tk' = Deliver ch r → ∃ buf, chans s !! ch = Some (MkChan (reply_query r) (reply_id r) buf)) →
  (∀ id r, settled tk' ≠ Some (id, Ok r)) →
  calls (set_used (union us) (goto t tk' s)).
Proof.
  intros Hc Ht Hid Hnone Hh Hdel Hout. apply (calls_frame s _ t tk' Hc); cbn.
  - done.
  - set_solver.
  - intros id Hi. destruct (Hid id Hi) as [Hfresh ->]. split; [set_solver|].
    intros t2 tk2 _ H2 Hi2. by eapply Hfresh, cl_used.
  - by apply chans_le_eq.
  - intros ch q id r. by apply (cl_buf s Hc).
  - intros q id ch Hk. right. split; [by destruct q|]. intros tk. by rewrite Ht.
  - intros q id ch. by rewrite Hh.
  - intros q id ch t2 tk2 _ H2 Hk. destruct (cl_hold s Hc t2 tk2 q id ch H2 Hk) as [Hp _].
    by destruct q.
  - done.
  - intros id r Hs. by destruct (Hout id r).
Qed.

Definition set_pend (q : bool) (f : gmap string nat → gmap string nat) : hstate → hstate :=
  if q then set_queryPending f else set_pending f.

Lemma pend_set_pend q q' f s :
  pend q (set_pend q' f s) = if bool_decide (q = q') then f (pend q s) else pend q s.
Proof. by destruct q, q'. Qed.

(** The waiter is registered on a fresh channel. *)
Lemma calls_register s t tk tk' q id :
  calls s → tasks s !! t = Some tk → task_id tk = Some id → holds tk = None →
  task_id tk' = Some id → holds tk' = Some (q, id, fresh_chan s) → settled tk' = None →
  calls (goto t tk' (set_pend q (<[id := fresh_chan s]>)
    (set_chans (<[fresh_chan s := MkChan q id None]>) s))).
Proof.
  intros Hc Ht Hi Hh Hi' Hh' Hs'.
  assert (Hfresh : chans s !! fresh_chan s = None).
  { apply not_elem_of_dom. exact (is_fresh (dom (chans s))). }
  set (s' := goto _ _ _).
  assert (Hch : chans s' = <[fresh_chan s := MkChan q id None]> (chans s)) by (by destruct q).
  assert (Hp : ∀ q0, pend q0 s' = if bool_decide (q0 = q) then <[id := fresh_chan s]> (pend q0 s)
    else pend q0 s) by (by intros []; destruct q).
  apply (calls_frame s s' t tk' Hc).
  - by destruct q.
  - by destruct q.
  - intros id0 Hid0. simplify_eq. replace (used s') with (used s) by (by destruct q).
    split; [by eapply cl_used|]. intros t2 tk2 Hne H2 Hi2. by apply Hne, (cl_ids s Hc t2 t tk2 tk id).
  - intros ch q0 id0 buf Hk. rewrite Hch. rewrite lookup_insert_ne by congruence. eauto.
  - intros ch q0 id0 r. rewrite Hch. intros [[_ ?]|[_ ?]]%lookup_insert_Some; [done|by eapply cl_buf].
  - intros q0 id0 ch. rewrite Hp. case_bool_decide; subst.
    + intros [[<- <-]|[_ Hk]]%lookup_insert_Some; [by left|right].
      split; [done|]. intros tk1 H1. congruence.
    + intros Hk. right. split; [done|]. intros tk1 H1. congruence.
  - intros q0 id0 ch Hk. simplify_eq. rewrite Hp, Hch, bool_decide_eq_true_2 by done.
    rewrite !lookup_insert_eq. eauto.
  - intros q0 id0 ch t2 tk2 Hne H2 Hk. destruct (cl_hold s Hc t2 tk2 q0 id0 ch H2 Hk) as [Hp2 _].
    rewrite Hp. case_bool_decide; [|done]. rewrite lookup_insert_ne; [done|]. intros <-.
    apply Hne, (cl_ids s Hc t2 t tk2 tk id); [done..|by eapply holds_id|done].
  - intros ch r ->. done.
  - intros id0 r. by rewrite Hs'.
Qed.

(** The waiter is removed. *)
Lemma calls_cleanup s t tk tk' q id ch :
  calls s → tasks s !! t = Some tk → holds tk = Some (q, id, ch) →
  task_id tk' = Some id → holds tk' = None →
  (∀ id r, settled tk' = Some (id, Ok r) → TxResult_RequestID r = id) →
  calls (goto t tk' (set_pend q (delete id) s)).
Proof.
  intros Hc Ht Hh Hi' Hh' Hs'. set (s' := goto _ _ _).
  assert (Hp : ∀ q0, pend q0 s' = if bool_decide (q0 = q) then delete id (pend q0 s) else pend q0 s)
    by (by intros []; destruct q).
  pose proof (holds_id _ _ _ _ Hh) as Hi.
  apply (calls_frame s s' t tk' Hc).
  - by destruct q.
  - by destruct q.
  - intros id0 Hid0. simplify_eq. replace (used s') with (used s) by (by destruct q).
    split; [by eapply cl_used|]. intros t2 tk2 Hne H2 Hi2. by apply Hne, (cl_ids s Hc t2 t tk2 tk id).
  - apply chans_le_eq. by destruct q.
  - replace (bufs_ok s') with (bufs_ok s) by (by destruct q). intros ???? Hb. by eapply cl_buf.
  - intros q0 id0 ch0. rewrite Hp. case_bool_decide; subst.
    + intros [Hne Hk]%lookup_delete_Some. right. split; [done|]. intros tk1 H1. congruence.
    + intros Hk. right. split; [done|]. intros tk1 H1. congruence.
  - intros q0 id0 ch0 Hk. congruence.
  - intros q0 id0 ch0 t2 tk2 Hne H2 Hk. destruct (cl_hold s Hc t2 tk2 q0 id0 ch0 H2 Hk) as [Hp2 _].
    rewrite Hp. case_bool_decide; [|done]. rewrite lookup_delete_ne; [done|]. intros <-.
    apply Hne, (cl_ids s Hc t2 t tk2 tk id); [done..|by eapply holds_id|done].
  - intros ch0 r ->. done.
  - done.
Qed.

Lemma calls_run t tk ok s s' :
  calls s → tasks s !! t = Some tk → run_task t tk ok s = Some s' → calls s'.
Proof.
  intros Hc Ht. pose proof (cl_buf s Hc) as Hbuf.
  assert (Hle : chans_le s s) by (by apply chans_le_eq).
  assert (Hset : ∀ id r, settled tk = Some (id, Ok r) → TxResult_RequestID r = id)
    by (intros; by eapply cl_out).
  destruct tk; cbn [run_task]; try done.
  - intros [= <-].
    by apply (calls_register s t (ReqRegister account req devices) _ false (TxRequest_ID req)).
  - destruct todo as [|d todo]; intros [= <-].
    + case_bool_decide; by eapply (calls_goto s).
    + by destruct ok; eapply (calls_goto s).
  - intros [= <-]. by eapply (calls_cleanup s t _ _ false).
  - rewrite devicesForAccount_eq. intros [= <-]. by eapply (calls_goto s).
  - destruct todo as [|d todo]; intros [= <-].
    + by eapply (calls_goto s).
    + by destruct ok; eapply (calls_goto s).
  - intros [= <-]. by apply (calls_register s t (QryRegister account q id devices) _ true id).
  - destruct todo as [|d todo]; intros [= <-].
    + by eapply (calls_goto s).
    + by destruct ok; eapply (calls_goto s).
  - intros [= <-]. by eapply (calls_cleanup s t _ _ true).
  - intros [= <-].
    destruct (cl_deliver s Hc t ch r Ht) as [buf Hb].
    assert (Hcase : try_send ch r s = s ∨ (buf = None ∧ try_send ch r s =
      set_chans (<[ch := MkChan (reply_query r) (reply_id r) (Some r)]>) s)).
    { unfold try_send. rewrite Hb. destruct buf; auto. }
    destruct Hcase as [->|[-> ->]]; eapply (calls_goto s); try done.
    + intros ch' q id buf' Hk. cbn. destruct (decide (ch' = ch)) as [->|]; simplify_map_eq; eauto.
    + intros ch' q id r'. cbn. intros [[<- [= <- <- <-]]|[_ Hk]]%lookup_insert_Some; [done|by eapply Hbuf].
Qed.

(** A reply is taken out of the buffer. *)
Lemma calls_take s t tk tk' ch q id r :
  calls s → tasks s !! t = Some tk → chans s !! ch = Some (MkChan q id (Some r)) →
  task_id tk' = task_id tk → holds tk' = holds tk → (∀ ch r, tk' ≠ Deliver ch r) →
  (∀ id r, settled tk' = Some (id, Ok r) → TxResult_RequestID r = id) →
  calls (goto t tk' (set_chans (<[ch := MkChan q id None]>) s)).
Proof.
  intros Hc Ht Hb ????. eapply (calls_goto s); try done.
  - intros ch' q' id' buf' Hk. cbn. destruct (decide (ch' = ch)) as [->|]; simplify_map_eq; eauto.
  - intros ch' q' id' r'. cbn. intros [[_ ?]|[_ Hk]]%lookup_insert_Some; [done|].
    by eapply (cl_buf s Hc).
Qed.

Lemma set_used_empty s : set_used (union ∅) s = s.
Proof. unfold set_used. rewrite (left_id_L ∅ (∪)). by destruct s. Qed.

Lemma calls_step l s s' : calls s → step l s = Some s' → calls s'.
Proof.
  intros Hc. pose proof (cl_buf s Hc) as Hbuf. destruct l; cbn [step].
  - case_guard; [|done]. intros; simplify_eq/=. by destruct Hc; split.
  - destruct (conns s !! c) as [a|]; [|done]. intros; simplify_eq/=. by destruct Hc; split.
  - case_guard as Hg; [|done]. rewrite devicesForAccount_eq. intros; simplify_eq/=.
    destruct Hg as [Ht Hu]. apply (calls_start s t); try done.
    + intros id Hi. case_bool_decide; simplify_eq/=; done.
    + by case_bool_decide.
    + by case_bool_decide.
    + intros ch r. by case_bool_decide.
    + intros id r. by case_bool_decide.
  - case_guard as Hg; [|done]. rewrite devicesForAccount_eq. intros; simplify_eq/=.
    destruct Hg as [Ht Hu]. apply (calls_start s t); try done.
    + intros id' Hi. case_bool_decide; simplify_eq/=; done.
    + by case_bool_decide.
    + by case_bool_decide.
    + intros ch r. by case_bool_decide.
    + intros id' r. by case_bool_decide.
  - case_guard as Ht; [|done]. intros; simplify_eq/=. rewrite <-(set_used_empty (goto t _ s)).
    destruct (pending s !! TxResult_RequestID r) as [ch|] eqn:Hp; apply (calls_start s t); try done.
    intros ch' r' [= <- <-]. destruct (cl_pend s Hc false _ _ Hp) as (t1 & tk1 & H1 & Hh).
    by eapply (cl_hold s Hc).
  - case_guard as Ht; [|done]. intros; simplify_eq/=. rewrite <-(set_used_empty (goto t _ s)).
    destruct (queryPending s !! id) as [ch|] eqn:Hp; apply (calls_start s t); try done.
    intros ch' r' [= <- <-]. destruct (cl_pend s Hc true _ _ Hp) as (t1 & tk1 & H1 & Hh).
    by eapply (cl_hold s Hc).
  - destruct (tasks s !! t) as [tk|] eqn:Ht; [|done]. cbn. by apply calls_run.
  - destruct (tasks s !! t) as [tk|] eqn:Ht; [|done]. destruct tk; try done.
    + destruct (chans s !! ch) as [[q id [[r|]|]]|] eqn:Hb; try done. intros; simplify_eq.
      eapply calls_take; try done. cbn. intros ?? [= <- <-].
      destruct (cl_hold s Hc t _ _ _ _ Ht eq_refl) as [_ [buf Hb']]. simplify_eq.
      by destruct (Hbuf _ _ _ _ Hb).
    + destruct (chans s !! ch) as [[q id' [[|]|]]|] eqn:Hb; try done. intros; simplify_eq.
      by eapply calls_take.
  - case_guard; [|done]. cbn. destruct (tasks s !! t) as [tk|] eqn:Ht; [|done].
    destruct tk; try done; intros; simplify_eq; by eapply (calls_goto s); try apply chans_le_eq.
Qed.

Lemma calls_reachable s : reachable s → calls s.
Proof.
  induction 1 as [|s l s' _ IH Hs]; [|by eapply calls_step].
  split; cbn; try (intros; by simplify_map_eq).
  intros [] id ch; cbn; by rewrite lookup_empty.
Qed.

(** ** Properties *)

(** C12: a result is only ever returned to the request it names, and the waiters
    are exactly those of the calls in flight: [h.pending] and [h.queryPending]
    hold an entry for an id if and only if some call registered it and has not
    yet removed it, so that no waiter outlives its call. *)
Theorem waiters_correlate s :
  reachable s →
  (∀ t id r, tasks s !! t = Some (ReqDone id (Ok r)) → TxResult_RequestID r = id) ∧
  (∀ q id ch, pend q s !! id = Some ch ↔
     ∃ t tk, tasks s !! t = Some tk ∧ holds tk = Some (q, id, ch)) ∧
  ((∀ t tk, tasks s !! t = Some tk → holds tk = None) → pending s = ∅ ∧ queryPending s = ∅).
Proof.
  intros Hc%calls_reachable. split_and!.
  - intros t id r Ht. by eapply (cl_out s Hc).
  - intros q id ch. split; [apply (cl_pend s Hc)|].
    intros (t & tk & Ht & Hh). by eapply (cl_hold s Hc).
  - intros Hn. assert (He : ∀ q, pend q s = ∅); [|split; [apply (He false)|apply (He true)]].
    intros q. apply map_empty. intros id. destruct (pend q s !! id) as [ch|] eqn:Hp; [|done].
    destruct (cl_pend s Hc q id ch Hp) as (t & tk & Ht & Hh). rewrite (Hn t tk Ht) in Hh. done.
Qed.

Definition before_answer : list label := firstn 7 example_run.

Theorem waiters_correlate_witness :
  ∃ s, run example_run newHub = Some s ∧ tasks s !! 0 = Some (ReqDone "req_1" (Ok example_res)) ∧
  (∀ t id r, tasks s !! t = Some (ReqDone id (Ok r)) → TxResult_RequestID r = id) ∧
  (∀ q id ch, pend q s !! id = Some ch ↔
     ∃ t tk, tasks s !! t = Some tk ∧ holds tk = Some (q, id, ch)) ∧
  ((∀ t tk, tasks s !! t = Some tk → holds tk = None) → pending s = ∅ ∧ queryPending s = ∅).
Proof.
  destruct (run example_run newHub) as [s|] eqn:Hrun; [|by vm_compute in Hrun].
  exists s. split; [done|]. split; [vm_compute in Hrun; by injection Hrun as <-|].
  apply (waiters_correlate s). by eapply run_reachable, Hrun; constructor.
Defined.

(** A reply in a waiter's buffer stays until its own task takes it. *)
Lemma buffer_step l s s' t tk q id ch r :
  calls s → tasks s !! t = Some tk → holds tk = Some (q, id, ch) →
  chans s !! ch = Some (MkChan q id (Some r)) → step l s = Some s' → l ≠ LTake t →
  chans s' !! ch = Some (MkChan q id (Some r)).
Proof.
  intros Hc Ht Hh Hb Hs Hl. pose proof (is_fresh (dom (chans s))) as Hf.
  rewrite not_elem_of_dom in Hf. fold (fresh_chan s) in Hf.
  assert (Hne : fresh_chan s ≠ ch) by (intros He; congruence).
  destruct l as [| | | | | |t' ok|t'|]; cbn [step] in Hs.
  - case_guard; simplify_eq/=; done.
  - destruct (conns s !! c); simplify_eq/=; done.
  - case_guard; [|done]. rewrite devicesForAccount_eq in Hs. by simplify_eq/=.
  - case_guard; [|done]. rewrite devicesForAccount_eq in Hs. by simplify_eq/=.
  - case_guard; by simplify_eq/=.
  - case_guard; by simplify_eq/=.
  - destruct (tasks s !! t') as [tk'|]; [|done]. cbn in Hs.
    destruct tk'; cbn [run_task] in Hs; rewrite ?devicesForAccount_eq in Hs;
      repeat (case_match; try done); simplify_eq; try done; try (by destruct ok);
      try (cbn; by rewrite lookup_insert_ne).
    unfold try_send. cbn.
    destruct (chans s !! ch0) as [[q' id' [b|]]|] eqn:Hb0; cbn; try done.
    rewrite lookup_insert_ne; [done|]. intros ->. congruence.
  - destruct (tasks s !! t') as [tk'|] eqn:Ht'; [|done].
    assert (Hch : ∀ ch', (∃ q' id', holds tk' = Some (q', id', ch')) → ch' ≠ ch).
    { intros ch' (q' & id' & Hh') ->.
      destruct (cl_hold s Hc t' tk' _ _ _ Ht' Hh') as [_ [b Hb']]. simplify_eq.
      apply Hl. f_equal. apply (cl_ids s Hc t' t tk' tk id); [done..|by eapply holds_id|by eapply holds_id]. }
    repeat (case_match; try done); simplify_eq; cbn; rewrite lookup_insert_ne; try done;
      apply Hch; cbn; eauto.
  - case_guard; [|done]. cbn in Hs. repeat case_match; try done; by simplify_eq.
Qed.

(** ** Progress *)

(** The task a label moves. *)
Definition label_task (l : label) : option nat :=
  match l with
  | LBind _ _ | LUnbind _ => None
  | LRequest t _ _ | LQuery t _ _ _ | LResult t _ | LQueryResult t _ _ | LRun t _ | LTake t
  | LCtx t _ => Some t
  end.

(** What is left of a call: its phase, and the devices left to write to. *)
Definition rank (tk : task) : nat * nat :=
  match tk with
  | ReqRegister _ _ _ | QryRegister _ _ _ _ => (6, 0)
  | ReqSend _ _ _ todo _ | QrySend _ _ _ _ todo => (5, length todo)
  | ReqWait _ _ _ | QryWait _ _ => (4, 0)
  | ReqCleanup _ _ _ _ | QryCleanup _ _ _ => (3, 0)
  | ReqWithdrawStart _ _ _ => (2, 0)
  | ReqWithdraw _ _ todo _ => (1, length todo)
  | Deliver _ _ => (1, 0)
  | ReqDone _ _ | QryDone _ _ | DeliverDone => (0, 0)
  end.
Definition rank_lt (p q : nat * nat) : Prop := p.1 < q.1 ∨ (p.1 = q.1 ∧ p.2 < q.2).

Lemma rank_lt_wf : well_founded rank_lt.
Proof.
  intros [a b]. revert b. induction a as [a IHa] using lt_wf_ind.
  intros b. induction b as [b IHb] using lt_wf_ind. constructor. intros [a' b'] [H|[H H']]; cbn in *.
  - by apply IHa.
  - subst. by apply IHb.
Qed.

Definition call_done (tk : task) : Prop :=
  match tk with ReqDone _ _ | QryDone _ _ | DeliverDone => True | _ => False end.

(** Only its own labels move a task. *)
Lemma other_step l s s' t tk :
  step l s = Some s' → label_task l ≠ Some t → tasks s !! t = Some tk → tasks s' !! t = Some tk.
Proof.
  intros Hs Hl Ht.
  assert (Hgo : ∀ t' tk' s1, label_task l = Some t' → tasks s1 = tasks s →
    tasks (goto t' tk' s1) !! t = Some tk).
  { intros t' tk' s1 Hl' He. cbn. rewrite He, lookup_insert_ne; [done|congruence]. }
  destruct l as [| | | | | |t' ok|t'|]; cbn [step] in Hs; cbn [label_task] in Hgo, Hl.
  - case_guard; by simplify_eq/=.
  - destruct (conns s !! c); by simplify_eq/=.
  - case_guard; [|done]. rewrite devicesForAccount_eq in Hs. simplify_eq/=. by apply Hgo.
  - case_guard; [|done]. rewrite devicesForAccount_eq in Hs. simplify_eq/=. by apply Hgo.
  - case_guard; simplify_eq/=; by apply Hgo.
  - case_guard; simplify_eq/=; by apply Hgo.
  - destruct (tasks s !! t') as [tk'|]; [|done]. cbn in Hs.
    destruct tk'; cbn [run_task] in Hs; rewrite ?devicesForAccount_eq in Hs;
      repeat (case_match; try done); simplify_eq; apply Hgo; try done; try by destruct ok.
    unfold try_send. by repeat case_match.
  - repeat case_match; simplify_eq; try done; by apply Hgo.
  - case_guard; [|done]. cbn in Hs. repeat case_match; simplify_eq; try done; by apply Hgo.
Qed.

(** Its own labels bring a task nearer its end. *)
Lemma own_step l s s' t tk :
  step l s = Some s' → label_task l = Some t → tasks s !! t = Some tk →
  ∃ tk', tasks s' !! t = Some tk' ∧ rank_lt (rank tk') (rank tk).
Proof.
  intros Hs Hl Ht.
  assert (Hgo : ∀ tk' s1, rank_lt (rank tk') (rank tk) →
    ∃ tk'', tasks (goto t tk' s1) !! t = Some tk'' ∧ rank_lt (rank tk'') (rank tk)).
  { intros tk' s1 Hr. exists tk'. cbn. by rewrite lookup_insert_eq. }
  destruct l as [| | | | | |t' ok|t'|]; cbn [label_task] in Hl; simplify_eq; cbn [step] in Hs;
    try (case_guard; naive_solver).
  - rewrite Ht in Hs. cbn in Hs.
    destruct tk; cbn [run_task] in Hs; rewrite ?devicesForAccount_eq in Hs;
      repeat (case_match; try done); simplify_eq; apply Hgo; unfold rank_lt; cbn; lia.
  - rewrite Ht in Hs. repeat (case_match; try done); simplify_eq; apply Hgo; unfold rank_lt; cbn; lia.
  - case_guard; [|done]. cbn in Hs. rewrite Ht in Hs.
    repeat (case_match; try done); simplify_eq; apply Hgo; unfold rank_lt; cbn; lia.
Qed.

Lemma unfinished_enabled s t tk :
  tasks s !! t = Some tk → ¬ call_done tk →
  (∀ ok, is_Some (step (LRun t ok) s)) ∨ is_Some (step (LCtx t DeadlineExceeded) s).
Proof.
  intros Ht Hd. cbn [step]. rewrite Ht. cbn.
  destruct tk; cbn [run_task] in *; rewrite ?devicesForAccount_eq; try done;
    try (left; intros ok; repeat case_match; by eexists); right; rewrite option_guard_True by auto; by eexists.
Qed.

(** C25: every call returns: a call that has not returned always has a step of its
    own it can take (for a waiting one, at the latest when its context's
    deadline passes), the steps of others never move it, and each of its own
    steps, whatever its outcome, brings it nearer its end in a well-founded
    order. *)
Theorem calls_terminate s t tk :
  tasks s !! t = Some tk →
  well_founded rank_lt ∧
  (¬ call_done tk → (∀ ok, is_Some (step (LRun t ok) s)) ∨ is_Some (step (LCtx t DeadlineExceeded) s)) ∧
  (∀ l s', step l s = Some s' → ∃ tk', tasks s' !! t = Some tk' ∧
     if decide (label_task l = Some t) then rank_lt (rank tk') (rank tk) else tk' = tk).
Proof.
  intros Ht. split_and!; [apply rank_lt_wf|by apply unfinished_enabled|].
  intros l s' Hs. case_decide as Hl; [by eapply own_step|]. exists tk. split; [by eapply other_step|done].
Qed.

Theorem calls_terminate_witness :
  ∃ s tk, run before_answer newHub = Some s ∧ tasks s !! 0 = Some tk ∧
  well_founded rank_lt ∧
  (¬ call_done tk → (∀ ok, is_Some (step (LRun 0 ok) s)) ∨ is_Some (step (LCtx 0 DeadlineExceeded) s)) ∧
  (∀ l s', step l s = Some s' → ∃ tk', tasks s' !! 0 = Some tk' ∧
     if decide (label_task l = Some 0) then rank_lt (rank tk') (rank tk) else tk' = tk).
Proof.
  destruct (run before_answer newHub) as [s|] eqn:Hrun; [|by vm_compute in Hrun].
  exists s, (ReqWait "nano_a" example_req 0). split; [done|].
  assert (Ht : tasks s !! 0 = Some (ReqWait "nano_a" example_req 0))
    by (vm_compute in Hrun; by injection Hrun as <-).
  split; [done|]. by apply (calls_terminate s 0).
Defined.

Lemma rank_never_grows ls s s' t tk :
  run ls s = Some s' → tasks s !! t = Some tk →
  ∃ tk', tasks s' !! t = Some tk' ∧ (rank tk').1 ≤ (rank tk).1.
Proof.
  revert s tk. induction ls as [|l ls IH]; intros s tk Hrun Ht; cbn in Hrun.
  - simplify_eq. eauto.
  - destruct (step l s) as [s1|] eqn:Hs; [|done]. cbn in Hrun.
    assert (H1 : ∃ tk1, tasks s1 !! t = Some tk1 ∧ (rank tk1).1 ≤ (rank tk).1).
    { destruct (decide (label_task l = Some t)) as [Hl|Hl].
      - destruct (own_step l s s1 t tk Hs Hl Ht) as (tk1 & ? & Hlt). exists tk1.
        split; [done|]. destruct Hlt; lia.
      - exists tk. split; [by eapply other_step|done]. }
    destruct H1 as (tk1 & H1 & Hle). destruct (IH s1 tk1 Hrun H1) as (tk' & ? & ?).
    exists tk'. split; [done|lia].
Qed.

(** C14: the first result wins: once a result is in a waiting request's buffer,
    nothing that happens while the request has not read it (other results for
    the same id included) replaces or removes it: if the request is still
    waiting, reading gives that result. *)
Theorem first_result_wins s ls s' t account req ch r account' req' ch' :
  reachable s → tasks s !! t = Some (ReqWait account req ch) →
  chans s !! ch = Some (MkChan false (TxRequest_ID req) (Some (RTx r))) →
  run ls s = Some s' → LTake t ∉ ls →
  tasks s' !! t = Some (ReqWait account' req' ch') →
  ∃ s'', step (LTake t) s' = Some s'' ∧ tasks s'' !! t = Some (ReqCleanup account req ch (Ok r)).
Proof.
  revert s. induction ls as [|l ls IH]; intros s Hr Ht Hb Hrun Hl Ht'; cbn in Hrun.
  - simplify_eq. cbn [step]. rewrite Ht, Hb. eexists; split; [done|]. cbn.
    by rewrite lookup_insert_eq.
  - destruct (step l s) as [s1|] eqn:Hs; [|done]. cbn in Hrun.
    apply not_elem_of_cons in Hl as [Hl Hls].
    destruct (decide (label_task l = Some t)) as [Hown|Hother].
    + destruct (own_step l s s1 t _ Hs Hown Ht) as (tk1 & H1 & Hlt).
      destruct (rank_never_grows ls s1 s' t tk1 Hrun H1) as (tk2 & H2 & Hle).
      rewrite Ht' in H2. simplify_eq. unfold rank_lt in Hlt. cbn in *. lia.
    + apply (IH s1); try done; [by eapply reachable_step|by eapply other_step|].
      eapply buffer_step; [by apply calls_reachable|done..|congruence].
Qed.

Definition late_answer : TxResult := MkTxResult "req_1" StatusRejected "" None "" zero_time.

Theorem first_result_wins_witness :
  ∃ s s' s'', run (before_answer ++ [LResult 1 example_res; LRun 1 true]) newHub = Some s ∧
  run [LResult 2 late_answer; LRun 2 true] s = Some s' ∧
  step (LTake 0) s' = Some s'' ∧ tasks s'' !! 0 = Some (ReqCleanup "nano_a" example_req 0 (Ok example_res)).
Proof.
  destruct (run (before_answer ++ _) newHub) as [s|] eqn:Hrun; [|by vm_compute in Hrun].
  assert (Hr : reachable s) by (eapply run_reachable, Hrun; constructor).
  destruct (run [LResult 2 late_answer; LRun 2 true] s) as [s'|] eqn:Hrun';
    [|exfalso; vm_compute in Hrun; injection Hrun as <-; by vm_compute in Hrun'].
  destruct (first_result_wins s [LResult 2 late_answer; LRun 2 true] s' 0 "nano_a" example_req 0
    example_res "nano_a" example_req 0) as (s'' & Hs & Ht).
  - done.
  - vm_compute in Hrun. by injection Hrun as <-.
  - vm_compute in Hrun. by injection Hrun as <-.
  - done.
  - rewrite !not_elem_of_cons. split_and!; [discriminate|discriminate|apply not_elem_of_nil].
  - vm_compute in Hrun. injection Hrun as <-. vm_compute in Hrun'. by injection Hrun' as <-.
  - exists s, s', s''. split; [reflexivity|]. split; [exact Hrun'|]. by split.
Defined.

(** ** The whole of a request *)

Lemma run_app ls1 ls2 s : run (ls1 ++ ls2) s = (s1 ← run ls1 s; run ls2 s1).
Proof.
  revert s; induction ls1 as [|l ls1 IH]; intros s; [done|]. cbn.
  destruct (step l s); cbn; [apply IH|done].
Qed.

Lemma run_cons l ls s : run (l :: ls) s = (s1 ← step l s; run ls s1).
Proof. done. Qed.

Definition frames (account : string) (env : Envelope) (ds : list conn) : list (string * conn * Envelope) :=
  (λ d, (account, d, env)) <$> ds.

Lemma goto_goto t tk1 tk2 s f : goto t tk2 (set_wire f (goto t tk1 s)) = goto t tk2 (set_wire f s).
Proof. unfold goto, set_tasks, set_wire. cbn. by rewrite insert_insert_eq. Qed.

Lemma step_run s t tk ok : tasks s !! t = Some tk → step (LRun t ok) s = run_task t tk ok s.
Proof. intros Ht. cbn [step]. by rewrite Ht. Qed.

Lemma tasks_goto t tk s : tasks (goto t tk s) !! t = Some tk.
Proof. cbn. by rewrite lookup_insert_eq. Qed.

Lemma send_all t account req ch todo k s :
  run (replicate (length todo) (LRun t true)) (goto t (ReqSend account req ch todo k) s) =
  Some (goto t (ReqSend account req ch [] (k + length todo))
    (set_wire (λ w, w ++ frames account (requestEnv (TxRequest_ID req) req) todo) s)).
Proof.
  revert k s; induction todo as [|d todo IH]; intros k s; cbn [length replicate].
  - cbn. rewrite Nat.add_0_r. unfold goto, set_tasks, set_wire. cbn. by rewrite app_nil_r.
  - rewrite run_cons, (step_run _ _ _ _ (tasks_goto _ _ _)). cbn [run_task mbind option_bind writeFrame].
    rewrite goto_goto, IH. unfold goto, set_tasks, set_wire; cbn.
    rewrite <-app_assoc. cbn. by rewrite Nat.add_succ_r.
Qed.

Lemma withdraw_all t account id todo out s :
  run (replicate (length todo) (LRun t true)) (goto t (ReqWithdraw account id todo out) s) =
  Some (goto t (ReqWithdraw account id [] out)
    (set_wire (λ w, w ++ frames account (withdrawEnv id) todo) s)).
Proof.
  revert s; induction todo as [|d todo IH]; intros s; cbn [length replicate].
  - cbn. unfold goto, set_tasks, set_wire. cbn. by rewrite app_nil_r.
  - rewrite run_cons, (step_run _ _ _ _ (tasks_goto _ _ _)). cbn [run_task mbind option_bind writeFrame].
    rewrite goto_goto, IH. unfold goto, set_tasks, set_wire; cbn. by rewrite <-app_assoc.
Qed.

(** The labels of a request whose frames all go through and that [r] answers. *)
Definition request_labels (t t' : nat) (account : string) (req : TxRequest) (r : TxResult) (n : nat) :
    list label :=
  [LRequest t account req; LRun t true] ++ replicate n (LRun t true) ++
  [LRun t true; LResult t' r; LRun t' true; LTake t; LRun t true; LRun t true] ++
  replicate n (LRun t true) ++ [LRun t true].

(** C15: a request is fanned out to every device of the account, most recent first,
    returns the result that names it, and is then withdrawn from every device
    of the account, the one that answered included, its waiter removed: for a
    call that runs by itself, from any state of the hub, with an id not used
    before, an account that has a device, and one answer that names the
    request. *)
Theorem request_fans_out s t t' account req r :
  tasks s !! t = None → tasks s !! t' = None → t ≠ t' → TxRequest_ID req ∉ used s →
  bound (bindings s) account ≠ [] → TxResult_RequestID r = TxRequest_ID req →
  let devices := reverse (bound (bindings s) account) in
  ∃ s', run (request_labels t t' account req r (length devices)) s = Some s' ∧
    tasks s' !! t = Some (ReqDone (TxRequest_ID req) (Ok r)) ∧
    wire s' = wire s ++ frames account (requestEnv (TxRequest_ID req) req) devices
                     ++ frames account (withdrawEnv (TxRequest_ID req)) devices ∧
    pending s' = delete (TxRequest_ID req) (pending s).
Proof.
  intros Ht Ht' Hne Hu Hb Hr devices. unfold request_labels. set (id := TxRequest_ID req) in *.
  assert (Hlen : length devices ≠ 0) by (unfold devices; rewrite length_reverse; by destruct (bound _ _)).
  cbn [app]. rewrite run_cons. cbn [step]. rewrite option_guard_True by done.
  rewrite devicesForAccount_eq. cbn [mbind option_bind].
  fold devices id. rewrite bool_decide_eq_false_2 by done.
  set (s1 := set_used (union {[id]}) s).
  change (set_used (union {[id]}) (goto t (ReqRegister account req devices) s))
    with (goto t (ReqRegister account req devices) s1).
  rewrite run_cons, (step_run _ _ _ _ (tasks_goto _ _ _)). cbn [run_task mbind option_bind].
  set (ch := fresh_chan _). fold id. set (s2 := set_pending _ _).
  rewrite run_app, send_all. cbn [mbind option_bind]. rewrite run_cons.
  rewrite (step_run _ _ _ _ (tasks_goto _ _ _)). cbn [run_task mbind option_bind].
  rewrite bool_decide_eq_false_2 by (cbn; lia).
  set (s3 := goto _ _ _). rewrite run_cons. cbn [step].
  assert (H3 : tasks s3 !! t' = None) by (cbn; by rewrite !lookup_insert_ne by done).
  rewrite option_guard_True by done. cbn [mbind option_bind].
  assert (Hp : pending s3 !! TxResult_RequestID r = Some ch) by (rewrite Hr; cbn; by rewrite lookup_insert_eq).
  rewrite Hp. rewrite run_cons, (step_run _ _ _ _ (tasks_goto _ _ _)). cbn [run_task mbind option_bind].
  assert (Hc : chans (goto t' (Deliver ch (RTx r)) s3) !! ch = Some (MkChan false id None))
    by (cbn; by rewrite lookup_insert_eq).
  unfold try_send. rewrite Hc. set (s4 := goto t' DeliverDone _).
  rewrite run_cons. cbn [step].
  assert (H4 : tasks s4 !! t = Some (ReqWait account req ch))
    by (cbn; rewrite !lookup_insert_ne by done; by rewrite lookup_insert_eq).
  assert (Hc4 : chans s4 !! ch = Some (MkChan false id (Some (RTx r)))) by (cbn; by rewrite lookup_insert_eq).
  rewrite H4, Hc4. cbn [mbind option_bind].
  rewrite run_cons, (step_run _ _ _ _ (tasks_goto _ _ _)). cbn [run_task mbind option_bind].
  rewrite run_cons, (step_run _ _ _ _ (tasks_goto _ _ _)). cbn [run_task mbind option_bind].
  rewrite devicesForAccount_eq.
  replace (reverse _) with devices by done. cbn [mbind option_bind].
  rewrite run_app, withdraw_all. cbn [mbind option_bind].
  rewrite run_cons, (step_run _ _ _ _ (tasks_goto _ _ _)). cbn [run_task mbind option_bind run].
  eexists. split; [done|]. split; [apply tasks_goto|]. split.
  - cbn. by rewrite <-app_assoc.
  - cbn. fold id. by rewrite delete_insert_eq.
Qed.

Definition two_devices : hstate :=
  default newHub (run [LBind 1 (MkAgentConn "dev1" ["nano_a"]); LBind 2 (MkAgentConn "dev2" ["nano_a"])] newHub).

Theorem request_fans_out_witness :
  let devices := reverse (bound (bindings two_devices) "nano_a") in
  devices = [2; 1] ∧
  ∃ s', run (request_labels 0 1 "nano_a" example_req example_res (length devices)) two_devices = Some s' ∧
    tasks s' !! 0 = Some (ReqDone "req_1" (Ok example_res)) ∧
    wire s' = wire two_devices ++ frames "nano_a" (requestEnv "req_1" example_req) devices
                     ++ frames "nano_a" (withdrawEnv "req_1") devices ∧
    pending s' = delete "req_1" (pending two_devices).
Proof.
  split; [by vm_compute|].
  apply (request_fans_out two_devices 0 1 "nano_a" example_req example_res);
    [by vm_compute|by vm_compute|done|apply not_elem_of_empty|by vm_compute|done].
Defined.
