(* ===== verification/Float.v ===== *)
(** * Binary64 arithmetic, for the rate limiter

    A finite float64 is an integer number of units of 2^-1074 (the smallest
    subnormal).  An operation rounds its exact result to 53 significant bits,
    to nearest, ties to even.  The limiter's values stay far below 2^1024, so
    infinities and NaN are not represented. *)

From S2P Require Import Prelude.

Local Open Scope Z_scope.

Definition float : Type := Z.
Definition unit_exp : Z := 1074.

(** Nearest integer to [n / D], ties to even. *)
Definition rne (n D : Z) : Z :=
  let m := n / D in
  let r := n mod D in
  if 2 * r <? D then m
  else if D <? 2 * r then m + 1
  else if Z.even m then m else m + 1.

(** The exponent, in units, of the last of the 53 bits of a value [v]. *)
Definition ulp_exp (v : Z) : Z := Z.max 0 (Z.log2 v - 52).

(** The float nearest to [n / d] units. *)
Definition rnd_pos (n d : Z) : float :=
  let e := ulp_exp (n / d) in rne n (d * 2 ^ e) * 2 ^ e.
Definition rnd (n d : Z) : float := if n <? 0 then - rnd_pos (- n) d else rnd_pos n d.

Definition fl_of_int (n : Z) : float := rnd (n * 2 ^ unit_exp) 1.
Definition fl_add (a b : float) : float := rnd (a + b) 1.
Definition fl_sub (a b : float) : float := rnd (a - b) 1.
Definition fl_mul (a b : float) : float := rnd (a * b) (2 ^ unit_exp).
Definition fl_div (a b : float) : float := rnd (a * 2 ^ unit_exp) b.

(** 53 bits are enough for [v]. *)
Definition representable (v : Z) : Prop := 0 ≤ v ∧ (2 ^ ulp_exp v | v).

(** ** Rounding is monotone against representable bounds *)

Lemma rne_bounds n D : 0 < D → n / D ≤ rne n D ≤ n / D + 1.
Proof. intros HD. unfold rne. repeat case_match; lia. Qed.

Lemma rne_le n D k : 0 < D → n ≤ k * D → rne n D ≤ k.
Proof.
  intros HD Hn. pose proof (Z.div_mod n D ltac:(lia)) as Hdm.
  pose proof (Z.mod_pos_bound n D HD) as Hm.
  assert (n / D ≤ k) by (apply Z.div_le_upper_bound; lia).
  destruct (decide (n / D = k)) as [He|].
  - assert (n mod D = 0) as Hr by nia. unfold rne. rewrite Hr.
    destruct (Z.ltb_spec (2 * 0) D); lia.
  - pose proof (rne_bounds n D HD). lia.
Qed.

Lemma rne_ge n D k : 0 < D → k * D ≤ n → k ≤ rne n D.
Proof.
  intros HD Hn. pose proof (rne_bounds n D HD).
  assert (k ≤ n / D) by (apply Z.div_le_lower_bound; lia). lia.
Qed.

Lemma ulp_exp_nonneg v : 0 ≤ ulp_exp v.
Proof. unfold ulp_exp. lia. Qed.

Lemma ulp_exp_mono v w : v ≤ w → ulp_exp v ≤ ulp_exp w.
Proof. intros H. unfold ulp_exp. pose proof (Z.log2_le_mono v w H). lia. Qed.

Lemma pow2_pos e : 0 ≤ e → 0 < 2 ^ e.
Proof. intros. by apply Z.pow_pos_nonneg. Qed.

Lemma representable_mult v e : representable v → 0 ≤ e ≤ ulp_exp v → ∃ k, v = k * 2 ^ e.
Proof.
  intros [_ [k Hk]] He. exists (k * 2 ^ (ulp_exp v - e)).
  rewrite <-Z.mul_assoc, <-Z.pow_add_r by lia. rewrite Hk at 1. do 2 f_equal. lia.
Qed.

Lemma rnd_nonneg n d : 0 ≤ n → 0 < d → 0 ≤ rnd n d.
Proof.
  intros Hn Hd. unfold rnd. destruct (Z.ltb_spec n 0); [lia|]. unfold rnd_pos.
  pose proof (pow2_pos _ (ulp_exp_nonneg (n / d))) as Hp.
  apply Z.mul_nonneg_nonneg; [|lia]. apply rne_ge; [nia|lia].
Qed.

(** A value at most [B] is rounded to at most [B]. *)
Lemma rnd_le n d B : 0 ≤ n → 0 < d → representable B → n ≤ B * d → rnd n d ≤ B.
Proof.
  intros Hn Hd HB Hle. unfold rnd. destruct (Z.ltb_spec n 0); [lia|]. unfold rnd_pos.
  assert (Hq : n / d ≤ B) by (apply Z.div_le_upper_bound; lia).
  pose proof (ulp_exp_nonneg (n / d)) as He0. pose proof (ulp_exp_mono _ _ Hq) as He.
  destruct (representable_mult B (ulp_exp (n / d)) HB ltac:(lia)) as [k ->].
  pose proof (pow2_pos _ He0) as Hp.
  apply Z.mul_le_mono_nonneg_r; [lia|]. apply rne_le; nia.
Qed.

(** A value at least [B] is rounded to at least [B]. *)
Lemma rnd_ge n d B : 0 < d → representable B → B * d ≤ n → B ≤ rnd n d.
Proof.
  intros Hd HB Hle. assert (Hn : 0 ≤ n) by (destruct HB; nia).
  unfold rnd. destruct (Z.ltb_spec n 0); [lia|]. unfold rnd_pos.
  assert (Hq : B ≤ n / d) by (apply Z.div_le_lower_bound; lia).
  pose proof (ulp_exp_nonneg (n / d)) as He0. pose proof (ulp_exp_mono _ _ Hq) as He.
  pose proof (pow2_pos _ He0) as Hp. set (e := ulp_exp (n / d)) in *.
  destruct (decide (e = ulp_exp B)) as [Heq|Hne].
  - destruct (representable_mult B e HB ltac:(lia)) as [k ->].
    apply Z.mul_le_mono_nonneg_r; [lia|]. apply rne_ge; nia.
  - assert (He1 : ulp_exp B < e) by lia.
    assert (Hlog : Z.log2 (n / d) = e + 52).
    { unfold e, ulp_exp in *. lia. }
    assert (Hpos : 0 < n / d).
    { destruct (Z.lt_ge_cases 0 (n / d)) as [|Hz]; [done|].
      rewrite Z.log2_nonpos in Hlog by lia. lia. }
    assert (Hnd : 2 ^ 52 * 2 ^ e ≤ n / d).
    { rewrite <-Z.pow_add_r by lia. pose proof (Z.log2_spec _ Hpos) as [Hl _].
      rewrite Hlog in Hl. replace (52 + e) with (e + 52) by lia. done. }
    assert (HB52 : B < 2 ^ 52 * 2 ^ e).
    { rewrite <-Z.pow_add_r by lia. destruct (decide (0 < B)) as [HB0|].
      - pose proof (Z.log2_spec B HB0) as [_ Hl].
        assert (2 ^ Z.succ (Z.log2 B) ≤ 2 ^ (52 + e)); [|lia].
        apply Z.pow_le_mono_r; [lia|]. unfold ulp_exp in He1. lia.
      - pose proof (pow2_pos (52 + e) ltac:(lia)). lia. }
    assert (2 ^ 52 ≤ rne n (d * 2 ^ e)).
    { apply rne_ge; [nia|]. pose proof (Z.mul_div_le n d Hd). nia. }
    nia.
Qed.

Lemma rnd_exact B d : representable B → 0 < d → rnd (B * d) d = B.
Proof.
  intros HB Hd. assert (0 ≤ B * d) by (destruct HB; nia).
  apply Z.le_antisymm; [by apply rnd_le|by apply rnd_ge].
Qed.

Lemma representable_small k : 0 ≤ k < 2 ^ 53 → representable (k * 2 ^ unit_exp).
Proof.
  intros Hk. unfold unit_exp. split; [apply Z.mul_nonneg_nonneg; [lia|by apply Z.pow_nonneg]|].
  destruct (decide (k = 0)) as [->|]; [apply Z.divide_0_r|].
  rewrite <-Z.shiftl_mul_pow2 by lia. unfold ulp_exp. rewrite Z.log2_shiftl by lia.
  rewrite Z.shiftl_mul_pow2 by lia.
  assert (Hl : Z.log2 k < 53) by (apply Z.log2_lt_pow2; lia).
  pose proof (Z.log2_nonneg k).
  exists (k * 2 ^ (1074 - Z.max 0 (Z.log2 k + 1074 - 52))).
  rewrite <-Z.mul_assoc, <-Z.pow_add_r by lia. do 2 f_equal. lia.
Qed.
