(* ===== verification/RateLimit.v ===== *)
(** * The per-key rate limiter (cmd/relay/ratelimit.go)

    Times are monotonic clock readings in nanoseconds.  A call of a method is
    one step; [now] is what [time.Now()] returns in it. *)

From S2P Require Import Prelude Float.

Local Open Scope Z_scope.

(** [time.Time.Sub] saturates at the int64 limits; [Duration.Seconds]. *)
Definition Second : Z := 1000000000.
Definition Sub (t u : Z) : Z := Z.max (- 2 ^ 63) (Z.min (2 ^ 63 - 1) (t - u)).
Definition Seconds (d : Z) : float :=
  fl_add (fl_of_int (Z.quot d Second)) (fl_div (fl_of_int (Z.rem d Second)) (fl_of_int Second)).

Record keyLimiter := MkKeyLimiter {
  tokens : float;
  last : Z;
}.

Definition keyLimiter_allow (rate burst : float) (now : Z) (l : keyLimiter) : bool * keyLimiter :=
  let tokens1 := fl_add (tokens l) (fl_mul (Seconds (Sub now (last l))) rate) in
  let tokens2 := if burst <? tokens1 then burst else tokens1 in
  if tokens2 <? fl_of_int 1 then (false, MkKeyLimiter tokens2 now)
  else (true, MkKeyLimiter (fl_sub tokens2 (fl_of_int 1)) now).

Record rateLimiter := MkRateLimiter {
  keys : gmap string keyLimiter;
  rate : float;
  burst : float;
  ttl : Z;
}.

Definition newRateLimiter (rate burst : float) (ttl : Z) : rateLimiter := MkRateLimiter ∅ rate burst ttl.

Definition with_limiters (m : gmap string keyLimiter) (rl : rateLimiter) : rateLimiter :=
  MkRateLimiter m (rate rl) (burst rl) (ttl rl).

(** [now1] is read when the key is new, [now2] in [kl.allow]. *)
Definition allow (keyID : string) (now1 now2 : Z) (rl : rateLimiter) : bool * rateLimiter :=
  let kl := match keys rl !! keyID with
            | Some kl => kl
            | None => MkKeyLimiter (burst rl) now1
            end in
  let '(ok, kl') := keyLimiter_allow (rate rl) (burst rl) now2 kl in
  (ok, with_limiters (<[keyID := kl']> (keys rl)) rl).

(** Each idle entry is deleted, whatever the iteration order. *)
Definition prune (now : Z) (rl : rateLimiter) : rateLimiter :=
  let cutoff := now - ttl rl in
  with_limiters (filter (λ e, ¬ (last e.2 < cutoff)) (keys rl)) rl.

(** http.go: [newRateLimiter(5, 20, time.Hour)]. *)
Definition serverLimiter : rateLimiter :=
  newRateLimiter (fl_of_int 5) (fl_of_int 20) (3600 * Second).

(** ** Lemmas *)

Lemma fl_of_int_small k : 0 ≤ k < 2 ^ 53 → fl_of_int k = k * 2 ^ unit_exp.
Proof.
  intros Hk. unfold fl_of_int. rewrite <-(Z.mul_1_r (k * 2 ^ unit_exp)) at 1.
  apply rnd_exact; [by apply representable_small|lia].
Qed.

Lemma fl_of_int_ge k n : 0 ≤ k < 2 ^ 53 → k ≤ n → k * 2 ^ unit_exp ≤ fl_of_int n.
Proof.
  intros Hk Hn. unfold fl_of_int. apply rnd_ge; [lia|by apply representable_small|].
  rewrite Z.mul_1_r. apply Z.mul_le_mono_nonneg_r; [|done]. by apply Z.pow_nonneg.
Qed.

Lemma fl_of_int_nonneg n : 0 ≤ n → 0 ≤ fl_of_int n.
Proof. intros. pose proof (fl_of_int_ge 0 n). lia. Qed.

Lemma Sub_nonneg t u : u ≤ t → 0 ≤ Sub t u.
Proof. unfold Sub. lia. Qed.

Lemma Seconds_ge k d : 0 ≤ k < 2 ^ 53 → k * Second ≤ d → k * 2 ^ unit_exp ≤ Seconds d.
Proof.
  intros Hk Hd. unfold Second in *. unfold Seconds, Second, fl_add, fl_div.
  rewrite Z.quot_div_nonneg, Z.rem_mod_nonneg by lia.
  pose proof (Z.mod_pos_bound d 1000000000 ltac:(lia)).
  assert (Hq : k ≤ d / 1000000000) by (apply Z.div_le_lower_bound; lia).
  pose proof (fl_of_int_ge k _ Hk Hq).
  assert (0 ≤ rnd (fl_of_int (d mod 1000000000) * 2 ^ unit_exp) (fl_of_int 1000000000)).
  { apply rnd_nonneg.
    - apply Z.mul_nonneg_nonneg; [by apply fl_of_int_nonneg; lia|by apply Z.pow_nonneg].
    - rewrite fl_of_int_small by lia. by apply Z.mul_pos_pos; [|apply Z.pow_pos_nonneg]. }
  apply rnd_ge; [lia|by apply representable_small|lia].
Qed.

Lemma Seconds_nonneg d : 0 ≤ d → 0 ≤ Seconds d.
Proof. intros. pose proof (Seconds_ge 0 d). lia. Qed.

Lemma Seconds_0 : Seconds 0 = 0.
Proof. by vm_compute. Qed.

(** Parameters the theorems are about: a rate and a burst that are floats, not
    negative. *)
Record params_ok (rl : rateLimiter) : Prop := {
  pr_rate : 0 ≤ rate rl;
  pr_burst : representable (burst rl);
}.

Lemma serverLimiter_ok : params_ok serverLimiter.
Proof.
  split; cbn; [by apply fl_of_int_nonneg|].
  rewrite fl_of_int_small by lia. apply representable_small. lia.
Qed.

Definition limiter_ok (rl : rateLimiter) (now : Z) (kl : keyLimiter) : Prop :=
  0 ≤ tokens kl ≤ burst rl ∧ last kl ≤ now.

Lemma keyLimiter_allow_ok rl now kl :
  params_ok rl → limiter_ok rl now kl →
  limiter_ok rl now (keyLimiter_allow (rate rl) (burst rl) now kl).2.
Proof.
  intros [Hr Hb] [Ht Hl]. unfold keyLimiter_allow.
  set (t1 := fl_add _ _). assert (0 ≤ t1).
  { apply rnd_nonneg; [|lia]. assert (0 ≤ fl_mul (Seconds (Sub now (last kl))) (rate rl)); [|lia].
    apply rnd_nonneg; [|by apply Z.pow_pos_nonneg].
    apply Z.mul_nonneg_nonneg; [by apply Seconds_nonneg, Sub_nonneg|done]. }
  set (t2 := if burst rl <? t1 then burst rl else t1).
  assert (H2 : 0 ≤ t2 ≤ burst rl) by (unfold t2; destruct (Z.ltb_spec (burst rl) t1); lia).
  destruct (Z.ltb_spec t2 (fl_of_int 1)) as [|H1]; cbn; [done|].
  assert (0 ≤ fl_of_int 1) by (by apply fl_of_int_nonneg).
  split; [|done]. cbn. split; [apply rnd_nonneg; lia|]. apply rnd_le; [lia|lia|done|lia].
Qed.

Definition limiters_ok (now : Z) (rl : rateLimiter) : Prop :=
  params_ok rl ∧ ∀ id kl, keys rl !! id = Some kl → limiter_ok rl now kl.

(** Calls at non-decreasing times. *)
Inductive rl_op := Allow (id : string) (now1 now2 : Z) | Prune (now : Z).
Definition op_time (op : rl_op) : Z * Z :=
  match op with Allow _ t1 t2 => (t1, t2) | Prune t => (t, t) end.
Definition rl_step (op : rl_op) (rl : rateLimiter) : rateLimiter :=
  match op with Allow id t1 t2 => (allow id t1 t2 rl).2 | Prune t => prune t rl end.
Fixpoint times_ok (now : Z) (ops : list rl_op) : Prop :=
  match ops with
  | [] => True
  | op :: ops' => now ≤ (op_time op).1 ≤ (op_time op).2 ∧ times_ok (op_time op).2 ops'
  end.

Lemma allow_ok id t1 t2 now rl :
  limiters_ok now rl → now ≤ t1 ≤ t2 → limiters_ok t2 (allow id t1 t2 rl).2.
Proof.
  intros [Hp Hk] Ht. unfold allow. destruct (keyLimiter_allow _ _ _ _) as [ok kl'] eqn:Ha.
  assert (Hkl : limiter_ok rl t2 kl').
  { change kl' with (ok, kl').2. rewrite <-Ha. apply keyLimiter_allow_ok; [done|].
    destruct (keys rl !! id) as [kl|] eqn:Hid.
    - destruct (Hk id kl Hid). split; [done|lia].
    - split; cbn; [|lia]. destruct Hp as [_ [? _]]. lia. }
  split; [by destruct Hp; split|]. cbn. intros id' kl. rewrite lookup_insert_Some.
  intros [[_ <-]|[_ Hid]]; [done|]. destruct (Hk id' kl Hid). split; [done|lia].
Qed.

Lemma prune_ok t now rl : limiters_ok now rl → now ≤ t → limiters_ok t (prune t rl).
Proof.
  intros [Hp Hk] Ht. split; [by destruct Hp; split|]. cbn. intros id kl.
  rewrite map_lookup_filter_Some. intros [Hid _]. destruct (Hk id kl Hid). split; [done|lia].
Qed.

Lemma limiters_mono t t' rl : limiters_ok t rl → t ≤ t' → limiters_ok t' rl.
Proof.
  intros [Hp Hk] Ht. split; [done|]. intros id kl Hid. destruct (Hk id kl Hid). split; [done|lia].
Qed.

(** ** Properties *)

(** C19: under the server's limiter, whatever calls arrive and whenever the janitor
    runs, with clock readings that do not go back, the tokens of every key stay
    between zero and the burst, with binary64 rounding taken into account. *)
Theorem tokens_bounded ops start id kl :
  times_ok start ops →
  keys (foldl (λ rl op, rl_step op rl) serverLimiter ops) !! id = Some kl →
  0 ≤ tokens kl ≤ fl_of_int 20.
Proof.
  intros Ht Hk.
  assert (Hgen : ∀ ops now rl, limiters_ok now rl → times_ok now ops →
    ∃ now', limiters_ok now' (foldl (λ rl op, rl_step op rl) rl ops) ∧
      burst (foldl (λ rl op, rl_step op rl) rl ops) = burst rl).
  { clear. induction ops as [|op ops IH]; intros now rl Hl Ht; [by exists now|].
    destruct Ht as [Hn Ht]. cbn [foldl].
    assert (Hl' : limiters_ok (op_time op).2 (rl_step op rl)).
    { destruct op; cbn in *; [eapply allow_ok; [done|lia]|apply (prune_ok _ now); [done|lia]]. }
    destruct (IH _ _ Hl' Ht) as (now' & ? & ->). exists now'. split; [done|].
    destruct op; cbn; [|done]. unfold allow. by destruct (keyLimiter_allow _ _ _ _). }
  destruct (Hgen ops start serverLimiter) as (now' & [_ Hok] & Hb); [|done|].
  - split; [apply serverLimiter_ok|]. intros id' kl'. cbn. by rewrite lookup_empty.
  - destruct (Hok id kl Hk) as [H _]. by rewrite Hb in H.
Qed.

Theorem tokens_bounded_witness :
  ∃ kl, keys (foldl (λ rl op, rl_step op rl) serverLimiter [Allow "k" 0 7; Prune 9]) !! "k" = Some kl ∧
        0 ≤ tokens kl ≤ fl_of_int 20.
Proof.
  eexists. split; [vm_compute; reflexivity|].
  apply (tokens_bounded [Allow "k" 0 7; Prune 9] 0 "k"); [cbn; lia|by vm_compute].
Defined.

(** [n] calls for a key at one instant. *)
Fixpoint burst_calls (n : nat) (id : string) (now : Z) (rl : rateLimiter) : list bool * rateLimiter :=
  match n with
  | O => ([], rl)
  | S n' => let '(ok, rl1) := allow id now now rl in
            let '(oks, rl2) := burst_calls n' id now rl1 in (ok :: oks, rl2)
  end.

Lemma fl_mul_0 r : fl_mul 0 r = 0.
Proof.
  unfold fl_mul. rewrite Z.mul_0_l. apply (rnd_exact 0); [|by apply Z.pow_pos_nonneg].
  apply (representable_small 0). lia.
Qed.

Lemma fl_add_0 k : 0 ≤ k < 2 ^ 53 → fl_add (fl_of_int k) 0 = fl_of_int k.
Proof.
  intros Hk. unfold fl_add. rewrite Z.add_0_r, fl_of_int_small by done.
  rewrite <-(Z.mul_1_r (k * _)) at 1. apply rnd_exact; [by apply representable_small|lia].
Qed.

Lemma fl_sub_1 k : 1 ≤ k < 2 ^ 53 → fl_sub (fl_of_int k) (fl_of_int 1) = fl_of_int (k - 1).
Proof.
  intros Hk. unfold fl_sub. rewrite !fl_of_int_small by lia. rewrite <-Z.mul_sub_distr_r.
  rewrite <-(Z.mul_1_r (_ * _)) at 1. apply rnd_exact; [apply representable_small; lia|lia].
Qed.

Lemma fl_of_int_ltb j k : 0 ≤ j < 2 ^ 53 → 0 ≤ k < 2 ^ 53 → (fl_of_int j <? fl_of_int k) = (j <? k).
Proof.
  intros Hj Hk. rewrite !fl_of_int_small by done.
  assert (0 < 2 ^ unit_exp) by (by apply Z.pow_pos_nonneg).
  destruct (Z.ltb_spec j k); [apply Z.ltb_lt|apply Z.ltb_ge]; nia.
Qed.

Lemma keyLimiter_allow_instant k now :
  0 ≤ k ≤ 20 →
  keyLimiter_allow (fl_of_int 5) (fl_of_int 20) now (MkKeyLimiter (fl_of_int k) now) =
  if k <? 1 then (false, MkKeyLimiter (fl_of_int k) now)
  else (true, MkKeyLimiter (fl_of_int (k - 1)) now).
Proof.
  intros Hk. unfold keyLimiter_allow. cbn [tokens last].
  replace (Sub now now) with 0 by (unfold Sub; lia).
  rewrite Seconds_0, fl_mul_0, fl_add_0, fl_of_int_ltb by lia.
  destruct (Z.ltb_spec 20 k) as [|_]; [lia|]. rewrite fl_of_int_ltb by lia.
  destruct (Z.ltb_spec k 1); [reflexivity|]. rewrite fl_sub_1 by lia. reflexivity.
Qed.

Lemma with_limiters_twice m m' rl : with_limiters m (with_limiters m' rl) = with_limiters m rl.
Proof. done. Qed.

Lemma allow_instant k id now m :
  0 ≤ k ≤ 20 → m !! id = Some (MkKeyLimiter (fl_of_int k) now) →
  allow id now now (with_limiters m serverLimiter) =
  (negb (k <? 1), with_limiters (<[id := MkKeyLimiter (fl_of_int (Z.max 0 (k - 1))) now]> m) serverLimiter).
Proof.
  intros Hk Hm. unfold allow. cbn [keys with_limiters]. rewrite Hm.
  cbn [rate burst with_limiters serverLimiter newRateLimiter].
  rewrite keyLimiter_allow_instant by done.
  destruct (Z.ltb_spec k 1); rewrite with_limiters_twice.
  - replace (Z.max 0 (k - 1)) with k by lia. reflexivity.
  - replace (Z.max 0 (k - 1)) with (k - 1) by lia. reflexivity.
Qed.

Lemma burst_calls_instant n k id now m :
  0 ≤ k ≤ 20 → m !! id = Some (MkKeyLimiter (fl_of_int k) now) →
  (burst_calls n id now (with_limiters m serverLimiter)).1 =
  (λ i, (Z.of_nat i <? k)) <$> seq 0 n.
Proof.
  revert k m; induction n as [|n IH]; intros k m Hk Hm; [done|]. cbn [burst_calls].
  rewrite (allow_instant k) by done.
  specialize (IH (Z.max 0 (k - 1)) (<[id := MkKeyLimiter (fl_of_int (Z.max 0 (k - 1))) now]> m)).
  destruct (burst_calls n id now _) as [oks rl2]. cbn [fst] in *.
  rewrite IH; [|lia|by rewrite lookup_insert_eq]. cbn [seq fmap list_fmap]. f_equal.
  - destruct (Z.ltb_spec k 1), (Z.ltb_spec (Z.of_nat 0) k); done || lia.
  - rewrite <-fmap_S_seq, <-list_fmap_compose. apply list_fmap_ext. intros i x _. cbn.
    destruct (Z.ltb_spec (Z.of_nat x) (Z.max 0 (k - 1))), (Z.ltb_spec (Z.of_nat (S x)) k); lia.
Qed.

(** A key that was never seen gets exactly its burst: of any number of calls
    at one instant, the first twenty are allowed and every later one refused. *)
Theorem burst_exact id now n :
  (burst_calls n id now serverLimiter).1 = (λ i, (i <? 20)%nat) <$> seq 0 n.
Proof.
  destruct n as [|n]; [done|]. cbn [burst_calls].
  assert (Ha : allow id now now serverLimiter =
    (true, with_limiters (<[id := MkKeyLimiter (fl_of_int 19) now]> ∅) serverLimiter)).
  { unfold allow. cbn [keys serverLimiter newRateLimiter rate burst]. rewrite lookup_empty.
    rewrite keyLimiter_allow_instant by lia. reflexivity. }
  rewrite Ha. pose proof (burst_calls_instant n 19 id now
    (<[id := MkKeyLimiter (fl_of_int 19) now]> ∅) ltac:(lia)) as Hb.
  rewrite lookup_insert_eq in Hb. specialize (Hb eq_refl).
  destruct (burst_calls n id now _) as [oks rl2]. cbn [fst] in *. rewrite Hb.
  cbn [seq fmap list_fmap]. f_equal.
  rewrite <-fmap_S_seq, <-list_fmap_compose. apply list_fmap_ext. intros i x _. unfold compose.
  destruct (Z.ltb_spec (Z.of_nat x) 19); symmetry; [apply Nat.ltb_lt|apply Nat.ltb_ge]; lia.
Qed.

(** A bucket that has refilled. *)
Lemma full_bucket now kl :
  fl_of_int 20 ≤ fl_add (tokens kl) (fl_mul (Seconds (Sub now (last kl))) (fl_of_int 5)) →
  keyLimiter_allow (fl_of_int 5) (fl_of_int 20) now kl = (true, MkKeyLimiter (fl_of_int 19) now).
Proof.
  intros Hfull. unfold keyLimiter_allow. set (t1 := fl_add _ _) in *.
  assert (Ht2 : (if fl_of_int 20 <? t1 then fl_of_int 20 else t1) = fl_of_int 20)
    by (destruct (Z.ltb_spec (fl_of_int 20) t1); lia).
  rewrite Ht2. by vm_compute.
Qed.

Lemma refill_nonneg now kl : last kl ≤ now → 0 ≤ fl_mul (Seconds (Sub now (last kl))) (fl_of_int 5).
Proof.
  intros Hl. apply rnd_nonneg; [|by apply Z.pow_pos_nonneg].
  apply Z.mul_nonneg_nonneg; [by apply Seconds_nonneg, Sub_nonneg|by apply fl_of_int_nonneg].
Qed.

Lemma full_new now t : t ≤ now →
  keyLimiter_allow (fl_of_int 5) (fl_of_int 20) now (MkKeyLimiter (fl_of_int 20) t) =
  (true, MkKeyLimiter (fl_of_int 19) now).
Proof.
  intros Ht. apply full_bucket. pose proof (refill_nonneg now (MkKeyLimiter (fl_of_int 20) t) Ht).
  cbn [tokens last] in *. apply rnd_ge; [lia| |lia].
  rewrite fl_of_int_small by lia. apply representable_small. lia.
Qed.

Lemma full_after_ttl now kl :
  0 ≤ tokens kl → 3600 * Second ≤ now - last kl →
  keyLimiter_allow (fl_of_int 5) (fl_of_int 20) now kl = (true, MkKeyLimiter (fl_of_int 19) now).
Proof.
  intros Ht Hd. apply full_bucket.
  assert (Hs : 3600 * 2 ^ unit_exp ≤ Seconds (Sub now (last kl))).
  { apply Seconds_ge; [lia|]. unfold Sub, Second in *. lia. }
  pose proof (Z.pow_pos_nonneg 2 unit_exp ltac:(lia) ltac:(done)) as Hp.
  rewrite (fl_of_int_small 20) by lia.
  assert (20 * 2 ^ unit_exp ≤ fl_mul (Seconds (Sub now (last kl))) (fl_of_int 5)).
  { apply rnd_ge; [done|apply representable_small; lia|].
    rewrite (fl_of_int_small 5) by lia. nia. }
  apply rnd_ge; [lia|apply representable_small; lia|lia].
Qed.

Definition server_params (rl : rateLimiter) : Prop :=
  rate rl = rate serverLimiter ∧ burst rl = burst serverLimiter ∧ ttl rl = ttl serverLimiter.

Lemma server_params_allow id t1 t2 rl : server_params rl → server_params (allow id t1 t2 rl).2.
Proof. unfold allow. by destruct (keyLimiter_allow _ _ _ _). Qed.

Definition bucket (id : string) (t1 : Z) (rl : rateLimiter) : keyLimiter :=
  match keys rl !! id with Some kl => kl | None => MkKeyLimiter (burst rl) t1 end.

Lemma allow_result id t1 t2 rl :
  (allow id t1 t2 rl).1 = (keyLimiter_allow (rate rl) (burst rl) t2 (bucket id t1 rl)).1 ∧
  keys (allow id t1 t2 rl).2 !! id = Some (keyLimiter_allow (rate rl) (burst rl) t2 (bucket id t1 rl)).2.
Proof.
  unfold allow. fold (bucket id t1 rl). destruct (keyLimiter_allow _ _ _ _) as [ok kl'].
  split; [done|]. cbn [snd with_limiters keys]. apply lookup_insert_eq.
Qed.

(** C36: pruning is invisible: in any state the server's limiter can be in (buckets
    within bounds and not used after now), an entry the janitor removes has
    been idle for more than an hour, long enough to be full again, so the next
    call for any key, at a later time, is answered, and leaves that key's
    bucket, as if nothing had been removed. *)
Theorem prune_transparent rl now id t1 t2 :
  server_params rl → limiters_ok now rl → now ≤ t1 ≤ t2 →
  (allow id t1 t2 (prune now rl)).1 = (allow id t1 t2 rl).1 ∧
  keys (allow id t1 t2 (prune now rl)).2 !! id = keys (allow id t1 t2 rl).2 !! id.
Proof.
  intros (Hr & Hb & Httl) [_ Hok] Ht.
  destruct (allow_result id t1 t2 (prune now rl)) as [-> ->].
  destruct (allow_result id t1 t2 rl) as [-> ->].
  change (rate (prune now rl)) with (rate rl). change (burst (prune now rl)) with (burst rl).
  assert (Hsame : keyLimiter_allow (rate rl) (burst rl) t2 (bucket id t1 (prune now rl)) =
                  keyLimiter_allow (rate rl) (burst rl) t2 (bucket id t1 rl)); [|rewrite Hsame; split; reflexivity].
  unfold bucket. cbn [prune with_limiters keys burst].
  destruct (keys rl !! id) as [kl|] eqn:Hk.
  - destruct (Hok id kl Hk) as [Htok Hl].
    destruct (decide (last kl < now - ttl rl)) as [Hidle|Hfresh].
    + rewrite map_lookup_filter_None_2.
      * rewrite Hr, Hb. cbn [rate burst serverLimiter newRateLimiter].
        rewrite full_new by lia. rewrite full_after_ttl; [reflexivity|lia|].
        rewrite Httl in Hidle. cbn [ttl serverLimiter newRateLimiter] in Hidle. lia.
      * right. intros x Hx Hn. rewrite Hk in Hx. injection Hx as <-. by apply Hn.
    + rewrite (map_lookup_filter_Some_2 _ (keys rl) id kl) by done. reflexivity.
  - rewrite map_lookup_filter_None_2 by by left. reflexivity.
Qed.

Theorem prune_transparent_witness :
  let rl := (allow "k" 0 0 serverLimiter).2 in
  let now := 3601 * Second in
  keys (prune now rl) !! "k" = None ∧
  (allow "k" now now (prune now rl)).1 = (allow "k" now now rl).1 ∧
  keys (allow "k" now now (prune now rl)).2 !! "k" = keys (allow "k" now now rl).2 !! "k".
Proof.
  intros rl now. split; [vm_compute; reflexivity|].
  apply (prune_transparent rl now "k" now now); [| |split; reflexivity].
  { apply server_params_allow. split; [reflexivity|split; reflexivity]. }
  apply (limiters_mono 0); [|done].
  apply (allow_ok _ _ _ 0); [|done]. split; [apply serverLimiter_ok|]. intros id kl. cbn. by rewrite lookup_empty.
Defined.
