(* ===== verification/Agent.v ===== *)
(** * The agent connection (cmd/relay/http.go: handleAgent, enroll,
    verifyAccountSig, agentReadLoop)

    The WebSocket (gorilla) is outside: what [ReadJSON] yields is an argument,
    [None] for an error, and what is written or done to the hub is the list of
    actions a handler performs, in order. *)

From S2P Require Import Prelude GoStd Base32 Hash Blake2bRef Account Edwards Keys Sign Protocol Hub.

(** [randomBytes(n)]: a failing random source panics. *)
Definition randomBytes (n : Z) (rnd : list byte + error) : res (list byte) :=
  match rnd with inl bs => Ok (take (Z.to_nat n) bs) | inr _ => Panic end.

Section agent.
Context {B2 : Blake2b} {E : Edwards25519}.

Definition verifyAccountSig (addr : string) (nonce : list byte) (sigHex : string) : res bool :=
  match ParseAddress addr with
  | Err _ => Ok false
  | Panic => Panic
  | Ok pub =>
      match hex.DecodeString sigHex with
      | Err _ => Ok false
      | Panic => Panic
      | Ok raw =>
          if negb (Z.of_nat (length raw) =? 64)%Z then Ok false
          else VerifyChallenge pub nonce (array_of 64 raw)
      end
  end.

(** The body of the loop over the announced accounts. *)
Definition prove (sigs : gmap string string) (nonce : list byte) (addr : string)
    (proven : list string) : res (list string) :=
  match sigs !! addr with
  | None => Ok proven
  | Some sigHex =>
      ok ← verifyAccountSig addr nonce sigHex;
      Ok (if (ok : bool) then proven ++ [addr] else proven)
  end.

(** [enroll]: [hello] and [auth] are the two frames read, [rnd] the random
    source, [werr] what writing the challenge reports.  The frames written and
    the enrolled connection or the error. *)
Definition enroll (hello : option Envelope) (rnd : list byte + error) (werr : option error)
    (auth : option Envelope) : list Envelope * res agentConn :=
  match hello with
  | Some env =>
      match bool_decide (Envelope_Type env = TypeHello), Envelope_Hello env with
      | true, Some h =>
          if bool_decide (length (Hello_Accounts h) = 0)
          then ([], Err (ErrString "hello announced no accounts"))
          else match randomBytes 32 rnd with
          | Ok nonce =>
              let frame := challengeEnv (MkChallenge nonce) in
              match werr with
              | Some err => ([], Err err)
              | None =>
                  ([frame],
                   match auth with
                   | Some env2 =>
                       match bool_decide (Envelope_Type env2 = TypeAuth), Envelope_Auth env2 with
                       | true, Some a =>
                           proven ← for_range (Hello_Accounts h) (prove (Auth_Signatures a) nonce) [];
                           if bool_decide (length proven = 0)
                           then Err (ErrString "no account proved control")
                           else Ok (MkAgentConn (Hello_DeviceID h) proven)
                       | _, _ => Err (ErrString "expected auth")
                       end
                   | None => Err (ErrString "expected auth")
                   end)
              end
          | Err e => ([], Err e)
          | Panic => ([], Panic)
          end
      | _, _ => ([], Err (ErrString "expected hello"))
      end
  | None => ([], Err (ErrString "expected hello"))
  end.
End agent.

(** ** What a handler does, in order *)

Inductive action :=
| AWrite (env : Envelope)                    (* a frame written to this socket *)
| ABind (a : agentConn)
| AUnbind (a : agentConn)
| ADeliverResult (r : TxResult)
| ADeliverQueryResult (id : string) (qr : QueryResult)
| AControl (c : Control)                     (* handleControl *)
| AClose.

(** One frame of the read loop. *)
Definition dispatch (env : Envelope) : list action :=
  if bool_decide (Envelope_Type env = TypeResult) then
    match Envelope_Result env with Some r => [ADeliverResult r] | None => [] end
  else if bool_decide (Envelope_Type env = TypeControl) then
    match Envelope_Control env with Some c => [AControl c] | None => [] end
  else if bool_decide (Envelope_Type env = TypeQueryResult) then
    match Envelope_QueryResult env with
    | Some qr => [ADeliverQueryResult (Envelope_ID env) qr] | None => [] end
  else [].

(** [agentReadLoop]: frames until [ReadJSON] fails. *)
Fixpoint agentReadLoop (frames : list (option Envelope)) : list action :=
  match frames with
  | Some env :: frames' => dispatch env ++ agentReadLoop frames'
  | _ => []
  end.

(** The message of an error, as [err.Error()] gives it (without the rendering
    of the byte of [hex.InvalidByteError], which is never sent). *)
Fixpoint Error (e : error) : string :=
  match e with
  | ErrNotFound => "not found"
  | errAccountOffline => "no device is online for this account"
  | DeadlineExceeded => "context deadline exceeded"
  | Canceled => "context canceled"
  | HexInvalidByte _ => "encoding/hex: invalid byte"
  | HexErrLength => "encoding/hex: odd length hex string"
  | ErrString s => s
  | ErrWrap s e => s +:+ ": " +:+ Error e
  end.

(** [handleAgent]: [upgraded] is whether the upgrade succeeds; an error of
    enrollment is written to the socket; [Panic] of enrollment propagates. *)
Definition handleAgent {B2 : Blake2b} {E : Edwards25519} (upgraded : bool)
    (hello : option Envelope) (rnd : list byte + error) (werr : option error)
    (auth : option Envelope) (frames : list (option Envelope)) : res (list action) :=
  if negb upgraded then Ok []
  else
    let '(written, out) := enroll hello rnd werr auth in
    match out with
    | Panic => Panic
    | Err err => Ok ((AWrite <$> written) ++ [AWrite (errorEnv (Error err)); AClose])
    | Ok a =>
        Ok ((AWrite <$> written) ++
            [ABind a; AWrite (welcomeEnv (MkWelcome (accounts a)))] ++
            agentReadLoop frames ++ [AUnbind a; AClose])
    end.

(** ** Lemmas *)

(** An address that verifies for the nonce, with the signature given for it. *)
Definition proves {B2 : Blake2b} {E : Edwards25519} (sigs : gmap string string) (nonce : list byte)
    (addr : string) : Prop :=
  ∃ sigHex raw pub, sigs !! addr = Some sigHex ∧ hex.DecodeString sigHex = Ok raw ∧
    length raw = 64 ∧ ParseAddress addr = Ok pub ∧ VerifyChallenge pub nonce (array_of 64 raw) = Ok true.

Section lemmas.
Context {B2 : Blake2b} {B2L : Blake2bLaws} {E : Edwards25519} {EL : Edwards25519Laws}.

Lemma verifyAccountSig_spec addr nonce sigHex :
  ∃ b, verifyAccountSig addr nonce sigHex = Ok b ∧
    (b = true ↔ ∃ raw pub, hex.DecodeString sigHex = Ok raw ∧ length raw = 64 ∧
       ParseAddress addr = Ok pub ∧ VerifyChallenge pub nonce (array_of 64 raw) = Ok true).
Proof.
  unfold verifyAccountSig. pose proof (ParseAddress_total addr) as Hp.
  destruct (ParseAddress addr) as [pub|e|]; [| |done].
  2: { exists false. split; [done|]. split; [done|]. by intros (? & ? & _ & _ & ? & _). }
  pose proof (hex.decode_no_panic (bytes_of sigHex)) as Hh. fold (hex.DecodeString sigHex) in Hh.
  destruct (hex.DecodeString sigHex) as [raw|e|]; [| |done].
  2: { exists false. split; [done|]. split; [done|]. by intros (? & ? & ? & _). }
  destruct (Z.eqb_spec (Z.of_nat (length raw)) 64) as [Hl|Hl]; cbn [negb].
  - destruct (VerifyChallenge_total pub nonce (array_of 64 raw)) as [b Hb]. exists b.
    split; [done|]. split.
    + intros ->. exists raw, pub. split_and!; [done|lia|done|done].
    + intros (raw' & pub' & ? & _ & ? & Hv). simplify_eq. congruence.
  - exists false. split; [done|]. split; [done|]. intros (raw' & pub' & ? & Hl' & _). simplify_eq. lia.
Qed.

(** The loop keeps exactly the accounts that prove control. *)
Lemma prove_loop sigs nonce accts proven :
  ∃ l, for_range accts (prove sigs nonce) proven = Ok (proven ++ l) ∧ l `sublist_of` accts ∧
       (∀ addr, addr ∈ l ↔ addr ∈ accts ∧ proves sigs nonce addr).
Proof.
  revert proven; induction accts as [|addr accts IH]; intros proven.
  { exists []. cbn. rewrite app_nil_r. split_and!; [done..|]. set_solver. }
  cbn [for_range].
  assert (Hp : prove sigs nonce addr proven = match sigs !! addr with
    | None => Ok proven
    | Some sigHex => ok ← verifyAccountSig addr nonce sigHex;
                     Ok (if (ok : bool) then proven ++ [addr] else proven) end) by done.
  rewrite Hp. destruct (sigs !! addr) as [sigHex|] eqn:Hs.
  - destruct (verifyAccountSig_spec addr nonce sigHex) as (b & -> & Hb). cbn [mbind res_bind].
    assert (Hpr : b = true ↔ proves sigs nonce addr).
    { rewrite Hb. unfold proves. split.
      - intros (raw & pub & ? & ? & ? & ?). by exists sigHex, raw, pub.
      - intros (sh & raw & pub & ? & ? & ? & ? & ?). simplify_eq. by exists raw, pub. }
    destruct (IH (if b then proven ++ [addr] else proven)) as (l & -> & Hsub & Hl).
    destruct b.
    + exists (addr :: l). rewrite <-app_assoc. split; [done|]. split; [by constructor|].
      intros x. rewrite !elem_of_cons, Hl. destruct Hpr as [Hpr _]. specialize (Hpr eq_refl).
      split; [intros [->|[? ?]]; auto|intros [[->|?] ?]; auto].
    + exists l. split; [done|]. split; [by constructor|].
      intros x. rewrite Hl, elem_of_cons. destruct Hpr as [_ Hpr].
      split; [intros [? ?]; auto|intros [[->|?] Hp']; [by apply Hpr in Hp'|auto]].
  - cbn [mbind res_bind]. destruct (IH proven) as (l & -> & Hsub & Hl). exists l.
    split; [done|]. split; [by constructor|]. intros x. rewrite Hl, elem_of_cons.
    split; [intros [? ?]; auto|]. intros [[->|?] Hpr]; [|done].
    destruct Hpr as (? & ? & ? & ? & _). congruence.
Qed.

Lemma prove_all sigs nonce accts proven :
  Forall (proves sigs nonce) accts → for_range accts (prove sigs nonce) proven = Ok (proven ++ accts).
Proof.
  intros Hall. revert proven; induction Hall as [|addr accts Hp Hall IH]; intros proven.
  { cbn. by rewrite app_nil_r. }
  assert (Hstep : prove sigs nonce addr proven = Ok (proven ++ [addr])).
  { destruct Hp as (sigHex & raw & pub & Hs & ? & ? & ? & ?). unfold prove. rewrite Hs.
    destruct (verifyAccountSig_spec addr nonce sigHex) as (b & -> & Hb).
    assert (b = true) as -> by (apply Hb; by exists raw, pub). done. }
  cbn [for_range]. rewrite Hstep. cbn [mbind res_bind]. by rewrite IH, <-app_assoc.
Qed.

(** An accepted enrollment wrote the challenge and nothing else. *)
Lemma enroll_shape hello rnd werr auth :
  match enroll hello (inl rnd) werr auth with
  | (written, Ok _) => written = [challengeEnv (MkChallenge (take 32 rnd))]
  | _ => True
  end.
Proof.
  unfold enroll. destruct hello as [henv|]; [|done].
  destruct (bool_decide _); [|done]. destruct (Envelope_Hello henv); [|done].
  case_bool_decide; [done|]. cbn [randomBytes]. destruct werr; [done|]. by case_match.
Qed.

Lemma readLoop_no_bind frames :
  Forall (λ x, ∀ b, x ≠ ABind b ∧ x ≠ AUnbind b) (agentReadLoop frames).
Proof.
  induction frames as [|[env|] frames IH]; [constructor| |constructor].
  cbn [agentReadLoop]. apply Forall_app; split; [|done].
  unfold dispatch. repeat case_match; repeat constructor; done.
Qed.
End lemmas.

(** ** Properties *)

Section props.
Context {B2 : Blake2b} {B2L : Blake2bLaws} {E : Edwards25519} {EL : Edwards25519Laws}.

Lemma enroll_spec hello rnd werr auth :
  match enroll hello (inl rnd) werr auth with
  | (frames, Ok a) =>
      let nonce := take 32 rnd in
      frames = [challengeEnv (MkChallenge nonce)] ∧ accounts a ≠ [] ∧
      ∃ henv h aenv au, hello = Some henv ∧ Envelope_Hello henv = Some h ∧
        auth = Some aenv ∧ Envelope_Auth aenv = Some au ∧
        deviceID a = Hello_DeviceID h ∧ accounts a `sublist_of` Hello_Accounts h ∧
        ∀ addr, addr ∈ accounts a ↔ addr ∈ Hello_Accounts h ∧ proves (Auth_Signatures au) nonce addr
  | (_, Err _) => True
  | (_, Panic) => False
  end.
Proof.
  unfold enroll. destruct hello as [henv|]; [|done].
  destruct (bool_decide _); [|done]. destruct (Envelope_Hello henv) as [h|] eqn:Hh; [|done].
  case_bool_decide; [done|]. cbn [randomBytes]. change (Z.to_nat 32) with 32.
  destruct werr as [err|]; [done|]. destruct auth as [aenv|]; [|done].
  destruct (bool_decide _); [|done]. destruct (Envelope_Auth aenv) as [au|] eqn:Ha; [|done].
  destruct (prove_loop (Auth_Signatures au) (take 32 rnd) (Hello_Accounts h) [])
    as (l & -> & Hsub & Hl). cbn [mbind res_bind app].
  case_bool_decide as Hlen; [done|]. split; [done|]. cbn [accounts deviceID].
  split; [by intros ->|]. by exists henv, h, aenv, au.
Qed.

(** C9: enrollment is sound: the accounts of an accepted connection are, in the
    order announced, exactly those announced accounts for which the device
    sent a signature of this connection's nonce that verifies under the
    account's own key; there is at least one.  With a working random source
    enrollment never panics, whatever the frames. *)
Theorem enroll_sound hello rnd werr auth :
  match enroll hello (inl rnd) werr auth with
  | (frames, Ok a) =>
      let nonce := take 32 rnd in
      frames = [challengeEnv (MkChallenge nonce)] ∧ accounts a ≠ [] ∧
      ∃ henv h aenv au, hello = Some henv ∧ Envelope_Hello henv = Some h ∧
        auth = Some aenv ∧ Envelope_Auth aenv = Some au ∧
        deviceID a = Hello_DeviceID h ∧ accounts a `sublist_of` Hello_Accounts h ∧
        ∀ addr, addr ∈ accounts a ↔ addr ∈ Hello_Accounts h ∧ proves (Auth_Signatures au) nonce addr
  | (_, Err _) => True
  | (_, Panic) => False
  end.
Proof. apply enroll_spec. Qed.

(** The signature a device sends for the account of its key. *)
Definition signs_for (sigs : gmap string string) (nonce : list byte) (addr : string) : Prop :=
  ∃ pk pub sig, Public pk = Ok pub ∧ Address pub = Ok addr ∧ SignChallenge pk nonce = Ok sig ∧
    sigs !! addr = Some (hex.EncodeToString (vec_to_list sig)).

Lemma signs_for_proves sigs nonce addr : signs_for sigs nonce addr → proves sigs nonce addr.
Proof.
  intros (pk & pub & sig & Hpub & Haddr & Hsig & Hs).
  destruct (SignChallenge_accepted pk nonce) as (pub' & sig' & H1 & H2 & Hv).
  assert (pub' = pub) as -> by congruence. assert (sig' = sig) as -> by congruence.
  exists (hex.EncodeToString (vec_to_list sig)), (vec_to_list sig), pub.
  rewrite hex.DecodeString_EncodeToString, length_vec_to_list, array_of_vec.
  split; [done|]. split; [done|]. split; [done|]. split; [by apply Address_parses|done].
Qed.

Lemma enroll_accepts dev addrs sigs rnd :
  addrs ≠ [] → Forall (signs_for sigs (take 32 rnd)) addrs →
  ∀ henv aenv, Envelope_Type henv = TypeHello → Envelope_Hello henv = Some (MkHello dev addrs) →
  Envelope_Type aenv = TypeAuth → Envelope_Auth aenv = Some (MkAuth sigs) →
  enroll (Some henv) (inl rnd) None (Some aenv) =
    ([challengeEnv (MkChallenge (take 32 rnd))], Ok (MkAgentConn dev addrs)).
Proof.
  intros Hne Hall henv aenv Ht Hh Hta Ha. unfold enroll.
  rewrite (bool_decide_eq_true_2 _ Ht), Hh. cbn [Hello_Accounts Hello_DeviceID].
  rewrite bool_decide_eq_false_2 by (by destruct addrs). cbn [randomBytes].
  change (Z.to_nat 32) with 32. rewrite (bool_decide_eq_true_2 _ Hta), Ha. cbn [Auth_Signatures].
  destruct (prove_loop sigs (take 32 rnd) addrs []) as (l & Hl & Hsub & Hin). rewrite Hl.
  cbn [mbind res_bind app].
  assert (Hall' : for_range addrs (prove sigs (take 32 rnd)) [] = Ok ([] ++ addrs)).
  { apply prove_all. eapply Forall_impl; [done|]. apply signs_for_proves. }
  cbn [app] in Hl, Hall'. assert (l = addrs) as -> by congruence.
  by rewrite bool_decide_eq_false_2 by (by destruct addrs).
Qed.

(** Enrollment is complete: a device that announces accounts whose private
    keys it holds, and signs the nonce it is sent with each, is accepted with
    all of them bound, after exactly one challenge. *)
Theorem enroll_complete dev addrs sigs rnd :
  addrs ≠ [] → Forall (signs_for sigs (take 32 rnd)) addrs →
  ∀ henv aenv, Envelope_Type henv = TypeHello → Envelope_Hello henv = Some (MkHello dev addrs) →
  Envelope_Type aenv = TypeAuth → Envelope_Auth aenv = Some (MkAuth sigs) →
  enroll (Some henv) (inl rnd) None (Some aenv) =
    ([challengeEnv (MkChallenge (take 32 rnd))], Ok (MkAgentConn dev addrs)).
Proof. apply enroll_accepts. Qed.

(** A connection does nothing before it is enrolled, and is always unbound:
    either nothing but frames to that socket is written, or every result,
    query result and control message is handled after the device was bound,
    with exactly the proven accounts, and before it is unbound, once, at the
    end. *)
Theorem handleAgent_bracketed upgraded hello rnd werr auth frames acts :
  handleAgent upgraded hello (inl rnd) werr auth frames = Ok acts →
  Forall (λ x, (∃ env, x = AWrite env) ∨ x = AClose) acts ∨
  ∃ a, (enroll hello (inl rnd) werr auth).2 = Ok a ∧
    acts = [AWrite (challengeEnv (MkChallenge (take 32 rnd))); ABind a;
            AWrite (welcomeEnv (MkWelcome (accounts a)))] ++ agentReadLoop frames ++ [AUnbind a; AClose] ∧
    Forall (λ x, ∀ b, x ≠ ABind b ∧ x ≠ AUnbind b) (agentReadLoop frames).
Proof.
  unfold handleAgent. destruct upgraded; cbn [negb]; [|intros [= <-]; by left].
  pose proof (enroll_shape hello rnd werr auth) as Hs.
  destruct (enroll hello (inl rnd) werr auth) as [written out].
  destruct out as [a|err|]; [| |done]; intros Hok.
  - right. exists a. split; [done|]. subst written.
    split; [injection Hok as <-; reflexivity|].
    apply readLoop_no_bind.
  - left. assert (acts = (AWrite <$> written) ++ [AWrite (errorEnv (Error err)); AClose]) as -> by congruence.
    apply Forall_app; split; [apply Forall_fmap, Forall_forall; eauto|].
    constructor; [left; eauto|]. constructor; [by right|constructor].
Qed.
End props.

(** ** Witnesses: one key of the toy curve, its address and its signature *)

Definition w_pub : PublicKey := match @Public _ toy25519 zero_seed with Ok p => p | _ => zero_seed end.
Definition w_addr : string := match Address w_pub with Ok a => a | _ => "" end.
Definition w_nonce : list byte := replicate 32 x2a.
Definition w_sig : string :=
  match @SignChallenge _ toy25519 zero_seed w_nonce with
  | Ok sig => hex.EncodeToString (vec_to_list sig) | _ => "" end.
Definition w_sigs : gmap string string := {[w_addr := w_sig]}.
Definition w_hello : Envelope :=
  MkEnvelope 2 TypeHello "" (Some (MkHello "dev" [w_addr])) None None None None None None None None "".
Definition w_auth : Envelope :=
  MkEnvelope 2 TypeAuth "" None None (Some (MkAuth w_sigs)) None None None None None None "".

Lemma w_signs : Forall (@signs_for _ toy25519 w_sigs (take 32 w_nonce)) [w_addr].
Proof.
  repeat constructor. unfold signs_for.
  destruct (@SignChallenge_accepted _ _ toy25519 toy25519_laws zero_seed w_nonce) as (pub & sig & Hp & Hs & _).
  assert (Hw : w_pub = pub) by (unfold w_pub; by rewrite Hp).
  exists zero_seed, pub, sig. split; [done|].
  assert (Ha : Address pub = Ok w_addr).
  { rewrite <-Hw. unfold w_addr. by destruct (Address_spec w_pub) as (lo & hi & -> & _). }
  split; [done|]. split; [done|]. unfold w_sigs.
  assert (w_sig = hex.EncodeToString (vec_to_list sig)) as -> by (unfold w_sig; by rewrite Hs).
  apply lookup_singleton_eq.
Qed.

Lemma w_enrolled :
  @enroll _ toy25519 (Some w_hello) (inl w_nonce) None (Some w_auth) =
    ([challengeEnv (MkChallenge (take 32 w_nonce))], Ok (MkAgentConn "dev" [w_addr])).
Proof. by apply (@enroll_accepts _ _ toy25519 toy25519_laws "dev" [w_addr] w_sigs w_nonce); [|apply w_signs|..]. Qed.

Theorem enroll_sound_witness : @proves _ toy25519 w_sigs (take 32 w_nonce) w_addr.
Proof.
  pose proof (@enroll_sound _ _ toy25519 toy25519_laws (Some w_hello) w_nonce None (Some w_auth)) as H.
  rewrite w_enrolled in H. destruct H as (_ & _ & henv & h & aenv & au & H1 & H2 & H3 & H4 & _ & _ & H5).
  injection H1 as <-. injection H2 as <-. injection H3 as <-. injection H4 as <-.
  apply (H5 w_addr). by left.
Defined.

Theorem enroll_complete_witness :
  @enroll _ toy25519 (Some w_hello) (inl w_nonce) None (Some w_auth) =
    ([challengeEnv (MkChallenge (take 32 w_nonce))], Ok (MkAgentConn "dev" [w_addr])).
Proof.
  by apply (@enroll_complete _ _ toy25519 toy25519_laws "dev" [w_addr] w_sigs w_nonce); [|apply w_signs|..].
Defined.

(** The enrolled device sends one query result, then the socket fails. *)
Definition w_frames : list (option Envelope) :=
  [Some (MkEnvelope 2 TypeQueryResult "q1" None None None None None None None None (Some (MkQueryResult "" [])) "");
   None].

Theorem handleAgent_bracketed_witness :
  ∃ acts a, @handleAgent _ toy25519 true (Some w_hello) (inl w_nonce) None (Some w_auth) w_frames = Ok acts ∧
    acts = [AWrite (challengeEnv (MkChallenge (take 32 w_nonce))); ABind a;
            AWrite (welcomeEnv (MkWelcome (accounts a)))] ++
           [ADeliverQueryResult "q1" (MkQueryResult "" [])] ++ [AUnbind a; AClose].
Proof.
  assert (Hacts : ∃ acts, @handleAgent _ toy25519 true (Some w_hello) (inl w_nonce) None (Some w_auth) w_frames = Ok acts).
  { unfold handleAgent. rewrite w_enrolled. by eexists. }
  destruct Hacts as [acts Hacts]. exists acts.
  destruct (@handleAgent_bracketed _ toy25519 true (Some w_hello) w_nonce None (Some w_auth) w_frames acts Hacts)
    as [H|(a & _ & -> & _)].
  - unfold handleAgent in Hacts. rewrite w_enrolled in Hacts. injection Hacts as <-.
    exfalso. by apply Forall_cons in H as [_ [[[? [=]]|[=]] _]%Forall_cons].
  - exists a. split; [exact Hacts|reflexivity].
Defined.
