(* ===== verification/ControlOps.v ===== *)
(** * Key and policy management by an agent (cmd/relay/http.go: handleControl)

    Proved against the interface [Store]: the theorems hold for the in-memory
    and for the SQLite store.  [ctx i] is the fate of the [i]th store call the
    handler makes under its ten-second context. *)

From S2P Require Import Prelude Sha256 Utf8 Protocol Hub Agent Store MemStore StoreProps.

Fixpoint contains (l : list string) (v : string) : bool :=
  match l with
  | [] => false
  | x :: l' => if bool_decide (x = v) then true else contains l' v
  end.

(** ** The reply, assigned field by field *)

Definition with_error (msg : string) (r : Control) : Control :=
  MkControl (Control_Op r) (Control_CorrID r) (Control_Account r) (Control_KeyID r) (Control_Hash r)
    (Control_AllowedOrigins r) (Control_Version r) (Control_Blob r) msg.
Definition with_keyID (id : string) (r : Control) : Control :=
  MkControl (Control_Op r) (Control_CorrID r) (Control_Account r) id (Control_Hash r)
    (Control_AllowedOrigins r) (Control_Version r) (Control_Blob r) (Control_Error r).
Definition with_account (acc : string) (r : Control) : Control :=
  MkControl (Control_Op r) (Control_CorrID r) acc (Control_KeyID r) (Control_Hash r)
    (Control_AllowedOrigins r) (Control_Version r) (Control_Blob r) (Control_Error r).
Definition with_policy (version : Z) (blob : gslice byte) (r : Control) : Control :=
  MkControl (Control_Op r) (Control_CorrID r) (Control_Account r) (Control_KeyID r) (Control_Hash r)
    (Control_AllowedOrigins r) version blob (Control_Error r).

Definition no_control : string := "you do not control that account on this device".

Section control.
Context {S : Type} {St : Store S}.

(** The search for the owner among the device's accounts: the first account
    for which the store call succeeds. *)
Fixpoint first_success (f : nat → string → S → option error * S) (i : nat) (accs : list string) (s : S) :
    bool * S :=
  match accs with
  | [] => (false, s)
  | acc :: accs' =>
      let '(e, s1) := f i acc s in
      match e with
      | None => (true, s1)
      | Some _ => first_success f (Datatypes.S i) accs' s1
      end
  end.

Definition register_key (ctx : nat → fate) (accs : list string) (c : Control) (reply : Control) (s : S) :
    Control * S :=
  if negb (contains accs (Control_Account c)) then (with_error no_control reply, s)
  else if bool_decide (Control_KeyID c = "" ∨ Control_Hash c = "")
  then (with_error "register_key requires key_id and hash" reply, s)
  else
    let '(err, s1) := RegisterAPIKey (ctx 0) (Control_KeyID c) (Control_Account c) (Control_Hash c) s in
    match err with
    | Some e => (with_error (Error e) reply, s1)
    | None =>
        let s2 := if bool_decide (0 < length (elems (Control_AllowedOrigins c)))
                  then (UpdateKeyOrigins (ctx 1) (Control_KeyID c) (Control_Account c)
                          (Control_AllowedOrigins c) s1).2
                  else s1 in
        (with_account (Control_Account c) (with_keyID (Control_KeyID c) reply), s2)
    end.

Definition rebind_key (ctx : nat → fate) (accs : list string) (c : Control) (reply : Control) (s : S) :
    Control * S :=
  if negb (contains accs (Control_Account c)) then (with_error no_control reply, s)
  else if bool_decide (Control_KeyID c = "") then (with_error "rebind_key requires key_id" reply, s)
  else
    let '(rebound, s1) := first_success
      (λ i acc, RebindAPIKey (ctx i) (Control_KeyID c) acc (Control_Account c)) 0 accs s in
    if rebound then (with_account (Control_Account c) (with_keyID (Control_KeyID c) reply), s1)
    else (with_error "key not found" reply, s1).

Definition revoke_key (ctx : nat → fate) (accs : list string) (c : Control) (reply : Control) (s : S) :
    Control * S :=
  let '(found, s1) := first_success (λ i acc, RevokeAPIKey (ctx i) acc (Control_KeyID c)) 0 accs s in
  ((if found then reply else with_error "key not found" reply), s1).

Definition update_origins (ctx : nat → fate) (accs : list string) (c : Control) (reply : Control) (s : S) :
    Control * S :=
  if negb (contains accs (Control_Account c)) then (with_error no_control reply, s)
  else if bool_decide (Control_KeyID c = "") then (with_error "update_origins requires key_id" reply, s)
  else
    let '(err, s1) := UpdateKeyOrigins (ctx 0) (Control_KeyID c) (Control_Account c)
                        (Control_AllowedOrigins c) s in
    match err with
    | Some e => (with_error (Error e) reply, s1)
    | None => (with_keyID (Control_KeyID c) reply, s1)
    end.

Definition put_policy (ctx : nat → fate) (accs : list string) (c : Control) (reply : Control) (s : S) :
    Control * S :=
  if negb (contains accs (Control_Account c)) then (with_error no_control reply, s)
  else
    let '(err, s1) := PutPolicy (ctx 0) (Control_Account c) (Control_Version c) (Control_Blob c) s in
    match err with
    | Some e => (with_error (Error e) reply, s1)
    | None => (reply, s1)
    end.

Definition get_policy (ctx : nat → fate) (accs : list string) (c : Control) (reply : Control) (s : S) :
    Control * S :=
  if negb (contains accs (Control_Account c)) then (with_error no_control reply, s)
  else
    match GetPolicy (ctx 0) (Control_Account c) s with
    | Err e => (with_error (Error e) reply, s)
    | Panic => (reply, s)
    | Ok (version, blob, found) =>
        (with_account (Control_Account c) (if (found : bool) then with_policy version blob reply else reply), s)
    end.

(** The reply and the store afterwards. *)
Definition handleControl (ctx : nat → fate) (accs : list string) (c : Control) (s : S) : Control * S :=
  let reply := resultControl (Control_CorrID c) in
  if bool_decide (Control_Op c = "register_key") then register_key ctx accs c reply s
  else if bool_decide (Control_Op c = "rebind_key") then rebind_key ctx accs c reply s
  else if bool_decide (Control_Op c = "revoke_key") then revoke_key ctx accs c reply s
  else if bool_decide (Control_Op c = "update_origins") then update_origins ctx accs c reply s
  else if bool_decide (Control_Op c = "put_policy") then put_policy ctx accs c reply s
  else if bool_decide (Control_Op c = "get_policy") then get_policy ctx accs c reply s
  else (with_error "unknown control op" reply, s).
End control.

(** ** Lemmas *)

Lemma contains_spec l v : contains l v = true ↔ v ∈ l.
Proof.
  induction l as [|x l IH]; cbn; [set_solver|]. rewrite elem_of_cons.
  case_bool_decide; [naive_solver|]. rewrite IH. naive_solver.
Qed.

Lemma contains_decide l v : contains l v = bool_decide (v ∈ l).
Proof. apply eq_true_iff_eq. by rewrite contains_spec, bool_decide_eq_true. Qed.

(** Nothing outside the accounts [accs] is touched. *)
Record confined (accs : list string) (sp sp' : store_spec) : Prop := {
  cf_keep id k : sp_keys sp !! id = Some k → ks_owner k ∉ accs → sp_keys sp' !! id = Some k;
  cf_new id k : sp_keys sp' !! id = Some k → sp_keys sp !! id = Some k ∨ ks_owner k ∈ accs;
  cf_policy acc : acc ∉ accs → sp_policy sp' !! acc = sp_policy sp !! acc;
}.

#[export] Instance confined_refl accs : Reflexive (confined accs).
Proof. intros sp. split; auto. Qed.

#[export] Instance confined_trans accs : Transitive (confined accs).
Proof.
  intros s1 s2 s3 [A1 B1 C1] [A2 B2 C2]. split.
  - intros id k H Ho. by apply A2; [apply A1|].
  - intros id k [H|H]%B2; [|by right]. by apply B1.
  - intros acc Hacc. by rewrite C2, C1.
Qed.

(** Whatever the operation, a key that is there afterwards was there, or
    belongs to an account of the device. *)
Definition grows (accs : list string) (sp sp' : store_spec) : Prop :=
  ∀ id k, sp_keys sp' !! id = Some k → sp_keys sp !! id = Some k ∨ ks_owner k ∈ accs.

#[export] Instance grows_refl accs : Reflexive (grows accs).
Proof. intros sp id k. by left. Qed.

Lemma confined_update accs sp id owner f :
  owner ∈ accs → (∀ k k', f k = Some k' → ks_owner k = owner → ks_owner k' ∈ accs) →
  confined accs sp (spec_update id owner f sp).2.
Proof.
  intros Hin Hf. unfold spec_update. destruct (owned sp id owner) as [k|] eqn:Ho; [|by cbn].
  apply owned_Some in Ho as [Hk Ho]. split; cbn.
  - intros id' k' Hk' Hn. rewrite lookup_partial_alter_ne; [done|]. intros ->. simplify_eq. congruence.
  - intros id' k'. rewrite lookup_partial_alter_Some. intros [[<- Hf']|[_ ?]]; [right|by left].
    by eapply Hf.
  - done.
Qed.

Lemma confined_register accs sp id owner hash :
  owner ∈ accs → (∀ k, sp_keys sp !! id = Some k → ks_owner k ∈ accs) →
  confined accs sp (spec_register id owner hash sp).2.
Proof.
  intros Hin Hold. split; cbn.
  - intros id' k Hk Hn. rewrite lookup_insert_ne; [done|]. intros <-. by apply Hn, Hold.
  - intros id' k [[<- <-]|[_ ?]]%lookup_insert_Some; [by right|by left].
  - done.
Qed.

Lemma confined_put accs sp acc v bs : acc ∈ accs → confined accs sp (spec_put acc v bs sp).2.
Proof.
  intros Hin. unfold spec_put. cbn. set (newer := match _ with Some _ => _ | None => _ end).
  destruct newer; [|done]. split; cbn; auto.
  intros acc' Hn. rewrite lookup_insert_ne; [done|]. by intros <-.
Qed.

(** ** What a write may do *)

(** The write concerns keys and policies of the accounts [accs] only. *)
Definition permitted (accs : list string) (op : store_op) : Prop :=
  match op with
  | OpRegister _ owner _ | OpRevoke owner _ | OpOrigins _ owner _ | OpPut owner _ _ => owner ∈ accs
  | OpRebind _ old new => old ∈ accs ∧ new ∈ accs
  end.

(** A registration is of a new id, or of one of the accounts' own. *)
Definition own_id (accs : list string) (sp : store_spec) (op : store_op) : Prop :=
  match op with
  | OpRegister id _ _ => ∀ k, sp_keys sp !! id = Some k → ks_owner k ∈ accs
  | _ => True
  end.

Lemma confined_grows accs sp sp' : confined accs sp sp' → grows accs sp sp'.
Proof. intros Hc id k. apply (cf_new accs sp sp' Hc). Qed.

Lemma permitted_confined accs op sp :
  permitted accs op → own_id accs sp op → confined accs sp (spec_op op sp).2.
Proof.
  destruct op as [id owner hash|owner id|id old new|id owner origins|acct v blob]; cbn [permitted own_id spec_op].
  - apply confined_register.
  - intros Hin _. by apply confined_update.
  - intros [Ho Hn] _. apply confined_update; [done|]. by intros k k' [= <-] _.
  - intros Hin _. apply confined_update; [done|]. intros k k' [= <-] Hk. cbn. by rewrite Hk.
  - intros Hin _. by apply confined_put.
Qed.

Lemma permitted_grows accs op sp : permitted accs op → grows accs sp (spec_op op sp).2.
Proof.
  intros Hp. destruct op as [id owner hash| | | |]; [|by apply confined_grows, permitted_confined..].
  intros id' k. cbn. intros [[<- <-]|[_ ?]]%lookup_insert_Some; [by right|by left].
Qed.

Lemma same_target_permitted accs op op' : same_target op op' → permitted accs op → permitted accs op'.
Proof. by intros [->|(id & owner & os & os' & -> & ->)]. Qed.

Lemma same_target_own_id accs sp op op' : same_target op op' → own_id accs sp op → own_id accs sp op'.
Proof. by intros [->|(id & owner & os & os' & -> & ->)]. Qed.

Section laws.
Context {S : Type} {St : Store S} {SL : StoreLaws S}.

Lemma write_confined accs f op s sp :
  represents s sp → op_free op sp → permitted accs op → own_id accs sp op →
  ∃ sp', represents (apply_op f op s).2 sp' ∧ confined accs sp sp'.
Proof.
  intros Hr Hf Hp Ho. apply write_related; [apply _|done..|]. intros op' Ht.
  apply permitted_confined; [by eapply same_target_permitted|by eapply same_target_own_id].
Qed.

Lemma write_grows accs f op s sp :
  represents s sp → op_free op sp → permitted accs op →
  ∃ sp', represents (apply_op f op s).2 sp' ∧ grows accs sp sp'.
Proof.
  intros Hr Hf Hp. apply write_related; [apply _|done..|]. intros op' Ht.
  by eapply permitted_grows, same_target_permitted.
Qed.

(** A search confined at each call is confined. *)
Lemma first_success_confined accs (f : nat → string → S → option error * S) l :
  (∀ i acc s sp, acc ∈ l → represents s sp →
     ∃ sp', represents (f i acc s).2 sp' ∧ confined accs sp sp') →
  ∀ i s sp, represents s sp →
  ∃ sp', represents (first_success f i l s).2 sp' ∧ confined accs sp sp'.
Proof.
  induction l as [|acc l IH]; intros Hf i s sp Hr; [by exists sp|]. cbn.
  destruct (Hf i acc s sp ltac:(by left) Hr) as (sp1 & Hr1 & Hc1).
  destruct (f i acc s) as [[e|] s1]; cbn in *; [|by exists sp1].
  destruct (IH ltac:(intros; apply Hf; [by right|done]) (Datatypes.S i) s1 sp1 Hr1) as (sp2 & Hr2 & Hc2).
  exists sp2. split; [done|]. by etrans.
Qed.
End laws.

(** ** Properties *)

(** A guard on the account: refused, or the account is one of the device's. *)
Ltac account_guard :=
  match goal with
  | |- context [contains ?accs ?a] =>
      let H := fresh "Hin" in
      destruct (contains accs a) eqn:H; [apply contains_spec in H|]; cbn [negb]
  end.

Section props.
Context {S : Type} {St : Store S} {SL : StoreLaws S}.

Lemma register_key_confined ctx accs c reply s sp :
  represents s sp → hash_free sp (Control_KeyID c) (Control_Hash c) →
  (∀ k, sp_keys sp !! Control_KeyID c = Some k → ks_owner k ∈ accs) →
  ∃ sp', represents (register_key ctx accs c reply s).2 sp' ∧ confined accs sp sp'.
Proof.
  intros Hr Hf Hown. unfold register_key. account_guard; [|by exists sp].
  case_bool_decide; [by exists sp|].
  destruct (write_confined accs (ctx 0) (OpRegister (Control_KeyID c) (Control_Account c) (Control_Hash c)) s sp
    Hr Hf Hin Hown) as (sp1 & Hr1 & Hc1). cbn [apply_op] in Hr1.
  destruct (RegisterAPIKey _ _ _ _ s) as [[e|] s1]; cbn [fst snd] in *; [by exists sp1|].
  case_bool_decide; [|by exists sp1].
  destruct (write_confined accs (ctx 1) (OpOrigins (Control_KeyID c) (Control_Account c) (Control_AllowedOrigins c))
    s1 sp1 Hr1 I Hin I) as (sp2 & Hr2 & Hc2).
  exists sp2. split; [done|by etrans].
Qed.

(** Every operation but the registration of a key is confined. *)
Lemma handleControl_confined ctx accs c s sp :
  represents s sp → Control_Op c ≠ "register_key" →
  ∃ sp', represents (handleControl ctx accs c s).2 sp' ∧ confined accs sp sp'.
Proof.
  intros Hr H1. unfold handleControl. rewrite (bool_decide_eq_false_2 _ H1).
  case_bool_decide as H2.
  { unfold rebind_key. account_guard; [|by exists sp]. case_bool_decide; [by exists sp|].
    destruct (first_success_confined accs
      (λ i acc, RebindAPIKey (ctx i) (Control_KeyID c) acc (Control_Account c)) accs
      ltac:(intros i acc s' sp' ? ?; by apply (write_confined accs (ctx i) (OpRebind _ acc _))) 0 s sp Hr) as (sp' & Hr' & Hc').
    destruct (first_success _ _ _ _) as [[] s1]; by exists sp'. }
  case_bool_decide as H3.
  { unfold revoke_key.
    destruct (first_success_confined accs
      (λ i acc, RevokeAPIKey (ctx i) acc (Control_KeyID c)) accs
      ltac:(intros i acc s' sp' ? ?; by apply (write_confined accs (ctx i) (OpRevoke acc _)))
      0 s sp Hr) as (sp' & Hr' & Hc').
    destruct (first_success _ _ _ _) as [b s1]; by exists sp'. }
  case_bool_decide as H4.
  { unfold update_origins. account_guard; [|by exists sp]. case_bool_decide; [by exists sp|].
    destruct (write_confined accs (ctx 0) (OpOrigins (Control_KeyID c) (Control_Account c) (Control_AllowedOrigins c))
      s sp Hr I Hin I) as (sp' & Hr' & Hc'). cbn [apply_op] in Hr'.
    destruct (UpdateKeyOrigins _ _ _ _ s) as [[e|] s1]; by exists sp'. }
  case_bool_decide as H5.
  { unfold put_policy. account_guard; [|by exists sp].
    destruct (write_confined accs (ctx 0) (OpPut (Control_Account c) (Control_Version c) (Control_Blob c))
      s sp Hr I Hin I) as (sp' & Hr' & Hc'). cbn [apply_op] in Hr'.
    destruct (PutPolicy _ _ _ _ s) as [[e|] s1]; by exists sp'. }
  case_bool_decide as H6; [|by exists sp].
  unfold get_policy. account_guard; [|by exists sp].
  destruct (GetPolicy _ _ s) as [[[v bl] []]|e|]; by exists sp.
Qed.

(** C10: an agent only reaches its own keys: after a control message, whichever
    store calls fail, the keys of accounts the device has not proved and their
    policies are as they were, and every key that appears or changes belongs to
    one of its accounts.  This holds without condition of every message but
    [register_key] (any arguments, valid or not); of a [register_key] it holds
    when the key id is new or already belongs to one of the device's accounts,
    and no key of another id has the hash.  Neither condition can be
    dropped: registering another account's key id takes that key over
    ([register_takes_over]), and on the in-memory store registering another
    key's hash takes that key's secret ([duplicate_hash_diverges]). *)
Theorem control_confined ctx accs c s sp :
  represents s sp →
  (Control_Op c = "register_key" →
   (∀ k, sp_keys sp !! Control_KeyID c = Some k → ks_owner k ∈ accs) ∧
   hash_free sp (Control_KeyID c) (Control_Hash c)) →
  ∃ sp', represents (handleControl ctx accs c s).2 sp' ∧ confined accs sp sp'.
Proof.
  intros Hr Hreg. destruct (decide (Control_Op c = "register_key")) as [H1|H1]; [|by apply handleControl_confined].
  destruct (Hreg H1) as [Hown Hf]. unfold handleControl. rewrite (bool_decide_eq_true_2 _ H1).
  by apply register_key_confined.
Qed.

(** For an account the device has not proved, every operation that names one
    is refused with the same message and without touching the store; and every
    reply, of whatever kind, is a "result" that carries the correlation id of
    the message. *)
Theorem control_unproved_refused ctx accs c s :
  (Control_Account c ∉ accs →
   Control_Op c ∈ ["register_key"; "rebind_key"; "update_origins"; "put_policy"; "get_policy"] →
   handleControl ctx accs c s = (with_error no_control (resultControl (Control_CorrID c)), s)) ∧
  Control_CorrID (handleControl ctx accs c s).1 = Control_CorrID c ∧
  Control_Op (handleControl ctx accs c s).1 = "result".
Proof.
  split.
  - intros Hn Hop.
    assert (Hc : contains accs (Control_Account c) = false).
    { apply not_true_iff_false. by rewrite contains_spec. }
    unfold handleControl, register_key, rebind_key, update_origins, put_policy, get_policy.
    rewrite Hc. cbn [negb]. rewrite !elem_of_cons in Hop.
    destruct Hop as [->|[->|[->|[->|[->|?%elem_of_nil]]]]]; done.
  - unfold handleControl, register_key, rebind_key, revoke_key, update_origins, put_policy, get_policy.
    repeat case_bool_decide; cbn [negb]; repeat case_match; done.
Qed.

(** One of the accounts [accs] owns the key. *)
Definition owned_among (accs : list string) (sp : store_spec) (id : string) : bool :=
  match sp_keys sp !! id with Some k => bool_decide (ks_owner k ∈ accs) | None => false end.

(** The search over the accounts finds the key exactly when one of them owns it. *)
Lemma first_success_owner id g (f : nat → string → S → option error * S) l i s sp :
  (∀ i acc s sp, represents s sp →
     (f i acc s).1 = (spec_update id acc g sp).1 ∧ represents (f i acc s).2 (spec_update id acc g sp).2) →
  represents s sp →
  (first_success f i l s).1 = owned_among l sp id ∧
  represents (first_success f i l s).2
    (if owned_among l sp id then with_keys (partial_alter (λ o, o ≫= g) id) sp else sp).
Proof.
  intros Hf. unfold owned_among. revert i s; induction l as [|acc l IH]; intros i s Hr.
  { by destruct (sp_keys sp !! id). }
  cbn [first_success]. destruct (Hf i acc s sp Hr) as [He Hr1].
  destruct (f i acc s) as [e s1]. cbn [fst snd] in *. subst e.
  unfold spec_update, owned in *. destruct (sp_keys sp !! id) as [k|] eqn:Hk; cbn in *; [|by apply IH].
  destruct (decide (ks_owner k = acc)) as [Ho|Ho].
  - rewrite (bool_decide_eq_true_2 (ks_owner k = acc)) in Hr1 |- * by done.
    rewrite (bool_decide_eq_true_2 (ks_owner k ∈ acc :: l)) by (subst; by left).
    split; [done|]. cbn in Hr1 |- *. unfold with_keys in *. erewrite partial_alter_ext; [exact Hr1|].
    intros o <-. by rewrite Hk.
  - rewrite (bool_decide_eq_false_2 (ks_owner k = acc)) in Hr1 |- * by done. cbn in Hr1 |- *.
    rewrite (bool_decide_ext (_ ∈ acc :: l) (ks_owner k ∈ l)) by (rewrite elem_of_cons; naive_solver).
    by apply IH.
Qed.

Lemma runs_update f id acc g s sp out :
  writes represents f out sp (spec_update id acc g) → f = Runs → represents s sp →
  out.1 = (spec_update id acc g sp).1 ∧ represents out.2 (spec_update id acc g sp).2.
Proof. intros [?|(? & ? & -> & _)] ??; done. Qed.

(** C24: moving and revoking a key, when no store call fails.  A [rebind_key] to
    an account the device has not proved, or without a key id, is refused with
    its message and does not touch the store.  Any other [rebind_key] moves the
    key to the requested account, its hash and origins kept, exactly when one of
    the device's accounts owns it, and [revoke_key] removes it exactly when one
    of them owns it; otherwise the reply is "key not found" and the stored keys
    and policies are what they were. *)
Theorem rebind_and_revoke ctx accs c s sp :
  (∀ i, ctx i = Runs) → represents s sp →
  let id := Control_KeyID c in let target := Control_Account c in
  let reply := resultControl (Control_CorrID c) in
  let '(answer, s') := handleControl ctx accs c s in
  let becomes g := represents s' (with_keys (partial_alter (λ o, o ≫= g) id) sp) in
  (Control_Op c = "rebind_key" →
   if decide (target ∈ accs) then
     if decide (id = "") then answer = with_error "rebind_key requires key_id" reply ∧ s' = s
     else if owned_among accs sp id
     then answer = with_account target (with_keyID id reply) ∧
          becomes (λ k, Some (MkKeySpec target (ks_hash k) (ks_origins k)))
     else answer = with_error "key not found" reply ∧ represents s' sp
   else answer = with_error no_control reply ∧ s' = s) ∧
  (Control_Op c = "revoke_key" →
   if owned_among accs sp id then answer = reply ∧ becomes (λ _, None)
   else answer = with_error "key not found" reply ∧ represents s' sp).
Proof.
  intros Hctx Hr id target reply. destruct (handleControl ctx accs c s) as [answer s'] eqn:Hout.
  intros becomes. unfold handleControl in Hout. split; intros Hop; rewrite Hop in Hout.
  - rewrite bool_decide_eq_false_2, bool_decide_eq_true_2 in Hout by done. unfold rebind_key in Hout.
    rewrite contains_decide in Hout.
    destruct (decide (target ∈ accs)) as [Hin|Hin]; [|rewrite (bool_decide_eq_false_2 _ Hin) in Hout; by injection Hout as <- <-].
    rewrite (bool_decide_eq_true_2 _ Hin) in Hout. cbn [negb] in Hout. fold id target reply in Hout.
    destruct (decide (id = "")) as [Hid|Hid];
      [rewrite (bool_decide_eq_true_2 _ Hid) in Hout; by injection Hout as <- <-|rewrite (bool_decide_eq_false_2 _ Hid) in Hout].
    destruct (first_success_owner id (λ k, Some (MkKeySpec target (ks_hash k) (ks_origins k)))
      (λ i acc, RebindAPIKey (ctx i) id acc target) accs 0 s sp) as [Hb Hs];
      [intros; eapply runs_update; [by apply rebind_law|by apply Hctx|done]|done|].
    destruct (first_success _ 0 accs s) as [b s1]. cbn [fst snd] in *. subst b.
    by destruct (owned_among accs sp id); injection Hout as <- <-.
  - rewrite !(bool_decide_eq_false_2 ("revoke_key" = _)), bool_decide_eq_true_2 in Hout by done.
    unfold revoke_key in Hout.
    destruct (first_success_owner id (λ _, None) (λ i acc, RevokeAPIKey (ctx i) acc id) accs 0 s sp) as [Hb Hs];
      [intros; eapply runs_update; [by apply revoke_law|by apply Hctx|done]|done|].
    fold id in Hout. destruct (first_success _ 0 accs s) as [b s1]. cbn [fst snd] in *. subst b.
    by destruct (owned_among accs sp id); injection Hout as <- <-.
Qed.

(** C29: policy sync: when no store call fails, what one device of an account puts
    (a blob that is not nil), any other device of that account gets, when the
    version is newer than the stored one or none is stored; an older or equal
    version leaves what the other device gets unchanged. *)
Theorem policy_sync ctx1 ctx2 accs1 accs2 corr1 corr2 acct v blob s sp :
  (∀ i, ctx1 i = Runs) → (∀ i, ctx2 i = Runs) → represents s sp → acct ∈ accs1 → acct ∈ accs2 →
  let put := MkControl "put_policy" corr1 acct "" "" None v (Some blob) "" in
  let get := MkControl "get_policy" corr2 acct "" "" None 0 None "" in
  let '(r1, s1) := handleControl ctx1 accs1 put s in
  let '(r2, s2) := handleControl ctx2 accs2 get s1 in
  let newest := match sp_policy sp !! acct with
                | Some cur => if (cur.1 <? v)%Z then (v, blob) else cur
                | None => (v, blob) end in
  Control_Error r1 = "" ∧ Control_Error r2 = "" ∧ Control_CorrID r2 = corr2 ∧
  Control_Version r2 = newest.1 ∧ elems (Control_Blob r2) = newest.2 ∧ s2 = s1.
Proof.
  intros Hc1 Hc2 Hr H1 H2 put get. subst put get. unfold handleControl, put_policy, get_policy.
  cbn [Control_Op Control_CorrID Control_Account Control_Version Control_Blob].
  rewrite !(bool_decide_eq_false_2 ("put_policy" = _)), (bool_decide_eq_true_2 ("put_policy" = _)) by done.
  rewrite (proj2 (contains_spec accs1 acct) H1). cbn [negb].
  destruct (write_runs (OpPut acct v (Some blob)) s sp Hr ltac:(by eexists)) as [He Hr1].
  cbn [apply_op spec_op] in He, Hr1. rewrite Hc1.
  destruct (PutPolicy Runs acct v (Some blob) s) as [e s1]. cbn [fst snd] in *.
  change (elems (Some blob)) with blob in *. subst e. cbn [spec_put fst].
  rewrite !(bool_decide_eq_false_2 ("get_policy" = _)), (bool_decide_eq_true_2 ("get_policy" = _)) by done.
  rewrite (proj2 (contains_spec accs2 acct) H2). cbn [negb].
  rewrite Hc2. pose proof (reads_runs _ _ (get_law Runs acct s1 _ Hr1)) as R. unfold spec_get, spec_put in R.
  cbn in R. destruct (sp_policy sp !! acct) as [cur|] eqn:Hcur.
  - destruct (cur.1 <? v)%Z.
    + cbn in R. rewrite lookup_insert_eq in R. destruct R as (b & -> & Hb). by split_and!.
    + rewrite Hcur in R. destruct cur as [cv cb]. destruct R as (b & -> & Hb). by split_and!.
  - cbn in R. rewrite lookup_insert_eq in R. destruct R as (b & -> & Hb). by split_and!.
Qed.

(** C39: the ownership of a key is not checked on registration: a device that
    registers, for an account of its own, a key id that belongs to an account
    it has not proved, with a new hash and no origins, is not refused (when no
    store call fails); it takes the key over, with its origins, and the owner's
    secret stops resolving. *)
Theorem register_takes_over ctx accs c s sp k secret :
  (∀ i, ctx i = Runs) → represents s sp → Control_Op c = "register_key" →
  Control_Account c ∈ accs → Control_KeyID c ≠ "" → Control_Hash c ≠ "" →
  elems (Control_AllowedOrigins c) = [] → hash_free sp (Control_KeyID c) (Control_Hash c) →
  sp_keys sp !! Control_KeyID c = Some k → ks_owner k ∉ accs →
  ks_hash k = hashSecret secret → Control_Hash c ≠ hashSecret secret →
  let '(reply, s') := handleControl ctx accs c s in
  Control_Error reply = "" ∧ ResolveAPIKey Runs secret s' = Err ErrNotFound ∧
  represents s' (with_keys (<[Control_KeyID c := MkKeySpec (Control_Account c) (Control_Hash c) (ks_origins k)]>) sp).
Proof.
  intros Hctx Hr Hop Hin Hid Hh Horg Hf Hk Hno Hsec Hne. unfold handleControl.
  rewrite (bool_decide_eq_true_2 _ Hop). unfold register_key.
  rewrite (proj2 (contains_spec accs (Control_Account c)) Hin). cbn [negb].
  rewrite bool_decide_eq_false_2 by (by intros [?|?]).
  destruct (write_runs (OpRegister (Control_KeyID c) (Control_Account c) (Control_Hash c)) s sp Hr Hf)
    as [He Hr1]. cbn [apply_op spec_op] in He, Hr1. rewrite Hctx.
  destruct (RegisterAPIKey Runs _ _ _ s) as [e s1]. cbn [fst snd] in *. subst e.
  unfold spec_register in *. rewrite Hk in *. cbn [fst snd] in *.
  rewrite Horg, bool_decide_eq_false_2 by (cbn; lia). split; [done|]. split; [|done].
  apply (resolve_None _ _ _ Hr1). intros id ks Hks Heq. cbn in Hks.
  apply lookup_insert_Some in Hks as [[<- <-]|[Hn Hks]]; [done|].
  apply Hn. apply (represents_unique s sp Hr _ _ k ks); [done..|congruence].
Qed.
End props.

(** ** Witnesses, on the store of StoreProps: "key_1" of nano_a *)

Definition all_run : nat → fate := λ _, Runs.
Definition ctl (op account key hash : string) : Control :=
  MkControl op "corr" account key hash None 0 None "".

Theorem control_confined_witness :
  ∃ sp', represents (handleControl all_run ["nano_b"] (ctl "revoke_key" "nano_a" "key_1" "") mem1).2 sp' ∧
         confined ["nano_b"] spec1 sp'.
Proof.
  apply (control_confined all_run ["nano_b"] (ctl "revoke_key" "nano_a" "key_1" "") mem1 spec1);
    [apply mem1_repr|done].
Defined.

Theorem control_unproved_refused_witness :
  (handleControl all_run ["nano_b"] (ctl "put_policy" "nano_a" "" "") mem1 =
     (with_error no_control (resultControl "corr"), mem1)) ∧
  Control_CorrID (handleControl all_run ["nano_b"] (ctl "put_policy" "nano_a" "" "") mem1).1 = "corr" ∧
  Control_Op (handleControl all_run ["nano_b"] (ctl "put_policy" "nano_a" "" "") mem1).1 = "result".
Proof.
  destruct (control_unproved_refused all_run ["nano_b"] (ctl "put_policy" "nano_a" "" "") mem1) as (H1 & H2 & H3).
  split; [apply H1; set_solver|]. split; [exact H2|exact H3].
Defined.

Theorem rebind_and_revoke_witness :
  let out := handleControl all_run ["nano_b"; "nano_a"] (ctl "rebind_key" "nano_b" "key_1" "") mem1 in
  out.1 = with_account "nano_b" (with_keyID "key_1" (resultControl "corr")) ∧
  represents out.2 (with_keys (partial_alter (λ o, o ≫= λ k,
    Some (MkKeySpec "nano_b" (ks_hash k) (ks_origins k))) "key_1") spec1).
Proof.
  pose proof (rebind_and_revoke all_run ["nano_b"; "nano_a"] (ctl "rebind_key" "nano_b" "key_1" "") mem1 spec1
    ltac:(done) mem1_repr) as H.
  cbn zeta in H |- *. destruct (handleControl _ _ _ _) as [answer s']. destruct H as [H _]. specialize (H eq_refl).
  rewrite spec1_eq in *. exact H.
Defined.

Theorem policy_sync_witness :
  let put := MkControl "put_policy" "c1" "nano_a" "" "" None 3 (Some [x01]) "" in
  let get := MkControl "get_policy" "c2" "nano_a" "" "" None 0 None "" in
  let '(r1, s1) := handleControl all_run ["nano_a"] put mem1 in
  let '(r2, s2) := handleControl all_run ["nano_z"; "nano_a"] get s1 in
  let newest := match sp_policy spec1 !! "nano_a" with
                | Some cur => if (cur.1 <? 3)%Z then (3%Z, [x01]) else cur
                | None => (3%Z, [x01]) end in
  Control_Error r1 = "" ∧ Control_Error r2 = "" ∧ Control_CorrID r2 = "c2" ∧
  Control_Version r2 = newest.1 ∧ elems (Control_Blob r2) = newest.2 ∧ s2 = s1.
Proof.
  apply (policy_sync all_run all_run ["nano_a"] ["nano_z"; "nano_a"] "c1" "c2" "nano_a" 3 [x01] mem1 spec1);
    [done|done|apply mem1_repr|by left|right; by left].
Defined.

Theorem register_takes_over_witness :
  let '(reply, s') := handleControl all_run ["nano_b"] (ctl "register_key" "nano_b" "key_1" "h") mem1 in
  Control_Error reply = "" ∧ ResolveAPIKey Runs "s1" s' = Err ErrNotFound ∧
  represents s' (with_keys (<["key_1" := MkKeySpec "nano_b" "h" []]>) spec1).
Proof.
  apply (register_takes_over all_run ["nano_b"] (ctl "register_key" "nano_b" "key_1" "h") mem1 spec1
    (MkKeySpec "nano_a" (hashSecret "s1") []) "s1");
    [intros i; reflexivity|apply mem1_repr|reflexivity|by left|discriminate|discriminate|reflexivity
    |apply spec1_free|rewrite spec1_eq; reflexivity|cbn; set_solver|reflexivity|].
  intros H. vm_compute in H. discriminate H.
Defined.
