(* ===== verification/ControlSteps.v ===== *)
(** * handleControl, one store call at a time (cmd/relay/http.go)

    [handleControl] takes no lock across its store calls: between two of them
    the read loops of other connections make theirs.  A [program] is what is
    left to do of one control message: the next store call and what follows
    its answer, up to the reply.  Run with nothing in between it is
    [ControlOps.handleControl]; [System] interleaves the calls. *)

From S2P Require Import Prelude Sha256 Utf8 Protocol Hub Agent Store MemStore StoreProps ControlOps.

Inductive program :=
| Reply (reply : Control)
| Write (op : store_op) (k : option error → program)
| ReadPolicy (account : string) (k : res (Z * gslice byte * bool) → program).

(** The loops over [a.accounts]: the first account for which the call succeeds. *)
Fixpoint search (op : string → store_op) (accs : list string) (found missing : program) : program :=
  match accs with
  | [] => missing
  | acc :: accs' =>
      Write (op acc) (λ e, match e with None => found | Some _ => search op accs' found missing end)
  end.

(** The calls [handleControl] makes for a message, in order. *)
Definition control_program (accs : list string) (c : Control) : program :=
  let reply := resultControl (Control_CorrID c) in
  let refuse msg := Reply (with_error msg reply) in
  let id := Control_KeyID c in
  let acct := Control_Account c in
  let mine := contains accs acct in
  let registered := Reply (with_account acct (with_keyID id reply)) in
  if bool_decide (Control_Op c = "register_key") then
    if negb mine then refuse no_control
    else if bool_decide (id = "" ∨ Control_Hash c = "") then refuse "register_key requires key_id and hash"
    else Write (OpRegister id acct (Control_Hash c)) (λ e, match e with
      | Some e => refuse (Error e)
      | None =>
          if bool_decide (0 < length (elems (Control_AllowedOrigins c)))
          then Write (OpOrigins id acct (Control_AllowedOrigins c)) (λ _, registered)
          else registered
      end)
  else if bool_decide (Control_Op c = "rebind_key") then
    if negb mine then refuse no_control
    else if bool_decide (id = "") then refuse "rebind_key requires key_id"
    else search (λ acc, OpRebind id acc acct) accs registered (refuse "key not found")
  else if bool_decide (Control_Op c = "revoke_key") then
    search (λ acc, OpRevoke acc id) accs (Reply reply) (refuse "key not found")
  else if bool_decide (Control_Op c = "update_origins") then
    if negb mine then refuse no_control
    else if bool_decide (id = "") then refuse "update_origins requires key_id"
    else Write (OpOrigins id acct (Control_AllowedOrigins c)) (λ e, match e with
      | Some e => refuse (Error e)
      | None => Reply (with_keyID id reply)
      end)
  else if bool_decide (Control_Op c = "put_policy") then
    if negb mine then refuse no_control
    else Write (OpPut acct (Control_Version c) (Control_Blob c)) (λ e, match e with
      | Some e => refuse (Error e)
      | None => Reply reply
      end)
  else if bool_decide (Control_Op c = "get_policy") then
    if negb mine then refuse no_control
    else ReadPolicy acct (λ r, match r with
      | Err e => refuse (Error e)
      | Panic => Reply reply
      | Ok (version, blob, found) =>
          Reply (with_account acct (if (found : bool) then with_policy version blob reply else reply))
      end)
  else refuse "unknown control op".

(** ** Alone *)

Section alone.
Context {S : Type} {St : Store S}.

(** The program with no other call in between; [ctx i] is the fate of its
    [i]th call. *)
Fixpoint run_program (ctx : nat → fate) (i : nat) (p : program) (s : S) : Control * S :=
  match p with
  | Reply reply => (reply, s)
  | Write op k => let '(e, s1) := apply_op (ctx i) op s in run_program ctx (Datatypes.S i) (k e) s1
  | ReadPolicy acc k => run_program ctx (Datatypes.S i) (k (GetPolicy (ctx i) acc s)) s
  end.

Lemma run_search ctx op accs (found missing : Control) i s :
  run_program ctx i (search op accs (Reply found) (Reply missing)) s =
  (let '(b, s1) := first_success (λ i acc, apply_op (ctx i) (op acc)) i accs s in
   (if b then found else missing, s1)).
Proof.
  revert i s. induction accs as [|acc accs IH]; intros i s; [done|]. cbn [search run_program first_success].
  destruct (apply_op (ctx i) (op acc) s) as [[e|] s1]; [apply IH|done].
Qed.

Lemma run_control_program ctx accs c s :
  run_program ctx 0 (control_program accs c) s = handleControl ctx accs c s.
Proof.
  unfold control_program, handleControl, register_key, rebind_key, revoke_key, update_origins, put_policy, get_policy.
  destruct (contains accs (Control_Account c)); cbn [negb]; repeat case_bool_decide; try done;
    rewrite ?run_search; cbn [run_program apply_op]; try (by destruct (first_success _ 0 accs s) as [[] s1]).
  - destruct (RegisterAPIKey _ _ _ _ s) as [[e|] s1]; [done|]. cbn [run_program apply_op].
    by destruct (UpdateKeyOrigins _ _ _ _ s1).
  - by destruct (RegisterAPIKey _ _ _ _ s) as [[e|] s1].
  - by destruct (UpdateKeyOrigins _ _ _ _ s) as [[e|] s1].
  - by destruct (PutPolicy _ _ _ _ s) as [[e|] s1].
  - by destruct (GetPolicy _ _ s) as [[[v b] found]|e|].
Qed.

(** Handled alone, the message is handled as the one function of the
    source: making the store calls of [control_program] one after the other
    gives the reply and the store of [handleControl]. *)
Theorem control_program_sequential ctx accs c s :
  run_program ctx 0 (control_program accs c) s = handleControl ctx accs c s.
Proof. apply run_control_program. Qed.
End alone.

(** ** What a program may do *)

(** A reply names no account but one of [accs], and the blob it carries was
    held for that account. *)
Definition reply_within (accs : list string) (held : string → Z → list byte → Prop) (r : Control) : Prop :=
  (Control_Account r = "" ∨ Control_Account r ∈ accs) ∧
  ∀ b, Control_Blob r = Some b → Control_Account r ∈ accs ∧ held (Control_Account r) (Control_Version r) b.

Inductive within (accs : list string) (held : string → Z → list byte → Prop) : program → Prop :=
| within_reply r : reply_within accs held r → within accs held (Reply r)
| within_write op k : permitted accs op → (∀ e, within accs held (k e)) → within accs held (Write op k)
| within_read acc k :
    acc ∈ accs →
    (∀ r, ∃ reply, k r = Reply reply ∧
       reply_within accs (λ acc' v b, acc' = acc ∧ r = Ok (v, Some b, true)) reply) →
    within accs held (ReadPolicy acc k).

Lemma within_mono accs (held held' : string → Z → list byte → Prop) p :
  (∀ acc v b, held acc v b → held' acc v b) → within accs held p → within accs held' p.
Proof.
  intros Hh. induction 1 as [r [Hacc Hb]|op k Hop _ IH|acc k Hin Hk]; constructor; try done.
  split; [done|]. intros b [? ?]%Hb. auto.
Qed.

Lemma within_after_read accs (held : string → Z → list byte → Prop) acc k r :
  within accs held (ReadPolicy acc k) → (∀ v b, r = Ok (v, Some b, true) → held acc v b) → within accs held (k r).
Proof.
  intros Hw Hr. inversion Hw as [| |? ? Hin Hk]; subst. destruct (Hk r) as (reply & -> & Hacc & Hb).
  constructor. split; [done|]. intros b (Ha & -> & Heq)%Hb. split; [done|]. by apply Hr.
Qed.

Lemma within_search accs held op l found missing :
  (∀ acc, acc ∈ l → permitted accs (op acc)) → within accs held found → within accs held missing →
  within accs held (search op l found missing).
Proof.
  intros Hop Hf Hm. induction l as [|acc l IH]; [done|]. cbn [search]. constructor; [apply Hop; left|].
  intros [e|]; [|done]. apply IH. intros acc' ?. apply Hop. by right.
Qed.

Lemma within_plain accs held r :
  (Control_Account r = "" ∨ Control_Account r ∈ accs) → Control_Blob r = None → within accs held (Reply r).
Proof. intros Ha Hb. constructor. split; [done|]. intros b. by rewrite Hb. Qed.

(** Whatever the message, its program stays within the device's accounts. *)
Lemma control_program_within accs held c : within accs held (control_program accs c).
Proof.
  unfold control_program. cbv zeta. account_guard; repeat case_bool_decide;
    try (by apply within_plain; auto); try (apply within_search; [done|by apply within_plain; auto..]).
  - constructor; [done|]. intros [e|]; [by apply within_plain; auto|]. constructor; [done|].
    intros _. by apply within_plain; auto.
  - constructor; [done|]. intros [e|]; by apply within_plain; auto.
  - constructor; [done|]. intros [e|]; by apply within_plain; auto.
  - constructor; [done|]. intros [e|]; by apply within_plain; auto.
  - constructor; [done|]. intros [[[v b] found]|e|]; eexists; (split; [reflexivity|]).
    + split; [by right|]. intros b'. destruct found; [|done]. cbn. by intros [= ->].
    + split; [by left|done].
    + split; [by left|done].
Qed.
