(* ===== verification/Api.v ===== *)
(** * The HTTP API (cmd/relay/http.go)

    A handler is a function from the request and what its environment answers
    (record [world]) to the response, the rate limiter afterwards and what it
    sent to the hub. *)

From S2P Require Import Prelude GoStd Base32 Hash Blake2bRef Account BigRat Amount Sha256.
From S2P Require Import Rfc3339 Protocol Utf8 Json Float RateLimit Hub Agent Store StoreProps.

(** ** Requests and responses *)

Record httpRequest := MkHttp {
  r_Method : string;
  r_Path : string;
  r_Origin : string;          (* r.Header.Get("Origin") *)
  r_Authorization : string;   (* r.Header.Get("Authorization") *)
  r_Nonce : string;           (* r.URL.Query().Get("nonce") *)
  r_Body : list byte;
}.

Inductive payload :=
| PEmpty
| PText (s : string)
| PError (msg : string)                              (* {"error": msg} *)
| PResult (r : TxResult)
| PStatus (contact account : string) (online : bool)
| PRaw (data : list byte).                           (* the device's JSON, verbatim *)

Record response := MkResponse {
  status : Z;
  headers : list (string * string);
  payload_of : payload;
}.

Definition writeJSON (st : Z) (p : payload) : response :=
  MkResponse st [("Content-Type", "application/json")] p.
Definition writeJSONError (st : Z) (msg : string) : response := writeJSON st (PError msg).
(** [w.Header().Set(k, v)] before the response is written. *)
Definition set_header (k v : string) (r : response) : response :=
  MkResponse (status r) ((k, v) :: headers r) (payload_of r).

(** What reaches the hub. *)
Inductive dispatch :=
| DRequest (account : string) (req : TxRequest)
| DQuery (account : string) (q : Query).

Section api.
Context {B2 : Blake2b} {S : Type} {St : Store S}.

(** The environment of one request: the fate of its store calls, clocks,
    randomness, the hub's bindings, and what the hub returns for what is sent. *)
Record world := MkWorld {
  w_ctx : nat → fate;
  w_now1 : Z;
  w_now2 : Z;
  w_time : Time;
  w_rand : list byte + error;
  w_bindings : bindings_t;
  w_send : string → TxRequest → res TxResult;
  w_ask : string → Query → res QueryResult;
}.

Definition outcome : Type := response * rateLimiter * option dispatch.

(** ** Authentication *)

Definition authKey (w : world) (s : S) (r : httpRequest) : option APIKey :=
  let auth := r_Authorization r in
  let plaintext := TrimSpace (TrimPrefix auth "Bearer ") in
  if bool_decide (plaintext = "" ∨ plaintext = auth) then None
  else match ResolveAPIKey (w_ctx w 0) plaintext s with
       | Ok key => Some key
       | _ => None
       end.

(** ** Creating a request *)

Record createRequestBody := MkBody {
  b_Kind : string;
  b_Destination : string;
  b_AmountRaw : string;
  b_Amount : string;
  b_Counterparty : string;
  b_Memo : string;
  b_Nonce : string;
  b_Action : string;
}.

Definition maxRequestBodyBytes : nat := Z.to_nat (Z.shiftl 1 16).

Definition decodeBody (body : list byte) : option createRequestBody :=
  v ← Decode maxRequestBodyBytes body;
  fs ← decode_fields ["kind"; "destination"; "amount_raw"; "amount"; "counterparty"; "memo"; "nonce"; "action"] v;
  match fs with
  | [k; d; ar; a; c; m; n; ac] => Some (MkBody k d ar a c m n ac)
  | _ => None
  end.

(** [randomSecret(nbytes)]: a failing random source panics. *)
Definition randomSecret (nbytes : Z) (rnd : list byte + error) : res string :=
  match rnd with
  | inl bs => Ok (hex.EncodeToString (take (Z.to_nat nbytes) bs))
  | inr _ => Panic
  end.

Definition resolveAmount (body : createRequestBody) : res string :=
  if negb (bool_decide (b_AmountRaw body = "")) then Ok (b_AmountRaw body)
  else if negb (bool_decide (b_Amount body = "")) then
    match ParseNanoAmount (b_Amount body) with
    | Ok raw => Ok (Int_String raw)
    | _ => Err (ErrString "invalid amount")
    end
  else Err (ErrString "amount_raw or amount is required").

Definition buildTxRequest (rnd : list byte + error) (now : Time) (key : APIKey)
    (body : createRequestBody) : res TxRequest :=
  secret ← randomSecret 12 rnd;
  let reqID := "req_" +:+ secret in
  let nonce := if bool_decide (b_Nonce body = "") then reqID else b_Nonce body in
  if bool_decide (b_Kind body ≠ KindSend)
  then Err (ErrString ("kind must be " +:+ String (Ascii.ascii_of_nat 34) "send"
                       +:+ String (Ascii.ascii_of_nat 34) EmptyString))
  else match ParseAddress (b_Destination body) with
  | Err _ => Err (ErrString "destination is not a valid nano_ address")
  | Panic => Panic
  | Ok _ =>
      amount ← resolveAmount body;
      Ok (MkTxRequest reqID (ID key) "" KindSend (OwnerAccount key) (b_Counterparty body)
            (b_Destination body) amount (b_Memo body) nonce now
            (if bool_decide (b_Action body = "sign_only") then "sign_only" else ""))
  end.

Definition device_offline : response := writeJSONError 503 "the account's device is offline".
Definition device_timeout : response := writeJSONError 504 "timed out waiting for the device".

Definition handleCreateRequest (w : world) (s : S) (rl : rateLimiter) (r : httpRequest) : res outcome :=
  if bool_decide (r_Method r ≠ "POST") then Ok (writeJSONError 405 "use POST", rl, None)
  else match authKey w s r with
  | None => Ok (writeJSONError 401 "invalid API key", rl, None)
  | Some key =>
      let '(ok, rl1) := allow (ID key) (w_now1 w) (w_now2 w) rl in
      if negb ok then Ok (set_header "Retry-After" "1" (writeJSONError 429 "rate limit exceeded"), rl1, None)
      else match decodeBody (r_Body r) with
      | None => Ok (writeJSONError 400 "invalid JSON body", rl1, None)
      | Some body =>
          match buildTxRequest (w_rand w) (w_time w) key body with
          | Panic => Panic
          | Err err => Ok (writeJSONError 400 (Error err), rl1, None)
          | Ok req =>
              if negb (accountOnline (OwnerAccount key) (w_bindings w)) then Ok (device_offline, rl1, None)
              else
                let sent := Some (DRequest (OwnerAccount key) req) in
                match w_send w (OwnerAccount key) req with
                | Panic => Panic
                | Err err => Ok (if bool_decide (err = errAccountOffline) then device_offline
                                 else device_timeout, rl1, sent)
                | Ok res => Ok (writeJSON 200 (PResult res), rl1, sent)
                end
          end
      end
  end.

(** ** Queries to the device *)

(** The answer of the device, streamed back. *)
Definition stream (data : list byte) : response := writeJSON 200 (PRaw data).

Definition handleBroadcast (w : world) (s : S) (rl : rateLimiter) (r : httpRequest) : res outcome :=
  if bool_decide (r_Method r ≠ "POST") then Ok (writeJSONError 405 "use POST", rl, None)
  else match authKey w s r with
  | None => Ok (writeJSONError 401 "invalid API key", rl, None)
  | Some key =>
      let '(ok, rl1) := allow (ID key) (w_now1 w) (w_now2 w) rl in
      if negb ok then Ok (set_header "Retry-After" "1" (writeJSONError 429 "rate limit exceeded"), rl1, None)
      else
        let nonce := match (v ← Decode (Z.to_nat 4096) (r_Body r); decode_fields ["nonce"] v) with
                     | Some [n] => n | _ => "" end in
        if bool_decide (nonce = "")
        then Ok (writeJSONError 400 (String (Ascii.ascii_of_nat 34) "nonce"
                   +:+ String (Ascii.ascii_of_nat 34) " is required"), rl1, None)
        else if negb (accountOnline (OwnerAccount key) (w_bindings w)) then Ok (device_offline, rl1, None)
        else
          let q := MkQuery "broadcast_nonce" (ID key) (OwnerAccount key) nonce in
          let sent := Some (DQuery (OwnerAccount key) q) in
          match w_ask w (OwnerAccount key) q with
          | Panic => Panic
          | Err err => Ok (if bool_decide (err = errAccountOffline) then device_offline
                           else device_timeout, rl1, sent)
          | Ok qr =>
              if bool_decide (QueryResult_Error qr = "not_found") then
                Ok (writeJSONError 404 "no signed block found for that nonce — it may have already been broadcast, rejected, or never signed", rl1, sent)
              else if negb (bool_decide (QueryResult_Error qr = ""))
              then Ok (writeJSONError 502 (QueryResult_Error qr), rl1, sent)
              else Ok (stream (QueryResult_Data qr), rl1, sent)
          end
  end.

Definition handleStatus (w : world) (s : S) (rl : rateLimiter) (r : httpRequest) : res outcome :=
  match authKey w s r with
  | None => Ok (writeJSONError 401 "invalid API key", rl, None)
  | Some key =>
      Ok (writeJSON 200 (PStatus (ID key) (OwnerAccount key)
            (accountOnline (OwnerAccount key) (w_bindings w))), rl, None)
  end.

Definition deviceQuery (op : string) (w : world) (s : S) (rl : rateLimiter) (r : httpRequest) :
    res outcome :=
  if bool_decide (r_Method r ≠ "GET") then Ok (writeJSONError 405 "use GET", rl, None)
  else match authKey w s r with
  | None => Ok (writeJSONError 401 "invalid API key", rl, None)
  | Some key =>
      if negb (accountOnline (OwnerAccount key) (w_bindings w)) then Ok (device_offline, rl, None)
      else
        let q := MkQuery op (ID key) (OwnerAccount key) "" in
        let sent := Some (DQuery (OwnerAccount key) q) in
        match w_ask w (OwnerAccount key) q with
        | Panic => Panic
        | Err err => Ok (if bool_decide (err = errAccountOffline) then device_offline
                         else device_timeout, rl, sent)
        | Ok qr =>
            if negb (bool_decide (QueryResult_Error qr = ""))
            then Ok (writeJSONError 502 (QueryResult_Error qr), rl, sent)
            else Ok (stream (QueryResult_Data qr), rl, sent)
        end
  end.

Definition handleSettings := deviceQuery "settings".
Definition handleBalance := deviceQuery "balance".
Definition handleActivity := deviceQuery "activity".

Definition handleRequestStatus (w : world) (s : S) (rl : rateLimiter) (r : httpRequest) : res outcome :=
  if bool_decide (r_Method r ≠ "GET") then Ok (writeJSONError 405 "use GET", rl, None)
  else match authKey w s r with
  | None => Ok (writeJSONError 401 "invalid API key", rl, None)
  | Some key =>
      let nonce := TrimSpace (r_Nonce r) in
      if bool_decide (nonce = "") then Ok (writeJSONError 400 "nonce query parameter is required", rl, None)
      else if negb (accountOnline (OwnerAccount key) (w_bindings w)) then Ok (device_offline, rl, None)
      else
        let q := MkQuery "request_status" (ID key) (OwnerAccount key) nonce in
        let sent := Some (DQuery (OwnerAccount key) q) in
        match w_ask w (OwnerAccount key) q with
        | Panic => Panic
        | Err err => Ok (if bool_decide (err = errAccountOffline) then device_offline
                         else device_timeout, rl, sent)
        | Ok qr =>
            if bool_decide (QueryResult_Error qr = "not_found") then
              Ok (writeJSONError 404 "no completed request with that nonce (it may be pending, rejected, or never submitted)", rl, sent)
            else if negb (bool_decide (QueryResult_Error qr = ""))
            then Ok (writeJSONError 502 (QueryResult_Error qr), rl, sent)
            else Ok (stream (QueryResult_Data qr), rl, sent)
        end
  end.

(** ** Routing and CORS *)

(** The registered patterns; [other] is what [http.ServeMux] answers for the
    rest of the paths (404 or a redirection), and for /agent, which leaves HTTP. *)
Definition mux (other : httpRequest → response) (w : world) (s : S) (rl : rateLimiter)
    (r : httpRequest) : res outcome :=
  if bool_decide (r_Path r = "/v1/requests") then handleCreateRequest w s rl r
  else if bool_decide (r_Path r = "/v1/requests/status") then handleRequestStatus w s rl r
  else if bool_decide (r_Path r = "/v1/broadcast") then handleBroadcast w s rl r
  else if bool_decide (r_Path r = "/v1/status") then handleStatus w s rl r
  else if bool_decide (r_Path r = "/v1/settings") then handleSettings w s rl r
  else if bool_decide (r_Path r = "/v1/balance") then handleBalance w s rl r
  else if bool_decide (r_Path r = "/v1/activity") then handleActivity w s rl r
  else if bool_decide (r_Path r = "/healthz") then Ok (MkResponse 200 [] (PText "ok"), rl, None)
  else Ok (other r, rl, None).

Definition corsMiddleware (next : rateLimiter → httpRequest → res outcome) (w : world) (s : S)
    (rl : rateLimiter) (r : httpRequest) : res outcome :=
  let origin := r_Origin r in
  if bool_decide (origin = "") || negb (HasPrefix (r_Path r) "/v1/") then next rl r
  else
    let allowed := match OriginAllowed (w_ctx w 1) origin s with Ok b => b | _ => false end in
    if bool_decide (r_Method r = "OPTIONS") then
      if allowed then
        Ok (MkResponse 204 [("Access-Control-Allow-Origin", origin);
                            ("Access-Control-Allow-Methods", "GET, POST, OPTIONS");
                            ("Access-Control-Allow-Headers", "Authorization, Content-Type");
                            ("Access-Control-Max-Age", "86400")] PEmpty, rl, None)
      else Ok (MkResponse 403 [] PEmpty, rl, None)
    else
      out ← next rl r;
      let '(resp, rl1, sent) := out in
      Ok (if allowed then
            set_header "Access-Control-Allow-Origin" origin
              (set_header "Access-Control-Allow-Headers" "Authorization, Content-Type" resp)
          else resp, rl1, sent).

(** [sc] is the store when the middleware reads it, [s] when [authKey] does. *)
Definition routes (other : httpRequest → response) (w : world) (sc s : S) (rl : rateLimiter)
    (r : httpRequest) : res outcome :=
  corsMiddleware (mux other w s) w sc rl r.

(** The limiter once the handler of the request has asked it: the two handlers
    that reach a device with something to sign or to send charge their key. *)
Definition charged (w : world) (s : S) (r : httpRequest) : option string :=
  if bool_decide (r_Path r ∈ ["/v1/requests"; "/v1/broadcast"] ∧ r_Method r = "POST")
  then ID <$> authKey w s r else None.
Definition limiter_after (w : world) (s : S) (rl : rateLimiter) (r : httpRequest) : rateLimiter :=
  match charged w s r with
  | Some id => (allow id (w_now1 w) (w_now2 w) rl).2
  | None => rl
  end.
End api.
