(* ===== verification/Bodies.v ===== *)
(** * The bodies of HTTP responses (cmd/relay/http.go: writeJSON)

    [Api] answers with a [payload]; this is the text it becomes.  [writeJSON]
    writes the header before it encodes, so that a value that cannot be encoded
    leaves the body empty. *)

From S2P Require Import Prelude GoStd Utf8 Json Rfc3339 Protocol Codec Wire RateLimit Hub Store StoreProps Api.

Local Open Scope Z_scope.

(** [json.NewEncoder(w).Encode(v)]; a map's keys come in order. *)
Definition body_text (p : payload) : list byte :=
  match p with
  | PEmpty => []
  | PText s => bytes_of s
  | PRaw data => data
  | PError msg => object_text [("error", quote msg)] ++ [x0a]
  | PStatus contact account online =>
      object_text [("account", quote account); ("contact_id", quote contact);
                   ("device_online", bytes_of (if online then "true" else "false"))] ++ [x0a]
  | PResult r => match put_struct TxResult_fields r with Some t => t ++ [x0a] | None => [] end
  end.

Lemma TxResult_writable r : is_Some (put_struct TxResult_fields r) ↔ is_Some (MarshalTime (TxResult_DecidedAt r)).
Proof.
  pose proof scalars_total as (Hs & _). split.
  - intros H%put_struct_Some. eapply (Forall_lookup_1 _ _ 5) in H; [|reflexivity]. destruct H as [H|H]; [discriminate H|].
    cbn [f_codec f_prj put time_codec] in H. exact H.
  - intros Ht. apply put_struct_Some.
    repeat (apply Forall_cons; split; [cbn [f_omit f_prj f_codec]|]); [..|by apply Forall_nil].
    all: right; first [apply Hs|exact Ht|apply ptr_total].
    repeat (apply Forall_cons; split; [exact Hs|]). by apply Forall_nil.
Qed.

(** C28: the caller reads back the device's result: the body of the answer to a
    send is the JSON of exactly the result the device sent, block included; but
    when the result's time cannot be written (a zone of 24 hours, which reading
    accepts, or a year outside 0 to 9999), the answer's body is empty, under
    the status that was already sent. This is for results as they arrive from a
    device ([TxResult_ok]: strings of valid UTF-8, a zone of whole minutes). *)
Theorem result_body r :
  TxResult_ok r →
  match MarshalTime (TxResult_DecidedAt r) with
  | Some _ => ∃ ms, parse_prefix (body_text (PResult r)) = Some (JObject ms, [x0a]) ∧
      get_struct TxResult_fields (JObject ms) zero_TxResult = Some r
  | None => body_text (PResult r) = []
  end.
Proof.
  intros Hok. cbn [body_text]. pose proof (TxResult_writable r) as Hw.
  destruct (put_struct TxResult_fields r) as [t|] eqn:Ht.
  - destruct (proj1 Hw (mk_is_Some _ _ eq_refl)) as [u ->].
    pose proof (TxResult_reads r) as Hr. rewrite (read_TxResult_id r Hok) in Hr.
    eapply message_roundtrip; [by apply Hr, Hok|done|exact Ht|cbn; set_solver].
  - destruct (MarshalTime (TxResult_DecidedAt r)); [|done].
    by destruct (proj2 Hw (mk_is_Some _ _ eq_refl)).
Qed.

(** ** Witness: a result from a device 24 hours ahead, as it arrives *)

Definition w_late_text : list byte :=
  bytes_of "{'version':2,'type':'result','result':{'request_id':'r','status':'signed','decided_at':'2024-05-01T10:00:00+24:00'}}".
Definition w_late : list byte := (λ b, if bool_decide (b = ch "'") then dq else b) <$> w_late_text.

Theorem result_body_witness :
  ∃ env r, ReadJSON w_late = Some env ∧ Envelope_Result env = Some r ∧ body_text (PResult r) = [].
Proof.
  destruct (ReadJSON w_late) as [env|] eqn:He; [|by vm_compute in He].
  destruct (Envelope_Result env) as [r|] eqn:Hr; [|by vm_compute in He; injection He as <-].
  exists env, r. split; [done|]. split; [done|].
  assert (Hm : MarshalTime (TxResult_DecidedAt r) = None ∧ TxResult_ok r).
  { vm_compute in He. injection He as <-. injection Hr as <-. split; [done|]. split; [by repeat constructor|].
    by split. }
  destruct Hm as [Hm Hok]. pose proof (result_body r Hok) as H. by rewrite Hm in H.
Defined.
