(* ===== verification/ApiProps.v ===== *)
(** * Properties of the HTTP API

    First what each handler does, then [routes]: isolation between accounts,
    when a device is asked, what each outcome of the hub becomes, CORS. *)

From S2P Require Import Prelude GoStd Base32 Hash Blake2bRef Account BigRat Amount Sha256.
From S2P Require Import Rfc3339 Protocol Utf8 Json Float RateLimit Hub HubProps Agent Store.
From S2P Require Import MemStore StoreProps Api.

(** The secret a request presents. *)
Definition token (r : httpRequest) : string := TrimSpace (TrimPrefix (r_Authorization r) "Bearer ").

(** What is sent is about the key's account, on behalf of the key. *)
Definition sent_for (key : APIKey) (d : dispatch) : Prop :=
  match d with
  | DRequest acc req => acc = OwnerAccount key ∧ TxRequest_Account req = OwnerAccount key ∧
                        TxRequest_ContactID req = ID key
  | DQuery acc q => acc = OwnerAccount key ∧ Query_Account q = OwnerAccount key ∧
                    Query_ContactID q = ID key
  end.

Section api.
Context {B2 : Blake2b} {S : Type} {St : Store S}.

Lemma buildTxRequest_for rnd now key body req :
  buildTxRequest rnd now key body = Ok req → sent_for key (DRequest (OwnerAccount key) req).
Proof.
  unfold buildTxRequest. destruct (randomSecret 12 rnd) as [secret|e|]; [|done..]. cbn [mbind res_bind].
  case_bool_decide; [done|]. destruct (ParseAddress _); [|done..].
  destruct (resolveAmount body) as [amount|e|]; [|done..]. cbn [mbind res_bind].
  intros Hreq. by simplify_eq.
Qed.

(** What the handlers have in common: a dispatch is for the key that
    authenticated the request, whose account has a device; a refusal before the
    hub dispatches nothing; an answer needs a key. *)
Record handled (w : world) (s : S) (r : httpRequest) (o : outcome) : Prop := {
  hd_sent d : o.2 = Some d → ∃ key, authKey w s r = Some key ∧ sent_for key d ∧
    accountOnline (OwnerAccount key) (w_bindings w) = true;
  hd_refused : status o.1.1 ∈ [400; 401; 403; 405; 429]%Z → o.2 = None;
  hd_answer : status o.1.1 = 200%Z → is_Some (authKey w s r);
  hd_headers k v : (k, v) ∈ headers o.1.1 → k = "Content-Type" ∨ k = "Retry-After";
}.

Lemma handled_None w s r resp rl :
  (status resp = 200%Z → is_Some (authKey w s r)) →
  (∀ k v, (k, v) ∈ headers resp → k = "Content-Type" ∨ k = "Retry-After") →
  handled w s r (resp, rl, None).
Proof. intros H1 H2. by split. Qed.

Lemma json_headers st p k v : (k, v) ∈ headers (writeJSON st p) → k = "Content-Type" ∨ k = "Retry-After".
Proof. intros H%list_elem_of_singleton. left. congruence. Qed.

Lemma handled_error w s r st msg rl : st ≠ 200%Z → handled w s r (writeJSONError st msg, rl, None).
Proof. intros H. apply handled_None; [done|]. intros k v. apply (json_headers st (PError msg)). Qed.

Lemma handled_sent w s r st p rl d key :
  authKey w s r = Some key → sent_for key d → accountOnline (OwnerAccount key) (w_bindings w) = true →
  bool_decide (st ∈ [400; 401; 403; 405; 429]%Z) = false → handled w s r (writeJSON st p, rl, Some d).
Proof.
  intros Hk Hd Ho Hst. split; cbn.
  - intros d' [= <-]. eauto.
  - by intros ?%(bool_decide_eq_false_1 _ Hst).
  - by rewrite Hk.
  - intros k v. apply (json_headers st p).
Qed.

Lemma handled_limited w s r msg rl :
  handled w s r (set_header "Retry-After" "1" (writeJSONError 429 msg), rl, None).
Proof.
  apply handled_None; [done|]. intros k v [H|H]%elem_of_cons; [right; congruence|].
  by apply (json_headers 429 (PError msg) k v).
Qed.

Lemma handled_create w s rl r o : handleCreateRequest w s rl r = Ok o → handled w s r o.
Proof.
  unfold handleCreateRequest. case_bool_decide; [intros [= <-]; by apply handled_error|].
  destruct (authKey w s r) as [key|] eqn:Hk; [|intros [= <-]; by apply handled_error].
  destruct (allow _ _ _ rl) as [[] rl1]; cbn [negb]; [|intros [= <-]; by apply handled_limited].
  destruct (decodeBody _) as [body|]; [|intros [= <-]; by apply handled_error].
  destruct (buildTxRequest _ _ _ _) as [req|e|] eqn:Hb; [|intros [= <-]; by apply handled_error|done].
  destruct (accountOnline _ _) eqn:Ho; cbn [negb]; [|intros [= <-]; by apply handled_error].
  apply buildTxRequest_for in Hb.
  destruct (w_send w _ _) as [res|e|]; [| |done].
  - intros [= <-]. by eapply handled_sent.
  - case_bool_decide; intros [= <-]; by eapply handled_sent.
Qed.

Lemma handled_broadcast w s rl r o : handleBroadcast w s rl r = Ok o → handled w s r o.
Proof.
  unfold handleBroadcast. case_bool_decide; [intros [= <-]; by apply handled_error|].
  destruct (authKey w s r) as [key|] eqn:Hk; [|intros [= <-]; by apply handled_error].
  destruct (allow _ _ _ rl) as [[] rl1]; cbn [negb]; [|intros [= <-]; by apply handled_limited].
  set (nonce := match _ with Some _ => _ | None => _ end).
  case_bool_decide; [intros [= <-]; by apply handled_error|].
  destruct (accountOnline _ _) eqn:Ho; cbn [negb]; [|intros [= <-]; by apply handled_error].
  destruct (w_ask w _ _) as [qr|e|]; [| |done].
  - repeat case_bool_decide; cbn [negb]; intros [= <-]; by eapply handled_sent.
  - case_bool_decide; intros [= <-]; by eapply handled_sent.
Qed.

Lemma handled_query op w s rl r o : deviceQuery op w s rl r = Ok o → handled w s r o.
Proof.
  unfold deviceQuery. case_bool_decide; [intros [= <-]; by apply handled_error|].
  destruct (authKey w s r) as [key|] eqn:Hk; [|intros [= <-]; by apply handled_error].
  destruct (accountOnline _ _) eqn:Ho; cbn [negb]; [|intros [= <-]; by apply handled_error].
  destruct (w_ask w _ _) as [qr|e|]; [| |done].
  - repeat case_bool_decide; cbn [negb]; intros [= <-]; by eapply handled_sent.
  - case_bool_decide; intros [= <-]; by eapply handled_sent.
Qed.

Lemma handled_request_status w s rl r o : handleRequestStatus w s rl r = Ok o → handled w s r o.
Proof.
  unfold handleRequestStatus. case_bool_decide; [intros [= <-]; by apply handled_error|].
  destruct (authKey w s r) as [key|] eqn:Hk; [|intros [= <-]; by apply handled_error].
  case_bool_decide; [intros [= <-]; by apply handled_error|].
  destruct (accountOnline _ _) eqn:Ho; cbn [negb]; [|intros [= <-]; by apply handled_error].
  destruct (w_ask w _ _) as [qr|e|]; [| |done].
  - repeat case_bool_decide; cbn [negb]; intros [= <-]; by eapply handled_sent.
  - case_bool_decide; intros [= <-]; by eapply handled_sent.
Qed.

Lemma handled_status w s rl r o : handleStatus w s rl r = Ok o → handled w s r o.
Proof.
  unfold handleStatus. destruct (authKey w s r) as [key|] eqn:Hk; intros [= <-]; [|by apply handled_error].
  apply handled_None; [by rewrite Hk|]. intros k v. apply (json_headers 200 _ k v).
Qed.

Definition api_paths : list string :=
  ["/v1/requests"; "/v1/requests/status"; "/v1/broadcast"; "/v1/status"; "/v1/settings"; "/v1/balance";
   "/v1/activity"].

Lemma handled_mux other w s rl r o :
  mux other w s rl r = Ok o → r_Path r ∈ api_paths → handled w s r o.
Proof.
  intros Ho Hp. unfold mux in Ho. unfold api_paths in Hp. rewrite !elem_of_cons in Hp.
  destruct Hp as [Hp|[Hp|[Hp|[Hp|[Hp|[Hp|[Hp|Hp%elem_of_nil]]]]]]]; [..|done]; rewrite Hp in Ho;
    repeat (rewrite bool_decide_eq_false_2 in Ho by done);
    rewrite bool_decide_eq_true_2 in Ho by done.
  - by eapply handled_create.
  - by eapply handled_request_status.
  - by eapply handled_broadcast.
  - by eapply handled_status.
  - by eapply handled_query.
  - by eapply handled_query.
  - by eapply handled_query.
Qed.

Lemma mux_outside other w s rl r o :
  mux other w s rl r = Ok o → r_Path r ∉ api_paths →
  o = (MkResponse 200 [] (PText "ok"), rl, None) ∨ o = (other r, rl, None).
Proof.
  intros Ho Hp. unfold mux in Ho. unfold api_paths in Hp. rewrite !not_elem_of_cons in Hp.
  destruct Hp as (? & ? & ? & ? & ? & ? & ? & _).
  repeat (rewrite bool_decide_eq_false_2 in Ho by done).
  case_bool_decide; injection Ho as <-; auto.
Qed.
End api.

(** ** Theorems *)

Section api_props.
Context {B2 : Blake2b} {B2L : Blake2bLaws} {S : Type} {St : Store S} {L : StoreLaws S}.

Lemma authKey_resolves w s sp r key :
  represents s sp → authKey w s r = Some key → resolves sp (token r) key.
Proof.
  intros Hr. unfold authKey. fold (token r). case_bool_decide; [done|].
  pose proof (resolve_law (w_ctx w 0) (token r) s sp Hr) as R.
  destruct (ResolveAPIKey _ _ s) as [k|e|]; [|done..]. intros [= ->].
  by destruct R as [R|(b & e & _ & ?)].
Qed.

(** A secret resolves to one key. *)
Lemma resolves_unique s sp t k1 k2 :
  represents s sp → resolves sp t k1 → resolves sp t k2 →
  ID k1 = ID k2 ∧ OwnerAccount k1 = OwnerAccount k2.
Proof.
  intros Hr (ks1 & H1 & Hh1 & Ho1 & _) (ks2 & H2 & Hh2 & Ho2 & _).
  assert (ID k1 = ID k2) as E by (eapply (represents_unique s sp Hr); [done..|congruence]).
  split; [done|]. rewrite E in H1. congruence.
Qed.

Lemma routes_cases other w sc s rl r resp rl' sent :
  routes other w sc s rl r = Ok (resp, rl', sent) →
  (sent = None ∧ rl' = rl ∧ r_Method r = "OPTIONS" ∧ r_Origin r ≠ "" ∧
   (status resp = 204 ∨ status resp = 403)%Z) ∨
  ∃ resp0, mux other w s rl r = Ok (resp0, rl', sent) ∧ status resp = status resp0 ∧
           payload_of resp = payload_of resp0.
Proof.
  unfold routes, corsMiddleware.
  destruct (bool_decide (r_Origin r = "") || negb (HasPrefix (r_Path r) "/v1/")) eqn:Hc;
    [intros H; right; by exists resp|].
  apply orb_false_iff in Hc as [Hor%bool_decide_eq_false _].
  set (allowed := match OriginAllowed _ _ sc with Ok b => b | _ => false end). case_bool_decide.
  - destruct allowed; intros [= <- <- <-]; left; split_and!; auto.
  - destruct (mux other w s rl r) as [[[resp0 rl0] sent0]|e|]; [|done..]. cbn [mbind res_bind].
    intros [= <- <- <-]. right. exists resp0. by destruct allowed.
Qed.

(** The limiter moves as the one call of [allow] says. *)
Lemma mux_limiter other w s rl r resp rl' sent :
  mux other w s rl r = Ok (resp, rl', sent) → rl' = limiter_after w s rl r.
Proof.
  assert (Hquery : ∀ op, deviceQuery op w s rl r = Ok (resp, rl', sent) → rl' = rl).
  { intros op. unfold deviceQuery. by repeat case_match; intros; simplify_eq. }
  assert (Hfree : r_Path r ∉ ["/v1/requests"; "/v1/broadcast"] ∨ r_Method r ≠ "POST" → limiter_after w s rl r = rl).
  { intros H. unfold limiter_after, charged. rewrite bool_decide_eq_false_2; [done|]. tauto. }
  assert (Hpaid : r_Path r ∈ ["/v1/requests"; "/v1/broadcast"] → r_Method r = "POST" → limiter_after w s rl r =
    match authKey w s r with Some key => (allow (ID key) (w_now1 w) (w_now2 w) rl).2 | None => rl end).
  { intros ??. unfold limiter_after, charged. rewrite bool_decide_eq_true_2 by done. by destruct (authKey w s r). }
  unfold mux. case_bool_decide as H1; [|case_bool_decide as H2; [|case_bool_decide as H3]].
  2: { rewrite Hfree by (left; rewrite H2; by vm_compute; set_solver). unfold handleRequestStatus.
       by repeat case_match; intros; simplify_eq. }
  1: unfold handleCreateRequest. 2: unfold handleBroadcast.
  1, 2: destruct (decide (r_Method r = "POST")) as [Hm|Hm];
    [rewrite Hpaid, bool_decide_eq_false_2 by (done || (by intros ?) || (rewrite ?H1, ?H3; set_solver))
    |rewrite Hfree, bool_decide_eq_true_2 by tauto; by intros [= _ <- _]];
    (destruct (authKey w s r) as [key|]; [|by intros [= _ <- _]]);
    destruct (allow _ _ _ rl) as [[] rl1]; cbn [negb snd]; by repeat case_match; intros; simplify_eq.
  rewrite Hfree by (left; set_solver). unfold handleStatus, handleSettings, handleBalance, handleActivity.
  repeat (case_bool_decide; [first [apply Hquery|by repeat case_match; intros; simplify_eq]|]). by intros [= _ <- _].
Qed.

Lemma routes_limiter other w sc s rl r resp rl' sent :
  routes other w sc s rl r = Ok (resp, rl', sent) → rl' = limiter_after w s rl r.
Proof.
  intros [(-> & -> & Hm & _)|(resp0 & Hm & _)]%routes_cases; [|by eapply mux_limiter].
  unfold limiter_after, charged. rewrite bool_decide_eq_false_2; [done|]. intros [_ ?]. congruence.
Qed.

Lemma routes_sound other w sc s sp rl r resp rl' sent :
  represents s sp → routes other w sc s rl r = Ok (resp, rl', sent) →
  (∀ d, sent = Some d → ∃ key, resolves sp (token r) key ∧ sent_for key d ∧
     accountOnline (OwnerAccount key) (w_bindings w) = true) ∧
  (status resp ∈ [400; 401; 403; 405; 429]%Z → sent = None) ∧
  (status resp = 200%Z → r_Path r ∈ api_paths → ∃ key, resolves sp (token r) key).
Proof.
  intros Hr [(-> & _ & _ & _ & Hst)|(resp0 & Hm & -> & _)]%routes_cases.
  - split_and!; [done..|]. intros E. rewrite E in Hst. by destruct Hst.
  - destruct (decide (r_Path r ∈ api_paths)) as [Hp|Hp].
    + destruct (handled_mux other w s rl r _ Hm Hp) as [H1 H2 H3 _]. cbn [fst snd] in *.
      split_and!; [|done|].
      * intros d Hd. destruct (H1 d Hd) as (key & Hk%(authKey_resolves w s sp r key Hr) & ?). eauto.
      * intros [key Hk%(authKey_resolves w s sp r key Hr)]%H3 _. eauto.
    + destruct (mux_outside other w s rl r _ Hm Hp) as [[= _ _ ->]|[= _ _ ->]]; done.
Qed.

(** C8: isolation: whatever the request, what reaches a device is about the
    account that owns the key whose secret the request presents, names that key
    as its contact, and goes out only while a device of that account is
    connected; a request refused with 400, 401, 403, 405 or 429 sends nothing;
    an API path answers 200 only to the secret of a registered key; and the
    limiter moves by one charge of that key at most, for a POST to the two
    paths that cost one.  The store may change between the read for the CORS
    headers and the read for the key. *)
Theorem api_isolation other w sc s sp rl r resp rl' sent :
  represents s sp → routes other w sc s rl r = Ok (resp, rl', sent) →
  (∀ d, sent = Some d → ∃ key, resolves sp (token r) key ∧ sent_for key d ∧
     accountOnline (OwnerAccount key) (w_bindings w) = true) ∧
  (status resp ∈ [400; 401; 403; 405; 429]%Z → sent = None) ∧
  (status resp = 200%Z → r_Path r ∈ api_paths → ∃ key, resolves sp (token r) key) ∧
  rl' = limiter_after w s rl r ∧
  (∀ id, charged w s r = Some id → r_Method r = "POST" ∧ r_Path r ∈ ["/v1/requests"; "/v1/broadcast"] ∧
     ∃ key, resolves sp (token r) key ∧ ID key = id).
Proof.
  intros Hr Hout. destruct (routes_sound _ _ _ _ _ _ _ _ _ _ Hr Hout) as (? & ? & ?).
  split_and!; [done..|by eapply routes_limiter|]. intros id. unfold charged. case_bool_decide as Hc; [|done].
  destruct (authKey w s r) as [key|] eqn:Hk; [|done]. intros [= <-]. split_and!; [apply Hc..|].
  exists key. split; [by eapply authKey_resolves|done].
Qed.

(** C32: CORS: the relay names an origin in Access-Control-Allow-Origin only when
    it is the request's own and some key lists it; a preflight of an API path
    is answered without running a handler, 204 when the origin is listed and
    403 otherwise (failures of the store apart). The pages outside /v1/, which
    net/http answers, are assumed not to set that header themselves. *)
Theorem cors_sound other w sc s sp rl r resp rl' sent :
  represents sc sp → routes other w sc s rl r = Ok (resp, rl', sent) →
  (∀ r v, ("Access-Control-Allow-Origin", v) ∉ headers (other r)) →
  (∀ v, ("Access-Control-Allow-Origin", v) ∈ headers resp → v = r_Origin r ∧ v ≠ "" ∧ lists_origin sp v) ∧
  (r_Method r = "OPTIONS" → r_Origin r ≠ "" → HasPrefix (r_Path r) "/v1/" = true →
     sent = None ∧ rl' = rl ∧ payload_of resp = PEmpty ∧
     (w_ctx w 1 = Runs → (status resp = 204%Z ↔ lists_origin sp (r_Origin r)) ∧
                         (status resp = 403%Z ↔ ¬ lists_origin sp (r_Origin r)))).
Proof.
  intros Hr Hout Hother.
  assert (Hmux : ∀ resp0 rl0 sent0 v, mux other w s rl r = Ok (resp0, rl0, sent0) →
    ("Access-Control-Allow-Origin", v) ∉ headers resp0).
  { intros resp0 rl0 sent0 v Hm. destruct (decide (r_Path r ∈ api_paths)) as [Hp|Hp].
    - intros H. by destruct (hd_headers _ _ _ _ (handled_mux other w s rl r _ Hm Hp) _ _ H).
    - destruct (mux_outside other w s rl r _ Hm Hp) as [[= -> _ _]|[= -> _ _]]; [|apply Hother].
      apply not_elem_of_nil. }
  revert Hout. unfold routes, corsMiddleware.
  pose proof (allowed_law (w_ctx w 1) (r_Origin r) sc sp Hr) as Hal.
  set (allowed := match OriginAllowed _ _ sc with Ok b => b | _ => false end).
  assert (Hallowed : allowed = true → lists_origin sp (r_Origin r)).
  { subst allowed. destruct Hal as [(b & -> & Hb)|(b & e & _ & ->)]; [|done]. apply Hb. }
  assert (Hruns : w_ctx w 1 = Runs → lists_origin sp (r_Origin r) → allowed = true).
  { intros E. rewrite E in Hal. subst allowed. rewrite E.
    apply reads_runs in Hal as (b & -> & Hb). apply Hb. }
  destruct (bool_decide (r_Origin r = "")) eqn:Hor;
    [apply bool_decide_eq_true in Hor|apply bool_decide_eq_false in Hor].
  { cbn [orb]. intros Hm. split; [|done]. intros v Hv. by destruct (Hmux _ _ _ v Hm). }
  destruct (HasPrefix (r_Path r) "/v1/"); cbn [orb negb].
  2:{ intros Hm. split; [|done]. intros v Hv. by destruct (Hmux _ _ _ v Hm). }
  case_bool_decide as Hopt.
  - destruct allowed; intros [= <- <- <-]; (split; [|intros _ _ _; split_and!; [done..|]]).
    + intros v. cbn [headers]. rewrite !elem_of_cons, elem_of_nil. intros [[= ->]|[?|[?|[?|?]]]]; [|done..]. auto.
    + intros Hc. cbn. split; split; intros H; [auto|done|done|]. by destruct H; apply Hallowed.
    + intros v Hv. by apply not_elem_of_nil in Hv.
    + intros Hc. cbn. split; split; intros H; [done| |by intros ?%(Hruns Hc)|done].
      by apply (Hruns Hc) in H.
  - destruct (mux other w s rl r) as [[[resp0 rl0] sent0]|e|] eqn:Hm; [|done..]. cbn [mbind res_bind].
    intros [= <- <- <-]. split; [|done]. intros v. destruct allowed; [|by intros ?%(Hmux _ _ _ v eq_refl)].
    cbn [headers set_header]. rewrite !elem_of_cons. intros [[= ->]|[?|?%(Hmux _ _ _ v eq_refl)]]; [|done..]. auto.
Qed.

(** ** What a create-request body must say *)

(** The raw amount a body asks for: [amount_raw] as it stands, else [amount], an
    exact number of raw. *)
Definition amount_of (body : createRequestBody) (a : string) : Prop :=
  (b_AmountRaw body ≠ "" ∧ a = b_AmountRaw body) ∨
  (b_AmountRaw body = "" ∧ b_Amount body ≠ "" ∧ ∃ r n, Rat_SetString (b_Amount body) = Some r ∧
     (0 ≤ n)%Z ∧ (rnum r * RawPerNano = n * rden r)%Z ∧ a = Int_String n).

Definition well_formed (body : createRequestBody) : Prop :=
  b_Kind body = KindSend ∧ (∃ pk, address_denotes (b_Destination body) pk) ∧ ∃ a, amount_of body a.

Lemma resolveAmount_Ok body a : resolveAmount body = Ok a ↔ amount_of body a.
Proof.
  assert (Hparse : (∃ n, ParseNanoAmount (b_Amount body) = Ok n ∧ a = Int_String n) ↔
    ∃ r n, Rat_SetString (b_Amount body) = Some r ∧ (0 ≤ n)%Z ∧
      (rnum r * RawPerNano = n * rden r)%Z ∧ a = Int_String n).
  { setoid_rewrite ParseNanoAmount_Ok. naive_solver. }
  unfold resolveAmount, amount_of. rewrite <- Hparse. clear Hparse.
  case_bool_decide; cbn [negb]; [|naive_solver]. case_bool_decide; cbn [negb]; [naive_solver|].
  destruct (ParseNanoAmount (b_Amount body)); naive_solver.
Qed.

Lemma resolveAmount_total body : resolveAmount body ≠ Panic.
Proof. unfold resolveAmount. repeat case_match; done. Qed.

Lemma buildTxRequest_Ok bs now key body :
  buildTxRequest (inl bs) now key body ≠ Panic ∧
  ((∃ req, buildTxRequest (inl bs) now key body = Ok req) ↔ well_formed body).
Proof.
  unfold buildTxRequest, well_formed. cbn [randomSecret mbind res_bind].
  case_bool_decide as Hk; [split; [done|]; split; [by intros [??]|by intros [? _]]|].
  pose proof (ParseAddress_denotes (b_Destination body)) as Hd.
  destruct (ParseAddress (b_Destination body)) as [pk|e|] eqn:Hp; cbn [mbind res_bind].
  - pose proof (resolveAmount_Ok body) as Ha. pose proof (resolveAmount_total body).
    destruct (resolveAmount body) as [a|e|]; cbn [mbind res_bind]; [| |done].
    + split; [done|]. split; [|eauto]. intros _. split_and!; [done| |].
      * exists pk. by apply Hd.
      * exists a. by apply Ha.
    + split; [done|]. split; [by intros [??]|]. intros (_ & _ & a & Ha'%Ha). done.
  - split; [done|]. split; [by intros [??]|]. intros (_ & [pk Hpk%Hd] & _). done.
  - by apply ParseAddress_total in Hp.
Qed.


(** ** Authentication *)

Lemma authKey_found w s sp r key :
  represents s sp → w_ctx w 0 = Runs → resolves sp (token r) key → token r ≠ "" →
  token r ≠ r_Authorization r →
  ∃ key', authKey w s r = Some key' ∧ ID key' = ID key ∧ OwnerAccount key' = OwnerAccount key.
Proof.
  intros Hr Hc Hk H1 H2. unfold authKey. fold (token r).
  rewrite bool_decide_eq_false_2 by (by intros [?|?]). rewrite Hc.
  pose proof (reads_runs _ _ (resolve_law Runs (token r) s sp Hr)) as R.
  destruct (ResolveAPIKey Runs (token r) s) as [k|e|]; [| |done].
  - exists k. split; [done|]. by apply (resolves_unique s sp (token r)).
  - destruct Hk as (ks & Hk1 & Hk2 & _). destruct R as [_ R]. by destruct (R _ _ Hk1).
Qed.

(** C40: the bearer scheme, when the store's read does not fail: the secret of a
    stored key, in printable ASCII, resolves when it follows "Bearer ", and is
    refused when the header is the secret alone. The scheme is detected by
    comparing the header with what is left of it, so a header that is the
    secret and a trailing no-break space is accepted without one. *)
Theorem authKey_bearer w s sp r secret key :
  represents s sp → w_ctx w 0 = Runs → resolves sp secret key →
  bytes_of secret ≠ [] → Forall (λ b, plain_byte b = true) (bytes_of secret) →
  (r_Authorization r = "Bearer " +:+ secret ∨ r_Authorization r = secret +:+ string_of [xc2; xa0] →
     ∃ key', authKey w s r = Some key' ∧ ID key' = ID key ∧ OwnerAccount key' = OwnerAccount key) ∧
  (r_Authorization r = secret → authKey w s r = None).
Proof.
  intros Hr Hc Hk Hne Hpl.
  assert (Hsp : x20 ∉ bytes_of secret).
  { intros H. by apply (proj1 (Forall_forall _ _) Hpl) in H. }
  assert (Hlen : ∀ a b, String.length a ≠ String.length b → a ≠ b) by (intros ?? H ->; done).
  split.
  - intros Ha. assert (token r = secret) as Ht.
    { unfold token. destruct Ha as [->| ->].
      - rewrite TrimPrefix_app. by apply TrimSpace_plain.
      - rewrite (TrimPrefix_absent _ _ x20); [by apply TrimSpace_nbsp| |by vm_compute; set_solver].
        rewrite bytes_of_append, bytes_of_string_of. set_solver. }
    apply (authKey_found w s sp); [done|done|by rewrite Ht| |].
    + rewrite Ht. by intros ->.
    + rewrite Ht. destruct Ha as [->| ->]; apply Hlen; rewrite string_length_app; cbn; lia.
  - intros Ha. unfold authKey. rewrite Ha, (TrimPrefix_absent secret "Bearer " x20) by (done || (by vm_compute; set_solver)).
    rewrite TrimSpace_plain by done. by rewrite bool_decide_eq_true_2 by auto.
Qed.

(** The create handler, for an authenticated request. *)
Lemma create_sent w s rl r k bs :
  authKey w s r = Some k → w_rand w = inl bs → (∀ acc req, w_send w acc req ≠ Panic) →
  ∃ o, handleCreateRequest w s rl r = Ok o ∧
    (is_Some o.2 ↔ r_Method r = "POST" ∧ (allow (ID k) (w_now1 w) (w_now2 w) rl).1 = true ∧
       (∃ body, decodeBody (r_Body r) = Some body ∧ well_formed body) ∧
       accountOnline (OwnerAccount k) (w_bindings w) = true) ∧
    (∀ acc req, o.2 = Some (DRequest acc req) →
       match w_send w acc req with
       | Ok res => status o.1.1 = 200%Z ∧ payload_of o.1.1 = PResult res
       | _ => status o.1.1 = 503%Z ∨ status o.1.1 = 504%Z
       end).
Proof.
  intros Hk Hb Hsend. unfold handleCreateRequest. rewrite Hk, Hb.
  assert (Hno : ∀ (P : Prop) resp rl', ¬ P → ∃ o : outcome, Ok (resp, rl', None) = Ok o ∧ (is_Some o.2 ↔ P) ∧
    (∀ acc req, o.2 = Some (DRequest acc req) →
       match w_send w acc req with
       | Ok res => status o.1.1 = 200%Z ∧ payload_of o.1.1 = PResult res
       | _ => status o.1.1 = 503%Z ∨ status o.1.1 = 504%Z
       end)).
  { intros P resp rl' HP. eexists. split; [done|]. split; [|done]. split; [by intros [??]|done]. }
  case_bool_decide as Hpost; [apply Hno; by intros (? & _)|].
  destruct (allow _ _ _ rl) as [[] rl1]; cbn [negb fst]; [|apply Hno; by intros (_ & ? & _)].
  destruct (decodeBody (r_Body r)) as [body|]; [|apply Hno; by intros (_ & _ & (? & ? & _) & _)].
  destruct (buildTxRequest_Ok bs (w_time w) k body) as [Hnp Hwf].
  destruct (buildTxRequest (inl bs) (w_time w) k body) as [req|e|]; [| |done].
  2:{ apply Hno. intros (_ & _ & (b & [= <-] & Hw%Hwf) & _). by destruct Hw. }
  assert (Hw : well_formed body) by (apply Hwf; eauto). clear Hwf Hnp.
  destruct (accountOnline _ _); cbn [negb]; [|apply Hno; by intros (_ & _ & _ & ?)].
  destruct (w_send w (OwnerAccount k) req) as [res|e|] eqn:Hs; [| |by apply Hsend in Hs].
  - eexists. split; [done|]. split; [split; [eauto 10|done]|]. intros acc q [= <- <-]. by rewrite Hs.
  - eexists. split; [done|]. split; [split; [eauto 10|done]|]. intros acc q [= <- <-]. rewrite Hs.
    case_bool_decide; auto.
Qed.

(** C13: a POST, GET or other request to /v1/requests (no preflight) that presents,
    after "Bearer", the secret of a stored key, when neither the store's read
    nor the random source fails: a device is asked to sign exactly when the
    request is a POST, the key is below its rate, the body decodes to a
    well-formed send, and a device of the key's account is connected; the
    device's verdict is then the answer, and otherwise its failure is 503 or
    504. *)
Theorem create_request_reaches other w sc s sp rl r key bs :
  represents s sp → w_ctx w 0 = Runs → w_rand w = inl bs →
  r_Path r = "/v1/requests" → r_Method r ≠ "OPTIONS" →
  resolves sp (token r) key → token r ≠ "" → token r ≠ r_Authorization r →
  (∀ acc req, w_send w acc req ≠ Panic) →
  ∃ resp rl' sent, routes other w sc s rl r = Ok (resp, rl', sent) ∧
    (is_Some sent ↔ r_Method r = "POST" ∧ (allow (ID key) (w_now1 w) (w_now2 w) rl).1 = true ∧
       (∃ body, decodeBody (r_Body r) = Some body ∧ well_formed body) ∧
       accountOnline (OwnerAccount key) (w_bindings w) = true) ∧
    (∀ acc req, sent = Some (DRequest acc req) →
       match w_send w acc req with
       | Ok res => status resp = 200%Z ∧ payload_of resp = PResult res
       | _ => status resp = 503%Z ∨ status resp = 504%Z
       end).
Proof.
  intros Hr Hc Hb Hp Hopt Hk H1 H2 Hsend.
  destruct (authKey_found w s sp r key Hr Hc Hk H1 H2) as (k & Hk' & Hid & Hown).
  destruct (create_sent w s rl r k bs Hk' Hb Hsend) as ([[resp rl1] sent] & Ho & Hs & Hv).
  rewrite Hid, Hown in Hs. cbn [fst snd] in *.
  assert (Hm : mux other w s rl r = Ok (resp, rl1, sent)) by (unfold mux; by rewrite Hp).
  unfold routes, corsMiddleware. rewrite Hm, (bool_decide_eq_false_2 (r_Method r = "OPTIONS")) by done.
  destruct (_ || _); [by exists resp, rl1, sent|]. cbn [mbind res_bind].
  set (allowed := match OriginAllowed _ _ sc with Ok b => b | _ => false end).
  eexists _, rl1, sent. split; [done|]. split; [done|]. by destruct allowed.
Qed.

(** The read-only questions a key can put to the device, by path. *)
Definition query_paths : list (string * string) :=
  [("/v1/settings", "settings"); ("/v1/balance", "balance"); ("/v1/activity", "activity");
   ("/v1/requests/status", "request_status")].

(** The answer to an HTTP caller of what [hub.query] returned. *)
Definition relayed (op : string) (qr : res QueryResult) : Z * payload :=
  match qr with
  | Ok q =>
      if bool_decide (QueryResult_Error q = "") then (200%Z, PRaw (QueryResult_Data q))
      else if bool_decide (QueryResult_Error q = "not_found" ∧ op = "request_status")
      then (404%Z, PError "no completed request with that nonce (it may be pending, rejected, or never submitted)")
      else (502%Z, PError (QueryResult_Error q))
  | Err e => if bool_decide (e = errAccountOffline) then (503%Z, PError "the account's device is offline")
             else (504%Z, PError "timed out waiting for the device")
  | Panic => (0%Z, PEmpty)
  end.

Lemma device_query_relays op w s rl r k :
  op ≠ "request_status" → authKey w s r = Some k → r_Method r = "GET" →
  accountOnline (OwnerAccount k) (w_bindings w) = true →
  let q := MkQuery op (ID k) (OwnerAccount k) "" in
  w_ask w (OwnerAccount k) q ≠ Panic →
  ∃ resp, deviceQuery op w s rl r = Ok (resp, rl, Some (DQuery (OwnerAccount k) q)) ∧
          (status resp, payload_of resp) = relayed op (w_ask w (OwnerAccount k) q).
Proof.
  intros Hop Hk Hget Hon q Hask. unfold deviceQuery. rewrite Hget, Hk, Hon. cbn [negb].
  rewrite bool_decide_eq_false_2 by auto. fold q. unfold relayed.
  destruct (w_ask w (OwnerAccount k) q) as [qr|e|]; [| |done].
  - rewrite (bool_decide_eq_false_2 (_ = "not_found" ∧ _)) by (by intros [_ ?]).
    destruct (bool_decide (QueryResult_Error qr = "")); cbn [negb]; by eexists.
  - destruct (bool_decide _); by eexists.
Qed.

Lemma request_status_relays w s rl r k :
  authKey w s r = Some k → r_Method r = "GET" → TrimSpace (r_Nonce r) ≠ "" →
  accountOnline (OwnerAccount k) (w_bindings w) = true →
  let q := MkQuery "request_status" (ID k) (OwnerAccount k) (TrimSpace (r_Nonce r)) in
  w_ask w (OwnerAccount k) q ≠ Panic →
  ∃ resp, handleRequestStatus w s rl r = Ok (resp, rl, Some (DQuery (OwnerAccount k) q)) ∧
          (status resp, payload_of resp) = relayed "request_status" (w_ask w (OwnerAccount k) q).
Proof.
  intros Hk Hget Hn Hon q Hask. unfold handleRequestStatus. rewrite Hget, Hk, Hon.
  rewrite (bool_decide_eq_false_2 ("GET" ≠ "GET")), (bool_decide_eq_false_2 (TrimSpace _ = "")) by auto.
  cbn [negb]. fold q. unfold relayed. destruct (w_ask w (OwnerAccount k) q) as [qr|e|]; [| |done].
  - destruct (decide (QueryResult_Error qr = "not_found")) as [E|E].
    + rewrite E. by eexists.
    + rewrite (bool_decide_eq_false_2 _ E), (bool_decide_eq_false_2 (_ ∧ _)) by (by intros [? _]).
      destruct (bool_decide (QueryResult_Error qr = "")); cbn [negb]; by eexists.
  - destruct (bool_decide _); by eexists.
Qed.

(** C33: a read-only request (GET, with the secret of a stored key after "Bearer"
    and, where the path needs one, a nonce) whose account has a device
    connected, the store's read not failing, puts exactly one query to the
    key's account, with the operation of its path, and relays the device's data
    verbatim, its error as 502 (404 for an unknown nonce), an offline device as
    503 and a timeout as 504; it never touches the rate limiter. *)
Theorem queries_relayed other w sc s sp rl r key op :
  represents s sp → w_ctx w 0 = Runs → resolves sp (token r) key → token r ≠ "" →
  token r ≠ r_Authorization r → (r_Path r, op) ∈ query_paths → r_Method r = "GET" →
  (op = "request_status" → TrimSpace (r_Nonce r) ≠ "") →
  accountOnline (OwnerAccount key) (w_bindings w) = true → (∀ acc q, w_ask w acc q ≠ Panic) →
  let q := MkQuery op (ID key) (OwnerAccount key)
             (if bool_decide (op = "request_status") then TrimSpace (r_Nonce r) else "") in
  ∃ resp, routes other w sc s rl r = Ok (resp, rl, Some (DQuery (OwnerAccount key) q)) ∧
          (status resp, payload_of resp) = relayed op (w_ask w (OwnerAccount key) q).
Proof.
  intros Hr Hc Hk H1 H2 Hp Hget Hn Hon Hask q.
  destruct (authKey_found w s sp r key Hr Hc Hk H1 H2) as (k & Hk' & Hid & Hown).
  assert (Hm : ∃ resp, mux other w s rl r = Ok (resp, rl, Some (DQuery (OwnerAccount key) q)) ∧
    (status resp, payload_of resp) = relayed op (w_ask w (OwnerAccount key) q)).
  { specialize (Hask (OwnerAccount key) q). subst q. rewrite <- Hid, <- Hown in *.
    unfold query_paths in Hp. rewrite !elem_of_cons in Hp.
    destruct Hp as [[= Hp ->]|[[= Hp ->]|[[= Hp ->]|[[= Hp ->]|[]%elem_of_nil]]]]; unfold mux; rewrite Hp;
      repeat (rewrite bool_decide_eq_false_2 by done); rewrite bool_decide_eq_true_2 by done.
    1-3: by apply device_query_relays.
    exact (request_status_relays w s rl r k Hk' Hget (Hn eq_refl) Hon Hask). }
  destruct Hm as (resp & Hm & Hrel). unfold routes, corsMiddleware.
  rewrite Hm, (bool_decide_eq_false_2 (r_Method r = "OPTIONS")) by (by rewrite Hget).
  destruct (_ || _); [by exists resp|]. cbn [mbind res_bind].
  set (allowed := match OriginAllowed _ _ sc with Ok b => b | _ => false end).
  eexists. split; [done|]. by destruct allowed.
Qed.
End api_props.

(** ** Witnesses: the holder of "key_1" of nano_a, whose device is connected *)

Definition holder_asks (method path : string) : httpRequest :=
  MkHttp method path "" "Bearer s1" "" [].
Definition calm : world :=
  MkWorld (λ _, Runs) 0 0 zero_time (inl (replicate 12 x00)) (bind 0 ["nano_a"] ∅)
    (λ _ _, Ok (MkTxResult "req" "approved" "" None "" zero_time)) (λ _ _, Ok (MkQueryResult "" [x7b; x7d])).

Lemma s1_resolves : resolves spec1 "s1" (MkAPIKey "key_1" "nano_a" None).
Proof.
  exists (MkKeySpec "nano_a" (hashSecret "s1") []). rewrite spec1_eq.
  by split_and!.
Qed.

Definition example_key : APIKey := MkAPIKey "key_1" "nano_a" None.

Theorem api_isolation_witness :
  ∃ key, resolves spec1 "s1" key ∧ OwnerAccount key = "nano_a" ∧
    sent_for key (DQuery "nano_a" (MkQuery "balance" "key_1" "nano_a" "")).
Proof.
  destruct (api_isolation (λ _, MkResponse 404 [] PEmpty) calm mem1 mem1 spec1 serverLimiter
    (holder_asks "GET" "/v1/balance") (stream [x7b; x7d]) serverLimiter
    (Some (DQuery "nano_a" (MkQuery "balance" "key_1" "nano_a" ""))) mem1_repr ltac:(by vm_compute))
    as (H & _).
  destruct (H _ eq_refl) as (key & Hk & Hs & _). exists key.
  split; [exact Hk|]. split; [symmetry; apply Hs|exact Hs].
Defined.

Theorem cors_sound_witness :
  (403 = 204 ↔ lists_origin spec1 "https://shop.example")%Z ∧
  (403 = 403 ↔ ¬ lists_origin spec1 "https://shop.example")%Z.
Proof.
  destruct (cors_sound (λ _, MkResponse 404 [] PEmpty) calm mem1 mem1 spec1 serverLimiter
    (MkHttp "OPTIONS" "/v1/requests" "https://shop.example" "" "" []) (MkResponse 403 [] PEmpty)
    serverLimiter None mem1_repr ltac:(by vm_compute) ltac:(intros ???; by apply not_elem_of_nil in H)) as [_ H].
  destruct (H eq_refl ltac:(done) eq_refl) as (_ & _ & _ & Hs). exact (Hs eq_refl).
Defined.



Theorem authKey_bearer_witness :
  ∃ key', authKey calm mem1 (MkHttp "GET" "/v1/status" "" ("s1" +:+ string_of [xc2; xa0]) "" []) = Some key' ∧
          ID key' = "key_1" ∧ OwnerAccount key' = "nano_a".
Proof.
  apply (authKey_bearer calm mem1 spec1
    (MkHttp "GET" "/v1/status" "" ("s1" +:+ string_of [xc2; xa0]) "" []) "s1" example_key);
    [apply mem1_repr|reflexivity|apply s1_resolves|discriminate|by repeat constructor|by right].
Defined.

(** A body with double quotes for single ones. *)
Definition js (s : string) : list byte := (λ b, if bool_decide (b = x27) then x22 else b) <$> bytes_of s.
Definition post_send : httpRequest :=
  MkHttp "POST" "/v1/requests" "" "Bearer s1" ""
    (js ("{'kind':'send','amount':'0.5','destination':'" +:+ zero_address +:+ "'}")).

Theorem create_request_reaches_witness :
  ∃ resp rl' sent, routes (λ _, MkResponse 404 [] PEmpty) calm mem1 mem1 serverLimiter post_send = Ok (resp, rl', sent) ∧
    is_Some sent.
Proof.
  destruct (create_request_reaches (λ _, MkResponse 404 [] PEmpty) calm mem1 mem1 spec1 serverLimiter post_send
    example_key (replicate 12 x00)) as (resp & rl' & sent & Hr & Hs & _);
    [exact mem1_repr|reflexivity|reflexivity|reflexivity|discriminate|exact s1_resolves|by vm_compute|by vm_compute
    |discriminate|].
  exists resp, rl', sent. split; [exact Hr|]. apply Hs. split; [reflexivity|]. split; [by vm_compute|].
  split; [|by vm_compute]. eexists. split; [by vm_compute|].
  apply (buildTxRequest_Ok (replicate 12 x00) zero_time example_key). eexists. by vm_compute.
Defined.

Theorem queries_relayed_witness :
  ∃ resp, routes (λ _, MkResponse 404 [] PEmpty) calm mem1 mem1 serverLimiter (holder_asks "GET" "/v1/balance") =
    Ok (resp, serverLimiter, Some (DQuery "nano_a" (MkQuery "balance" "key_1" "nano_a" ""))) ∧
    (status resp, payload_of resp) = (200%Z, PRaw [x7b; x7d]).
Proof.
  apply (queries_relayed (λ _, MkResponse 404 [] PEmpty) calm mem1 mem1 spec1 serverLimiter
    (holder_asks "GET" "/v1/balance") example_key "balance");
    [exact mem1_repr|reflexivity|exact s1_resolves|by vm_compute|by vm_compute|set_solver|reflexivity|discriminate
    |by vm_compute|discriminate].
Defined.
