(* ===== verification/Env.v ===== *)
(** * The .env loader (cmd/relay/env.go) and [envOr] (cmd/relay/main.go)

    The process environment is a map; a file is its bytes, [None] when it
    cannot be opened. *)

From S2P Require Import Prelude GoStd.

Abbreviation environ := (gmap string string).

(** [os.Setenv] on Unix: EINVAL for an empty key, '=' or NUL in the key, NUL in
    the value. *)
Definition Setenv (key val : string) (env : environ) : option error * environ :=
  if bool_decide (key = "" ∨ ch "=" ∈ bytes_of key ∨ x00 ∈ bytes_of key ∨ x00 ∈ bytes_of val)
  then (Some (ErrString "setenv: invalid argument"), env)
  else (None, <[key := val]> env).

(** [bufio.Scanner] with [ScanLines]: lines without their line feed and one
    carriage return; the scan stops at a line that does not fit its buffer.
    [acc] is the current line, reversed. *)
Definition MaxScanTokenSize : Z := 65536.
Definition dropCR (acc : list byte) : list byte :=
  match acc with x0d :: acc' => acc' | _ => acc end.
Fixpoint scan_lines (acc : list byte) (l : list byte) : list string :=
  let token rest :=
    if (Z.of_nat (length acc) <? MaxScanTokenSize)%Z
    then string_of (reverse (dropCR acc)) :: rest else [] in
  match l with
  | [] => if bool_decide (acc = []) then [] else token []
  | b :: l' => if bool_decide (b = x0a) then token (scan_lines [] l') else scan_lines (b :: acc) l'
  end.

(** [dotenvValue]: one pair of matching quotes around the trimmed text is
    dropped. *)
Definition dotenvValue (v : string) : res string :=
  let v := TrimSpace v in
  let len := Z.of_nat (String.length v) in
  if (2 <=? len)%Z then
    first ← index (bytes_of v) 0;
    final ← index (bytes_of v) (len - 1);
    if bool_decide ((first = x22 ∧ final = x22) ∨ (first = x27 ∧ final = x27))
    then slice v 1 (len - 1)
    else Ok v
  else Ok v.

(** The body of the loop over the lines. *)
Definition applyLine (text : string) (env : environ) : res environ :=
  let line := TrimSpace text in
  if bool_decide (line = "") || HasPrefix line "#" then Ok env
  else
    let line := TrimPrefix line "export " in
    let '(key, val, ok) := Cut line (ch "=") in
    if negb ok then Ok env
    else
      let key := TrimSpace key in
      if bool_decide (key = "") then Ok env
      else if bool_decide (is_Some (env !! key)) then Ok env
      else v ← dotenvValue val; Ok (Setenv key v env).2.

Definition applyEnvFile (file : option (list byte)) (env : environ) : res (bool * environ) :=
  match file with
  | None => Ok (false, env)
  | Some data => env' ← for_range (scan_lines [] data) applyLine env; Ok (true, env')
  end.

(** The files by name. *)
Definition loadDotEnv (files : string → option (list byte)) (env : environ) : res environ :=
  for_range [".env.local"; ".env"] (λ name env, r ← applyEnvFile (files name) env; Ok r.2) env.

Definition envOr (key def : string) (env : environ) : string :=
  let v := default "" (env !! key) in
  if bool_decide (v = "") then def else v.

(** ** What a line defines *)

Definition assignment (text : string) : option (string * string) :=
  let line := TrimSpace text in
  if bool_decide (line = "") || HasPrefix line "#" then None
  else
    let '(key, val, ok) := Cut (TrimPrefix line "export ") (ch "=") in
    match ok, dotenvValue val with
    | true, Ok v =>
        let key := TrimSpace key in
        if bool_decide (key = "" ∨ x00 ∈ bytes_of key ∨ x00 ∈ bytes_of v) then None else Some (key, v)
    | _, _ => None
    end.

Definition definitions_of (file : option (list byte)) : environ :=
  match file with None => ∅ | Some data => list_to_map (omap assignment (scan_lines [] data)) end.

(** ** Lemmas *)

Lemma dotenvValue_total v : ∃ v', dotenvValue v = Ok v'.
Proof.
  unfold dotenvValue. destruct (Z.leb_spec 2 (Z.of_nat (String.length (TrimSpace v)))) as [Hl|]; [|eauto].
  set (s := TrimSpace v) in *.
  assert (Hb : length (bytes_of s) = String.length s) by apply length_bytes_of.
  destruct (lookup_lt_is_Some_2 (bytes_of s) 0) as [a Ha]; [lia|].
  destruct (lookup_lt_is_Some_2 (bytes_of s) (String.length s - 1)) as [z Hz]; [lia|].
  replace 0%Z with (Z.of_nat 0) by done. rewrite (index_lookup _ _ _ Ha).
  replace (Z.of_nat (String.length s) - 1)%Z with (Z.of_nat (String.length s - 1)) by lia.
  rewrite (index_lookup _ _ _ Hz). cbn [mbind res_bind]. case_bool_decide; [|eauto].
  unfold slice. replace (_ && _ && _) with true; [eauto|].
  symmetry. rewrite !andb_true_iff, !Z.leb_le. lia.
Qed.

Lemma Setenv_ok key v env :
  key ≠ "" → ch "=" ∉ bytes_of key →
  (Setenv key v env).2 = if bool_decide (x00 ∈ bytes_of key ∨ x00 ∈ bytes_of v) then env else <[key := v]> env.
Proof.
  intros H1 H2. unfold Setenv. do 2 case_bool_decide; naive_solver.
Qed.

(** A line extends the environment with what it defines, if that is new. *)
Lemma applyLine_assignment text env :
  applyLine text env = Ok (match assignment text with
                           | Some (k, v) => env ∪ {[k := v]}
                           | None => env end).
Proof.
  unfold applyLine, assignment.
  destruct (bool_decide (TrimSpace text = "") || HasPrefix (TrimSpace text) "#"); [done|].
  set (line := TrimPrefix (TrimSpace text) "export ").
  pose proof (Cut_before line (ch "=")) as Hc. destruct (Cut line (ch "=")) as [[key val] ok].
  destruct ok; cbn [negb]; [|done]. destruct Hc as [_ Hk]. specialize (Hk eq_refl).
  destruct (dotenvValue_total val) as [v ->]. set (k := TrimSpace key).
  assert (Hk' : ch "=" ∉ bytes_of k) by (by intros ?%bytes_of_TrimSpace).
  case_bool_decide as H1; [by rewrite bool_decide_eq_true_2 by auto|].
  case_bool_decide as H2.
  - case_bool_decide; [done|]. destruct H2 as [x Hx]. f_equal. apply map_eq; intros i.
    rewrite lookup_union. destruct (decide (i = k)) as [->|Hne].
    + rewrite Hx. by destruct ({[k := v]} !! k).
    + rewrite lookup_singleton_ne by done. by destruct (env !! i).
  - cbn [mbind res_bind]. rewrite Setenv_ok by done. apply eq_None_not_Some in H2.
    destruct (decide (x00 ∈ bytes_of k ∨ x00 ∈ bytes_of v)) as [Hz|Hz].
    { by rewrite !bool_decide_eq_true_2 by auto. }
    rewrite !bool_decide_eq_false_2 by (done || by intros [?|?]).
    f_equal. apply map_eq; intros i.
    rewrite lookup_union. destruct (decide (i = k)) as [->|Hne].
    + by rewrite lookup_insert_eq, lookup_singleton_eq, H2.
    + rewrite lookup_insert_ne, lookup_singleton_ne by done. by destruct (env !! i).
Qed.

Lemma applyLines lines env :
  for_range lines applyLine env = Ok (env ∪ list_to_map (omap assignment lines)).
Proof.
  revert env; induction lines as [|t lines IH]; intros env; cbn [for_range omap list_omap].
  - cbn. by rewrite (right_id_L ∅ (∪)).
  - rewrite applyLine_assignment. cbn [mbind res_bind]. rewrite IH.
    destruct (assignment t) as [[k v]|]; [|done].
    rewrite list_to_map_cons, insert_union_singleton_l. by rewrite (assoc_L (∪)).
Qed.

Lemma applyEnvFile_env file env :
  applyEnvFile file env = Ok (bool_decide (is_Some file), env ∪ definitions_of file).
Proof.
  destruct file as [data|]; cbn; [|by rewrite (right_id_L ∅ (∪))].
  by rewrite applyLines.
Qed.

Lemma loadDotEnv_env files env :
  loadDotEnv files env = Ok (env ∪ definitions_of (files ".env.local") ∪ definitions_of (files ".env")).
Proof. unfold loadDotEnv. cbn [for_range]. rewrite applyEnvFile_env. cbn. by rewrite applyEnvFile_env. Qed.

(** Precedence: after the loader the real environment is unchanged where it
    was set; a name it does not set gets its value from .env.local, then from
    .env; within a file the first definition counts.  It never panics. *)
Theorem loadDotEnv_precedence files env :
  loadDotEnv files env = Ok (env ∪ definitions_of (files ".env.local") ∪ definitions_of (files ".env")).
Proof. apply loadDotEnv_env. Qed.

(** ** Writing a definition *)

(** [export KEY="value"] in double or single quotes. *)
Definition env_line (key val : string) (quote : Ascii.ascii) : string :=
  "export " +:+ (key +:+ String (Ascii.ascii_of_nat 61) (String quote (val +:+ String quote ""))).

Lemma dotenvValue_quoted q v :
  Ascii.byte_of_ascii q = x22 ∨ Ascii.byte_of_ascii q = x27 →
  dotenvValue (String q (v +:+ String q "")) = Ok v.
Proof.
  intros Hq. set (b := Ascii.byte_of_ascii q).
  assert (Hbytes : bytes_of (String q (v +:+ String q "")) = b :: bytes_of v ++ [b])
    by (by rewrite bytes_of_cons, bytes_of_append, bytes_of_cons).
  assert (Hplain : plain_byte b = true) by (subst b; by destruct Hq as [-> | ->]).
  unfold dotenvValue, TrimSpace. rewrite Hbytes.
  rewrite trim_space_plain; [|by exists b, (bytes_of v ++ [b])|by exists b, (b :: bytes_of v)].
  rewrite bytes_of_string_of, length_string_of. cbn [length]. rewrite length_app. cbn [length].
  rewrite (proj2 (Z.leb_le 2 _)) by lia.
  change 0%Z with (Z.of_nat 0). rewrite (index_lookup (b :: bytes_of v ++ [b]) 0 b eq_refl).
  replace (Z.of_nat (S (length (bytes_of v) + 1)) - 1)%Z with (Z.of_nat (S (length (bytes_of v)))) by lia.
  rewrite (index_lookup (b :: bytes_of v ++ [b]) (S (length (bytes_of v))) b) by (cbn; by apply list_lookup_middle).
  cbn [mbind res_bind]. rewrite bool_decide_eq_true_2 by (subst b; naive_solver).
  unfold slice. rewrite bytes_of_string_of, length_string_of. cbn [length]. rewrite length_app. cbn [length].
  replace (_ && _ && _) with true by (symmetry; rewrite !andb_true_iff, !Z.leb_le; lia).
  replace (Z.to_nat (_ - 1)) with (length (bytes_of v)) by lia.
  change (drop (Z.to_nat 1) (b :: bytes_of v ++ [b])) with (bytes_of v ++ [b]).
  by rewrite take_app_length, string_of_bytes_of.
Qed.

(** A quoted definition means what it says: the line
    [export KEY="value"], in either kind of quotes and with any text in the
    value, NUL apart, sets [KEY] to exactly that text, unless [KEY] is set. *)
Theorem env_line_defines key val q env :
  Ascii.byte_of_ascii q = x22 ∨ Ascii.byte_of_ascii q = x27 →
  key ≠ "" → Forall (λ b, plain_byte b = true) (bytes_of key) → ch "=" ∉ bytes_of key →
  x00 ∉ bytes_of val →
  applyLine (env_line key val q) env = Ok (if bool_decide (is_Some (env !! key)) then env else <[key := val]> env).
Proof.
  intros Hq Hne Hpl Heq Hnul. unfold applyLine.
  assert (Hline : TrimSpace (env_line key val q) = env_line key val q).
  { set (text := "export " +:+ (key +:+ String (Ascii.ascii_of_nat 61) (String q val))).
    assert (Hb : bytes_of (env_line key val q) = bytes_of text ++ [Ascii.byte_of_ascii q]).
    { unfold env_line, text. rewrite !bytes_of_append, !bytes_of_cons, !bytes_of_append, bytes_of_cons.
      cbn [app]. by rewrite <-!app_assoc. }
    unfold TrimSpace. rewrite Hb, trim_space_plain, <-Hb; [apply string_of_bytes_of| |].
    - unfold text. rewrite bytes_of_append. by eexists (ch "e"), _.
    - eexists _, _. split; [done|]. by destruct Hq as [-> | ->]. }
  rewrite Hline. unfold env_line at 1 2.
  rewrite bool_decide_eq_false_2 by done. cbn [orb].
  change (HasPrefix _ "#") with false. cbv iota. unfold env_line. rewrite TrimPrefix_app.
  change (ch "=") with (Ascii.byte_of_ascii (Ascii.ascii_of_nat 61)). rewrite Cut_found by done.
  cbn [negb]. assert (Hkb : bytes_of key ≠ []) by (by destruct key).
  rewrite TrimSpace_plain, bool_decide_eq_false_2 by done. case_bool_decide; [done|].
  rewrite dotenvValue_quoted by done. cbn [mbind res_bind]. rewrite Setenv_ok by done.
  rewrite bool_decide_eq_false_2; [done|]. intros [H0|H0]; [|done].
  by apply (proj1 (Forall_forall _ _) Hpl) in H0.
Qed.

Theorem env_line_defines_witness :
  applyLine (env_line "LISTEN" " :80 # not a comment" (Ascii.ascii_of_nat 39)) ∅ = Ok (<["LISTEN" := " :80 # not a comment"]> ∅).
Proof.
  pose proof (env_line_defines "LISTEN" " :80 # not a comment" (Ascii.ascii_of_nat 39) ∅) as H.
  rewrite lookup_empty in H. apply H;
    [by right|discriminate|by repeat constructor|apply (bool_decide_unpack _); vm_compute; exact I
    |apply (bool_decide_unpack _); vm_compute; exact I].
Defined.
