(* ===== verification/Migrate.v ===== *)
(** * The Postgres to SQLite copy (cmd/migrate/main.go)

    The Postgres pool (pgx) is outside: a query is an error or the rows it
    yields, each scanned or an error, and what [rows.Err] says at the end.  The
    SQLite side is the database of SqliteStore.v; the schema text is the same. *)

From S2P Require Import Prelude GoStd Sha256 Utf8 Json Store SqliteStore StoreProps.

Record pg_key := MkPgKey {
  pk_id : string;
  pk_owner : string;
  pk_hash : string;
  pk_origins : gslice string;   (* text[] *)
}.

Record pg_blob := MkPgBlob {
  pb_account : string;
  pb_version : Z;
  pb_blob : gslice byte;
}.

(** [pool.Query]: its error, or the scanned rows and [rows.Err()]. *)
Definition pg_rows (A : Type) : Type := error + list (A + error) * option error.

Section migrate.
Context {D : SqliteDriver}.

(** [INSERT INTO api_keys (id, owner_account, key_hash, allowed_origins) ...
    ON CONFLICT(id) DO UPDATE SET] all three. *)
Definition copy_key (id owner hash text : string) : stmt := λ db,
  if hash_taken id hash db then Err unique_error
  else Ok (1%Z, MkDB (<[id := MkApiRow owner hash text]> (api_keys db)) (policy_blobs db)).

Definition key_text (origins : gslice string) : string :=
  Marshal_strings (match origins with None => Some [] | Some _ => origins end).

Definition key_stmt (k : pg_key) : stmt :=
  copy_key (pk_id k) (pk_owner k) (pk_hash k) (key_text (pk_origins k)).
Definition blob_stmt (b : pg_blob) : stmt :=
  upsert_policy (pb_account b) (pb_version b) (bind_bytes (pb_blob b)).

(** The loop over the rows, one statement each: the count, the error and the
    database. [ctx i] is the fate of the [i]th statement. *)
Fixpoint copy_rows {A} (st : A → stmt) (ctx : nat → fate) (i : nat) (rows : list (A + error))
    (err : option error) (n : Z) (db : sqliteDB) : Z * option error * sqliteDB :=
  match rows with
  | [] => (n, err, db)
  | inr e :: _ => (n, Some e, db)
  | inl row :: rows' =>
      match ExecContext (ctx i) (st row) db with
      | (Ok _, db') => copy_rows st ctx (S i) rows' err (n + 1) db'
      | (Err e, db') => (n, Some e, db')
      | (Panic, db') => (n, None, db')
      end
  end.

Definition copy_table {A} (st : A → stmt) (ctx : nat → fate) (q : pg_rows A) (db : sqliteDB) :
    Z * option error * sqliteDB :=
  match q with
  | inl err => (0%Z, Some err, db)
  | inr (rows, err) => copy_rows st ctx 0 rows err 0 db
  end.

Definition migrateAPIKeys := copy_table key_stmt.
Definition migratePolicyBlobs := copy_table blob_stmt.

(** The connections and the schema before the copy. *)
Record setup := MkSetup {
  su_connect : option error;
  su_ping : option error;
  su_open : option error;
  su_wal : option error;
  su_schema : fate;
}.

(** [main]: what it logs last ([inl] for log.Fatal) and the SQLite file. *)
Definition main (pgURL sqlitePath : string) (su : setup) (keys : pg_rows pg_key)
    (blobs : pg_rows pg_blob) (ctx1 ctx2 : nat → fate) (file : option sqliteDB) :
    (string * option error + Z * Z) * option sqliteDB :=
  if bool_decide (pgURL = "" ∨ sqlitePath = "")
  then (inl ("set both DATABASE_URL (source) and SQLITE_PATH (destination)", None), file)
  else match su_connect su, su_ping su, su_open su, su_wal su with
  | Some e, _, _, _ => (inl ("connect postgres", Some e), file)
  | None, Some e, _, _ => (inl ("ping postgres", Some e), file)
  | None, None, Some e, _ => (inl ("open sqlite", Some e), file)
  | None, None, None, Some e => (inl ("sqlite wal", Some e), file)
  | None, None, None, None =>
      match su_schema su with
      | Fails applied e => (inl ("sqlite schema", Some e), if applied then Some (sqliteSchema file) else file)
      | Runs =>
          let '(n1, e1, db1) := migrateAPIKeys ctx1 keys (sqliteSchema file) in
          match e1 with
          | Some e => (inl ("migrate api_keys", Some e), Some db1)
          | None =>
              let '(n2, e2, db2) := migratePolicyBlobs ctx2 blobs db1 in
              match e2 with
              | Some e => (inl ("migrate policy_blobs", Some e), Some db2)
              | None => (inr (n1, n2), Some db2)
              end
          end
      end
  end.
End migrate.

(** ** What the copy leaves *)

Section props.
Context {D : SqliteDriver} {DL : SqliteDriverLaws}.

Definition copied_key (k : pg_key) : key_spec := MkKeySpec (pk_owner k) (pk_hash k) (elems (pk_origins k)).

(** The source rows are keys of one table, with valid text, and none has the
    hash of another id in the destination. *)
Record copyable (ks : list pg_key) (sp : store_spec) : Prop := {
  cp_ids : NoDup (pk_id <$> ks);
  cp_hashes k1 k2 : k1 ∈ ks → k2 ∈ ks → pk_hash k1 = pk_hash k2 → pk_id k1 = pk_id k2;
  cp_free k : k ∈ ks → hash_free sp (pk_id k) (pk_hash k);
  cp_text k : k ∈ ks → Forall (λ o, ValidString o = true) (elems (pk_origins k));
}.

Definition copied_keys (ks : list pg_key) : gmap string key_spec :=
  list_to_map ((λ k, (pk_id k, copied_key k)) <$> ks).

Definition key_row (k : pg_key) : api_row := MkApiRow (pk_owner k) (pk_hash k) (key_text (pk_origins k)).

Lemma key_stmt_spec k db sp :
  sql_repr db sp → hash_free sp (pk_id k) (pk_hash k) →
  Forall (λ o, ValidString o = true) (elems (pk_origins k)) →
  ∃ db', key_stmt k db = Ok (1%Z, db') ∧ sql_repr db' (with_keys (<[pk_id k := copied_key k]>) sp) ∧
    api_keys db' = <[pk_id k := key_row k]> (api_keys db).
Proof.
  intros [-> Hu] Hf Hv. unfold key_stmt, copy_key. rewrite (proj2 (hash_taken_false _ _ _) Hf).
  eexists; split; [done|]. split; [|done]. split; [|by apply unique_insert].
  unfold with_keys, db_spec. cbn. rewrite fmap_insert. do 3 f_equal. unfold row_spec, copied_key, key_text.
  cbn [owner_account key_hash allowed_origins]. f_equal. symmetry.
  destruct (pk_origins k) as [l|]; [by apply decode_Marshal|by apply (decode_Marshal [])].
Qed.

Lemma copyable_step k ks sp :
  copyable (k :: ks) sp → copyable ks (with_keys (<[pk_id k := copied_key k]>) sp).
Proof.
  intros [Hid Hh Hf Hv]. apply NoDup_cons in Hid as [Hn Hid]. split.
  - done.
  - intros k1 k2 H1 H2. apply Hh; by right.
  - intros k' Hk' id' ks' Hks Heq. cbn in Hks.
    apply lookup_insert_Some in Hks as [[<- <-]|[_ Hks]].
    + apply Hh; [by left|by right|done].
    + apply (Hf k' ltac:(by right) id' ks' Hks Heq).
  - intros k' Hk'. apply Hv. by right.
Qed.

(** All the rows, with nothing failing. *)
Lemma copy_keys_run ks i n db sp :
  sql_repr db sp → copyable ks sp →
  ∃ db', copy_rows key_stmt (λ _, Runs) i (inl <$> ks) None n db =
           ((n + Z.of_nat (length ks))%Z, None, db') ∧
         sql_repr db' (with_keys (λ m, copied_keys ks ∪ m) sp) ∧
         (∀ id r, id ∉ pk_id <$> ks → api_keys db !! id = Some r → api_keys db' !! id = Some r) ∧
         (∀ k, k ∈ ks → api_keys db' !! pk_id k = Some (key_row k)).
Proof.
  revert i n db sp; induction ks as [|k ks IH]; intros i n db sp Hr Hc; cbn [copy_rows fmap list_fmap length].
  - exists db. change (Z.of_nat 0) with 0%Z. rewrite Z.add_0_r. split; [done|].
    split; [|by split; [|by intros k ?%elem_of_nil]].
    replace (with_keys _ sp) with sp; [done|]. destruct sp as [m p]. unfold with_keys, copied_keys; cbn.
    by rewrite (left_id_L ∅ (∪)).
  - destruct (key_stmt_spec k db sp Hr) as (db1 & Hst & Hr1 & Hrows).
    { apply (cp_free _ _ Hc). by left. } { apply (cp_text _ _ Hc). by left. }
    unfold ExecContext. rewrite Hst. fold (ExecContext Runs).
    destruct (IH (S i) (n + 1)%Z db1 _ Hr1 (copyable_step _ _ _ Hc)) as (db' & -> & Hr' & Hother & Hin).
    exists db'. split; [f_equal; f_equal; lia|].
    pose proof (cp_ids _ _ Hc) as Hn. apply NoDup_cons in Hn as [Hn _].
    split; [|split].
    2:{ intros id r [H1 H2]%not_elem_of_cons Hid. apply Hother; [done|]. by rewrite Hrows, lookup_insert_ne. }
    2:{ intros k' [->|Hk']%elem_of_cons; [|by apply Hin]. apply Hother; [done|]. by rewrite Hrows, lookup_insert_eq. }
    revert Hr'. unfold with_keys, copied_keys. cbn.
    rewrite insert_union_singleton_l, (insert_union_singleton_l (list_to_map _)), (assoc_L (∪)).
    rewrite (map_union_comm _ {[pk_id k := _]}); [done|].
    apply map_disjoint_singleton_r, not_elem_of_list_to_map_1. by rewrite <-list_fmap_compose.
Qed.

(** ** Policies *)

Definition copied_blobs (bs : list pg_blob) : gmap string (Z * list byte) :=
  list_to_map ((λ b, (pb_account b, (pb_version b, elems (pb_blob b)))) <$> bs).

(** The stored policy, or the copied one when it is newer. *)
Definition newer (cur row : Z * list byte) : option (Z * list byte) :=
  Some (if (cur.1 <? row.1)%Z then row else cur).
Definition with_blobs (bs : list pg_blob) (sp : store_spec) : store_spec :=
  MkSpec (sp_keys sp) (union_with newer (sp_policy sp) (copied_blobs bs)).

Lemma blob_stmt_spec b db sp :
  sql_repr db sp → is_Some (pb_blob b) →
  ∃ n db', blob_stmt b db = Ok (n, db') ∧ api_keys db' = api_keys db ∧
    sql_repr db' (spec_put (pb_account b) (pb_version b) (elems (pb_blob b)) sp).2.
Proof.
  intros Hr [bs Hb]. unfold blob_stmt. rewrite Hb, bind_bytes_some.
  destruct (upsert_policy_spec (pb_account b) (pb_version b) bs db sp Hr) as (n & db' & Hst & Hr').
  exists n, db'. split; [done|]. split; [|done]. unfold upsert_policy in Hst.
  repeat case_match; by injection Hst as <- <-.
Qed.

Lemma with_blobs_cons b bs sp :
  pb_account b ∉ pb_account <$> bs →
  with_blobs (b :: bs) sp =
  with_blobs bs (spec_put (pb_account b) (pb_version b) (elems (pb_blob b)) sp).2.
Proof.
  intros Hn. unfold with_blobs, spec_put. destruct sp as [m p]. cbn [sp_keys sp_policy snd].
  assert (Hno : copied_blobs bs !! pb_account b = None).
  { apply not_elem_of_list_to_map_1. by rewrite <-list_fmap_compose. }
  assert (Hk : sp_keys (if match p !! pb_account b with Some cur => (cur.1 <? pb_version b)%Z | None => true end
    then MkSpec m (<[pb_account b := (pb_version b, elems (pb_blob b))]> p) else MkSpec m p) = m) by by case_match.
  rewrite Hk. f_equal. apply map_eq; intros a. unfold copied_blobs at 1. rewrite fmap_cons, list_to_map_cons.
  fold (copied_blobs bs). rewrite !lookup_union_with. cbn [fst snd].
  destruct (decide (a = pb_account b)) as [->|Hne].
  - rewrite lookup_insert_eq, Hno. destruct (p !! pb_account b) as [cur|] eqn:Hp; cbn.
    + unfold newer. cbn. destruct (cur.1 <? pb_version b)%Z; cbn; [by rewrite lookup_insert_eq|by rewrite Hp].
    + by rewrite lookup_insert_eq.
  - rewrite lookup_insert_ne by done. case_match; cbn; [by rewrite lookup_insert_ne|done].
Qed.

Lemma copy_blobs_run bs i n db sp :
  sql_repr db sp → NoDup (pb_account <$> bs) → Forall (λ b, is_Some (pb_blob b)) bs →
  ∃ db', copy_rows blob_stmt (λ _, Runs) i (inl <$> bs) None n db =
           ((n + Z.of_nat (length bs))%Z, None, db') ∧
         api_keys db' = api_keys db ∧ sql_repr db' (with_blobs bs sp).
Proof.
  revert i n db sp; induction bs as [|b bs IH]; intros i n db sp Hr Hid Hs; cbn [copy_rows fmap list_fmap length].
  - exists db. change (Z.of_nat 0) with 0%Z. rewrite Z.add_0_r. split; [done|]. split; [done|].
    replace (with_blobs [] sp) with sp; [done|]. destruct sp as [m p]. unfold with_blobs, copied_blobs; cbn.
    f_equal. apply map_eq; intros a. rewrite lookup_union_with, lookup_empty. by destruct (p !! a).
  - apply NoDup_cons in Hid as [Hn Hid]. apply Forall_cons in Hs as [Hb Hs].
    destruct (blob_stmt_spec b db sp Hr Hb) as (n1 & db1 & Hst & Hk1 & Hr1).
    unfold ExecContext. rewrite Hst. fold (ExecContext Runs).
    destruct (IH (S i) (n + 1)%Z db1 _ Hr1 Hid Hs) as (db' & -> & Hk' & Hr').
    exists db'. split; [f_equal; f_equal; lia|]. split; [congruence|]. by rewrite with_blobs_cons.
Qed.

(** ** A second run *)

Lemma rerun {A} (st : A → stmt) rows i n db :
  (∀ row, row ∈ rows → ∃ m, st row db = Ok (m, db)) →
  copy_rows st (λ _, Runs) i (inl <$> rows) None n db = ((n + Z.of_nat (length rows))%Z, None, db).
Proof.
  revert i n; induction rows as [|row rows IH]; intros i n Hst; cbn [copy_rows fmap list_fmap length].
  - change (Z.of_nat 0) with 0%Z. by rewrite Z.add_0_r.
  - unfold ExecContext. destruct (Hst row) as [m ->]; [by left|]. fold (ExecContext Runs).
    rewrite IH; [f_equal; f_equal; lia|]. intros row' Hrow'. apply Hst. by right.
Qed.

Lemma key_stmt_again k db sp :
  sql_repr db sp → api_keys db !! pk_id k = Some (key_row k) → key_stmt k db = Ok (1%Z, db).
Proof.
  intros [-> Hu] Hk. unfold key_stmt, copy_key. fold (key_row k).
  assert (Hf : hash_free (db_spec db) (pk_id k) (pk_hash k)).
  { intros id' ks' Hs Hh. eapply Hu; [done|rewrite db_spec_lookup, Hk; done|done]. }
  rewrite (proj2 (hash_taken_false _ _ _) Hf). rewrite insert_id by done. by destruct db.
Qed.

Lemma blob_stmt_again bs b db sp :
  NoDup (pb_account <$> bs) → b ∈ bs → is_Some (pb_blob b) → policy_blobs db = sp_policy (with_blobs bs sp) →
  ∃ n, blob_stmt b db = Ok (n, db).
Proof.
  intros Hid Hb [x Hx] Hp. unfold blob_stmt. rewrite Hx, bind_bytes_some. unfold upsert_policy. rewrite Hp.
  unfold with_blobs. cbn [sp_policy]. rewrite lookup_union_with.
  assert (copied_blobs bs !! pb_account b = Some (pb_version b, elems (pb_blob b))) as ->.
  { apply elem_of_list_to_map_1; [by rewrite <-list_fmap_compose|]. apply list_elem_of_fmap. by exists b. }
  destruct (sp_policy sp !! pb_account b) as [cur|]; cbn.
  - destruct (Z.ltb_spec cur.1 (pb_version b)); cbn.
    + rewrite Z.ltb_irrefl. eauto.
    + rewrite (proj2 (Z.ltb_ge _ _)) by done. eauto.
  - rewrite Z.ltb_irrefl. eauto.
Qed.

Definition all_ok : setup := MkSetup None None None None Runs.
Definition runs : nat → fate := λ _, Runs.

(** C38: the migration: when nothing fails, the SQLite file ends with every key of
    Postgres as it is there, every policy at the newer of its two versions, and
    whatever else it had; the counts are the numbers of rows; and running it
    again succeeds with the same counts and leaves the file as it is. This is
    for rows that Postgres's own constraints allow (distinct ids, hashes and
    accounts, blobs not NULL) with
    origins of valid UTF-8 and no hash that the file holds under another id ([copyable]). *)
Theorem migrate_copies url path ks bs file sp :
  url ≠ "" → path ≠ "" → sql_repr (sqliteSchema file) sp → copyable ks sp →
  NoDup (pb_account <$> bs) → Forall (λ b, is_Some (pb_blob b)) bs →
  ∃ db, let run := main url path all_ok (inr (inl <$> ks, None)) (inr (inl <$> bs, None)) runs runs in
    run file = (inr (Z.of_nat (length ks), Z.of_nat (length bs)), Some db) ∧
    represents db (MkSpec (copied_keys ks ∪ sp_keys sp) (union_with newer (sp_policy sp) (copied_blobs bs))) ∧
    run (Some db) = (inr (Z.of_nat (length ks), Z.of_nat (length bs)), Some db).
Proof.
  intros Hu Hp Hr Hc Hid Hb.
  destruct (copy_keys_run ks 0 0 (sqliteSchema file) sp Hr Hc) as (db1 & H1 & Hr1 & _ & Hk1).
  destruct (copy_blobs_run bs 0 0 db1 _ Hr1 Hid Hb) as (db2 & H2 & Hk2 & Hr2).
  exists db2. cbv zeta. unfold main. rewrite bool_decide_eq_false_2 by (by intros [?|?]).
  cbn [su_connect su_ping su_open su_wal su_schema all_ok]. unfold migrateAPIKeys, migratePolicyBlobs, copy_table.
  change runs with (λ _ : nat, Runs). rewrite H1, H2. split; [done|]. split; [exact Hr2|].
  cbn [sqliteSchema]. rewrite (rerun key_stmt).
  - rewrite (rerun blob_stmt); [done|]. intros b Hin. eapply (blob_stmt_again bs b db2); [done|done| |].
    + by apply (proj1 (Forall_forall _ _) Hb).
    + destruct Hr2 as [Hr2 _]. by rewrite Hr2.
  - intros k Hin. exists 1%Z. apply (key_stmt_again k db2 _ Hr2). rewrite Hk2. by apply Hk1.
Qed.

(** ** Runs that fail *)

(** [sp2] is [sp1] with some of the rows copied over it. *)
Definition extends (ks : list (pg_key + error)) (sp1 sp2 : store_spec) : Prop :=
  sp_policy sp2 = sp_policy sp1 ∧
  ∀ id, sp_keys sp2 !! id = sp_keys sp1 !! id ∨
        ∃ k, inl k ∈ ks ∧ pk_id k = id ∧ sp_keys sp2 !! id = Some (copied_key k).

Lemma extends_copy k rows sp sp' :
  extends rows (with_keys (<[pk_id k := copied_key k]>) sp) sp' → extends (inl k :: rows) sp sp'.
Proof.
  intros [Hp Hk]. split; [done|]. intros id. destruct (Hk id) as [E|(k' & ? & ?)].
  - cbn in E. destruct (decide (id = pk_id k)) as [->|Hne].
    + rewrite lookup_insert_eq in E. right. exists k. by split; [left|].
    + rewrite lookup_insert_ne in E by done. by left.
  - right. exists k'. by split; [right|].
Qed.

Lemma extends_refl rows sp : extends rows sp sp.
Proof. split; [done|]. intros id. by left. Qed.

Lemma copy_keys_any rows err ctx i n db sp :
  sql_repr db sp → (∀ k, inl k ∈ rows → Forall (λ o, ValidString o = true) (elems (pk_origins k))) →
  let '(n', e, db') := copy_rows key_stmt ctx i rows err n db in
  (∃ sp', sql_repr db' sp' ∧ extends rows sp sp') ∧
  (e = None → err = None ∧ n' = (n + Z.of_nat (length rows))%Z ∧ Forall (λ r, ∃ k, r = inl k) rows).
Proof.
  revert i n db sp; induction rows as [|[k|e] rows IH]; intros i n db sp Hr Hv; cbn [copy_rows length].
  - split; [exists sp; by split; [|apply extends_refl]|]. intros ->. by rewrite Z.add_0_r.
  - assert (Hstay : ∃ sp', sql_repr db sp' ∧ extends (inl k :: rows) sp sp')
      by (exists sp; by split; [|apply extends_refl]).
    destruct (hash_taken (pk_id k) (pk_hash k) db) eqn:Ht.
    + assert (Hst : key_stmt k db = Err unique_error) by (unfold key_stmt, copy_key; by rewrite Ht).
      unfold ExecContext. rewrite Hst. by destruct (ctx i) as [|[]].
    + pose proof Hr as [Hsp _]. rewrite hash_taken_false, <-Hsp in Ht.
      destruct (key_stmt_spec k db sp Hr Ht) as (db1 & Hst & Hr1 & _); [apply Hv; by left|].
      unfold ExecContext. rewrite Hst. fold (ExecContext (ctx (S i))).
      destruct (ctx i) as [|[] e].
      * specialize (IH (S i) (n + 1)%Z db1 _ Hr1 ltac:(intros k' ?; apply Hv; by right)).
        destruct (copy_rows key_stmt ctx (S i) rows err (n + 1) db1) as [[n' e'] db'].
        destruct IH as [(sp' & ? & ?) He]. split; [exists sp'; by split; [|apply extends_copy]|].
        intros Hnone. destruct (He Hnone) as (-> & -> & Hall). split; [done|]. split; [lia|].
        constructor; [eauto|done].
      * split; [|done]. exists (with_keys (<[pk_id k := copied_key k]>) sp).
        split; [done|]. apply extends_copy, extends_refl.
      * by split.
  - split; [exists sp; by split; [|apply extends_refl]|done].
Qed.

(** An interrupted migration loses nothing: whatever the rows, the errors
    of the scan and the failures of the statements, every key of the SQLite
    file is as it was or as it is in Postgres, none is deleted and no policy
    changes; and success is reported only when every row was copied. *)
Theorem migrate_keys_any ctx q db sp :
  sql_repr db sp →
  (∀ rows err k, q = inr (rows, err) → inl k ∈ rows →
     Forall (λ o, ValidString o = true) (elems (pk_origins k))) →
  let '(n, e, db') := migrateAPIKeys ctx q db in
  (∃ sp', represents db' sp' ∧ sp_policy sp' = sp_policy sp ∧
     ∀ id, sp_keys sp' !! id = sp_keys sp !! id ∨
       ∃ rows err k, q = inr (rows, err) ∧ inl k ∈ rows ∧ pk_id k = id ∧ sp_keys sp' !! id = Some (copied_key k)) ∧
  (e = None → ∃ ks, q = inr (inl <$> ks, None) ∧ n = Z.of_nat (length ks)).
Proof.
  intros Hr Hv. unfold migrateAPIKeys, copy_table. destruct q as [err|[rows err]].
  - split; [|done]. exists sp. split; [exact Hr|]. split; [done|]. intros id. by left.
  - pose proof (copy_keys_any rows err ctx 0 0 db sp Hr (λ k, Hv rows err k eq_refl)) as H.
    destruct (copy_rows key_stmt ctx 0 rows err 0 db) as [[n e] db'].
    destruct H as [(sp' & Hr' & Hpol & Hk) He]. split.
    + exists sp'. split; [exact Hr'|]. split; [done|]. intros id. destruct (Hk id) as [?|(k & ? & ? & ?)]; [by left|].
      right. by exists rows, err, k.
    + intros Hnone. destruct (He Hnone) as (-> & -> & Hall).
      assert (∃ ks, rows = inl <$> ks) as [ks ->].
      { clear -Hall. induction Hall as [|r rows [k ->] _ [ks ->]]; [by exists []|by exists (k :: ks)]. }
      exists ks. by rewrite length_fmap.
Qed.
End props.

(** ** Witnesses *)

Definition row1 : pg_key := MkPgKey "key_1" "nano_a" "h1" (Some ["https://shop.example"]).
Definition blob1 : pg_blob := MkPgBlob "nano_a" 3 (Some [x01]).

Lemma empty_repr : sql_repr (sqliteSchema None) empty_spec.
Proof. split; [done|]. intros id1 id2 k1 k2 H. cbn in H. by rewrite lookup_empty in H. Qed.

Lemma row1_text : Forall (λ o, ValidString o = true) (elems (pk_origins row1)).
Proof. by repeat constructor. Qed.

Theorem migrate_copies_witness :
  ∃ db, let run := main (D:=plain_driver) "postgres" "nora.db" all_ok (inr (inl <$> [row1], None))
                     (inr (inl <$> [blob1], None)) runs runs in
    run None = (inr (1%Z, 1%Z), Some db) ∧
    represents (StoreLaws:=@sqliteStore_laws plain_driver plain_driver_laws) db
      (MkSpec (copied_keys [row1] ∪ sp_keys empty_spec)
              (union_with newer (sp_policy empty_spec) (copied_blobs [blob1]))) ∧
    run (Some db) = (inr (1%Z, 1%Z), Some db).
Proof.
  apply (@migrate_copies plain_driver plain_driver_laws "postgres" "nora.db" [row1] [blob1] None empty_spec);
    [done|done|apply empty_repr| |apply NoDup_singleton|by repeat constructor].
  split; [apply NoDup_singleton| | |].
  - by intros k1 k2 ->%list_elem_of_singleton ->%list_elem_of_singleton.
  - intros k _ id ks H. cbn in H. by rewrite lookup_empty in H.
  - intros k ->%list_elem_of_singleton. apply row1_text.
Defined.

Theorem migrate_keys_any_witness :
  let '(n, e, db') := migrateAPIKeys (D:=plain_driver) runs
    (inr ([inl row1; inr (ErrString "scan")], None)) (sqliteSchema None) in
  (∃ sp', represents (StoreLaws:=@sqliteStore_laws plain_driver plain_driver_laws) db' sp' ∧
     sp_policy sp' = sp_policy empty_spec ∧
     ∀ id, sp_keys sp' !! id = sp_keys empty_spec !! id ∨
       ∃ rows err k, (inr ([inl row1; inr (ErrString "scan")], None) : pg_rows pg_key) = inr (rows, err) ∧
         inl k ∈ rows ∧ pk_id k = id ∧ sp_keys sp' !! id = Some (copied_key k)) ∧
  (e = None → ∃ ks, (inr ([inl row1; inr (ErrString "scan")], None) : pg_rows pg_key) = inr (inl <$> ks, None) ∧
     n = Z.of_nat (length ks)).
Proof.
  apply (@migrate_keys_any plain_driver plain_driver_laws runs
    (inr ([inl row1; inr (ErrString "scan")], None)) (sqliteSchema None) empty_spec); [apply empty_repr|].
  intros rows err k [= <- <-] [Hk|[Hk|Hk]%elem_of_cons]%elem_of_cons.
  - injection Hk as ->. apply row1_text.
  - discriminate.
  - by apply elem_of_nil in Hk.
Defined.
