(* ===== verification/Startup.v ===== *)
(** * Configuration and the choice of the store (cmd/relay/config.go, main.go)

    [main] up to [newServer]: the flags and environment as a [Config], and the
    store that is opened for it. *)

From S2P Require Import Prelude GoStd Sha256 Utf8 Json Store MemStore SqliteStore StoreProps Env.

Record Config := MkConfig {
  Listen : string;
  RequestTimeoutSeconds : Z;
  SQLitePath : string;   (* empty: in memory *)
}.

(** The configuration [main] builds after [loadDotEnv]: the -listen flag
    defaults to LISTEN or ":8080", -timeout to 45; a flag is [None] when absent. *)
Definition config (listen : option string) (timeout : option Z) (env : environ) : Config :=
  MkConfig (default (envOr "LISTEN" ":8080" env) listen) (default 45%Z timeout)
    (default "" (env !! "SQLITE_PATH")).

(** The [Store] value that [openStore] returns. *)
Inductive opened :=
| OpenedMem (s : memStore)
| OpenedSQLite (db : sqliteDB).

(** A call through the interface: it reaches the value that was opened. *)
Definition on_open {E} (mem : memStore → E * memStore) (sql : sqliteDB → E * sqliteDB) (o : opened) : E * opened :=
  match o with
  | OpenedMem s => let '(e, s') := mem s in (e, OpenedMem s')
  | OpenedSQLite db => let '(e, db') := sql db in (e, OpenedSQLite db')
  end.
Definition ask_open {A} (mem : memStore → A) (sql : sqliteDB → A) (o : opened) : A :=
  match o with OpenedMem s => mem s | OpenedSQLite db => sql db end.

(** [openStore]: [openErr] and [ctx] are what opening the file meets, [files]
    the databases by path; the files afterwards. *)
Definition openStore (cfg : Config) (openErr : option error) (ctx : nat → fate)
    (files : gmap string sqliteDB) : res opened * gmap string sqliteDB :=
  if bool_decide (SQLitePath cfg = "") then (Ok (OpenedMem newMemStore), files)
  else
    let '(r, file) := newSQLiteStore openErr ctx (files !! SQLitePath cfg) in
    (match r with Ok db => Ok (OpenedSQLite db) | Err e => Err e | Panic => Panic end,
     partial_alter (λ _, file) (SQLitePath cfg) files).

Lemma run_pragmas_fails ctx l i err :
  run_pragmas ctx i l = Some err → ∃ j b e', ctx j = Fails b e'.
Proof.
  revert i; induction l as [|p l IH]; intros i; [done|]. cbn [run_pragmas].
  destruct (ctx i) eqn:Hi; [apply IH|eauto].
Qed.

Section props.
Context {D : SqliteDriver} {DL : SqliteDriverLaws}.

(** What an open store holds. *)
Definition holds (o : opened) (sp : store_spec) : Prop :=
  match o with
  | OpenedMem s => represents s sp
  | OpenedSQLite db => represents db sp
  end.

(** The value behind the interface, and the contract it keeps. *)
#[export] Instance opened_Store : Store opened := {
  RegisterAPIKey f id owner hash o := on_open (RegisterAPIKey f id owner hash) (RegisterAPIKey f id owner hash) o;
  RevokeAPIKey f owner id o := on_open (RevokeAPIKey f owner id) (RevokeAPIKey f owner id) o;
  ResolveAPIKey f plaintext o := ask_open (ResolveAPIKey f plaintext) (ResolveAPIKey f plaintext) o;
  RebindAPIKey f id old new o := on_open (RebindAPIKey f id old new) (RebindAPIKey f id old new) o;
  UpdateKeyOrigins f id owner origins o := on_open (UpdateKeyOrigins f id owner origins) (UpdateKeyOrigins f id owner origins) o;
  OriginAllowed f origin o := ask_open (OriginAllowed f origin) (OriginAllowed f origin) o;
  PutPolicy f account version blob o := on_open (PutPolicy f account version blob) (PutPolicy f account version blob) o;
  GetPolicy f account o := ask_open (GetPolicy f account) (GetPolicy f account) o;
}.

Lemma on_open_writes f mem sql o sp op :
  match o with
  | OpenedMem s => writes represents f (mem s) sp op
  | OpenedSQLite db => writes represents f (sql db) sp op
  end → writes holds f (on_open mem sql o) sp op.
Proof. destruct o as [s|db]; cbn; [destruct (mem s)|destruct (sql db)]; exact id. Qed.

Lemma on_open_lands (mem : memStore → option error * memStore) (sql : sqliteDB → option error * sqliteDB) o sp op :
  match o with
  | OpenedMem s => lands represents (mem s).2 sp op
  | OpenedSQLite db => lands represents (sql db).2 sp op
  end → lands holds (on_open mem sql o).2 sp op.
Proof. destruct o as [s|db]; cbn; [destruct (mem s)|destruct (sql db)]; exact id. Qed.

#[export] Instance opened_laws : StoreLaws opened.
Proof.
  refine {| represents := holds |}.
  - intros [s|db] sp; apply represents_unique.
  - intros f id owner hash o sp Hr Hf. apply on_open_writes. destruct o; by apply register_law.
  - intros f owner id o sp Hr. apply on_open_writes. destruct o; by apply revoke_law.
  - intros f p [s|db] sp Hr; [exact (resolve_law f p s sp Hr)|exact (resolve_law f p db sp Hr)].
  - intros f id old new o sp Hr. apply on_open_writes. destruct o; by apply rebind_law.
  - intros f id owner origins o sp Hr Ho. apply on_open_writes. destruct o; by apply origins_law.
  - intros f origin [s|db] sp Hr; [exact (allowed_law f origin s sp Hr)|exact (allowed_law f origin db sp Hr)].
  - intros f account version blob o sp Hr Hb. apply on_open_writes. destruct o; by apply put_law.
  - intros f account [s|db] sp Hr; [exact (get_law f account s sp Hr)|exact (get_law f account db sp Hr)].
  - intros f id owner origins o sp Hr.
    destruct o as [s|db]; [destruct (origins_any f id owner origins s sp Hr) as [os H]
      |destruct (origins_any f id owner origins db sp Hr) as [os H]];
      exists os; by apply (on_open_lands (UpdateKeyOrigins f id owner origins) (UpdateKeyOrigins f id owner origins)).
  - intros f account version blob o sp Hr. apply on_open_lands. destruct o; by apply put_any.
Defined.

Lemma openStore_spec cfg openErr ctx files :
  (∀ db, files !! SQLitePath cfg = Some db → hashes_unique (db_spec db)) →
  let '(r, files') := openStore cfg openErr ctx files in
  delete (SQLitePath cfg) files' = delete (SQLitePath cfg) files ∧
  if bool_decide (SQLitePath cfg = "")
  then files' = files ∧ ∃ o, r = Ok o ∧ holds o empty_spec
  else match r with
       | Ok o => (∃ db, o = OpenedSQLite db) ∧ holds o (db_spec (sqliteSchema (files !! SQLitePath cfg)))
       | Err e => openErr ≠ None ∨ ∃ i b e', ctx i = Fails b e'
       | Panic => False
       end.
Proof.
  intros Hu. unfold openStore. case_bool_decide as Hp.
  { split; [done|]. split; [done|]. eexists. split; [done|]. apply newMemStore_repr. }
  destruct (newSQLiteStore openErr ctx (files !! SQLitePath cfg)) as [r file] eqn:Hn.
  split; [apply delete_partial_alter_eq|]. revert Hn. unfold newSQLiteStore.
  destruct openErr as [err|]; [intros [= <- _]; by left|].
  pose proof (run_pragmas_fails ctx pragmas 0) as Hpr.
  destruct (run_pragmas ctx 0 pragmas) as [err|]; [intros [= <- _]; right; by eapply Hpr|].
  destruct (ctx (length pragmas)) as [|applied err] eqn:Hc; intros [= <- _]; [|right; eauto].
  split; [eauto|]. split; [done|]. destruct (files !! SQLitePath cfg) as [db|] eqn:Hf; [by apply Hu|].
  intros id1 id2 k1 k2 H. rewrite db_spec_lookup in H. cbn in H. by rewrite lookup_empty in H.
Qed.

(** Start-up: without SQLITE_PATH the relay starts from an empty store in
    memory and touches no file; with it, the store holds exactly the keys and
    policies of that file (none if it is new), and no other file changes.  A
    store that cannot be opened is an error, never an empty store. *)
Theorem openStore_holds cfg openErr ctx files :
  (∀ db, files !! SQLitePath cfg = Some db → hashes_unique (db_spec db)) →
  let '(r, files') := openStore cfg openErr ctx files in
  delete (SQLitePath cfg) files' = delete (SQLitePath cfg) files ∧
  if bool_decide (SQLitePath cfg = "")
  then files' = files ∧ ∃ o, r = Ok o ∧ holds o empty_spec
  else match r with
       | Ok o => (∃ db, o = OpenedSQLite db) ∧ holds o (db_spec (sqliteSchema (files !! SQLitePath cfg)))
       | Err e => openErr ≠ None ∨ ∃ i b e', ctx i = Fails b e'
       | Panic => False
       end.
Proof. apply openStore_spec. Qed.
End props.

Definition file_cfg : Config := config None None {["SQLITE_PATH" := "nora.db"]}.

Theorem openStore_holds_witness :
  ∃ o, (openStore file_cfg None (λ _, Runs) ∅).1 = Ok o ∧
       holds (D:=plain_driver) (DL:=plain_driver_laws) o (db_spec (sqliteSchema None)).
Proof.
  pose proof (@openStore_holds plain_driver plain_driver_laws file_cfg None (λ _, Runs) ∅) as H.
  specialize (H ltac:(intros db Hdb; by rewrite lookup_empty in Hdb)).
  eexists. split; [reflexivity|]. destruct H as (_ & _ & H). exact H.
Defined.
