(* ===== verification/Main.v ===== *)
(** * The life of the process (cmd/relay/main.go: main)

    The command line as package flag reads it, what [main] does before it
    serves ([boot]), and the process from then on ([main_step]): the goroutine
    in ListenAndServe, the requests in flight, signals, Shutdown and the
    deferred calls.  net/http is outside: that its listener fails, a request
    comes in or ends, and when Shutdown returns are events; Shutdown's contract
    is to stop accepting, then to wait for the requests (not for the hijacked
    connections of the agents) or for its context. *)

From S2P Require Import Prelude GoStd BigRat Codec Env Store MemStore SqliteStore StoreProps Startup.

(** ** Package flag *)

Module flag.
Local Open Scope Z_scope.

(** [strconv.lower]: a letter in lower case. *)
Definition lower (b : byte) : Z := Z.lor (byte_to_Z b) 32.

Definition digit (b : byte) : option Z :=
  let z := byte_to_Z b in
  if (48 <=? z) && (z <=? 57) then Some (z - 48)
  else if (97 <=? lower b) && (lower b <=? 122) then Some (lower b - 87)
  else None.

(** The digits of a number, underscores skipped. *)
Fixpoint digits (base : Z) (l : list byte) (n : Z) : option Z :=
  match l with
  | [] => Some n
  | b :: l' =>
      if bool_decide (b = ch "_") then digits base l' n
      else d ← digit b; if base <=? d then None else digits base l' (n * base + d)
  end.

(** The base prefix: 0b, 0o, 0x before at least one more character, or 0. *)
Definition split_base (l : list byte) : Z * list byte :=
  match l with
  | z :: rest =>
      if negb (bool_decide (z = ch "0")) then (10, l)
      else match rest with
           | c :: (_ :: _) as body =>
               if lower c =? 98 then (2, body)
               else if lower c =? 111 then (8, body)
               else if lower c =? 120 then (16, body)
               else (8, rest)
           | _ => (8, rest)
           end
  | [] => (10, l)
  end.

(** [strconv.underscoreOK]: underscores only between digits, a base prefix
    counting as a digit. *)
Inductive seen := Beginning | Digit | Underscore | Neither.
Fixpoint underscores_ok (hex : bool) (l : list byte) (saw : seen) : bool :=
  match l with
  | [] => match saw with Underscore => false | _ => true end
  | b :: l' =>
      let z := byte_to_Z b in
      if ((48 <=? z) && (z <=? 57)) || (hex && (97 <=? lower b) && (lower b <=? 102))
      then underscores_ok hex l' Digit
      else if bool_decide (b = ch "_")
      then match saw with Digit => underscores_ok hex l' Underscore | _ => false end
      else match saw with Underscore => false | _ => underscores_ok hex l' Neither end
  end.
Definition underscoreOK (l : list byte) : bool :=
  match l with
  | z :: c :: l' =>
      if bool_decide (z = ch "0") && ((lower c =? 98) || (lower c =? 111) || (lower c =? 120))
      then underscores_ok (lower c =? 120) l' Digit
      else underscores_ok false l Beginning
  | _ => underscores_ok false l Beginning
  end.

(** [strconv.ParseUint(s, 0, 64)], [strconv.ParseInt(s, 0, 64)]. *)
Definition ParseUint (l : list byte) : option Z :=
  match l with
  | [] => None
  | _ =>
      let '(base, body) := split_base l in
      n ← digits base body 0;
      if bool_decide (ch "_" ∈ l) && negb (underscoreOK l) then None
      else if n <? 2 ^ 64 then Some n else None
  end.
Definition ParseInt (s : string) : option Z :=
  let '(neg, l) := match bytes_of s with
                   | b :: l' => if bool_decide (b = ch "+") then (false, l')
                                else if bool_decide (b = ch "-") then (true, l')
                                else (false, b :: l')
                   | [] => (false, [])
                   end in
  un ← ParseUint l;
  if negb neg && (2 ^ 63 <=? un) then None
  else if neg && (2 ^ 63 <? un) then None
  else Some (if neg then - un else un).

Inductive parsed :=
| Parsed (listen : option string) (timeout : option Z)
| Help                    (* -h, -help: os.Exit(0) *)
| Bad.                    (* a usage error: os.Exit(2) *)

(** [flag.Parse] for the flags -listen (a string) and -timeout (an int): the
    first argument that is not a flag ends them; the last value counts. *)
Fixpoint Parse (args : list string) (listen : option string) (timeout : option Z) : parsed :=
  match args with
  | [] => Parsed listen timeout
  | s :: rest =>
      match bytes_of s with
      | minus :: b :: l =>
          if negb (bool_decide (minus = ch "-")) then Parsed listen timeout
          else if bool_decide (b = ch "-") && bool_decide (l = []) then Parsed listen timeout
          else
            let name := if bool_decide (b = ch "-") then l else b :: l in
            match name with
            | [] => Bad
            | c :: _ =>
                if bool_decide (c = ch "-") || bool_decide (c = ch "=") then Bad
                else
                  let '(name, value, hasValue) := Cut (string_of name) (ch "=") in
                  if bool_decide (name = "listen") then
                    if hasValue then Parse rest (Some value) timeout
                    else match rest with
                         | v :: rest' => Parse rest' (Some v) timeout
                         | [] => Bad
                         end
                  else if bool_decide (name = "timeout") then
                    if hasValue then
                      match ParseInt value with Some n => Parse rest listen (Some n) | None => Bad end
                    else match rest with
                         | v :: rest' =>
                             match ParseInt v with Some n => Parse rest' listen (Some n) | None => Bad end
                         | [] => Bad
                         end
                  else if bool_decide (name = "help") || bool_decide (name = "h") then Help
                  else Bad
            end
      | _ => Parsed listen timeout
      end
  end.
End flag.

(** [time.Duration(cfg.RequestTimeoutSeconds) * time.Second], in the 64 bits
    of a Duration. *)
Definition requestTimeout (cfg : Config) : Z :=
  ((RequestTimeoutSeconds cfg * 1000000000 + 2 ^ 63) mod 2 ^ 64 - 2 ^ 63)%Z.

(** ** The process *)


Inductive main_pc :=
| Launched                    (* the server's goroutine is started *)
| Blocked                     (* signal.Notify is done: in <-stop *)
| ShuttingDown (deadline : Z) (* in httpServer.Shutdown(ctx) *)
| Returning.                  (* before the deferred calls *)

Inductive status := Running | Exited (code : Z) | Killed.

#[export] Instance status_eq_dec : EqDecision status.
Proof. solve_decision. Defined.

Record process := MkProcess {
  p_config : Config;
  p_store : option opened;
  p_closed : bool;             (* store.Close was called *)
  p_pc : main_pc;
  p_serving : bool;            (* ListenAndServe has not returned *)
  p_requests : nat;            (* HTTP requests in flight *)
  p_signalled : bool;          (* the channel stop, of capacity one *)
  p_status : status;
}.

Definition no_config : Config := MkConfig "" 0 "".
Definition exited (code : Z) : process := MkProcess no_config None false Launched false 0 false (Exited code).

(** [main] up to the goroutine of the server: [dotenv] are the files in the
    working directory, [dbs] the databases by path. *)
Definition boot (dotenv : string → option (list byte)) (env : environ) (args : list string)
    (openErr : option error) (ctx : nat → fate) (dbs : gmap string sqliteDB) :
    res (process * gmap string sqliteDB) :=
  env ← loadDotEnv dotenv env;
  match flag.Parse args None None with
  | flag.Help => Ok (exited 0, dbs)
  | flag.Bad => Ok (exited 2, dbs)
  | flag.Parsed listen timeout =>
      let cfg := config listen timeout env in
      match openStore cfg openErr ctx dbs with
      | (Ok o, dbs) => Ok (MkProcess cfg (Some o) false Launched true 0 false Running, dbs)
      | (Err _, dbs) => Ok (exited 1, dbs)              (* log.Fatalf *)
      | (Panic, _) => Panic
      end
  end.





(** ** The -timeout flag *)

Section timeout.
Local Open Scope Z_scope.

(** A decimal digit is read as itself and is no separator. *)
Lemma flag_digit d :
  is_digit d → flag.digit (digit_char d) = Some d ∧
  Forall (λ b, digit_char d ≠ b) [ch "_"; ch "+"; ch "-"] ∧ (digit_char d = ch "0" → d = 0).
Proof.
  unfold is_digit. intros Hd.
  assert (d ∈ [0; 1; 2; 3; 4; 5; 6; 7; 8; 9]) as Hin by (repeat (rewrite elem_of_cons); lia).
  repeat (apply elem_of_cons in Hin as [->|Hin]; [by split_and!; [|repeat constructor|]|]).
  by apply elem_of_nil in Hin.
Qed.

Lemma flag_digits ds n : Forall is_digit ds → flag.digits 10 (digit_char <$> ds) n = Some (dec_value n ds).
Proof.
  intros Hds. revert n. induction Hds as [|d ds Hd _ IH]; intros n; [done|]. cbn [fmap list_fmap flag.digits].
  destruct (flag_digit d Hd) as (He & [Hu _]%Forall_cons & _). rewrite bool_decide_eq_false_2 by done. rewrite He.
  cbn [mbind option_bind]. unfold is_digit in Hd. destruct (Z.leb_spec 10 d); [lia|]. apply IH.
Qed.

Lemma no_underscore ds : Forall is_digit ds → ch "_" ∉ digit_char <$> ds.
Proof.
  intros Hds (d & Heq & Hd)%list_elem_of_fmap. rewrite Forall_forall in Hds.
  destruct (flag_digit d (Hds d Hd)) as (_ & [Hu _]%Forall_cons & _). congruence.
Qed.

Lemma flag_ParseUint n : 0 ≤ n < 2 ^ 64 → flag.ParseUint (utoa n) = Some n.
Proof.
  intros Hn. destruct (utoa_digits n) as (d & ds & -> & Hds & Hv & Hz); [lia|].
  pose proof (no_underscore _ Hds) as Hu. pose proof (flag_digits _ 0 Hds) as Hd. rewrite Hv in Hd.
  apply Forall_cons in Hds as [Hd0 _]. destruct (flag_digit d Hd0) as (_ & _ & H0).
  unfold flag.ParseUint. cbn [fmap list_fmap] in *. unfold flag.split_base.
  assert (Hlt : (n <? 2 ^ 64) = true) by lia.
  case_bool_decide as Hc; cbn [negb].
  - specialize (H0 Hc) as ->. rewrite (Hz eq_refl) in *. cbn in Hv. subst n. done.
  - rewrite Hd. cbn [mbind option_bind]. rewrite bool_decide_eq_false_2 by done. cbn [andb]. by rewrite Hlt.
Qed.

Lemma flag_ParseInt n : - 2 ^ 63 ≤ n < 2 ^ 63 → flag.ParseInt (Int_String n) = Some n.
Proof.
  intros Hn. unfold flag.ParseInt, Int_String. rewrite bytes_of_string_of.
  destruct (Z.ltb_spec n 0) as [Hneg|Hpos].
  - rewrite bool_decide_eq_false_2, bool_decide_eq_true_2 by done. rewrite flag_ParseUint by lia.
    cbn [mbind option_bind negb andb]. destruct (Z.ltb_spec (2 ^ 63) (- n)); [lia|]. f_equal. lia.
  - pose proof (flag_ParseUint n ltac:(lia)) as Hu. destruct (utoa_digits n Hpos) as (d & ds & Hd & Hds & _).
    apply Forall_cons in Hds as [Hd0 _]. destruct (flag_digit d Hd0) as (_ & (_ & [Hp [Hm _]%Forall_cons]%Forall_cons)%Forall_cons & _).
    rewrite Hd in *. cbn [fmap list_fmap] in *. rewrite !bool_decide_eq_false_2 by done. rewrite Hu.
    cbn [mbind option_bind negb andb]. destruct (Z.leb_spec (2 ^ 63) n); [lia|done].
Qed.

Lemma Parse_timeout v :
  flag.Parse ["-timeout"; v] None None =
  match flag.ParseInt v with Some n => flag.Parsed None (Some n) | None => flag.Bad end.
Proof. reflexivity. Qed.

(** The flag -timeout, in decimal, is read exactly for every 64-bit int; the
    deadline of a request is that many seconds up to 9223372036 of them (292
    years) either way, and beyond that the multiplication by time.Second wraps
    around in a Duration's 64 bits. *)
Theorem timeout_flag n env :
  - 2 ^ 63 ≤ n < 2 ^ 63 →
  flag.Parse ["-timeout"; Int_String n] None None = flag.Parsed None (Some n) ∧
  let t := requestTimeout (config None (Some n) env) in
  - 2 ^ 63 ≤ t < 2 ^ 63 ∧ (t = n * 1000000000 ↔ - 9223372036 ≤ n ≤ 9223372036).
Proof.
  intros Hn. rewrite Parse_timeout, flag_ParseInt by done. split; [done|].
  unfold requestTimeout. change (RequestTimeoutSeconds (config None (Some n) env)) with n. cbv zeta.
  change (2 ^ 63) with 9223372036854775808 in *. change (2 ^ 64) with 18446744073709551616 in *.
  pose proof (Z.mod_pos_bound (n * 1000000000 + 9223372036854775808) 18446744073709551616 ltac:(lia)) as Hm.
  split; [lia|]. split; [lia|]. intros Hr. rewrite Z.mod_small by lia. lia.
Qed.

Theorem timeout_flag_witness :
  flag.Parse ["-timeout"; "9223372037"] None None = flag.Parsed None (Some 9223372037) ∧
  requestTimeout (config None (Some 9223372037) ∅) <> 9223372037000000000.
Proof.
  destruct (timeout_flag 9223372037 ∅) as (H1 & _ & H2); [lia|]. split; [exact H1|].
  intros H. apply H2 in H. lia.
Defined.
End timeout.

(** ** What [main] does before it serves *)

Section props.
Context {D : SqliteDriver} {DL : SqliteDriverLaws}.

(** The process as it starts to serve. *)
Definition started (cfg : Config) (o : opened) : process :=
  MkProcess cfg (Some o) false Launched true 0 false Running.

(** What [boot] leaves, of the process and of the databases. *)
Definition booted dotenv env args (openErr : option error) (ctx : nat → fate) (dbs : gmap string sqliteDB)
    (p : process) (dbs' : gmap string sqliteDB) : Prop :=
  let env' := env ∪ definitions_of (dotenv ".env.local") ∪ definitions_of (dotenv ".env") in
  let path := default "" (env' !! "SQLITE_PATH") in
  match flag.Parse args None None with
  | flag.Help => p = exited 0 ∧ dbs' = dbs
  | flag.Bad => p = exited 2 ∧ dbs' = dbs
  | flag.Parsed listen timeout =>
      delete path dbs' = delete path dbs ∧
      ((∃ o, p = started (MkConfig (default (envOr "LISTEN" ":8080" env') listen) (default 45%Z timeout) path) o ∧
         holds o (if bool_decide (path = "") then empty_spec else db_spec (sqliteSchema (dbs !! path))))
       ∨ p = exited 1 ∧ path ≠ "" ∧ (openErr ≠ None ∨ ∃ i b e, ctx i = Fails b e))
  end.

Lemma boot_booted dotenv env args openErr ctx dbs :
  (∀ path db, dbs !! path = Some db → hashes_unique (db_spec db)) →
  ∃ p dbs', boot dotenv env args openErr ctx dbs = Ok (p, dbs') ∧ booted dotenv env args openErr ctx dbs p dbs'.
Proof.
  intros Hu. unfold boot, booted. rewrite loadDotEnv_env. cbn [mbind res_bind].
  set (env' := env ∪ _ ∪ _). set (path := default "" (env' !! "SQLITE_PATH")). cbv zeta.
  destruct (flag.Parse args None None) as [listen timeout| |]; [|by eexists _, _..].
  set (cfg := config listen timeout env').
  pose proof (openStore_spec cfg openErr ctx dbs (Hu _)) as H.
  destruct (openStore cfg openErr ctx dbs) as [r dbs']. destruct H as [Hd H].
  change (SQLitePath cfg) with path in *. case_bool_decide as Hp.
  - destruct H as (-> & o & -> & Ho). eexists _, _. split; [done|]. split; [done|]. left.
    exists o. split; [reflexivity|exact Ho].
  - destruct r as [o|e|]; [| |done]; eexists _, _; (split; [done|]); (split; [done|]).
    + left. exists o. destruct H as [_ H]. split; [reflexivity|exact H].
    + by right.
Qed.

(** C31: start-up, for every environment, command line and set of database files
    (that keep the UNIQUE constraint of their schema): the settings come from
    the flags, then the environment, .env.local and .env, then the defaults;
    the process serves with a store that holds exactly what the file at
    SQLITE_PATH holds (nothing without SQLITE_PATH), or exits: with 0 for
    -help, 2 for a bad flag, before any file is touched, or 1 when the store
    cannot be opened. No other database changes. *)
Theorem boot_outcome dotenv env args openErr ctx dbs :
  (∀ path db, dbs !! path = Some db → hashes_unique (db_spec db)) →
  let env' := env ∪ definitions_of (dotenv ".env.local") ∪ definitions_of (dotenv ".env") in
  let path := default "" (env' !! "SQLITE_PATH") in
  ∃ p dbs', boot dotenv env args openErr ctx dbs = Ok (p, dbs') ∧
  match flag.Parse args None None with
  | flag.Help => p = exited 0 ∧ dbs' = dbs
  | flag.Bad => p = exited 2 ∧ dbs' = dbs
  | flag.Parsed listen timeout =>
      delete path dbs' = delete path dbs ∧
      ((∃ o, p = started (MkConfig (default (envOr "LISTEN" ":8080" env') listen) (default 45%Z timeout) path) o ∧
         holds o (if bool_decide (path = "") then empty_spec else db_spec (sqliteSchema (dbs !! path))))
       ∨ p = exited 1 ∧ path ≠ "" ∧ (openErr ≠ None ∨ ∃ i b e, ctx i = Fails b e))
  end.
Proof. apply boot_booted. Qed.

(** ** From there to the end *)












End props.

(** ** Witnesses *)

Definition w_args : list string := ["-listen=:9000"; "--timeout"; "0x1E"].
Definition w_env : environ := {["SQLITE_PATH" := "nora.db"]}.

Theorem boot_outcome_witness :
  ∃ p dbs' o, boot (λ _, None) w_env w_args None (λ _, Runs) ∅ = Ok (p, dbs') ∧
    p = started (MkConfig ":9000" 30 "nora.db") o ∧
    holds (D:=plain_driver) (DL:=plain_driver_laws) o (db_spec (sqliteSchema None)).
Proof.
  pose proof (@boot_outcome plain_driver plain_driver_laws (λ _, None) w_env w_args None (λ _, Runs) ∅
    ltac:(intros path db H; rewrite lookup_empty in H; discriminate H)) as (p & dbs' & Hb & H).
  assert (Hf : flag.Parse w_args None None = flag.Parsed (Some ":9000") (Some 30%Z)) by (vm_compute; reflexivity).
  rewrite Hf in H. destruct H as (_ & [(o & Hp & Ho)|(_ & _ & [Hn|(i & b & e & Hc)])]);
    [exists p, dbs', o; split; [exact Hb|split; [exact Hp|exact Ho]]|by destruct Hn|discriminate Hc].
Defined.

