(* ===== verification/System.v ===== *)
(** * The relay as a whole

    One transition system in which the agents' connections, the store, the rate
    limiter, the hub's goroutines and the HTTP handlers interleave.  A control
    message is handled one store call at a time, by the program of
    [ControlSteps]; its connection reads no further frame until the reply is
    written.  An HTTP handler is cut wherever it touches what others can change:
    the store for the CORS headers, the store for the key, the limiter, the
    hub's bindings for the online test, its call of the hub and the hub's
    return; in between anything may happen.  The hub's task of a handler has
    the handler's number. *)

From S2P Require Import Prelude GoStd Hash Blake2bRef Account Edwards Keys Sign Protocol Utf8.
From S2P Require Import Float RateLimit Hub HubProps HubTasks Agent Store StoreProps ControlOps ControlSteps Api ApiProps.

(** What the hub returned to a handler. *)
Definition with_bindings (b : bindings_t) (w : world) : world :=
  MkWorld (w_ctx w) (w_now1 w) (w_now2 w) (w_time w) (w_rand w) b (w_send w) (w_ask w).
Definition with_answer (tx : res TxResult) (q : res QueryResult) (w : world) : world :=
  MkWorld (w_ctx w) (w_now1 w) (w_now2 w) (w_time w) (w_rand w) (w_bindings w) (λ _ _, tx) (λ _ _, q).

Section system.
Context {B2 : Blake2b} {E : Edwards25519} {S : Type} {St : Store S}.

Inductive handler :=
| Arrived (r : httpRequest) (sc : S)        (* the store as the CORS middleware reads it *)
| Keyed (r : httpRequest) (snap : S * S)    (* the same, and the store as [authKey] reads it *)
| Limited (r : httpRequest) (snap : S * S) (w : world) (rl : rateLimiter) (* the limiter it found *)
| Sending (r : httpRequest) (snap : S * S) (w : world) (rl : rateLimiter) (d : Api.dispatch)
| Waiting (r : httpRequest) (snap : S * S) (w : world) (rl : rateLimiter) (d : Api.dispatch)
| Answered
| Crashed.                                (* net/http recovers a panic *)

Record relay := MkRelay {
  hub : hstate;
  challenged : gmap conn (list byte);     (* the nonce each connection was given *)
  live : gset conn;                       (* connections in their read loop *)
  busy : gmap conn (Control * program);   (* inside handleControl: for what, and what is left *)
  replies : list (conn * Control * Control); (* messages and their replies written *)
  store : S;
  limiter : rateLimiter;
  handlers : gmap nat handler;
  responses : list (nat * httpRequest * response);
}.

Definition newRelay (s : S) : relay := MkRelay newHub ∅ ∅ ∅ [] s serverLimiter ∅ [].

Definition set_hub h s := MkRelay h (challenged s) (live s) (busy s) (replies s) (store s) (limiter s) (handlers s) (responses s).
Definition set_challenged f s := MkRelay (hub s) (f (challenged s)) (live s) (busy s) (replies s) (store s) (limiter s) (handlers s) (responses s).
Definition set_live f s := MkRelay (hub s) (challenged s) (f (live s)) (busy s) (replies s) (store s) (limiter s) (handlers s) (responses s).
Definition set_busy f s := MkRelay (hub s) (challenged s) (live s) (f (busy s)) (replies s) (store s) (limiter s) (handlers s) (responses s).
Definition set_replies f s := MkRelay (hub s) (challenged s) (live s) (busy s) (f (replies s)) (store s) (limiter s) (handlers s) (responses s).
Definition set_store st s := MkRelay (hub s) (challenged s) (live s) (busy s) (replies s) st (limiter s) (handlers s) (responses s).
Definition set_limiter rl s := MkRelay (hub s) (challenged s) (live s) (busy s) (replies s) (store s) rl (handlers s) (responses s).
Definition set_handlers f s := MkRelay (hub s) (challenged s) (live s) (busy s) (replies s) (store s) (limiter s) (f (handlers s)) (responses s).
Definition respond h r resp s :=
  MkRelay (hub s) (challenged s) (live s) (busy s) (replies s) (store s) (limiter s) (<[h := Answered]> (handlers s))
    (responses s ++ [(h, r, resp)]).

Inductive event :=
| EEnroll (c : conn) (hello : option Envelope) (rnd : list byte) (werr : option error) (auth : option Envelope)
| EFrame (c : conn) (env : Envelope) (t : nat)                      (* read loop; [t]: a fresh task *)
| EStore (c : conn) (f : fate)                                      (* the next store call of handleControl *)
| EReply (c : conn) (ok : bool)                                     (* its reply is written, or fails to be *)
| EClose (c : conn)
| EArrive (h : nat) (r : httpRequest)
| EKey (h : nat)
| ELimit (h : nat) (w : world)
| EServe (h : nat)
| ESend (h : nat) (qid : string)                                    (* [qid]: the query's random id *)
| ERun (t : nat) (ok : bool)                                        (* a step of the hub's task *)
| ETake (t : nat)
| ETimeout (t : nat) (e : error)
| EAnswer (h : nat)
| EPrune (now : Z).

(** A step of the hub inside the relay. *)
Definition hub_step (l : label) (s : relay) : option relay :=
  h ← step l (hub s); Some (set_hub h s).

(** What the read loop does with one frame of a connection. *)
Definition on_action (c : conn) (a : agentConn) (t : nat) (act : action) (s : relay) : option relay :=
  match act with
  | ADeliverResult r => hub_step (LResult t r) s
  | ADeliverQueryResult id qr => hub_step (LQueryResult t id qr) s
  | AControl ctl => Some (set_busy (<[c := (ctl, control_program (accounts a) ctl)]>) s)
  | _ => None
  end.

Fixpoint on_actions (c : conn) (a : agentConn) (t : nat) (acts : list action) (s : relay) : option relay :=
  match acts with
  | [] => Some s
  | act :: acts' => s' ← on_action c a t act s; on_actions c a t acts' s'
  end.

Definition rstep (other : httpRequest → response) (e : event) (s : relay) : option relay :=
  match e with
  | EEnroll c hello rnd werr auth =>
      match (enroll hello (inl rnd) werr auth).2 with
      | Ok a =>
          s' ← hub_step (LBind c a) s;
          Some (set_live (union {[c]}) (set_challenged (<[c := take 32 rnd]>) s'))
      | _ => Some s
      end
  | EFrame c env t =>
      guard (c ∈ live s ∧ busy s !! c = None);;
      a ← conns (hub s) !! c; on_actions c a t (Agent.dispatch env) s
  | EStore c f =>
      match busy s !! c with
      | Some (ctl, Write op k) =>
          let '(e, st) := apply_op f op (store s) in Some (set_busy (<[c := (ctl, k e)]>) (set_store st s))
      | Some (ctl, ReadPolicy acc k) => Some (set_busy (<[c := (ctl, k (GetPolicy f acc (store s)))]>) s)
      | _ => None
      end
  | EReply c ok =>
      match busy s !! c with
      | Some (ctl, Reply r) =>
          Some (set_busy (delete c) (if (ok : bool) then set_replies (λ l, l ++ [(c, ctl, r)]) s else s))
      | _ => None
      end
  | EClose c =>
      guard (c ∈ live s ∧ busy s !! c = None);;
      s' ← hub_step (LUnbind c) s; Some (set_live (λ l, l ∖ {[c]}) s')
  | EArrive h r =>
      guard (handlers s !! h = None);; Some (set_handlers (<[h := Arrived r (store s)]>) s)
  | EKey h =>
      match handlers s !! h with
      | Some (Arrived r sc) => Some (set_handlers (<[h := Keyed r (sc, store s)]>) s)
      | _ => None
      end
  | ELimit h w =>
      match handlers s !! h with
      | Some (Keyed r snap) =>
          Some (set_handlers (<[h := Limited r snap w (limiter s)]>)
                  (set_limiter (limiter_after w snap.2 (limiter s) r) s))
      | _ => None
      end
  | EServe h =>
      match handlers s !! h with
      | Some (Limited r snap w rl) =>
          let w := with_answer (Err Canceled) (Err Canceled) (with_bindings (bindings (hub s)) w) in
          match routes other w snap.1 snap.2 rl r with
          | Ok (resp, _, None) => Some (respond h r resp s)
          | Ok (_, _, Some d) => Some (set_handlers (<[h := Sending r snap w rl d]>) s)
          | _ => Some (set_handlers (<[h := Crashed]>) s)
          end
      | _ => None
      end
  | ESend h qid =>
      match handlers s !! h with
      | Some (Sending r snap w rl d) =>
          s' ← hub_step (match d with
                         | DRequest acc req => LRequest h acc req
                         | DQuery acc q => LQuery h acc q qid
                         end) s;
          Some (set_handlers (<[h := Waiting r snap w rl d]>) s')
      | _ => None
      end
  | ERun t ok => hub_step (LRun t ok) s
  | ETake t => hub_step (LTake t) s
  | ETimeout t e => hub_step (LCtx t e) s
  | EAnswer h =>
      match handlers s !! h with
      | Some (Waiting r snap w rl d) =>
          out ← match tasks (hub s) !! h with
                | Some (ReqDone _ out) => Some (with_answer out (Err Canceled) w)
                | Some (QryDone _ out) => Some (with_answer (Err Canceled) out w)
                | _ => None
                end;
          match routes other out snap.1 snap.2 rl r with
          | Ok (resp, _, _) => Some (respond h r resp s)
          | _ => Some (set_handlers (<[h := Crashed]>) s)
          end
      | _ => None
      end
  | EPrune now => Some (set_limiter (prune now (limiter s)) s)
  end.
End system.
#[global] Arguments relay : clear implicits.
