(* ===== verification/SystemProps.v ===== *)
(** * End-to-end properties of the relay

    [effect] lists what one event of [System] can do; two invariants follow
    from it by rule induction: [ownership] (keys and frames are backed by a
    proof of control) and [authority] (what devices are asked and what callers
    are answered goes back to a key). *)

From S2P Require Import Prelude GoStd Hash Blake2bRef Account Edwards Keys Sign Sha256 Rfc3339 Protocol Utf8.
From S2P Require Import Float RateLimit Hub HubProps HubTasks Agent Store MemStore StoreProps ControlOps ControlSteps Api ApiProps System.

(** ** What the hub does with the requests and queries it is given *)

(** What a task asks the devices of an account, while it may still write. *)
Definition asks (tk : task) : option Api.dispatch :=
  match tk with
  | ReqRegister acc req _ | ReqSend acc req _ _ _ => Some (DRequest acc req)
  | QryRegister acc q _ _ | QrySend acc q _ _ _ => Some (DQuery acc q)
  | _ => None
  end.

(** What a frame asks of the device it is written to. *)
Definition frame_asks (acc : string) (env : Envelope) : option Api.dispatch :=
  match Envelope_Request env, Envelope_Query env with
  | Some req, _ => Some (DRequest acc req)
  | None, Some q => Some (DQuery acc q)
  | None, None => None
  end.

Definition starts (l : label) : option Api.dispatch :=
  match l with
  | LRequest _ acc req => Some (DRequest acc req)
  | LQuery _ acc q _ => Some (DQuery acc q)
  | _ => None
  end.

Lemma tasks_writeFrame ok acc c env s : tasks (writeFrame ok acc c env s) = tasks s.
Proof. by destruct ok. Qed.

Lemma tasks_try_send ch r s : tasks (try_send ch r s) = tasks s.
Proof. unfold try_send. by destruct (chans s !! ch) as [[? ? []]|]. Qed.

(** A task that runs moves to a point that asks the same thing, or nothing. *)
Lemma run_task_asks t tk ok s s' :
  run_task t tk ok s = Some s' →
  ∃ tk', tasks s' = <[t := tk']> (tasks s) ∧ (asks tk' = asks tk ∨ asks tk' = None).
Proof.
  intros Hs.
  destruct tk as [acc req ds|acc req ch [|c todo] n| | |acc id out|acc id [|c todo] out| |acc q id ds
                 |acc q id ch [|c todo]| | | | |];
    cbn in Hs; try done; try (rewrite devicesForAccount_eq in Hs); simplify_eq/=;
    (eexists; split; [cbn; rewrite ?tasks_writeFrame, ?tasks_try_send; reflexivity|]); try destruct ok; try case_bool_decide; auto.
Qed.

Lemma run_asks t tk ok s s' t' tk' d :
  tasks s !! t = Some tk → run_task t tk ok s = Some s' →
  tasks s' !! t' = Some tk' → asks tk' = Some d →
  ∃ t0 tk0, tasks s !! t0 = Some tk0 ∧ asks tk0 = Some d.
Proof.
  intros Ht (tk1 & Hts & Ha)%run_task_asks Ht' Hd. rewrite Hts in Ht'.
  apply lookup_insert_Some in Ht' as [[<- <-]|[_ Ht']]; [|by exists t', tk'].
  exists t, tk. split; [done|]. destruct Ha; congruence.
Qed.

Lemma step_asks l s s' t tk d :
  step l s = Some s' → tasks s' !! t = Some tk → asks tk = Some d →
  (∃ t0 tk0, tasks s !! t0 = Some tk0 ∧ asks tk0 = Some d) ∨ starts l = Some d.
Proof.
  intros Hs Ht Hd. destruct l as [c a|c|t1 acc req|t1 acc q id|t1 r|t1 id qr|t1 ok|t1|t1 e]; cbn [step] in Hs.
  - case_guard; simplify_eq/=. left; eauto.
  - destruct (conns s !! c); simplify_eq/=. left; eauto.
  - case_guard; [|done]. rewrite devicesForAccount_eq in Hs. simplify_eq/=.
    apply lookup_insert_Some in Ht as [[<- <-]|[_ Ht]]; [right|left; eauto]. by case_bool_decide; simplify_eq/=.
  - case_guard; [|done]. rewrite devicesForAccount_eq in Hs. simplify_eq/=.
    apply lookup_insert_Some in Ht as [[<- <-]|[_ Ht]]; [right|left; eauto]. by case_bool_decide; simplify_eq/=.
  - case_guard; [|done]. simplify_eq/=.
    apply lookup_insert_Some in Ht as [[<- <-]|[_ Ht]]; [|left; eauto]. by case_match.
  - case_guard; [|done]. simplify_eq/=.
    apply lookup_insert_Some in Ht as [[<- <-]|[_ Ht]]; [|left; eauto]. by case_match.
  - destruct (tasks s !! t1) as [tk1|] eqn:Ht1; [|done]. left. by eapply run_asks.
  - left. destruct (tasks s !! t1) as [[]|] eqn:Ht1; try done; repeat case_match; simplify_eq/=;
      apply lookup_insert_Some in Ht as [[<- <-]|[_ Ht]]; try done; eauto.
  - left. case_guard; [|done]. destruct (tasks s !! t1) as [[]|] eqn:Ht1; try done; simplify_eq/=;
      apply lookup_insert_Some in Ht as [[<- <-]|[_ Ht]]; try done; eauto.
Qed.

(** A frame that asks something is written by a task that asks it. *)
Lemma run_frames t tk ok s s' acc c env d :
  run_task t tk ok s = Some s' → (acc, c, env) ∈ wire s' → frame_asks acc env = Some d →
  (acc, c, env) ∈ wire s ∨ asks tk = Some d.
Proof.
  intros Hs Hw Hf.
  assert (Hwrite : ∀ acc' d' env' s1, (acc, c, env) ∈ wire (writeFrame ok acc' d' env' s1) →
    wire s1 = wire s → (acc, c, env) ∈ wire s ∨ (acc = acc' ∧ env = env')).
  { intros acc' d' env' s1 Hin Heq. destruct ok; cbn in Hin; rewrite Heq in Hin; [|by left].
    apply elem_of_app in Hin as [?|Hin%list_elem_of_singleton]; [by left|right]. by simplify_eq. }
  destruct tk as [acc' req ds|acc' req ch [|c' todo] n| | |acc' id out|acc' id [|c' todo] out| |acc' q id ds
                 |acc' q id ch [|c' todo]| | | |ch r|];
    cbn in Hs; try done; try (rewrite devicesForAccount_eq in Hs); simplify_eq; try (by left).
  - destruct (Hwrite _ _ _ _ Hw eq_refl) as [?|[-> ->]]; [by left|right]. cbn in *. congruence.
  - destruct (Hwrite _ _ _ _ Hw eq_refl) as [?|[-> ->]]; [by left|]. done.
  - destruct (Hwrite _ _ _ _ Hw eq_refl) as [?|[-> ->]]; [by left|right]. cbn in *. congruence.
  - left. cbn in Hw. unfold try_send in Hw. by destruct (chans s !! ch) as [[? ? []]|].
Qed.

Lemma step_frames l s s' acc c env d :
  step l s = Some s' → (acc, c, env) ∈ wire s' → frame_asks acc env = Some d →
  (acc, c, env) ∈ wire s ∨ ∃ t tk, tasks s !! t = Some tk ∧ asks tk = Some d.
Proof.
  intros Hs Hw Hf. destruct l as [c1 a|c1|t1 acc1 req|t1 acc1 q id|t1 r|t1 id qr|t1 ok|t1|t1 e]; cbn [step] in Hs.
  7:{ destruct (tasks s !! t1) as [tk1|] eqn:Ht1; [|done]. cbn in Hs.
      destruct (run_frames t1 tk1 ok s s' acc c env d Hs Hw Hf); [by left|right; by exists t1, tk1]. }
  all: left; try (rewrite devicesForAccount_eq in Hs); try (case_guard; [|done]); cbn [mbind option_bind] in Hs;
    clear Hf; try (destruct (conns s !! c1); [|done]); repeat (case_match; try done); simplify_eq/=; exact Hw.
Qed.

(** A call keeps its id. *)
Lemma step_keeps_id l s s' t tk i :
  step l s = Some s' → tasks s !! t = Some tk → task_id tk = Some i →
  ∃ tk', tasks s' !! t = Some tk' ∧ task_id tk' = Some i.
Proof.
  intros Hs Ht Hi. destruct (decide (label_task l = Some t)) as [Hl|Hl];
    [|exists tk; split; [by eapply other_step|done]].
  assert (Hgo : ∀ tk' s1, task_id tk' = Some i → ∃ tk'', tasks (goto t tk' s1) !! t = Some tk'' ∧ task_id tk'' = Some i).
  { intros tk' s1 Hr. exists tk'. cbn. by rewrite lookup_insert_eq. }
  destruct l as [| | | | | |t' ok|t'|]; cbn [label_task] in Hl; simplify_eq; cbn [step] in Hs;
    try (case_guard; naive_solver).
  - rewrite Ht in Hs. cbn in Hs.
    destruct tk; cbn [run_task] in Hs; rewrite ?devicesForAccount_eq in Hs;
      repeat (case_match; try done); simplify_eq; by apply Hgo.
  - rewrite Ht in Hs. repeat (case_match; try done); simplify_eq; by apply Hgo.
  - case_guard; [|done]. cbn in Hs. rewrite Ht in Hs. repeat (case_match; try done); simplify_eq; by apply Hgo.
Qed.

Lemma starts_id h d qid s s' :
  step (match d with DRequest acc req => LRequest h acc req | DQuery acc q => LQuery h acc q qid end) s = Some s' →
  ∃ tk, tasks s' !! h = Some tk ∧
    task_id tk = Some (match d with DRequest _ req => TxRequest_ID req | DQuery _ _ => qid end).
Proof.
  destruct d as [acc req|acc q]; cbn [step]; (case_guard; [|done]); rewrite devicesForAccount_eq;
    intros [= <-]; cbn; rewrite lookup_insert_eq; (eexists; split; [done|]); by case_bool_decide.
Qed.

(** ** What a handler does before the hub answers *)

Section answers.
Context {B2 : Blake2b} {S : Type} {St : Store S}.

(** A payload that is not the answer of a device. *)
Definition plain (p : payload) : Prop := match p with PResult _ | PRaw _ => False | _ => True end.

#[export] Instance plain_dec p : Decision (plain p).
Proof. destruct p; cbn; apply _. Defined.

Definition answered_by (tx : res TxResult) (q : res QueryResult) (p : payload) : Prop :=
  match p with
  | PResult res => tx = Ok res
  | PRaw data => ∃ qr, q = Ok qr ∧ QueryResult_Data qr = data
  | _ => True
  end.

Lemma plain_answered tx q p : plain p → answered_by tx q p.
Proof. by destruct p. Qed.

(** What is sent and the limiter do not depend on the hub's answer; a result
    or data in the response is that answer; there is a response for every
    answer if there is one for some. *)
Definition hub_shape (f : res TxResult → res QueryResult → res outcome) : Prop :=
  ∃ rl1 sent, ∀ tx q, match f tx q with
    | Ok (resp, rl', sent') => rl' = rl1 ∧ sent' = sent ∧ answered_by tx q (payload_of resp) ∧
        (∀ res, payload_of resp = PResult res → ∃ acc req, sent = Some (DRequest acc req))
    | _ => tx = Panic ∨ q = Panic ∨ ∀ tx q o, f tx q ≠ Ok o
    end.

Lemma shape_const resp rl sent : plain (payload_of resp) → hub_shape (λ _ _, Ok (resp, rl, sent)).
Proof.
  intros H. exists rl, sent. intros tx q. split_and!; [done..|by apply plain_answered|].
  intros res Hres. by rewrite Hres in H.
Qed.

Lemma shape_error st msg rl sent : hub_shape (λ _ _, Ok (writeJSONError st msg, rl, sent)).
Proof. by apply shape_const. Qed.

Lemma shape_stuck o : (∀ a, o ≠ Ok a) → hub_shape (λ _ _, o).
Proof. intros H. exists serverLimiter, None. intros tx q. destruct o as [a|e|]; [by destruct (H a)|auto..]. Qed.

Abbreviation with_hub w handle s rl r := (λ tx q, handle (with_answer tx q w) s rl r).

Lemma create_shape w s rl r : hub_shape (with_hub w handleCreateRequest s rl r).
Proof.
  unfold handleCreateRequest, authKey. cbn [with_answer w_ctx w_now1 w_now2 w_rand w_time w_bindings w_send].
  case_bool_decide; [apply shape_error|].
  destruct (if bool_decide _ then None else _) as [key|]; [|apply shape_error].
  destruct (allow _ _ _ rl) as [[] rl1]; cbn [negb]; [|by apply shape_const].
  destruct (decodeBody _) as [body|]; [|apply shape_error].
  destruct (buildTxRequest _ _ _ _) as [req|e|]; [|apply shape_error|by apply shape_stuck].
  destruct (accountOnline _ _); cbn [negb]; [|apply shape_error].
  exists rl1, (Some (DRequest (OwnerAccount key) req)). intros tx q. destruct tx as [res|e|]; [| |by left].
  - split_and!; [done..|]. intros res' _. eauto.
  - split_and!; [done|done|by case_bool_decide|]. intros res'. by case_bool_decide.
Qed.

(** The tail of the handlers that query the device. *)
Ltac query_tail :=
  match goal with
  | |- hub_shape (λ _ q, match q with Panic => Panic | Err err => _ | Ok qr => _ end) =>
      eexists _, (Some _); intros tx q; destruct q as [qr|e|]; [| |by right; left];
      repeat case_bool_decide; cbn [negb];
      (split; [reflexivity|split; [reflexivity|split; [first [by exists qr|done]|done]]])
  end.

Lemma broadcast_shape w s rl r : hub_shape (with_hub w handleBroadcast s rl r).
Proof.
  unfold handleBroadcast, authKey. cbn [with_answer w_ctx w_now1 w_now2 w_rand w_time w_bindings w_ask].
  case_bool_decide; [apply shape_error|].
  destruct (if bool_decide _ then None else _) as [key|]; [|apply shape_error].
  destruct (allow _ _ _ rl) as [[] rl1]; cbn [negb]; [|by apply shape_const].
  set (nonce := match _ with Some _ => _ | None => _ end).
  case_bool_decide; [apply shape_error|].
  destruct (accountOnline _ _); cbn [negb]; [|apply shape_error]. query_tail.
Qed.

Lemma query_shape op w s rl r : hub_shape (with_hub w (deviceQuery op) s rl r).
Proof.
  unfold deviceQuery, authKey. cbn [with_answer w_ctx w_now1 w_now2 w_rand w_time w_bindings w_ask].
  case_bool_decide; [apply shape_error|].
  destruct (if bool_decide _ then None else _) as [key|]; [|apply shape_error].
  destruct (accountOnline _ _); cbn [negb]; [|apply shape_error]. query_tail.
Qed.

Lemma request_status_shape w s rl r : hub_shape (with_hub w handleRequestStatus s rl r).
Proof.
  unfold handleRequestStatus, authKey. cbn [with_answer w_ctx w_now1 w_now2 w_rand w_time w_bindings w_ask].
  case_bool_decide; [apply shape_error|].
  destruct (if bool_decide _ then None else _) as [key|]; [|apply shape_error].
  case_bool_decide; [apply shape_error|].
  destruct (accountOnline _ _); cbn [negb]; [|apply shape_error]. query_tail.
Qed.

Lemma status_shape w s rl r : hub_shape (with_hub w handleStatus s rl r).
Proof.
  unfold handleStatus, authKey. cbn [with_answer w_ctx w_bindings].
  destruct (if bool_decide _ then None else _) as [key|]; [by apply shape_const|apply shape_error].
Qed.

Lemma shape_headers f (g : response → response) :
  hub_shape f → (∀ resp, payload_of (g resp) = payload_of resp) →
  hub_shape (λ tx q, out ← f tx q; let '(resp, rl1, sent) := out in Ok (g resp, rl1, sent)).
Proof.
  intros (rl1 & sent & Hf) Hg. exists rl1, sent. intros tx q. specialize (Hf tx q).
  destruct (f tx q) as [[[resp rl'] sent']|e|]; [by cbn; rewrite Hg|..].
  all: destruct Hf as [?|[?|Hf]]; [by left|by right; left|right; right].
  all: intros tx' q' o; specialize (Hf tx' q'); destruct (f tx' q') as [o'|e'|]; [by destruct (Hf o')|done..].
Qed.

Context (other : httpRequest → response) (Hother : ∀ r, plain (payload_of (other r))).

Lemma mux_shape w s rl r : hub_shape (with_hub w (mux other) s rl r).
Proof.
  unfold mux.
  repeat (case_bool_decide; [first [apply create_shape|apply request_status_shape|apply broadcast_shape
    |apply status_shape|apply query_shape|by apply shape_const]|]).
  apply shape_const, Hother.
Qed.

Lemma routes_shape w sc s rl r : hub_shape (λ tx q, routes other (with_answer tx q w) sc s rl r).
Proof.
  unfold routes, corsMiddleware. destruct (_ || _); [apply mux_shape|].
  cbn [with_answer w_ctx].
  set (allowed := match OriginAllowed _ _ sc with Ok b => b | _ => false end).
  case_bool_decide; [destruct allowed; by apply shape_const|].
  apply (shape_headers _ (λ resp, if allowed then _ else resp)); [apply mux_shape|].
  intros resp. by destruct allowed.
Qed.
End answers.

(** ** Executions *)

Section relay.
Context {B2 : Blake2b} {B2L : Blake2bLaws} {E : Edwards25519} {EL : Edwards25519Laws}.
Context {S : Type} {St : Store S} {L : StoreLaws S}.
Context (other : httpRequest → response) (Hother : ∀ r, plain (payload_of (other r))).
(** What the store holds when the relay starts. *)
Context (sp0 : store_spec).

(** The one condition on a run: a control message does not register a key with
    the hash of a key of another id. *)
Definition event_ok (e : event) (s : relay S) : Prop :=
  match e with
  | EStore c _ => ∀ ctl op k sp, busy s !! c = Some (ctl, Write op k) → represents (store s) sp → op_free op sp
  | _ => True
  end.

Definition rnext (s s' : relay S) : Prop := ∃ e, rstep other e s = Some s' ∧ event_ok e s.

Inductive rreachable : relay S → Prop :=
| rreach_start st : represents st sp0 → rreachable (newRelay st)
| rreach_next s s' : rreachable s → rnext s s' → rreachable s'.

(** The events that led to a state. *)
Inductive history : list event → relay S → Prop :=
| hist_start st : represents st sp0 → history [] (newRelay st)
| hist_next evs s e s' : history evs s → rstep other e s = Some s' → event_ok e s → history (evs ++ [e]) s'.

Lemma history_reached evs s : history evs s → rreachable s.
Proof. induction 1 as [st Hr|evs s e s' _ IH Hs Hok]; [by constructor|]. eapply rreach_next; [done|by exists e]. Qed.

(** ** Hub steps inside the relay *)

Lemma step_conns l h h' :
  step l h = Some h' →
  conns h' = conns h ∨ ∃ c a, l = LBind c a ∧ conns h !! c = None ∧ conns h' = <[c := a]> (conns h).
Proof.
  intros Hs. destruct l as [c a|c|t acc req|t acc q id|t r|t id qr|t ok|t|t e]; cbn [step] in Hs.
  - case_guard as Hg; [|done]. right. exists c, a. simplify_eq/=. by destruct Hg.
  - left. destruct (conns h !! c); by simplify_eq/=.
  - left. case_guard; [|done]. rewrite devicesForAccount_eq in Hs. by simplify_eq/=.
  - left. case_guard; [|done]. rewrite devicesForAccount_eq in Hs. by simplify_eq/=.
  - left. case_guard; by simplify_eq/=.
  - left. case_guard; by simplify_eq/=.
  - left. destruct (tasks h !! t) as [tk|]; [|done]. cbn [mbind option_bind] in Hs.
    destruct tk; cbn [run_task] in Hs; rewrite ?devicesForAccount_eq in Hs;
      repeat (case_match; try done); simplify_eq; try done; try (by destruct ok).
    cbn. unfold try_send. by repeat case_match.
  - left. repeat (case_match; try done); by simplify_eq/=.
  - left. case_guard; [|done]. cbn [mbind option_bind] in Hs. repeat (case_match; try done); by simplify_eq/=.
Qed.

Lemma step_keeps_conn l h h' c a : step l h = Some h' → conns h !! c = Some a → conns h' !! c = Some a.
Proof.
  intros Hs Ha. destruct (step_conns l h h' Hs) as [->|(c' & a' & _ & Hn & ->)]; [done|].
  rewrite lookup_insert_ne; [done|]. intros ->. congruence.
Qed.

Lemma step_serves l h h' c acc : step l h = Some h' → serves h c acc → serves h' c acc.
Proof. intros Hs (a & Ha & Hin). exists a. split; [by eapply step_keeps_conn|done]. Qed.

(** ** The effects of an event *)

Definition start_label (h : nat) (d : Api.dispatch) (qid : string) : label :=
  match d with DRequest acc req => LRequest h acc req | DQuery acc q => LQuery h acc q qid end.
Definition unanswered (w : world) : world := with_answer (Err Canceled) (Err Canceled) w.

(** The hub's task of a handler has returned. *)
Definition returned (s : relay S) (h : nat) (w out : world) : Prop :=
  (∃ id tx, tasks (hub s) !! h = Some (ReqDone id tx) ∧ out = with_answer tx (Err Canceled) w) ∨
  (∃ id q, tasks (hub s) !! h = Some (QryDone id q) ∧ out = with_answer (Err Canceled) q w).

Inductive effect (s : relay S) : relay S → Prop :=
| ef_none : effect s s
| ef_enroll c a nonce hb :
    (∀ acc, acc ∈ accounts a → ∃ sigs, proves sigs nonce acc) → step (LBind c a) (hub s) = Some hb →
    effect s (set_live (union {[c]}) (set_challenged (<[c := nonce]>) (set_hub hb s)))
| ef_hub l hb :
    (∀ c a, l ≠ LBind c a) → (∀ c, l ≠ LUnbind c) → starts l = None → step l (hub s) = Some hb →
    effect s (set_hub hb s)
| ef_close c hb :
    busy s !! c = None → step (LUnbind c) (hub s) = Some hb →
    effect s (set_live (λ l, l ∖ {[c]}) (set_hub hb s))
| ef_control c a ctl :
    c ∈ live s → conns (hub s) !! c = Some a → effect s (set_busy (<[c := (ctl, control_program (accounts a) ctl)]>) s)
| ef_write c ctl op k e st f :
    busy s !! c = Some (ctl, Write op k) → (∀ sp, represents (store s) sp → op_free op sp) →
    apply_op f op (store s) = (e, st) → effect s (set_busy (<[c := (ctl, k e)]>) (set_store st s))
| ef_read c ctl acc k f :
    busy s !! c = Some (ctl, ReadPolicy acc k) →
    effect s (set_busy (<[c := (ctl, k (GetPolicy f acc (store s)))]>) s)
| ef_reply c ctl r ok :
    busy s !! c = Some (ctl, Reply r) →
    effect s (set_busy (delete c) (if (ok : bool) then set_replies (λ l, l ++ [(c, ctl, r)]) s else s))
| ef_arrive h r : handlers s !! h = None → effect s (set_handlers (<[h := Arrived r (store s)]>) s)
| ef_key h r sc :
    handlers s !! h = Some (Arrived r sc) → effect s (set_handlers (<[h := Keyed r (sc, store s)]>) s)
| ef_limit h r snap w rl :
    handlers s !! h = Some (Keyed r snap) →
    effect s (set_handlers (<[h := Limited r snap w (limiter s)]>) (set_limiter rl s))
| ef_served h r snap w0 rl w resp rl' :
    handlers s !! h = Some (Limited r snap w0 rl) → routes other (unanswered w) snap.1 snap.2 rl r = Ok (resp, rl', None) →
    effect s (respond h r resp s)
| ef_sending h r snap w0 rl w resp rl' d :
    handlers s !! h = Some (Limited r snap w0 rl) → routes other (unanswered w) snap.1 snap.2 rl r = Ok (resp, rl', Some d) →
    effect s (set_handlers (<[h := Sending r snap (unanswered w) rl d]>) s)
| ef_crash h : effect s (set_handlers (<[h := Crashed]>) s)
| ef_send h r snap w rl d qid hb :
    handlers s !! h = Some (Sending r snap w rl d) → step (start_label h d qid) (hub s) = Some hb →
    effect s (set_handlers (<[h := Waiting r snap w rl d]>) (set_hub hb s))
| ef_answer h r snap w rl d out resp rl' sent :
    handlers s !! h = Some (Waiting r snap w rl d) → returned s h w out →
    routes other out snap.1 snap.2 rl r = Ok (resp, rl', sent) → effect s (respond h r resp s)
| ef_prune now : effect s (set_limiter (prune now (limiter s)) s).

Lemma hub_step_Some l (s s' : relay S) : hub_step l s = Some s' → ∃ hb, step l (hub s) = Some hb ∧ s' = set_hub hb s.
Proof. unfold hub_step. destruct (step l (hub s)) as [hb|]; [|done]. intros [= <-]. by exists hb. Qed.

(** Cases on the step of the hub an event takes. *)
Ltac on_hub hb Hb :=
  let s1 := fresh "s1" in
  match goal with
  | |- context [hub_step ?l ?s] => destruct (hub_step l s) as [s1|] eqn:Hb; [|done]
  | H : context [hub_step ?l ?s] |- _ => destruct (hub_step l s) as [s1|] eqn:Hb; [|done]
  end; apply hub_step_Some in Hb; destruct Hb as (hb & Hb & ->).

Lemma enroll_proves hello rnd werr auth a :
  (enroll hello (inl rnd) werr auth).2 = Ok a →
  ∀ acc, acc ∈ accounts a → ∃ sigs, proves sigs (take 32 rnd) acc.
Proof.
  intros Ha acc Hacc. pose proof (enroll_spec hello rnd werr auth) as H.
  destruct (enroll hello (inl rnd) werr auth) as [frames out]. cbn in Ha. subst out.
  destruct H as (_ & _ & henv & h & aenv & au & _ & _ & _ & _ & _ & _ & Hin).
  exists (Auth_Signatures au). by apply Hin.
Qed.

(** A frame makes at most one call. *)
Lemma frame_effect a c env t (s s' : relay S) :
  c ∈ live s → conns (hub s) !! c = Some a → on_actions c a t (Agent.dispatch env) s = Some s' → effect s s'.
Proof.
  intros Hlive Ha. unfold Agent.dispatch. repeat case_bool_decide.
  - destruct (Envelope_Result env) as [r|]; cbn [on_actions on_action]; [|intros [= <-]; constructor].
    on_hub hb Hb. cbn. intros [= <-]. (eapply ef_hub; [| | |exact Hb]; done).
  - destruct (Envelope_Control env) as [ctl|]; cbn; intros [= <-]; by constructor.
  - destruct (Envelope_QueryResult env) as [qr|]; cbn [on_actions on_action]; [|intros [= <-]; constructor].
    on_hub hb Hb. cbn. intros [= <-]. (eapply ef_hub; [| | |exact Hb]; done).
  - intros [= <-]. constructor.
Qed.

Lemma rnext_effect s s' : rnext s s' → effect s s'.
Proof.
  intros (e & Hs & Hok). destruct e as [c hello rnd werr auth|c env t|c f|c ok|c|h r|h|h w|h|h qid|t ok|t|t e|h|now]; cbn [rstep] in Hs.
  - destruct (enroll hello (inl rnd) werr auth).2 as [a|err|] eqn:He; [|simplify_eq; constructor..].
    on_hub hb Hb. simplify_eq/=. apply ef_enroll with a; [by eapply enroll_proves|done].
  - case_guard as Hg; [|done]. pose proof Hg as [Hlive _]. cbn [mbind option_bind] in Hs.
    destruct (conns (hub s) !! c) as [a|] eqn:Ha; [|done]. exact (frame_effect a c env t s s' Hlive Ha Hs).
  - destruct (busy s !! c) as [[ctl [r|op k|acc k]]|] eqn:Hb; try done.
    + destruct (apply_op f op (store s)) as [e st] eqn:Hop. simplify_eq. eapply ef_write; [done| |done].
      intros sp. by apply (Hok ctl op k).
    + simplify_eq. by apply ef_read.
  - destruct (busy s !! c) as [[ctl [r|op k|acc k]]|] eqn:Hb; try done. simplify_eq. by apply ef_reply.
  - case_guard as Hg; [|done]. pose proof Hg as [_ Hbusy]. cbn [mbind option_bind] in Hs. on_hub hb Hb. simplify_eq/=.
    by apply ef_close.
  - case_guard; [|done]. simplify_eq/=. by constructor.
  - destruct (handlers s !! h) as [[r sc| | | | | |]|] eqn:Hh; try done. simplify_eq. by apply ef_key.
  - destruct (handlers s !! h) as [[|r snap| | | | |]|] eqn:Hh; try done. simplify_eq. by apply ef_limit.
  - destruct (handlers s !! h) as [[| |r snap w rl| | | |]|] eqn:Hh; try done.
    destruct (routes other _ snap.1 snap.2 rl r) as [[[resp rl'] [d|]]|err|] eqn:Hr; simplify_eq/=;
      [by eapply ef_sending|by eapply ef_served|constructor..].
  - destruct (handlers s !! h) as [[| | |r snap w rl d| | |]|] eqn:Hh; try done.
    on_hub hb Hb. simplify_eq/=. by eapply ef_send.
  - apply hub_step_Some in Hs as (hb & Hs & ->). (eapply ef_hub; [| | |exact Hs]; done).
  - apply hub_step_Some in Hs as (hb & Hs & ->). (eapply ef_hub; [| | |exact Hs]; done).
  - apply hub_step_Some in Hs as (hb & Hs & ->). (eapply ef_hub; [| | |exact Hs]; done).
  - destruct (handlers s !! h) as [[| | | |r snap w rl d| |]|] eqn:Hh; try done.
    destruct (tasks (hub s) !! h) as [tk|] eqn:Ht; [|done].
    destruct tk; try done; cbn [mbind option_bind] in Hs;
      match type of Hs with context [routes ?o ?out ?sn ?sm ?l ?q] => destruct (routes o out sn sm l q) as [[[resp rl'] sent]|e|] eqn:Hr end;
      simplify_eq/=; try constructor; (eapply ef_answer; [done| |done]); [left|right]; eauto.
  - simplify_eq/=. constructor.
Qed.

(** ** Every account that counts was proved by a signature *)

(** Some connection enrolled for the account, by a signature of the nonce this
    very connection was given. *)
Definition backed (s : relay S) (c : conn) (account : string) : Prop :=
  serves (hub s) c account ∧ ∃ nonce sigs, challenged s !! c = Some nonce ∧ proves sigs nonce account.

Record ownership (s : relay S) : Prop := {
  ow_hub : reachable (hub s);
  ow_conns c account : serves (hub s) c account → backed s c account;
  ow_store : ∃ sp, represents (store s) sp ∧ ∀ id k, sp_keys sp !! id = Some k →
    sp_keys sp0 !! id = Some k ∨ ∃ c, serves (hub s) c (ks_owner k);
  ow_busy c ctl p : busy s !! c = Some (ctl, p) →
    ∃ a, conns (hub s) !! c = Some a ∧ within (accounts a) (λ _ _ _, True) p;
}.

(** A step of the hub that enrolls nobody. *)
Lemma ownership_hub s l hb (s' : relay S) :
  ownership s → (∀ c a, l ≠ LBind c a) → step l (hub s) = Some hb →
  hub s' = hb → challenged s' = challenged s → store s' = store s → busy s' = busy s → ownership s'.
Proof.
  intros [H1 H2 (sp & Hr & Hk) H4] Hl Hs Hhub Hch Hst Hbu.
  assert (Hc : conns hb = conns (hub s)).
  { destruct (step_conns l (hub s) hb Hs) as [?|(c & a & -> & _)]; [done|]. by destruct (Hl c a). }
  assert (Hserves : ∀ c acc, serves (hub s') c acc ↔ serves (hub s) c acc).
  { intros c acc. unfold serves. by rewrite Hhub, Hc. }
  split.
  - rewrite Hhub. by eapply reachable_step.
  - intros c acc Hsv. split; [done|]. rewrite Hch. apply Hserves in Hsv. by apply (H2 c acc Hsv).
  - exists sp. rewrite Hst. split; [done|]. intros id k Hid.
    destruct (Hk id k Hid) as [?|[c ?]]; [by left|right]. exists c. by apply Hserves.
  - rewrite Hhub, Hbu, Hc. apply H4.
Qed.

(** A step that leaves the hub alone: what it stores and what it leaves to do
    must be accounted for. *)
Lemma ownership_local s (s' : relay S) :
  ownership s → hub s' = hub s → challenged s' = challenged s →
  (∃ sp', represents (store s') sp' ∧ ∀ id k, sp_keys sp' !! id = Some k →
     sp_keys sp0 !! id = Some k ∨ ∃ c, serves (hub s) c (ks_owner k)) →
  (∀ c ctl p, busy s' !! c = Some (ctl, p) → busy s !! c = Some (ctl, p) ∨
     ∃ a, conns (hub s) !! c = Some a ∧ within (accounts a) (λ _ _ _, True) p) →
  ownership s'.
Proof.
  intros [H1 H2 _ H4] Hh Hc Hst Hb. split; unfold backed; rewrite Hh, ?Hc; try done.
  intros c ctl p [?|?]%Hb; [by eapply H4|done].
Qed.

Lemma ownership_same s (s' : relay S) :
  ownership s → hub s' = hub s → challenged s' = challenged s → store s' = store s → busy s' = busy s → ownership s'.
Proof.
  intros Hi Hh Hc Hst Hb. apply (ownership_local s); [done..|rewrite Hst; apply Hi|]. intros c ctl p. rewrite Hb. by left.
Qed.

Lemma ownership_enroll s c a nonce hb f :
  ownership s → (∀ acc, acc ∈ accounts a → ∃ sigs, proves sigs nonce acc) →
  step (LBind c a) (hub s) = Some hb →
  ownership (set_live f (set_challenged (<[c := nonce]>) (set_hub hb s))).
Proof.
  intros [H1 H2 (sp & Hr & Hk) H4] Ha Hs.
  destruct (step_conns _ _ _ Hs) as [Hc|(c' & a' & [= <- <-] & _ & Hc)].
  { cbn [step] in Hs. case_guard as Hg; [|done]. simplify_eq/=. destruct Hg as [Hn _].
    rewrite <-Hc in Hn. by rewrite lookup_insert_eq in Hn. }
  split; cbn.
  - by eapply reachable_step.
  - intros c' acc (a' & Ha' & Hin). rewrite Hc in Ha'. split; [exists a'; cbn; by rewrite Hc|]. cbn.
    apply lookup_insert_Some in Ha' as [[<- <-]|[Hne Ha']].
    + destruct (Ha acc Hin) as [sigs Hp]. exists nonce, sigs. by rewrite lookup_insert_eq.
    + destruct (H2 c' acc) as (_ & n' & sigs & Hch & Hp); [by exists a'|].
      exists n', sigs. by rewrite lookup_insert_ne.
  - exists sp. split; [done|]. intros id k Hid.
    destruct (Hk id k Hid) as [?|[c' ?]]; [by left|right]. exists c'. by eapply step_serves.
  - intros c' ctl p (a' & Ha' & Hp)%H4. exists a'. split; [by eapply step_keeps_conn|done].
Qed.

(** A write of a control message, under the contract of the store. *)
Lemma ownership_write s c ctl op k e st f :
  ownership s → busy s !! c = Some (ctl, Write op k) → (∀ sp, represents (store s) sp → op_free op sp) →
  apply_op f op (store s) = (e, st) → ownership (set_busy (<[c := (ctl, k e)]>) (set_store st s)).
Proof.
  intros Hi Hb Hok Hop. destruct (ow_busy s Hi c _ _ Hb) as (a & Ha & Hw). inversion Hw as [|? ? Hperm Hk|]; subst.
  destruct (ow_store s Hi) as (sp & Hr & Hkeys). apply (ownership_local s); [done..| |].
  - destruct (write_grows (accounts a) f op (store s) sp Hr (Hok sp Hr) Hperm) as (sp' & Hr' & Hg).
    rewrite Hop in Hr'. exists sp'. split; [done|]. intros id k' [?%Hkeys|Hin]%Hg; [done|right]. by exists c, a.
  - cbn. intros c' ctl' p [[<- [= <- <-]]|[_ ?]]%lookup_insert_Some; [right|by left]. exists a. by split.
Qed.

Lemma ownership_effect s s' : ownership s → effect s s' → ownership s'.
Proof.
  intros Hi [| c a nonce hb Ha Hs| l hb Hl _ _ Hs| c hb _ Hs| c a ctl _ Ha| c ctl op k e st f Hb Hok Hop| c ctl acc k f Hb| c ctl r ok Hb
            | h r _| h r sc _| h r snap w rl _| h r snap w0 rl w resp rl' _ _| h r snap w0 rl w resp rl' d _ _| h| h r snap w rl d qid hb _ Hs
            | h r snap w rl d out resp rl' sent _ _ _| now].
  - done.
  - by eapply ownership_enroll.
  - by apply (ownership_hub s l hb).
  - by apply (ownership_hub s (LUnbind c) hb).
  - apply (ownership_local s); [done..|apply Hi|]. cbn.
    intros c' ctl' p [[<- [= <- <-]]|[_ ?]]%lookup_insert_Some; [right|by left]. exists a. split; [done|]. apply control_program_within.
  - by eapply ownership_write.
  - apply (ownership_local s); [done..|apply Hi|]. cbn.
    intros c' ctl' p [[<- [= <- <-]]|[_ ?]]%lookup_insert_Some; [right|by left].
    destruct (ow_busy s Hi c _ _ Hb) as (a & Ha & Hw). exists a. split; [done|]. by apply (within_after_read _ _ acc k).
  - apply (ownership_local s); [done|by destruct ok..|destruct ok; apply Hi|].
    intros c' ctl' p. destruct ok; cbn; intros [_ ?]%lookup_delete_Some; by left.
  - by apply (ownership_same s).
  - by apply (ownership_same s).
  - by apply (ownership_same s).
  - by apply (ownership_same s).
  - by apply (ownership_same s).
  - by apply (ownership_same s).
  - apply (ownership_hub s (start_label h d qid) hb); try done. by destruct d.
  - by apply (ownership_same s).
  - by apply (ownership_same s).
Qed.

Lemma ownership_reachable s : rreachable s → ownership s.
Proof.
  induction 1 as [st Hr|s s' _ IH Hn]; [|by eapply ownership_effect, rnext_effect].
  split; cbn.
  - constructor.
  - intros c acc (a & Ha & _). cbn in Ha. by rewrite lookup_empty in Ha.
  - exists sp0. split; [done|]. intros id k. by left.
  - intros c ctl p Hb. by rewrite lookup_empty in Hb.
Qed.

(** C1: ownership, end to end: in every state the relay can reach, a key in the
    store was there at the start or belongs to an account for which a device
    signed the nonce the relay gave to its connection, and every request, query
    or withdrawal frame about an account went to such a device. (Runs where a
    key is registered with the hash of a key of another id are left out: there
    the in-memory store no longer keeps its contract.) *)
Theorem keys_and_frames_backed s :
  rreachable s →
  (∃ sp, represents (store s) sp ∧ ∀ id k, sp_keys sp !! id = Some k →
     sp_keys sp0 !! id = Some k ∨ ∃ c, backed s c (ks_owner k)) ∧
  (∀ account c env, (account, c, env) ∈ wire (hub s) → backed s c account).
Proof.
  intros [Hh Hc (sp & Hr & Hk) _]%ownership_reachable. split.
  - exists sp. split; [done|]. intros id k [?|[c ?%Hc]]%Hk; [by left|right; eauto].
  - intros acc c env Hw. apply Hc. eapply rt_wire; [by apply routing_reachable|done].
Qed.

(** ** What devices are asked was authorised by a key *)

(** At some earlier point the store held the key whose secret the request [r]
    presents, and [d] is for that key. *)
Definition authorised (s : relay S) (r : httpRequest) (d : Api.dispatch) : Prop :=
  ∃ s1 key sp, rreachable s1 ∧ rtc rnext s1 s ∧ represents (store s1) sp ∧
    resolves sp (token r) key ∧ sent_for key d.

(** The task of a handler that has called the hub. *)
Definition serving (s : relay S) (h : nat) (d : Api.dispatch) : Prop :=
  ∃ tk i, tasks (hub s) !! h = Some tk ∧ task_id tk = Some i ∧
    ∀ acc req, d = DRequest acc req → i = TxRequest_ID req.

(** A handler that got past its checks was authorised, for what its checks,
    run again on what it had read, let through. *)
Definition cleared (s : relay S) (r : httpRequest) (snap : S * S) (w : world) (rl : rateLimiter) (d : Api.dispatch) : Prop :=
  authorised s r d ∧ ∃ resp rl', routes other (unanswered w) snap.1 snap.2 rl r = Ok (resp, rl', Some d).

Definition handler_ok (s : relay S) (h : nat) (hd : handler) : Prop :=
  match hd with
  | Arrived _ _ => True
  | Keyed r snap | Limited r snap _ _ => ∃ s1, rreachable s1 ∧ rtc rnext s1 s ∧ store s1 = snap.2
  | Sending r snap w rl d => cleared s r snap w rl d
  | Waiting r snap w rl d => cleared s r snap w rl d ∧ serving s h d
  | Answered | Crashed => True
  end.

Definition response_ok (s : relay S) (h : nat) (r : httpRequest) (resp : response) : Prop :=
  ∀ res, payload_of resp = PResult res →
    ∃ acc req, authorised s r (DRequest acc req) ∧ serving s h (DRequest acc req) ∧
      TxResult_RequestID res = TxRequest_ID req.

Record authority (s : relay S) : Prop := {
  au_handlers h hd : handlers s !! h = Some hd → handler_ok s h hd;
  au_tasks t tk d : tasks (hub s) !! t = Some tk → asks tk = Some d → ∃ r, authorised s r d;
  au_wire acc c env d : (acc, c, env) ∈ wire (hub s) → frame_asks acc env = Some d → ∃ r, authorised s r d;
  au_responses h r resp : (h, r, resp) ∈ responses s → response_ok s h r resp;
}.

Lemma authorised_next s s' r d : rnext s s' → authorised s r d → authorised s' r d.
Proof.
  intros Hn (s1 & key & sp & H1 & H2 & H3). exists s1, key, sp. split; [done|].
  split; [by eapply rtc_r|done].
Qed.

Lemma serving_step s s' l hb h d :
  step l (hub s) = Some hb → hub s' = hb → serving s h d → serving s' h d.
Proof.
  intros Hs Hh (tk & i & Ht & Hi & Hd). destruct (step_keeps_id l (hub s) hb h tk i Hs Ht Hi) as (tk' & ? & ?).
  exists tk', i. by rewrite Hh.
Qed.

(** A handler that gets past its checks is authorised by the store it read. *)
Lemma sending_authorised s s' h r snap w0 rl w resp rl' d :
  authority s → rnext s s' → handlers s !! h = Some (Limited r snap w0 rl) →
  routes other w snap.1 snap.2 rl r = Ok (resp, rl', Some d) → authorised s' r d.
Proof.
  intros Ha Hn Hh Hr. destruct (au_handlers s Ha h _ Hh) as (s1 & Hs1 & Hrt & Hsnap).
  destruct (ow_store s1 (ownership_reachable s1 Hs1)) as (sp & Hsp & _). rewrite <-Hsnap in Hr.
  destruct (routes_sound other w snap.1 (store s1) sp rl r resp rl' (Some d) Hsp Hr) as (H & _ & _).
  destruct (H d eq_refl) as (key & ? & ? & _). exists s1, key, sp. split; [done|].
  split; [by eapply rtc_r|done].
Qed.

(** The hub's part: what tasks ask and frames carry. *)
Lemma authority_hub s s' l hb :
  authority s → rnext s s' → step l (hub s) = Some hb → hub s' = hb →
  (∀ d, starts l = Some d → ∃ r, authorised s r d) →
  (∀ t tk d, tasks (hub s') !! t = Some tk → asks tk = Some d → ∃ r, authorised s' r d) ∧
  (∀ acc c env d, (acc, c, env) ∈ wire (hub s') → frame_asks acc env = Some d → ∃ r, authorised s' r d).
Proof.
  intros Ha Hn Hs -> Hst.
  assert (Hmono : ∀ d, (∃ r, authorised s r d) → ∃ r, authorised s' r d).
  { intros d [r ?]. exists r. by eapply authorised_next. }
  split.
  - intros t tk d Ht Hd. apply Hmono.
    destruct (step_asks l (hub s) hb t tk d Hs Ht Hd) as [(t0 & tk0 & ? & ?)|?]; [by eapply (au_tasks s Ha)|by apply Hst].
  - intros acc c env d Hw Hf. apply Hmono.
    destruct (step_frames l (hub s) hb acc c env d Hs Hw Hf) as [?|(t0 & tk0 & ? & ?)];
      [by eapply (au_wire s Ha)|by eapply (au_tasks s Ha)].
Qed.

Lemma handler_ok_next s s' h hd :
  rnext s s' → (∀ d, serving s h d → serving s' h d) → handler_ok s h hd → handler_ok s' h hd.
Proof.
  intros Hn Hsv. destruct hd as [|r snap|r snap w rl|r snap w rl d|r snap w rl d| |]; cbn; [done|..|done|done].
  - intros (s1 & ? & ? & ?). exists s1. split; [done|]. split; [by eapply rtc_r|done].
  - intros (s1 & ? & ? & ?). exists s1. split; [done|]. split; [by eapply rtc_r|done].
  - intros [? ?]. split; [by eapply authorised_next|done].
  - intros [[? ?] ?]. split; [|by apply Hsv]. split; [by eapply authorised_next|done].
Qed.

(** The system's part: at most one handler and one response change. *)
Lemma authority_frame s s' :
  authority s → rnext s s' →
  (∀ t tk d, tasks (hub s') !! t = Some tk → asks tk = Some d → ∃ r, authorised s' r d) ∧
  (∀ acc c env d, (acc, c, env) ∈ wire (hub s') → frame_asks acc env = Some d → ∃ r, authorised s' r d) →
  (∀ h d, serving s h d → serving s' h d) →
  (∀ h hd, handlers s' !! h = Some hd → handlers s !! h = Some hd ∨ handler_ok s' h hd) →
  (∀ h r resp, (h, r, resp) ∈ responses s' → (h, r, resp) ∈ responses s ∨ response_ok s' h r resp) →
  authority s'.
Proof.
  intros Ha Hn [Ht Hw] Hsv Hh Hr. split; [|done..|].
  - intros h hd [H|H]%Hh; [|done]. eapply handler_ok_next; [done|by apply Hsv|by apply (au_handlers s Ha)].
  - intros h r resp [H|H]%Hr; [|done]. intros res Hres.
    destruct (au_responses s Ha h r resp H res Hres) as (acc & req & ? & ? & ?). exists acc, req.
    split; [by eapply authorised_next|split; [by apply Hsv|done]].
Qed.

(** The hub is left alone. *)
Lemma authority_same_hub s s' :
  authority s → rnext s s' → hub s' = hub s →
  (∀ h hd, handlers s' !! h = Some hd → handlers s !! h = Some hd ∨ handler_ok s' h hd) →
  (∀ h r resp, (h, r, resp) ∈ responses s' → (h, r, resp) ∈ responses s ∨ response_ok s' h r resp) →
  authority s'.
Proof.
  intros Ha Hn Hhub Hh Hr. apply (authority_frame s s' Ha Hn); [|by unfold serving; rewrite Hhub|done..].
  rewrite Hhub. split.
  - intros t tk d ??. destruct (au_tasks s Ha t tk d) as [r ?]; [done..|]. exists r. by eapply authorised_next.
  - intros acc c env d ??. destruct (au_wire s Ha acc c env d) as [r ?]; [done..|]. exists r. by eapply authorised_next.
Qed.

(** The hub takes a step that starts nothing. *)
Lemma authority_hub_step s s' l hb :
  authority s → rnext s s' → step l (hub s) = Some hb → hub s' = hb → starts l = None →
  handlers s' = handlers s → responses s' = responses s → authority s'.
Proof.
  intros Ha Hn Hs Hhub Hl Hh Hr. apply (authority_frame s s' Ha Hn).
  - eapply authority_hub; [done..|]. intros d Hd. congruence.
  - intros h d. by eapply serving_step.
  - intros h hd. rewrite Hh. by left.
  - intros h r resp. rewrite Hr. by left.
Qed.

(** The result a handler answers with names the request it sent. *)
Lemma answer_ok s h r snap w rl d out resp rl' sent :
  rreachable s → authority s → handlers s !! h = Some (Waiting r snap w rl d) → returned s h w out →
  routes other out snap.1 snap.2 rl r = Ok (resp, rl', sent) → response_ok s h r resp.
Proof.
  intros Hreach Ha Hh Hret Hr res Hres.
  destruct (au_handlers s Ha h _ Hh) as [[Hauth (resp0 & rl0 & Hr0)] Hserv].
  pose proof Hserv as (tk & i & Htk & Hi & Hd).
  destruct (routes_shape other Hother w snap.1 snap.2 rl r) as (rl1 & sent1 & Hsh).
  pose proof (Hsh (Err Canceled) (Err Canceled)) as Hsh0. cbn beta in Hsh0.
  unfold unanswered in Hr0. rewrite Hr0 in Hsh0. destruct Hsh0 as (_ & Hsent & _).
  assert (Htx : ∃ id, tasks (hub s) !! h = Some (ReqDone id (Ok res)) ∧ ∃ acc req, d = DRequest acc req).
  { destruct Hret as [(id & tx & Ht & ->)|(id & q & Ht & ->)].
    - specialize (Hsh tx (Err Canceled)). cbn beta in Hsh. rewrite Hr in Hsh.
      destruct Hsh as (_ & _ & Htx & Hres'). rewrite Hres in Htx. cbn in Htx. subst tx.
      destruct (Hres' res Hres) as (acc & req & Hs1).
      exists id. split; [done|]. exists acc, req. congruence.
    - specialize (Hsh (Err Canceled) q). cbn beta in Hsh. rewrite Hr in Hsh.
      destruct Hsh as (_ & _ & Htx & _). by rewrite Hres in Htx. }
  destruct Htx as (id & Ht & acc & req & ->). exists acc, req. split; [done|]. split; [done|].
  rewrite Htk in Ht. injection Ht as ->. cbn in Hi. injection Hi as <-.
  rewrite <-(Hd acc req eq_refl).
  eapply (cl_out (hub s)); [apply calls_reachable, ow_hub, ownership_reachable; done|done|done].
Qed.

Lemma authority_effect s s' : rreachable s → authority s → rnext s s' → effect s s' → authority s'.
Proof.
  intros Hreach Ha Hn He. revert Hn.
  destruct He as [| c a nonce hb _ Hs| l hb Hl _ Hst Hs| c hb _ Hs| c a ctl _ _| c ctl op k e st f _ _ _| c ctl acc k f _
            | c ctl r ok _| h r _| h r sc Hh| h r snap w rl Hh| h r snap w0 rl w resp rl' Hh Hr| h r snap w0 rl w resp rl' d Hh Hr| h| h r snap w rl d qid hb Hh Hs| h r snap w rl d out resp rl' sent Hh Hret Hr
            | now]; intros Hn.
  - done.
  - by eapply (authority_hub_step s).
  - by eapply (authority_hub_step s).
  - by eapply (authority_hub_step s).
  - apply (authority_same_hub s); auto.
  - apply (authority_same_hub s); auto.
  - apply (authority_same_hub s); auto.
  - apply (authority_same_hub s); destruct ok; auto.
  - apply (authority_same_hub s); [done..| |auto].
    intros h' hd; cbn; intros [[<- <-]|[_ ?]]%lookup_insert_Some; [by right|by left].
  - apply (authority_same_hub s); [done..| |auto].
    intros h' hd; cbn; intros [[<- <-]|[_ ?]]%lookup_insert_Some; [right|by left]. exists s. split; [done|].
    split; [by apply rtc_once|done].
  - apply (authority_same_hub s); [done..| |auto].
    intros h' hd; cbn; intros [[<- <-]|[_ ?]]%lookup_insert_Some; [right|by left].
    destruct (au_handlers s Ha h _ Hh) as (s1 & ? & ? & ?). exists s1. split; [done|]. split; [by eapply rtc_r|done].
  - apply (authority_same_hub s); [done..| |].
    + intros h' hd; cbn; intros [[<- <-]|[_ ?]]%lookup_insert_Some; [by right|by left].
    + intros h' r' resp'; cbn; intros [?|[= -> -> ->]%list_elem_of_singleton]%elem_of_app; [by left|right].
      intros res Hres. destruct (routes_shape other Hother w snap.1 snap.2 rl r) as (rl1 & sent1 & Hsh).
      specialize (Hsh (Err Canceled) (Err Canceled)). cbn beta in Hsh. unfold unanswered in Hr. rewrite Hr in Hsh.
      destruct Hsh as (_ & _ & H & _). by rewrite Hres in H.
  - apply (authority_same_hub s); [done..| |auto].
    intros h' hd; cbn; intros [[<- <-]|[_ ?]]%lookup_insert_Some; [right|by left]. split; [|by exists resp, rl'].
    by eapply sending_authorised.
  - apply (authority_same_hub s); [done..| |auto].
    intros h' hd; cbn; intros [[<- <-]|[_ ?]]%lookup_insert_Some; [by right|by left].
  - pose proof (au_handlers s Ha h _ Hh) as Hcl. cbn in Hcl.
    apply (authority_frame s); [done|done| | | |auto].
    + eapply authority_hub; [done..|]. intros d' Hd'. exists r.
      replace d' with d; [apply Hcl|]. destruct d; cbn in Hd'; congruence.
    + intros h' d'. by eapply serving_step.
    + intros h' hd; cbn; intros [[<- <-]|[_ ?]]%lookup_insert_Some; [right|by left]. split.
      * destruct Hcl as [? ?]. split; [by eapply authorised_next|done].
      * destruct (starts_id h d qid _ _ Hs) as (tk & Htk & Hid). eexists tk, _. split; [done|].
        split; [done|]. by intros acc req ->.
  - apply (authority_same_hub s); [done..| |].
    + intros h' hd; cbn; intros [[<- <-]|[_ ?]]%lookup_insert_Some; [by right|by left].
    + intros h' r' resp'; cbn; intros [?|[= -> -> ->]%list_elem_of_singleton]%elem_of_app; [by left|right].
      intros res Hres. destruct (answer_ok s h r snap w rl d out resp rl' sent Hreach Ha Hh Hret Hr res Hres)
        as (acc & req & ? & ? & ?). exists acc, req. split; [by eapply authorised_next|done].
  - apply (authority_same_hub s); auto.
Qed.

Lemma authority_reachable s : rreachable s → authority s.
Proof.
  induction 1 as [st Hr|s s' Hs IH Hn]; [|by eapply authority_effect, rnext_effect].
  split; cbn.
  - intros h hd Hh. by rewrite lookup_empty in Hh.
  - intros t tk d Ht. by rewrite lookup_empty in Ht.
  - by intros acc c env d ?%elem_of_nil.
  - by intros h r resp ?%elem_of_nil.
Qed.

(** C2: authority, end to end: in every state the relay can reach, whatever a
    device was asked, the request or query is about the account the frame is
    for, the device proved that account, and it goes back to an HTTP request
    that presented the secret of a key which the store held at the time, which
    owns that account and which the frame names as its contact. (Runs where a
    key is registered with the hash of a key of another id are left out: there
    the in-memory store no longer keeps its contract.) *)
Theorem devices_asked_by_key_holders s account c env d :
  rreachable s → (account, c, env) ∈ wire (hub s) → frame_asks account env = Some d →
  backed s c account ∧
  ∃ s1 r key sp, rreachable s1 ∧ rtc rnext s1 s ∧ represents (store s1) sp ∧
    resolves sp (token r) key ∧ sent_for key d ∧ OwnerAccount key = account.
Proof.
  intros Hs Hw Hf. pose proof (ownership_reachable s Hs) as [Hh Hc _ _]. split.
  - apply Hc. eapply rt_wire; [by apply routing_reachable|done].
  - destruct (au_wire s (authority_reachable s Hs) account c env d Hw Hf) as (r & s1 & key & sp & ? & ? & ? & ? & Hd).
    exists s1, r, key, sp. split_and!; try done. unfold frame_asks in Hf.
    repeat case_match; simplify_eq/=; by destruct Hd as (-> & _).
Qed.

(** Answers, end to end: a transaction result in an HTTP response names the
    request that this very HTTP request sent through its own call of the hub
    (the task with the handler's number), for the account of the key whose
    secret it presented. *)
Theorem responses_correlate s h r resp res :
  rreachable s → (h, r, resp) ∈ responses s → payload_of resp = PResult res →
  ∃ s1 key sp acc req tk, rreachable s1 ∧ rtc rnext s1 s ∧ represents (store s1) sp ∧
    resolves sp (token r) key ∧ sent_for key (DRequest acc req) ∧
    tasks (hub s) !! h = Some tk ∧ task_id tk = Some (TxRequest_ID req) ∧
    TxResult_RequestID res = TxRequest_ID req.
Proof.
  intros Hs Hin Hres.
  destruct (au_responses s (authority_reachable s Hs) h r resp Hin res Hres)
    as (acc & req & (s1 & key & sp & ? & ? & ? & ? & ?) & (tk & i & ? & Hi & Hreq) & ?).
  exists s1, key, sp, acc, req, tk. by rewrite Hi, (Hreq acc req eq_refl).
Qed.

(** ** Running a list of events *)

Fixpoint rrun (evs : list event) (s : relay S) : option (relay S) :=
  match evs with
  | [] => Some s
  | e :: evs' => s' ← rstep other e s; rrun evs' s'
  end.

Lemma rrun_app e1 e2 s : rrun (e1 ++ e2) s = (s' ← rrun e1 s; rrun e2 s').
Proof.
  revert s. induction e1 as [|e e1 IH]; intros s; [done|]. cbn [app rrun].
  destruct (rstep other e s) as [s1|]; [apply IH|done].
Qed.

Definition no_write (e : event) : bool := match e with EStore _ _ => false | _ => true end.

Lemma rrun_reachable evs s s' :
  rreachable s → forallb no_write evs = true → rrun evs s = Some s' → rreachable s'.
Proof.
  revert s. induction evs as [|e evs IH]; intros s Hs; cbn; [by intros _ [= <-]|].
  intros [He Hevs]%andb_true_iff. destruct (rstep other e s) as [s1|] eqn:H1; [|done]. cbn.
  apply IH; [|done]. eapply rreach_next; [done|]. exists e. split; [done|]. by destruct e.
Qed.

Lemma rrun_history pre evs s s' :
  history pre s → forallb no_write evs = true → rrun evs s = Some s' → history (pre ++ evs) s'.
Proof.
  revert pre s. induction evs as [|e evs IH]; intros pre s Hs; cbn; [intros _ [= <-]; by rewrite app_nil_r|].
  intros [He Hevs]%andb_true_iff. destruct (rstep other e s) as [s1|] eqn:H1; [|done]. cbn.
  rewrite (cons_middle e pre evs), (assoc_L (++)). apply IH; [|done]. eapply hist_next; [done|done|by destruct e].
Qed.
End relay.

(** ** Witnesses: a device enrolls with one account and registers a key; the
    key's holder posts a send, the device signs, the holder is answered *)

Definition no_page : httpRequest → response := λ _, MkResponse 404 [] PEmpty.
Definition ctl_frame : Envelope :=
  MkEnvelope 2 TypeControl "" None None None None None None
    (Some (MkControl "register_key" "c1" w_addr "key_1" (hashSecret "s1") None 0 None "")) None None "".
Definition first_events : list event := [EEnroll 1 (Some w_hello) w_nonce None (Some w_auth); EFrame 1 ctl_frame 0].
Definition register_events : list event := [EStore 1 Runs; EReply 1 true].
Definition ask_events : list event := [EArrive 7 post_send; EKey 7; ELimit 7 calm; EServe 7; ESend 7 ""; ERun 7 true; ERun 7 true].
Definition req_id : string := "req_000000000000000000000000".
Definition signed : TxResult := MkTxResult req_id StatusSigned "" None "" zero_time.
Definition answer_events : list event :=
  [ERun 7 true;
   EFrame 1 (MkEnvelope 2 TypeResult "" None None None None None (Some signed) None None None "") 8;
   ERun 8 true; ETake 7; ERun 7 true; ERun 7 true; ERun 7 true; ERun 7 true; EAnswer 7].

#[local] Existing Instance toy25519.
#[local] Existing Instance toy25519_laws.
Abbreviation rrun_mem := (rrun (S:=memStore) no_page).
Abbreviation reached := (rreachable (S:=memStore) no_page empty_spec).
Abbreviation led_to := (history (S:=memStore) no_page empty_spec).

Lemma no_page_ok r : plain (payload_of (no_page r)).
Proof. done. Qed.

Lemma empty_mem_spec sp : represents newMemStore sp → sp_keys sp = ∅.
Proof. intros Hr. apply map_eq. intros id. rewrite lookup_empty. by apply (repr_none newMemStore sp Hr). Qed.

Lemma program_registers acc id hash :
  id ≠ "" → hash ≠ "" →
  ∃ k r, control_program [acc] (MkControl "register_key" "c1" acc id hash None 0 None "") =
    Write (OpRegister id acc hash) k ∧ k None = Reply r.
Proof.
  intros Hid Hh. unfold control_program. cbn [Control_Op Control_Account Control_KeyID Control_Hash].
  rewrite (proj2 (contains_spec [acc] acc)) by by left. rewrite bool_decide_eq_true_2 by done. cbn [negb].
  rewrite bool_decide_eq_false_2 by (by intros [?|?]). by eexists _, _.
Qed.

(** The device enrolls and sends the message; the store is still empty. *)
Lemma enrolled :
  ∃ s ctl k r, rrun_mem first_events (newRelay newMemStore) = Some s ∧ led_to first_events s ∧ store s = newMemStore ∧
    busy s !! (1 : conn) = Some (ctl, Write (OpRegister "key_1" w_addr (hashSecret "s1")) k) ∧ k None = Reply r.
Proof.
  destruct (program_registers w_addr "key_1" (hashSecret "s1")) as (k & r & Hk & Hr); [done|by vm_compute|].
  assert (∃ s ctl, rrun_mem first_events (newRelay newMemStore) = Some s ∧ store s = newMemStore ∧
    busy s !! (1 : conn) = Some (ctl, Write (OpRegister "key_1" w_addr (hashSecret "s1")) k)) as (s & ctl & H1 & H2 & H3).
  { rewrite <-Hk. unfold first_events. cbn [rrun rstep]. rewrite w_enrolled. cbn [snd].
    eexists _, _. split; [reflexivity|]. split; [reflexivity|]. apply lookup_insert_eq. }
  exists s, ctl, k, r. split; [exact H1|]. split; [|split; [exact H2|split; [exact H3|exact Hr]]].
  eapply (rrun_history no_page empty_spec [] first_events); [|reflexivity|exact H1]. constructor. exact newMemStore_repr.
Qed.

(** It registers the key. *)
Lemma registered :
  ∃ s ctl r, rrun_mem (first_events ++ register_events) (newRelay newMemStore) = Some s ∧ led_to (first_events ++ register_events) s ∧
    (1 : conn, ctl, r) ∈ replies s.
Proof.
  destruct enrolled as (s1 & ctl & k & r & H1 & Hr1 & Hst & Hb & Hk). rewrite rrun_app, H1. cbn [mbind option_bind].
  assert (Hok : event_ok (EStore 1 Runs) s1).
  { intros ctl' op k' sp Hop Hsp. rewrite Hb in Hop. injection Hop as _ <- _. rewrite Hst in Hsp. apply empty_mem_spec in Hsp.
    intros id ks Hks. rewrite Hsp, lookup_empty in Hks. discriminate Hks. }
  destruct (write_runs (OpRegister "key_1" w_addr (hashSecret "s1")) newMemStore empty_spec) as [He _];
    [exact newMemStore_repr|intros id ks Hks; discriminate Hks|].
  destruct (apply_op Runs (OpRegister "key_1" w_addr (hashSecret "s1")) newMemStore) as [e st] eqn:Hop.
  cbn [fst] in He. subst e.
  assert (H2 : rstep no_page (EStore 1 Runs) s1 = Some (set_busy (<[(1 : conn) := (ctl, Reply r)]>) (set_store st s1))).
  { cbn [rstep]. rewrite Hb, Hst, Hop. by rewrite <-Hk. }
  eexists (set_busy (delete (1 : conn)) (set_replies (λ l, l ++ [(1 : conn, ctl, r)]) (set_busy (<[(1 : conn) := (ctl, Reply r)]>) (set_store st s1)))), ctl, r.
  assert (H3 : rstep no_page (EReply 1 true) (set_busy (<[(1 : conn) := (ctl, Reply r)]>) (set_store st s1)) =
    Some (set_busy (delete (1 : conn)) (set_replies (λ l, l ++ [(1 : conn, ctl, r)]) (set_busy (<[(1 : conn) := (ctl, Reply r)]>) (set_store st s1))))).
  { cbn [rstep set_busy busy]. by rewrite lookup_insert_eq. }
  split; [unfold register_events; cbn [rrun]; rewrite H2; cbn [mbind option_bind]; by rewrite H3|].
  split; [|cbn; apply elem_of_app; right; by left].
  exact (hist_next no_page empty_spec _ _ _ _ (hist_next no_page empty_spec _ _ _ _ Hr1 H2 Hok) H3 I).
Qed.

(** The whole exchange, to the end of [evs]. *)
Lemma exchange evs s :
  forallb no_write evs = true →
  rrun_mem (first_events ++ register_events ++ evs) (newRelay newMemStore) = Some s →
  led_to (first_events ++ register_events ++ evs) s.
Proof.
  intros Hevs. rewrite (assoc_L (++)), rrun_app. destruct registered as (s1 & _ & _ & -> & Hr & _). cbn [mbind option_bind].
  by apply (rrun_history no_page empty_spec _ evs).
Qed.

Definition exchange_events : list event := first_events ++ register_events ++ ask_events ++ answer_events.
Definition exchange_end : option (relay memStore) := rrun_mem exchange_events (newRelay newMemStore).
Definition asked_req : TxRequest :=
  MkTxRequest req_id "key_1" "" KindSend w_addr "" zero_address "500000000000000000000000000000" "" req_id zero_time "".

Lemma exchange_done :
  ∃ s, exchange_end = Some s ∧ led_to exchange_events s ∧ (w_addr, 1, requestEnv req_id asked_req) ∈ wire (hub s) ∧
    (7, post_send, writeJSON 200 (PResult signed)) ∈ responses s.
Proof.
  assert (Hc : (λ s, (wire (hub s) !! 0, responses s !! 0)) <$> exchange_end =
    Some (Some (w_addr, 1, requestEnv req_id asked_req), Some (7, post_send, writeJSON 200 (PResult signed))))
    by (vm_compute; reflexivity).
  destruct exchange_end as [s|] eqn:He; [|discriminate Hc]. injection Hc as Hw Hr. exists s.
  split; [reflexivity|]. split; [exact (exchange (ask_events ++ answer_events) s eq_refl He)|].
  split; eapply list_elem_of_lookup_2; [exact Hw|exact Hr].
Qed.

Theorem keys_and_frames_backed_witness :
  ∃ s, exchange_end = Some s ∧
  (∃ sp, represents (store s) sp ∧ ∀ id k, sp_keys sp !! id = Some k →
     sp_keys empty_spec !! id = Some k ∨ ∃ c, backed s c (ks_owner k)) ∧
  (∀ account c env, (account, c, env) ∈ wire (hub s) → backed s c account).
Proof.
  destruct exchange_done as (s & He & Hs%history_reached & _). exists s. split; [exact He|].
  exact (keys_and_frames_backed no_page empty_spec s Hs).
Defined.

Theorem devices_asked_by_key_holders_witness :
  ∃ s, exchange_end = Some s ∧ backed s 1 w_addr ∧
  ∃ s1 r key sp, reached s1 ∧ rtc (rnext no_page) s1 s ∧ represents (store s1) sp ∧
    resolves sp (token r) key ∧ sent_for key (DRequest w_addr asked_req) ∧ OwnerAccount key = w_addr.
Proof.
  destruct exchange_done as (s & He & Hs%history_reached & Hw & _). exists s. split; [exact He|].
  exact (devices_asked_by_key_holders no_page no_page_ok empty_spec s w_addr 1 (requestEnv req_id asked_req)
    (DRequest w_addr asked_req) Hs Hw eq_refl).
Defined.

Theorem responses_correlate_witness :
  ∃ s, exchange_end = Some s ∧
  ∃ s1 key sp acc req tk, reached s1 ∧ rtc (rnext no_page) s1 s ∧ represents (store s1) sp ∧
    resolves sp (token post_send) key ∧ sent_for key (DRequest acc req) ∧
    tasks (hub s) !! 7 = Some tk ∧ task_id tk = Some (TxRequest_ID req) ∧
    TxResult_RequestID signed = TxRequest_ID req.
Proof.
  destruct exchange_done as (s & He & Hs%history_reached & _ & Hr). exists s. split; [exact He|].
  exact (responses_correlate no_page no_page_ok empty_spec s 7 post_send (writeJSON 200 (PResult signed)) signed
    Hs Hr eq_refl).
Defined.
