(* ===== verification/Conn.v ===== *)
(** * Time on an agent's connection (cmd/relay/http.go: the deadlines of enroll
    and agentReadLoop, pinger)

    A read with a deadline yields what comes before it, and fails at the
    deadline otherwise; gorilla's reader runs the pong handler while a read
    waits.  Times are nanoseconds on the monotonic clock, each the moment the
    relay's reader gets to the message.  Write deadlines are not modelled. *)

From S2P Require Import Prelude GoStd Hash Blake2bRef Account Edwards Keys Sign Utf8 Rfc3339 Protocol Codec Wire.
From S2P Require Import RateLimit Hub Agent.

Local Open Scope Z_scope.

Definition enrollTimeout : Z := 15 * Second.
Definition readTimeout : Z := 60 * Second.
Definition pingInterval : Z := 25 * Second.

(** What arrives on the socket, and when. *)
Inductive incoming :=
| Pong
| Frame (env : Envelope)
| Broken.                      (* a close frame, invalid JSON, a network error *)

(** A text message: longer than the read limit, if one is set, or not the JSON
    of an envelope, it is a read error. *)
Definition readLimit : Z := Z.shiftl 1 20.
Definition on_message (limit : option Z) (msg : list byte) : incoming :=
  if match limit with Some n => n <? Z.of_nat (length msg) | None => false end then Broken
  else match ReadJSON msg with Some env => Frame env | None => Broken end.

(** [ReadJSON] under a deadline, pongs extending it to [t + extend]: the frame
    or an error, when it returns, the deadline then, and what is still to come. *)
Fixpoint read_frame (extend : Z → Z → Z) (deadline : Z) (l : list (Z * incoming)) :
    option Envelope * Z * Z * list (Z * incoming) :=
  match l with
  | [] => (None, deadline, deadline, [])
  | (t, x) :: l' =>
      if deadline <=? t then (None, deadline, deadline, l)
      else match x with
           | Pong => read_frame extend (extend t deadline) l'
           | Frame env => (Some env, t, deadline, l')
           | Broken => (None, t, deadline, l')
           end
  end.

(** During enrollment no pong handler is set: the deadline stays. *)
Definition enroll_extend (t deadline : Z) : Z := deadline.
Definition loop_extend (t deadline : Z) : Z := t + readTimeout.

(** The two frames of [enroll], and when it has read them: the second one is
    under the deadline set for the first. *)
Definition enroll_reads (start : Z) (l : list (Z * incoming)) :
    option Envelope * option Envelope * Z * list (Z * incoming) :=
  let '(hello, t1, d, l1) := read_frame enroll_extend (start + enrollTimeout) l in
  match hello with
  | None => (None, None, t1, l1)
  | Some _ =>
      let '(auth, t2, _, l2) := read_frame enroll_extend d l1 in
      (hello, auth, t2, l2)
  end.

(** The frames of [agentReadLoop], and when it returns: the deadline is moved
    after each of them. *)
Fixpoint loop_frames (fuel : nat) (deadline : Z) (l : list (Z * incoming)) : list Envelope * Z :=
  match fuel with
  | O => ([], deadline)
  | S fuel' =>
      match read_frame loop_extend deadline l with
      | (Some env, t, _, l') =>
          let '(envs, stop) := loop_frames fuel' (t + readTimeout) l' in (env :: envs, stop)
      | (None, t, _, _) => ([], t)
      end
  end.
Definition timed_loop (start : Z) (l : list (Z * incoming)) : list Envelope * Z :=
  loop_frames (S (length l)) (start + readTimeout) l.

(** [pinger]: a ping at every tick until [stop] closes or a write fails
    ([ok k]: the [k]th write succeeds). *)
Fixpoint pinger (n : nat) (k : nat) (start stop : Z) (ok : nat → bool) : list Z :=
  match n with
  | O => []
  | S n' =>
      let t := start + Z.of_nat (S k) * pingInterval in
      if stop <=? t then []
      else t :: (if ok k then pinger n' (S k) start stop ok else [])
  end.

(** [handleAgent] on what arrives: what it does, and when it is done.  [lag] is
    the time from the last frame of the enrollment to the read loop (two
    writes, the signature checks, [bind]). *)
Definition timed_agent {B2 : Blake2b} {E : Edwards25519} (start : Z) (rnd : list byte + error)
    (werr : option error) (lag : Z) (l : list (Z * incoming)) : res (list action) * Z :=
  let '(hello, auth, t, rest) := enroll_reads start l in
  let '(envs, stop) :=
    match (enroll hello rnd werr auth).2 with
    | Ok _ => timed_loop (t + lag) rest
    | _ => ([], t)
    end in
  (handleAgent true hello rnd werr auth ((Some <$> envs) ++ [None]), stop).

(** ** The vocabulary of the theorems *)

Fixpoint frames_of (l : list (Z * incoming)) : list Envelope :=
  match l with
  | [] => []
  | (_, Frame env) :: l' => env :: frames_of l'
  | _ :: l' => frames_of l'
  end.

(** When the peer was last heard. *)
Fixpoint heard (start : Z) (l : list (Z * incoming)) : Z :=
  match l with [] => start | (t, _) :: l' => heard t l' end.

(** No silence of [readTimeout], nothing broken. *)
Fixpoint steady (start : Z) (l : list (Z * incoming)) : Prop :=
  match l with
  | [] => True
  | (t, x) :: l' => t < start + readTimeout ∧ x ≠ Broken ∧ steady t l'
  end.

(** Times do not go backwards. *)
Fixpoint ordered (start : Z) (l : list (Z * incoming)) : Prop :=
  match l with [] => True | (t, _) :: l' => start ≤ t ∧ ordered t l' end.

(** Why the loop ends at [stop]: a silence of [readTimeout], or a read error
    in time. *)
Definition ended (last stop : Z) (rest : list (Z * incoming)) : Prop :=
  (stop = last + readTimeout ∧ match rest with [] => True | (t, _) :: _ => stop ≤ t end)
  ∨ ∃ rest', rest = (stop, Broken) :: rest' ∧ stop < last + readTimeout.

(** ** Lemmas *)

Lemma heard_app start p l : heard start (p ++ l) = heard (heard start p) l.
Proof. revert start. induction p as [|[t x] p IH]; intros start; cbn; [done|apply IH]. Qed.

Lemma ordered_app start p l : ordered start (p ++ l) ↔ ordered start p ∧ ordered (heard start p) l.
Proof.
  revert start. induction p as [|[t x] p IH]; intros start; cbn [ordered app heard]; [tauto|].
  rewrite IH. tauto.
Qed.

Lemma ordered_bounds start l t x : ordered start l → (t, x) ∈ l → start ≤ t ≤ heard start l.
Proof.
  revert start. induction l as [|[t' x'] l IH]; intros start Ho Hin; [by apply elem_of_nil in Hin|].
  destruct Ho as [Hle Ho]. cbn [heard]. assert (Hend : t' ≤ heard t' l).
  { clear -Ho. revert t' Ho. induction l as [|[u y] l IH]; intros t' Ho; cbn in *; [lia|].
    destruct Ho as [? Ho]. specialize (IH _ Ho). lia. }
  apply elem_of_cons in Hin as [Hin|Hin]; [simplify_eq; lia|].
  specialize (IH _ Ho Hin). lia.
Qed.

Lemma ordered_heard start l : ordered start l → start ≤ heard start l.
Proof.
  destruct l as [|[t x] l]; intros Ho; [cbn; lia|].
  apply (ordered_bounds _ _ t x) in Ho; [lia|left].
Qed.

(** One read of the loop: the pongs it consumes, then a frame or the end. *)
Lemma loop_read start l :
  match read_frame loop_extend (start + readTimeout) l with
  | (Some env, t, _, l') => ∃ p, l = p ++ (t, Frame env) :: l' ∧ frames_of p = [] ∧
      steady start p ∧ t < heard start p + readTimeout
  | (None, stop, _, _) => ∃ p rest, l = p ++ rest ∧ frames_of p = [] ∧
      steady start p ∧ ended (heard start p) stop rest
  end.
Proof.
  revert start. induction l as [|[t x] l IH]; intros start; cbn [read_frame].
  - exists [], []. split_and!; [done..|]. by left.
  - destruct (Z.leb_spec (start + readTimeout) t) as [Hl|Hl].
    + exists [], ((t, x) :: l). split_and!; [done..|]. by left.
    + destruct x as [|env|].
      * unfold loop_extend at 2. specialize (IH t).
        destruct (read_frame loop_extend (t + readTimeout) l) as [[[[env|] t'] d] l'].
        -- destruct IH as (p & -> & Hf & Hs & Ht). exists ((t, Pong) :: p). by split_and!.
        -- destruct IH as (p & rest & -> & Hf & Hs & He). exists ((t, Pong) :: p), rest. by split_and!.
      * exists []. by split_and!.
      * exists [], ((t, Broken) :: l). split_and!; [done..|]. right. by exists l.
Qed.

Lemma frames_of_app p l : frames_of (p ++ l) = frames_of p ++ frames_of l.
Proof. induction p as [|[t []] p IH]; cbn; [done|done| |done]. by rewrite IH. Qed.

Lemma steady_app start p l : steady start (p ++ l) ↔ steady start p ∧ steady (heard start p) l.
Proof.
  revert start. induction p as [|[t x] p IH]; intros start; cbn [steady app heard]; [tauto|].
  rewrite IH. tauto.
Qed.

(** Enough fuel: one unit per message and one for the failing read. *)
Lemma loop_frames_spec fuel start l :
  (length l < fuel)%nat →
  ∃ p rest, l = p ++ rest ∧ steady start p ∧
    (loop_frames fuel (start + readTimeout) l).1 = frames_of p ∧
    ended (heard start p) (loop_frames fuel (start + readTimeout) l).2 rest.
Proof.
  revert start l. induction fuel as [|fuel IH]; intros start l Hf; [lia|]. cbn [loop_frames].
  pose proof (loop_read start l) as Hr.
  destruct (read_frame loop_extend (start + readTimeout) l) as [[[[env|] t] d] l'].
  - destruct Hr as (p & -> & Hp & Hs & Ht). rewrite length_app in Hf. cbn in Hf.
    destruct (IH t l' ltac:(lia)) as (p' & rest & -> & Hs' & He & Hend).
    exists (p ++ (t, Frame env) :: p'), rest.
    destruct (loop_frames fuel (t + readTimeout) (p' ++ rest)) as [envs stop]. cbn [fst snd] in *.
    rewrite <- app_assoc, steady_app, frames_of_app, heard_app, Hp. cbn [steady heard frames_of app].
    split_and!; [done|done|done|done|done|by f_equal|done].
  - destruct Hr as (p & rest & -> & Hp & Hs & He). exists p, rest. by split_and!.
Qed.

Lemma timed_loop_spec start l :
  ∃ p rest, l = p ++ rest ∧ steady start p ∧ (timed_loop start l).1 = frames_of p ∧
    ended (heard start p) (timed_loop start l).2 rest.
Proof. apply loop_frames_spec. lia. Qed.

Lemma elem_of_pinger n k start stop t :
  t ∈ pinger n k start stop (λ _, true) ↔
  ∃ j, (k ≤ j < k + n)%nat ∧ t = start + Z.of_nat (S j) * pingInterval ∧ t < stop.
Proof.
  revert k. induction n as [|n IH]; intros k; cbn [pinger].
  - rewrite elem_of_nil. split; [done|]. intros (j & ? & _). lia.
  - cbv zeta. destruct (Z.leb_spec stop (start + Z.of_nat (S k) * pingInterval)) as [Hle|Hlt].
    + rewrite elem_of_nil. split; [done|]. intros (j & Hj & -> & Hs). unfold pingInterval, Second in *. lia.
    + rewrite elem_of_cons, IH. split.
      * intros [->|(j & Hj & -> & Hs)]; [exists k|exists j]; split_and!; (done || lia).
      * intros (j & Hj & -> & Hs). destruct (decide (j = k)) as [->|]; [by left|].
        right. exists j. split_and!; (done || lia).
Qed.

Lemma ended_later last stop rest : ended last stop rest → ordered last rest → Forall (λ m, stop ≤ m.1) rest.
Proof.
  intros Hend Ho. destruct rest as [|[t x] rest]; [done|].
  assert (stop ≤ t) as Hst. { destruct Hend as [[_ ?]|(? & ? & _)]; simplify_eq; lia. }
  constructor; [done|]. destruct Ho as [_ Ho]. apply Forall_forall. intros [t' x'] Hin.
  apply (ordered_bounds _ _ _ _ Ho) in Hin. cbn. lia.
Qed.

(** The peer whose pongs answer every ping within [d]: no ping ever finds the
    peer silent for [readTimeout]. *)
Lemma answered_pings n start d l :
  0 ≤ d < readTimeout - pingInterval → ordered start l → Broken ∉ l.*2 →
  let stop := (timed_loop start l).2 in
  (∀ t, t ∈ pinger n 0 start stop (λ _, true) → ∃ t', (t', Pong) ∈ l ∧ t ≤ t' ≤ t + d) →
  start + Z.of_nat n * pingInterval + readTimeout ≤ stop.
Proof.
  intros Hd Ho Hb stop Hans. destruct (timed_loop_spec start l) as (p & rest & Hl & Hs & _ & Hend).
  change (timed_loop start l).2 with stop in Hend. clearbody stop.
  assert (stop = heard start p + readTimeout) as Hstop.
  { destruct Hend as [[? _]|(rest' & -> & _)]; [done|]. destruct Hb. rewrite Hl, fmap_app. set_solver. }
  subst l. apply ordered_app in Ho as [Hop Hor]. pose proof (ended_later _ _ _ Hend Hor) as Hlate.
  pose proof (ordered_heard _ _ Hop) as Hh.
  destruct (decide (start + Z.of_nat n * pingInterval ≤ heard start p)) as [|Hlt]; [lia|]. exfalso.
  set (j := Z.to_nat ((heard start p - start) / pingInterval)).
  unfold readTimeout, pingInterval, Second in *.
  assert (Hj : Z.of_nat j = (heard start p - start) / (25 * 1000000000))
    by (unfold j; rewrite Z2Nat.id; [done|apply Z.div_pos; lia]).
  pose proof (Z.div_mod (heard start p - start) (25 * 1000000000) ltac:(lia)) as Hdm.
  pose proof (Z.mod_pos_bound (heard start p - start) (25 * 1000000000) ltac:(lia)) as Hmod.
  rewrite <- Hj in Hdm. clearbody j.
  destruct (Hans (start + Z.of_nat (S j) * (25 * 1000000000))) as (t' & Hin & Ht').
  - apply elem_of_pinger. exists j. unfold pingInterval, Second.
    split; [lia|]. split; [reflexivity|lia].
  - apply elem_of_app in Hin as [Hin|Hin].
    + apply (ordered_bounds _ _ _ _ Hop) in Hin. lia.
    + rewrite Forall_forall in Hlate. apply Hlate in Hin. cbn in Hin. lia.
Qed.

Lemma pinger_length n k start stop :
  start + Z.of_nat (k + n) * pingInterval < stop → length (pinger n k start stop (λ _, true)) = n.
Proof.
  revert k. induction n as [|n IH]; intros k Hlt; cbn [pinger]; [done|]. cbv zeta.
  unfold pingInterval, Second in *. destruct (Z.leb_spec stop (start + Z.of_nat (S k) * (25 * 1000000000))); [lia|].
  cbn. f_equal. apply IH. lia.
Qed.

Lemma enroll_read deadline l :
  match read_frame enroll_extend deadline l with
  | (_, t, d, l') => t ≤ deadline ∧ d = deadline ∧ ∃ p, l = p ++ l'
  end.
Proof.
  induction l as [|[t x] l IH]; cbn [read_frame]; [split_and!; [lia|done|by exists []]|].
  destruct (Z.leb_spec deadline t) as [Hle|Hlt]; [split_and!; [lia|done|by exists []]|].
  destruct x as [|env|].
  - change (enroll_extend t deadline) with deadline. destruct (read_frame enroll_extend deadline l) as [[[r t'] d] l'].
    destruct IH as (? & ? & p & ->). split_and!; [done..|]. by exists ((t, Pong) :: p).
  - split_and!; [lia|done|by exists [(t, Frame env)]].
  - split_and!; [lia|done|by exists [(t, Broken)]].
Qed.

Lemma enroll_reads_spec start l :
  match enroll_reads start l with
  | (_, _, t, l') => t ≤ start + enrollTimeout ∧ ∃ p, l = p ++ l'
  end.
Proof.
  unfold enroll_reads. pose proof (enroll_read (start + enrollTimeout) l) as H1.
  destruct (read_frame enroll_extend (start + enrollTimeout) l) as [[[[hello|] t1] d] l1];
    destruct H1 as (Ht & -> & p & ->); [|split; [done|by exists p]].
  pose proof (enroll_read (start + enrollTimeout) l1) as H2.
  destruct (read_frame enroll_extend (start + enrollTimeout) l1) as [[[auth t2] d2] l2].
  destruct H2 as (Ht2 & _ & p2 & ->). split; [done|]. exists (p ++ p2). by rewrite app_assoc.
Qed.

(** The loop does not outlive the last message by more than [readTimeout]. *)
Lemma timed_loop_stop start last l :
  (∀ t x, (t, x) ∈ l → t ≤ last) → (timed_loop start l).2 ≤ Z.max start last + readTimeout.
Proof.
  intros Hl. destruct (timed_loop_spec start l) as (p & rest & -> & _ & _ & Hend).
  assert (heard start p ≤ Z.max start last) as Hh.
  { clear Hend. revert start. induction p as [|[t x] p IH]; intros start; cbn; [lia|].
    assert (t ≤ last) by (apply (Hl t x); left).
    specialize (IH ltac:(intros; apply Hl with x0; by right) t). lia. }
  destruct Hend as [[-> _]|(? & _ & ?)]; lia.
Qed.

(** ** Properties *)

(** C20: the read loop of a connection always ends, and exactly when the
    deadlines say: it handles, in order, the frames of the longest start of
    what arrives in which no two messages (frames or pongs) are 60 seconds
    apart; it ends 60 seconds after the last of them, or at a close frame,
    invalid JSON or network error that comes before.  A peer that falls silent
    is dropped after 60 seconds, whatever it did before. *)
Theorem silence_ends_the_loop start l :
  let '(envs, stop) := timed_loop start l in
  ∃ p rest, l = p ++ rest ∧ steady start p ∧ envs = frames_of p ∧
    ((stop = heard start p + readTimeout ∧ (rest = [] ∨ ∃ t x rest', rest = (t, x) :: rest' ∧ stop ≤ t)) ∨
     ∃ rest', rest = (stop, Broken) :: rest' ∧ stop < heard start p + readTimeout).
Proof.
  destruct (timed_loop_spec start l) as (p & rest & Hl & Hs & He & Hend).
  destruct (timed_loop start l) as [envs stop]. cbn [fst snd] in *. exists p, rest. split_and!; [done..|].
  destruct Hend as [[-> Hr]|Hb]; [left|by right]. split; [done|].
  destruct rest as [|[t x] rest]; [by left|right; by exists t, x, rest].
Qed.

(** C21: the keepalive keeps live peers: if the peer answers every ping the
    pinger sends before the loop ends within [d] of it, [d] under 35 seconds,
    and the socket does not break, then for every [n] the pinger gets to its
    [n]th ping and the loop is still running then, and for 60 seconds more;
    a device that has nothing to say is not disconnected. *)
Theorem answered_pings_keep_alive n start d l :
  0 ≤ d < readTimeout - pingInterval → ordered start l → Broken ∉ l.*2 →
  (∀ t, t ∈ pinger n 0 start (timed_loop start l).2 (λ _, true) → ∃ t', (t', Pong) ∈ l ∧ t ≤ t' ≤ t + d) →
  length (pinger n 0 start (timed_loop start l).2 (λ _, true)) = n ∧
  start + Z.of_nat n * pingInterval + readTimeout ≤ (timed_loop start l).2.
Proof.
  intros Hd Ho Hb Hans. pose proof (answered_pings n start d l Hd Ho Hb Hans) as Hle.
  split; [|done]. apply pinger_length. unfold readTimeout, Second in *. lia.
Qed.

(** C22: no connection is kept for ever: with a working random source [handleAgent]
    finishes, closing the socket, within 15 seconds when nobody enrolls, and
    otherwise, after unbinding the device it bound, at most 60 seconds after
    the peer was last heard or the read loop began, whichever is later. The
    read loop begins within the 15 seconds and the time [lag] that the welcome
    takes to be written; [last] bounds the times of all that arrives. *)
Theorem connection_released {B2 : Blake2b} {B2L : Blake2bLaws} {E : Edwards25519} {EL : Edwards25519Laws}
    start rnd werr lag last l :
  0 ≤ lag → (∀ t x, (t, x) ∈ l → t ≤ last) →
  ∃ acts stop, timed_agent start (inl rnd) werr lag l = (Ok (acts ++ [AClose]), stop) ∧
    ((Forall (λ x, ∀ b, x ≠ ABind b) acts ∧ stop ≤ start + enrollTimeout) ∨
     ∃ a pre post, acts = pre ++ [ABind a] ++ post ++ [AUnbind a] ∧
       Forall (λ x, ∀ b, x ≠ ABind b ∧ x ≠ AUnbind b) (pre ++ post) ∧
       stop ≤ Z.max (start + enrollTimeout + lag) last + readTimeout).
Proof.
  intros Hlag Hlast. unfold timed_agent. pose proof (enroll_reads_spec start l) as Hr.
  destruct (enroll_reads start l) as [[[hello auth] t] rest]. destruct Hr as (Ht & p & ->).
  pose proof (enroll_spec hello rnd werr auth) as Htot. pose proof (enroll_shape hello rnd werr auth) as Hsh.
  unfold handleAgent. cbn [negb].
  destruct (enroll hello (inl rnd) werr auth) as [written [a|err|]] eqn:He; cbn [snd] in *.
  - pose proof (timed_loop_stop (t + lag) last rest
      ltac:(intros u x Hu; apply (Hlast u x), elem_of_app; by right)) as Hs.
    destruct (timed_loop (t + lag) rest) as [envs stop]. cbn [snd] in Hs. subst written.
    set (loop := agentReadLoop ((Some <$> envs) ++ [None])).
    set (welcome := AWrite (welcomeEnv (MkWelcome (accounts a)))).
    set (chal := AWrite (challengeEnv (MkChallenge (take 32 rnd)))).
    exists ([chal] ++ [ABind a] ++ (welcome :: loop) ++ [AUnbind a]), stop.
    split; [by cbn; rewrite <- app_assoc|]. right. exists a, [chal], (welcome :: loop).
    split; [done|]. split; [|lia]. repeat (constructor; [done|]). apply readLoop_no_bind.
  - exists ((AWrite <$> written) ++ [AWrite (errorEnv (Error err))]), t.
    split; [by rewrite <- app_assoc|]. left. split; [|done].
    apply Forall_app. split; [by apply Forall_fmap, Forall_forall|by repeat constructor].
  - done.
Qed.

(** C26: a device gets in, from the bytes it sends: if it holds the keys of the
    accounts it announces, at least one, and its hello and its signatures of
    this connection's nonce, written as JSON from envelopes that JSON keeps as
    they are ([Envelope_ok]: valid UTF-8 above all), come within the 15
    seconds, then [handleAgent] writes the challenge, binds the connection for
    exactly these accounts in the order announced, welcomes it, and serves what
    comes after until the read loop ends; then it unbinds the connection and
    closes the socket. The random source works and the challenge is written. *)
Theorem device_enrolls {B2 : Blake2b} {B2L : Blake2bLaws} {E : Edwards25519} {EL : Edwards25519Laws}
    start t1 t2 lag rnd dev addrs sigs henv aenv hello auth l :
  addrs ≠ [] → Forall (signs_for sigs (take 32 rnd)) addrs →
  Envelope_Type henv = TypeHello → Envelope_Hello henv = Some (MkHello dev addrs) →
  Envelope_Type aenv = TypeAuth → Envelope_Auth aenv = Some (MkAuth sigs) →
  Envelope_ok henv → Envelope_ok aenv → WriteJSON henv = Some hello → WriteJSON aenv = Some auth →
  t1 < start + enrollTimeout → t2 < start + enrollTimeout →
  let '(envs, stop) := timed_loop (t2 + lag) l in
  let a := MkAgentConn dev addrs in
  timed_agent start (inl rnd) None lag ((t1, on_message None hello) :: (t2, on_message None auth) :: l) =
  (Ok ([AWrite (challengeEnv (MkChallenge (take 32 rnd))); ABind a; AWrite (welcomeEnv (MkWelcome addrs))] ++
       agentReadLoop ((Some <$> envs) ++ [None]) ++ [AUnbind a; AClose]), stop).
Proof.
  intros Hne Hs Hht Hh Hat Ha Hhok Haok Hhello Hauth H1 H2.
  assert (Hread : ∀ env t, Envelope_ok env → WriteJSON env = Some t → on_message None t = Frame env).
  { intros env t Hok Ht. unfold on_message. rewrite <- (app_nil_r t). by rewrite (ReadJSON_same env [] t Hok Ht). }
  rewrite (Hread henv hello Hhok Hhello), (Hread aenv auth Haok Hauth).
  unfold timed_agent, enroll_reads. cbn [read_frame].
  destruct (Z.leb_spec (start + enrollTimeout) t1); [lia|]. cbn [read_frame].
  destruct (Z.leb_spec (start + enrollTimeout) t2); [lia|]. cbv iota. unfold handleAgent. cbn [negb].
  rewrite (enroll_accepts dev addrs sigs rnd Hne Hs henv aenv Hht Hh Hat Ha). cbn [snd].
  destruct (timed_loop (t2 + lag) l) as [envs stop]. done.
Qed.

(** ** Witnesses: a device that enrolls at once, sends nothing and answers two
    pings *)

Definition w_pongs : list (Z * incoming) :=
  [(26 * Second, Pong); (51 * Second, Pong)].
Definition w_arrivals : list (Z * incoming) :=
  [(0, Frame w_hello); (Second, Frame w_auth)] ++ w_pongs.

Theorem answered_pings_keep_alive_witness :
  length (pinger 2 0 0 (timed_loop 0 w_pongs).2 (λ _, true)) = 2%nat ∧
  0 + Z.of_nat 2 * pingInterval + readTimeout ≤ (timed_loop 0 w_pongs).2.
Proof.
  apply (answered_pings_keep_alive 2 0 Second w_pongs).
  - vm_compute. by split.
  - vm_compute. by repeat split.
  - cbn. intros Hin. repeat (apply elem_of_cons in Hin as [Hin|Hin]; [discriminate|]). by apply elem_of_nil in Hin.
  - intros t Hin. apply elem_of_pinger in Hin as (j & Hj & -> & _).
    assert (j = 0 ∨ j = 1)%nat as [->| ->] by lia.
    + exists (26 * Second). split; [left|]. vm_compute. by split.
    + exists (51 * Second). split; [right; left|]. vm_compute. by split.
Defined.

Theorem connection_released_witness :
  ∃ acts stop, @timed_agent _ toy25519 0 (inl w_nonce) None Second w_arrivals = (Ok (acts ++ [AClose]), stop) ∧
    ((Forall (λ x, ∀ b, x ≠ ABind b) acts ∧ stop ≤ 0 + enrollTimeout) ∨
     ∃ a pre post, acts = pre ++ [ABind a] ++ post ++ [AUnbind a] ∧
       Forall (λ x, ∀ b, x ≠ ABind b ∧ x ≠ AUnbind b) (pre ++ post) ∧
       stop ≤ Z.max (0 + enrollTimeout + Second) (51 * Second) + readTimeout).
Proof.
  apply (@connection_released _ _ toy25519 toy25519_laws 0 w_nonce None Second (51 * Second) w_arrivals).
  - vm_compute. discriminate.
  - intros t x Hin. unfold w_arrivals, w_pongs in Hin. cbn [app] in Hin. unfold Second in *.
    repeat (apply elem_of_cons in Hin as [Hin|Hin]; [injection Hin as -> ->; lia|]).
    by apply elem_of_nil in Hin.
Defined.


Lemma hello_ok addr :
  ValidString addr = true →
  Envelope_ok (MkEnvelope 2 TypeHello "" (Some (MkHello "dev" [addr])) None None None None None None None None "").
Proof.
  intros Ha. constructor; cbn; try discriminate; [by repeat constructor|by split|].
  intros h [= <-]. by repeat constructor.
Qed.

Lemma auth_ok addr sig :
  ValidString addr = true → ValidString sig = true →
  Envelope_ok (MkEnvelope 2 TypeAuth "" None None (Some (MkAuth {[addr := sig]})) None None None None None None "").
Proof.
  intros Ha Hs. constructor; cbn; try discriminate; [by repeat constructor|by split|].
  intros a [= <-]. by apply map_Forall_singleton.
Qed.

Lemma w_valid : ValidString w_addr && ValidString w_sig = true.
Proof. vm_compute. reflexivity. Qed.

Theorem device_enrolls_witness :
  ∃ hello auth, WriteJSON w_hello = Some hello ∧ WriteJSON w_auth = Some auth ∧
  let '(envs, stop) := timed_loop (Second + Second) w_pongs in
  let a := MkAgentConn "dev" [w_addr] in
  @timed_agent _ toy25519 0 (inl w_nonce) None Second
    ((0, on_message None hello) :: (Second, on_message None auth) :: w_pongs) =
  (Ok ([AWrite (challengeEnv (MkChallenge (take 32 w_nonce))); ABind a; AWrite (welcomeEnv (MkWelcome [w_addr]))] ++
       agentReadLoop ((Some <$> envs) ++ [None]) ++ [AUnbind a; AClose]), stop).
Proof.
  pose proof (proj1 (andb_true_iff _ _) w_valid) as [Hva Hvs].
  pose proof (hello_ok w_addr Hva) as Hh. pose proof (auth_ok w_addr w_sig Hva Hvs) as Ha.
  destruct (frames_writable w_hello) as [hello Hhello]; [split; [reflexivity|split; [reflexivity|discriminate]]|].
  destruct (frames_writable w_auth) as [auth Hauth]; [split; [reflexivity|split; [reflexivity|discriminate]]|].
  exists hello, auth. split; [exact Hhello|]. split; [exact Hauth|].
  apply (@device_enrolls _ _ toy25519 toy25519_laws 0 0 Second Second w_nonce "dev" [w_addr] w_sigs w_hello w_auth
    hello auth w_pongs); first [exact Hh|exact Ha|exact Hhello|exact Hauth|exact w_signs|reflexivity|discriminate].
Defined.
