(* ===== verification/SystemLive.v ===== *)
(** * Every request that waits for a device is answered

    In every state the relay can reach, a handler that has called the hub can
    be driven to its response by steps of its own call alone, the context's
    deadline passing if no device answers. *)

From S2P Require Import Prelude GoStd Hash Blake2bRef Account Edwards Keys Sign Protocol Utf8.
From S2P Require Import Float RateLimit Hub HubProps HubTasks Agent Store MemStore StoreProps ControlOps ControlSteps Api ApiProps.
From S2P Require Import System SystemProps.

(** ** The hub's calls never panic *)

Definition outcome_ok (tk : task) : Prop :=
  match tk with
  | ReqCleanup _ _ _ out | ReqWithdrawStart _ _ out | ReqWithdraw _ _ _ out | ReqDone _ out => out ≠ Panic
  | QryCleanup _ _ out | QryDone _ out => out ≠ Panic
  | _ => True
  end.

Definition outcomes_ok (s : hstate) : Prop := map_Forall (λ _, outcome_ok) (tasks s).

Lemma outcomes_goto t tk s s' :
  outcomes_ok s → outcome_ok tk → tasks s' = tasks s → outcomes_ok (goto t tk s').
Proof. intros Hs Htk Heq. unfold outcomes_ok. cbn. rewrite Heq. by apply map_Forall_insert_2. Qed.

Lemma outcomes_run t tk ok s s' :
  outcomes_ok s → outcome_ok tk → run_task t tk ok s = Some s' → outcomes_ok s'.
Proof.
  intros Hs Htk. destruct tk; cbn [run_task]; rewrite ?devicesForAccount_eq; try done;
    repeat case_match; try done; intros [= <-]; try (apply (outcomes_goto t _ s); [done| |done]);
    try done; try (by case_bool_decide); try (by destruct ok).
  all: apply (outcomes_goto t _ s); [done|done|]; first [by apply tasks_writeFrame|by apply tasks_try_send].
Qed.

Lemma outcomes_step l s s' : outcomes_ok s → step l s = Some s' → outcomes_ok s'.
Proof.
  intros Hs. destruct l as [c a|c|t acc req|t acc q id|t r|t id qr|t ok|t|t e]; cbn [step].
  - case_guard; [|done]. by intros [= <-].
  - destruct (conns s !! c); [|done]. by intros [= <-].
  - case_guard; [|done]. rewrite devicesForAccount_eq. intros [= <-].
    apply (outcomes_goto t _ s); [done|by case_bool_decide|done].
  - case_guard; [|done]. rewrite devicesForAccount_eq. intros [= <-].
    apply (outcomes_goto t _ s); [done|by case_bool_decide|done].
  - case_guard; [|done]. intros [= <-]. apply (outcomes_goto t _ s); [done|by case_match|done].
  - case_guard; [|done]. intros [= <-]. apply (outcomes_goto t _ s); [done|by case_match|done].
  - destruct (tasks s !! t) as [tk|] eqn:Ht; [|done]. apply outcomes_run; [done|by apply (Hs t)].
  - repeat (case_match; try done); intros [= <-]; by apply (outcomes_goto t _ s).
  - case_guard; [|done]. cbn. repeat (case_match; try done); intros [= <-]; by apply (outcomes_goto t _ s).
Qed.

Lemma outcomes_reachable s : reachable s → outcomes_ok s.
Proof. induction 1 as [|s l s' _ IH Hs]; [apply map_Forall_empty|by eapply outcomes_step]. Qed.

#[export] Instance call_done_dec tk : Decision (call_done tk).
Proof. destruct tk; cbn; apply _. Defined.

Section live.
Context {B2 : Blake2b} {B2L : Blake2bLaws} {E : Edwards25519} {EL : Edwards25519Laws}.
Context {S : Type} {St : Store S} {L : StoreLaws S}.
Context (other : httpRequest → response) (Hother : ∀ r, plain (payload_of (other r))).
Context (sp0 : store_spec).

Abbreviation reached := (rreachable (S:=S) other sp0).

(** A step of handler [h]'s own call, or its return. *)
Definition own_event (h : nat) (e : event) : Prop :=
  match e with
  | ERun t _ | ETimeout t DeadlineExceeded | EAnswer t => t = h
  | _ => False
  end.

Lemma own_no_write h evs : Forall (own_event h) evs → forallb no_write evs = true.
Proof. induction 1 as [|e evs He _ IH]; [done|]. by destruct e. Qed.

(** A call in flight runs to its end. *)
Lemma call_runs h (s : relay S) tk i :
  tasks (hub s) !! h = Some tk → task_id tk = Some i →
  ∃ evs hb tk', Forall (own_event h) evs ∧ rrun other evs s = Some (set_hub hb s) ∧
    tasks hb !! h = Some tk' ∧ task_id tk' = Some i ∧ call_done tk'.
Proof.
  remember (rank tk) as rk eqn:Hrk. revert s tk Hrk.
  induction rk as [rk IH] using (well_founded_induction rank_lt_wf). intros s tk -> Ht Hi.
  destruct (decide (call_done tk)) as [Hd|Hd].
  { exists [], (hub s), tk. by split_and!; [constructor|destruct s| | |]. }
  assert (Hl : ∃ l e hb, own_event h e ∧ rstep other e s = Some (set_hub hb s) ∧ step l (hub s) = Some hb ∧
      label_task l = Some h).
  { destruct (unfinished_enabled (hub s) h tk Ht Hd) as [Hr|[hb Hb]].
    - destruct (Hr true) as [hb Hb]. exists (LRun h true), (ERun h true), hb.
      cbn [rstep]. unfold hub_step. by rewrite Hb.
    - exists (LCtx h DeadlineExceeded), (ETimeout h DeadlineExceeded), hb.
      cbn [rstep]. unfold hub_step. by rewrite Hb. }
  destruct Hl as (l & e & hb & He & Hst & Hb & Hlt).
  destruct (own_step l (hub s) hb h tk Hb Hlt Ht) as (tk1 & Ht1 & Hrank).
  destruct (step_keeps_id l (hub s) hb h tk i Hb Ht Hi) as (tk1' & Ht1' & Hi1). rewrite Ht1 in Ht1'. simplify_eq.
  destruct (IH (rank tk1') Hrank (set_hub hb s) tk1' eq_refl Ht1 Hi1) as (evs & hb' & tk' & Hevs & Hrun & H).
  exists (e :: evs), hb', tk'. split; [by constructor|]. split; [|done]. cbn [rrun]. rewrite Hst. exact Hrun.
Qed.

(** What the finished call gives the handler. *)
Lemma finished_returns (s : relay S) h w tk i :
  outcomes_ok (hub s) → tasks (hub s) !! h = Some tk → task_id tk = Some i → call_done tk →
  ∃ tx q, tx ≠ Panic ∧ q ≠ Panic ∧
    match tk with
    | ReqDone _ out => Some (with_answer out (Err Canceled) w)
    | QryDone _ out => Some (with_answer (Err Canceled) out w)
    | _ => None
    end = Some (with_answer tx q w).
Proof.
  intros Hs Ht Hi Hd. specialize (Hs h tk Ht). destruct tk; try done; cbn in Hs.
  - by exists out, (Err Canceled).
  - by exists (Err Canceled), out.
Qed.

(** The checks that let the request through let the answer through. *)
Lemma answer_total w snap rl r tx q resp0 rl0 d :
  routes other (unanswered w) snap.1 snap.2 rl r = Ok (resp0, rl0, Some d) → tx ≠ Panic → q ≠ Panic →
  ∃ resp rl' sent, routes other (with_answer tx q w) snap.1 snap.2 rl r = Ok (resp, rl', sent).
Proof.
  intros Hr Htx Hq. destruct (routes_shape other Hother w snap.1 snap.2 rl r) as (rl1 & sent1 & Hsh).
  specialize (Hsh tx q). cbn beta in Hsh.
  destruct (routes other (with_answer tx q w) snap.1 snap.2 rl r) as [[[resp rl'] sent]|e|]; [eauto| |];
    destruct Hsh as [?|[?|Hn]]; try done; by destruct (Hn (Err Canceled) (Err Canceled) _ Hr).
Qed.

(** C4: every HTTP request the relay has put to a device can be answered: from
    every reachable state, however devices, other requests and the store have
    interleaved so far, a handler waiting in the hub gets to its response by a
    finite number of steps of its own call (each possible at once, the deadline
    of its context included) and without a panic; the state it answers in is
    again one the relay reaches, so that what is proved of responses holds of
    this one. (Runs where a key is registered with the hash of a key of another
    id are left out: there the in-memory store no longer keeps its contract.) *)
Theorem waiting_requests_answered s h r snap w rl d :
  reached s → handlers s !! h = Some (Waiting r snap w rl d) →
  ∃ evs s' resp, Forall (own_event h) evs ∧ rrun other evs s = Some s' ∧ reached s' ∧
    handlers s' !! h = Some Answered ∧ responses s' = responses s ++ [(h, r, resp)].
Proof.
  intros Hs Hh. destruct (au_handlers other sp0 s (authority_reachable other Hother sp0 s Hs) h _ Hh)
    as [[_ (resp0 & rl0 & Hr0)] (tk & i & Ht & Hi & _)].
  destruct (call_runs h s tk i Ht Hi) as (evs & hb & tk' & Hevs & Hrun & Ht' & Hi' & Hd).
  assert (Hs1 : reached (set_hub hb s)).
  { eapply rrun_reachable; [exact Hs|by eapply own_no_write|exact Hrun]. }
  assert (Hout : outcomes_ok (hub (set_hub hb s))).
  { eapply outcomes_reachable, ow_hub, ownership_reachable; exact Hs1. }
  destruct (finished_returns (set_hub hb s) h w tk' i Hout Ht' Hi' Hd) as (tx & q & Htx & Hq & Hfin).
  destruct (answer_total w snap rl r tx q resp0 rl0 d Hr0 Htx Hq) as (resp & rl' & sent & Hr).
  assert (Hans : rstep other (EAnswer h) (set_hub hb s) = Some (respond h r resp (set_hub hb s))).
  { cbn [rstep set_hub handlers hub]. rewrite Hh, Ht', Hfin. cbn [mbind option_bind]. by rewrite Hr. }
  exists (evs ++ [EAnswer h]), (respond h r resp (set_hub hb s)), resp.
  split; [apply Forall_app; split; [done|by constructor]|].
  split; [|split; [|split; [apply lookup_insert_eq|done]]].
  - rewrite rrun_app, Hrun. cbn [mbind option_bind rrun]. by rewrite Hans.
  - eapply rreach_next; [exact Hs1|]. by exists (EAnswer h).
Qed.
End live.

(** ** Witness: the posted send of [SystemProps], still waiting for its device *)

#[local] Existing Instance toy25519.
#[local] Existing Instance toy25519_laws.

Theorem waiting_requests_answered_witness :
  ∃ s r snap w rl d, handlers s !! 7 = Some (Waiting r snap w rl d) ∧
  ∃ evs s' resp, Forall (own_event 7) evs ∧ rrun (S:=memStore) no_page evs s = Some s' ∧
    rreachable no_page empty_spec s' ∧
    handlers s' !! 7 = Some Answered ∧ responses s' = responses s ++ [(7, r, resp)].
Proof.
  assert (Hw : (λ s : relay memStore, match handlers s !! 7 with Some (Waiting _ _ _ _ _) => true | _ => false end) <$>
      rrun no_page (first_events ++ register_events ++ ask_events) (newRelay newMemStore) = Some true)
    by (vm_compute; reflexivity).
  destruct (rrun no_page (first_events ++ register_events ++ ask_events) (newRelay newMemStore))
    as [s|] eqn:Hrun; [|discriminate Hw].
  pose proof (history_reached _ _ _ _ (exchange ask_events s eq_refl Hrun)) as Hs. injection Hw as Hw.
  destruct (handlers s !! 7) as [[| | | |r snap w rl d| |]|] eqn:Hh; try discriminate Hw.
  exists s, r, snap, w, rl, d. split; [exact Hh|].
  exact (waiting_requests_answered no_page no_page_ok empty_spec s 7 r snap w rl d Hs Hh).
Defined.
