(* ===== verification/SystemControl.v ===== *)
(** * Control messages in the running relay

    The store calls of control messages interleave with one another and with
    everything else ([System]).  Whatever the order, a device is only told
    about its own accounts ([discreet]), and each message is answered. *)

From S2P Require Import Prelude GoStd Hash Blake2bRef Account Edwards Keys Sign Sha256 Protocol Utf8.
From S2P Require Import Float RateLimit Hub HubProps HubTasks Agent Store MemStore StoreProps ControlOps ControlSteps.
From S2P Require Import Api ApiProps System SystemProps.

(** ** How long a program runs, and what it answers *)

(** At most [n] store calls, whatever they return, then a reply in [P]. *)
Fixpoint answers (P : Control → Prop) (n : nat) (p : program) : Prop :=
  match p, n with
  | Reply r, _ => P r
  | _, 0 => False
  | Write _ k, S n => ∀ e, answers P n (k e)
  | ReadPolicy _ k, S n => ∀ r, answers P n (k r)
  end.

Lemma answers_le P n m p : n ≤ m → answers P n p → answers P m p.
Proof.
  revert m p. induction n as [|n IH]; intros m p Hm.
  - destruct p; [by destruct m|done..].
  - destruct m as [|m]; [lia|]. destruct p as [r|op k|acc k]; cbn; [done| |]; intros H x; apply IH; auto with lia.
Qed.

Lemma answers_search P n op accs found missing :
  answers P n found → answers P n missing → answers P (length accs + n) (search op accs found missing).
Proof.
  intros Hf Hm. induction accs as [|acc accs IH]; [done|]. cbn. intros [e|]; [done|].
  apply (answers_le P n); [lia|done].
Qed.

(** The reply to a control message carries its correlation id. *)
Definition answer_to (c : Control) (r : Control) : Prop :=
  Control_Op r = "result" ∧ Control_CorrID r = Control_CorrID c.

Lemma control_program_answers accs c : answers (answer_to c) (length accs + 2) (control_program accs c).
Proof.
  apply (answers_le _ (length accs + 2)); [done|]. unfold control_program. cbv zeta.
  destruct (contains accs (Control_Account c)); cbn [negb]; repeat case_bool_decide;
    try (by destruct accs); try (by apply answers_search; repeat split);
    apply (answers_le _ 2); try lia.
  - intros [e|]; [done|]. by intros e.
  - by intros [e|].
  - by intros [e|].
  - by intros [e|].
  - by intros [[[v b] []]|e|].
Qed.

Section control.
Context {B2 : Blake2b} {B2L : Blake2bLaws} {E : Edwards25519} {EL : Edwards25519Laws}.
Context {S : Type} {St : Store S} {L : StoreLaws S}.
Context (other : httpRequest → response) (sp0 : store_spec).

Abbreviation reached := (rreachable (S:=S) other sp0).
Abbreviation next := (rnext (S:=S) other).

(** ** Blobs only go to devices of the account *)

(** The policy [v], [b] was stored for the account at some point. *)
Definition was_policy (s : relay S) (acc : string) (v : Z) (b : list byte) : Prop :=
  ∃ s1 sp, reached s1 ∧ rtc next s1 s ∧ represents (store s1) sp ∧ sp_policy sp !! acc = Some (v, b).

Record discreet (s : relay S) : Prop := {
  di_busy c ctl p : busy s !! c = Some (ctl, p) →
    ∃ a, conns (hub s) !! c = Some a ∧ within (accounts a) (was_policy s) p ∧
         answers (answer_to ctl) (length (accounts a) + 2) p;
  di_replies c ctl r : (c, ctl, r) ∈ replies s →
    answer_to ctl r ∧ ∃ a, conns (hub s) !! c = Some a ∧ reply_within (accounts a) (was_policy s) r;
}.

Lemma was_policy_next s s' acc v b : next s s' → was_policy s acc v b → was_policy s' acc v b.
Proof. intros Hn (s1 & sp & H1 & H2 & H3). exists s1, sp. split; [done|]. split; [by eapply rtc_r|done]. Qed.

(** At most one program and one reply change. *)
Lemma discreet_frame s s' :
  discreet s → next s s' →
  (∀ c a, conns (hub s) !! c = Some a → conns (hub s') !! c = Some a) →
  (∀ c ctl p, busy s' !! c = Some (ctl, p) → busy s !! c = Some (ctl, p) ∨
     ∃ a, conns (hub s') !! c = Some a ∧ within (accounts a) (was_policy s') p ∧
          answers (answer_to ctl) (length (accounts a) + 2) p) →
  (∀ c ctl r, (c, ctl, r) ∈ replies s' → (c, ctl, r) ∈ replies s ∨ busy s !! c = Some (ctl, Reply r)) →
  discreet s'.
Proof.
  intros [Hb Hr] Hn Hc Hb' Hr'.
  assert (Hkeep : ∀ c ctl p, busy s !! c = Some (ctl, p) →
    ∃ a, conns (hub s') !! c = Some a ∧ within (accounts a) (was_policy s') p ∧
         answers (answer_to ctl) (length (accounts a) + 2) p).
  { intros c ctl p (a & Ha & Hp & Hans)%Hb. exists a. split; [by apply Hc|]. split; [|done].
    eapply within_mono; [|done]. intros ???. by apply was_policy_next. }
  split.
  - intros c ctl p [?|?]%Hb'; [by apply Hkeep|done].
  - intros c ctl r [(Hans & a & Ha & Hacc & Hbl)%Hr|(a & Ha & Hp & Hans)%Hkeep]%Hr'.
    + split; [done|]. exists a. split; [by apply Hc|]. split; [done|].
      intros b [? ?]%Hbl. split; [done|]. by eapply was_policy_next.
    + split; [by destruct (length (accounts a) + 2)|]. exists a. split; [done|]. by inversion Hp.
Qed.

(** What a read of the store gives was the policy. *)
Lemma read_was_policy s s' f acc v b :
  reached s → next s s' → GetPolicy f acc (store s) = Ok (v, Some b, true) → was_policy s' acc v b.
Proof.
  intros Hs Hn Hg. destruct (ow_store sp0 s (ownership_reachable other sp0 s Hs)) as (sp & Hr & _).
  exists s, sp. split; [done|]. split; [by apply rtc_once|]. split; [done|].
  destruct (get_law f acc (store s) sp Hr) as [Hsp|(? & ? & _ & He)]; rewrite Hg in *; [|done].
  unfold spec_get in Hsp. destruct (sp_policy sp !! acc) as [[v' bs]|]; [|done].
  destruct Hsp as (blob & [= <- <-] & <-). done.
Qed.

Lemma answers_write P n op k e : answers P n (Write op k) → answers P n (k e).
Proof. destruct n as [|n]; [done|]. intros H. apply (answers_le _ n); [lia|apply H]. Qed.
Lemma answers_read P n acc k r : answers P n (ReadPolicy acc k) → answers P n (k r).
Proof. destruct n as [|n]; [done|]. intros H. apply (answers_le _ n); [lia|apply H]. Qed.

Lemma discreet_effect s s' : reached s → discreet s → next s s' → effect other s s' → discreet s'.
Proof.
  intros Hs Hd Hn He. apply (discreet_frame s); [done|done|..].
  - intros c a Ha. destruct He; try done; try (by eapply step_keeps_conn). by destruct ok.
  - revert Hn. destruct He as [| | | |c a ctl _ Ha|c ctl op k e st f Hb _ _|c ctl acc k f Hb|c ctl r ok Hb| | | | | | | | |];
      intros Hn c' ctl' p; cbn; try (by left).
    + intros [[<- [= <- <-]]|[_ ?]]%lookup_insert_Some; [right|by left]. exists a. split; [done|].
      split; [apply control_program_within|apply control_program_answers].
    + intros [[<- [= <- <-]]|[_ ?]]%lookup_insert_Some; [right|by left].
      destruct (di_busy s Hd c _ _ Hb) as (a & Ha & Hw & Hans). exists a. split; [done|].
      split; [|by eapply answers_write]. inversion Hw as [|? ? _ Hk|]; subst.
      eapply within_mono; [|apply Hk]. intros ???. by apply was_policy_next.
    + intros [[<- [= <- <-]]|[_ ?]]%lookup_insert_Some; [right|by left].
      destruct (di_busy s Hd c _ _ Hb) as (a & Ha & Hw & Hans). exists a. split; [done|].
      split; [|by eapply answers_read]. apply (within_after_read _ _ acc k).
      * eapply within_mono; [|done]. intros ???. by apply was_policy_next.
      * intros v b. by apply (read_was_policy s).
    + destruct ok; intros [_ ?]%lookup_delete_Some; by left.
  - destruct He as [| | | | | | |c ctl r [] Hb| | | | | | | | |]; intros c' ctl' r'; cbn; try (by left).
    intros [?|[= -> -> ->]%list_elem_of_singleton]%elem_of_app; [by left|by right].
Qed.

Lemma discreet_reachable s : reached s → discreet s.
Proof.
  induction 1 as [st Hr|s s' Hs IH Hn]; [|by eapply discreet_effect, rnext_effect].
  split; cbn; [intros c ctl p H; by rewrite lookup_empty in H|by intros c ctl r ?%elem_of_nil].
Qed.

(** C6: confidentiality, end to end: however the store calls of control messages
    interleave, a reply to a message on a connection carries that message's
    correlation id, names no account but one the device proved by a signature,
    and a policy blob in it is one that was stored for that account, with its
    version. (Runs where a key is registered with the hash of a key of another
    id are left out: there the in-memory store no longer keeps its contract.) *)
Theorem replies_to_owner s c ctl r :
  reached s → (c, ctl, r) ∈ replies s →
  Control_CorrID r = Control_CorrID ctl ∧
  (Control_Account r ≠ "" → backed s c (Control_Account r)) ∧
  (∀ b, Control_Blob r = Some b →
     backed s c (Control_Account r) ∧ was_policy s (Control_Account r) (Control_Version r) b).
Proof.
  intros Hs Hin. destruct (di_replies s (discreet_reachable s Hs) c ctl r Hin) as ([_ Hcorr] & a & Ha & Hacc & Hb).
  assert (Hback : Control_Account r ∈ accounts a → backed s c (Control_Account r)).
  { intros ?. apply (ow_conns sp0 s (ownership_reachable other sp0 s Hs)). by exists a. }
  split; [done|]. split.
  - intros Hne. apply Hback. by destruct Hacc.
  - intros b [? ?]%Hb. split; [by apply Hback|done].
Qed.

(** ** Every message is answered *)

(** A step of the handling of the connection's control message. *)
Definition control_event (c : conn) (e : event) : Prop :=
  match e with EStore c' _ | EReply c' _ => c' = c | _ => False end.

Lemma program_runs (P : Control → Prop) n c ctl p s :
  answers P n p → busy s !! c = Some (ctl, p) →
  ∃ evs s' r, Forall (control_event c) evs ∧ length evs ≤ n + 1 ∧ rrun other evs s = Some s' ∧
    busy s' = delete c (busy s) ∧ hub s' = hub s ∧ replies s' = replies s ++ [(c, ctl, r)] ∧ P r.
Proof.
  revert p s. induction n as [|n IH]; intros p s Hp Hb.
  all: destruct p as [r|op k|acc k]; try done.
  1, 2: eexists [EReply c true], _, r; (split; [by repeat constructor|]); (split; [cbn; lia|]);
    (split; [cbn [rrun rstep]; by rewrite Hb|]); by split_and!.
  - destruct (apply_op Runs op (store s)) as [e st] eqn:Hop.
    destruct (IH (k e) (set_busy (<[c := (ctl, k e)]>) (set_store st s)) (Hp e) ltac:(by apply lookup_insert_eq))
      as (evs & s' & r & Hevs & Hlen & Hrun & Hbusy & Hhub & Hrep & HP).
    exists (EStore c Runs :: evs), s', r. split; [by constructor|]. split; [cbn; lia|].
    split; [cbn [rrun rstep]; by rewrite Hb, Hop|]. split; [rewrite Hbusy; apply delete_insert_eq|]. done.
  - set (r0 := GetPolicy Runs acc (store s)).
    destruct (IH (k r0) (set_busy (<[c := (ctl, k r0)]>) s) (Hp r0) ltac:(by apply lookup_insert_eq))
      as (evs & s' & r & Hevs & Hlen & Hrun & Hbusy & Hhub & Hrep & HP).
    exists (EStore c Runs :: evs), s', r. split; [by constructor|]. split; [cbn; lia|].
    split; [cbn [rrun rstep]; by rewrite Hb|]. split; [rewrite Hbusy; apply delete_insert_eq|]. done.
Qed.

(** C23: every control message is answered: in every state the relay reaches
    while it handles one, whatever the other connections did in between, it
    gets to its reply by steps of its own alone, each possible at once: at most
    two store calls more than the device has accounts, then the reply, with the
    message's correlation id; the connection then reads on. *)
Theorem control_answered s c ctl p :
  reached s → busy s !! c = Some (ctl, p) →
  ∃ a evs s' r, conns (hub s) !! c = Some a ∧ Forall (control_event c) evs ∧
    length evs ≤ length (accounts a) + 3 ∧ rrun other evs s = Some s' ∧
    busy s' !! c = None ∧ replies s' = replies s ++ [(c, ctl, r)] ∧
    Control_Op r = "result" ∧ Control_CorrID r = Control_CorrID ctl.
Proof.
  intros Hs Hb. destruct (di_busy s (discreet_reachable s Hs) c ctl p Hb) as (a & Ha & _ & Hans).
  destruct (program_runs _ _ c ctl p s Hans Hb) as (evs & s' & r & Hevs & Hlen & Hrun & Hbusy & _ & Hrep & Hop & Hcorr).
  exists a, evs, s', r. split_and!; try done; [lia|]. rewrite Hbusy. apply lookup_delete_eq.
Qed.
End control.

(** ** Witnesses: the device of [SystemProps] registers its key *)

#[local] Existing Instance toy25519.
#[local] Existing Instance toy25519_laws.

Theorem control_answered_witness :
  ∃ s ctl p, busy s !! (1 : conn) = Some (ctl, p) ∧
  ∃ a evs s' r, conns (hub s) !! (1 : conn) = Some a ∧ Forall (control_event 1) evs ∧
    length evs ≤ length (accounts a) + 3 ∧ rrun (S:=memStore) no_page evs s = Some s' ∧
    busy s' !! (1 : conn) = None ∧ replies s' = replies s ++ [(1 : conn, ctl, r)] ∧
    Control_Op r = "result" ∧ Control_CorrID r = Control_CorrID ctl.
Proof.
  destruct enrolled as (s & ctl & k & r & _ & Hs%history_reached & _ & Hb & _). exists s, ctl. eexists. split; [exact Hb|].
  exact (control_answered no_page empty_spec s 1 ctl _ Hs Hb).
Defined.

Theorem replies_to_owner_witness :
  ∃ s ctl r, (1 : conn, ctl, r) ∈ replies s ∧
  Control_CorrID r = Control_CorrID ctl ∧
  (Control_Account r ≠ "" → backed s 1 (Control_Account r)) ∧
  (∀ b, Control_Blob r = Some b →
     backed s 1 (Control_Account r) ∧ was_policy (S:=memStore) no_page empty_spec s (Control_Account r) (Control_Version r) b).
Proof.
  destruct registered as (s & ctl & r & _ & Hs%history_reached & Hin). exists s, ctl, r. split; [exact Hin|].
  exact (replies_to_owner no_page empty_spec s 1 ctl r Hs Hin).
Defined.
