(* ===== verification/SystemAnswers.v ===== *)
(** * Where answers come from

    The relay never makes up an answer: a result or data in an HTTP response is
    word for word what some enrolled device sent, in a frame that names the
    request or query it answers; and the id a device must name has only been
    shown to devices of the account that was asked. *)

From S2P Require Import Prelude GoStd Hash Blake2bRef Account Edwards Keys Sign Sha256 Rfc3339 Protocol Utf8.
From S2P Require Import Float RateLimit Hub HubProps HubTasks Agent Store MemStore StoreProps ControlOps ControlSteps.
From S2P Require Import Api ApiProps System SystemProps.

(** ** Replies in the hub *)

(** The outcome of a query's call. *)
Definition qsettled (tk : task) : option (string * res QueryResult) :=
  match tk with
  | QryCleanup id _ out | QryDone id out => Some (id, out)
  | _ => None
  end.

(** Every reply the hub holds is in [P]. *)
Record provenance (P : reply → Prop) (s : hstate) : Prop := {
  pv_deliver t ch r : tasks s !! t = Some (Deliver ch r) → P r;
  pv_buf ch q id r : chans s !! ch = Some (MkChan q id (Some r)) → P r;
  pv_tx t tk id r : tasks s !! t = Some tk → settled tk = Some (id, Ok r) → P (RTx r);
  pv_qry t tk id qr : tasks s !! t = Some tk → qsettled tk = Some (id, Ok qr) → P (RQuery id qr);
}.

(** What a task may be at, given [P]. *)
Definition task_from (P : reply → Prop) (tk : task) : Prop :=
  (∀ ch r, tk = Deliver ch r → P r) ∧
  (∀ id r, settled tk = Some (id, Ok r) → P (RTx r)) ∧
  (∀ id qr, qsettled tk = Some (id, Ok qr) → P (RQuery id qr)).

(** A step that moves one task and leaves the buffers in [P]. *)
Lemma provenance_goto P s s' t tk :
  provenance P s → tasks s' = <[t := tk]> (tasks s) → task_from P tk →
  (∀ ch q id r, chans s' !! ch = Some (MkChan q id (Some r)) → P r) → provenance P s'.
Proof.
  intros [H1 H2 H3 H4] Ht (K1 & K2 & K3) Hb. split; [|done|..]; rewrite Ht; intros t' ? ?.
  - intros [[_ Hd]|[_ Hd]]%lookup_insert_Some; [by eapply K1|by eapply H1].
  - intros ? [[_ <-]|[_ Hd]]%lookup_insert_Some Hs; [by eapply K2|by eapply H3].
  - intros ? [[_ <-]|[_ Hd]]%lookup_insert_Some Hs; [by eapply K3|by eapply H4].
Qed.

(** Only deliveries bring replies in. *)
Definition label_from (P : reply → Prop) (l : label) : Prop :=
  match l with
  | LResult _ r => P (RTx r)
  | LQueryResult _ id qr => P (RQuery id qr)
  | _ => True
  end.

Lemma task_from_quiet P tk : settled tk = None → qsettled tk = None → (∀ ch r, tk ≠ Deliver ch r) → task_from P tk.
Proof. intros H1 H2 H3. split_and!; [by intros ?? ?%H3|by rewrite H1|by rewrite H2]. Qed.

Lemma task_from_same P s t tk tk' :
  provenance P s → tasks s !! t = Some tk → settled tk' = settled tk → qsettled tk' = qsettled tk →
  (∀ ch r, tk' ≠ Deliver ch r) → task_from P tk'.
Proof.
  intros Hp Ht H1 H2 H3. split_and!; [by intros ?? ?%H3|rewrite H1|rewrite H2]; intros ?? ?.
  - by eapply (pv_tx P s Hp t).
  - by eapply (pv_qry P s Hp t).
Qed.

Lemma chans_writeFrame ok acc c env s : chans (writeFrame ok acc c env s) = chans s.
Proof. by destruct ok. Qed.

Lemma provenance_run P t tk ok s s' :
  provenance P s → tasks s !! t = Some tk → run_task t tk ok s = Some s' → provenance P s'.
Proof.
  intros Hp Ht Hs. pose proof (pv_buf P s Hp) as Hb.
  assert (Hnew : ∀ ch q id, ∀ ch' q' id' r, <[ch := MkChan q id None]> (chans s) !! ch' = Some (MkChan q' id' (Some r)) → P r).
  { intros ch q id ch' q' id' r [[_ [=]]|[_ ?]]%lookup_insert_Some. by eapply Hb. }
  destruct tk as [acc req ds|acc req ch [|c todo] n| |acc req ch out|acc id out|acc id [|c todo] out| |acc q id ds
                 |acc q id ch [|c todo]| |id ch out| |ch r|];
    cbn [run_task] in Hs; try done; try (rewrite devicesForAccount_eq in Hs); injection Hs as <-;
    (eapply provenance_goto; [exact Hp|cbn; rewrite ?tasks_writeFrame, ?tasks_try_send; reflexivity| |]);
    try (by eapply task_from_same); try (by apply task_from_quiet);
    try (cbn; rewrite ?chans_writeFrame; first [exact Hb|by apply Hnew]).
  - case_bool_decide; [|by apply task_from_quiet]. by split_and!; [|intros ?? [=]|].
  - by split_and!; [| |intros ?? [=]].
  - destruct ok; by apply task_from_quiet.
  - cbn. unfold try_send. intros ch' q' id' r'. destruct (chans s !! ch) as [[q id [r0|]]|] eqn:Hc; try apply Hb.
    cbn. intros [[_ [= _ _ <-]]|[_ ?]]%lookup_insert_Some; [by eapply (pv_deliver P s Hp)|by eapply Hb].
Qed.

Lemma provenance_step P l s s' :
  calls s → provenance P s → label_from P l → step l s = Some s' → provenance P s'.
Proof.
  intros Hcalls Hp Hl Hs. pose proof (pv_buf P s Hp) as Hb.
  destruct l as [c a|c|t acc req|t acc q id|t r|t id qr|t ok|t|t e]; cbn [step] in Hs.
  - case_guard; [|done]. injection Hs as <-. by destruct Hp.
  - destruct (conns s !! c); [|done]. injection Hs as <-. by destruct Hp.
  - case_guard; [|done]. rewrite devicesForAccount_eq in Hs. injection Hs as <-.
    eapply provenance_goto; [exact Hp|reflexivity| |exact Hb].
    case_bool_decide; [|by apply task_from_quiet]. by split_and!; [|intros ?? [=]|].
  - case_guard; [|done]. rewrite devicesForAccount_eq in Hs. injection Hs as <-.
    eapply provenance_goto; [exact Hp|reflexivity| |exact Hb].
    case_bool_decide; [|by apply task_from_quiet]. by split_and!; [| |intros ?? [=]].
  - case_guard; [|done]. injection Hs as <-. eapply provenance_goto; [exact Hp|reflexivity| |exact Hb].
    case_match; [|by apply task_from_quiet]. split_and!; [by intros ?? [= _ <-]|done|done].
  - case_guard; [|done]. injection Hs as <-. eapply provenance_goto; [exact Hp|reflexivity| |exact Hb].
    case_match; [|by apply task_from_quiet]. split_and!; [by intros ?? [= _ <-]|done|done].
  - destruct (tasks s !! t) as [tk|] eqn:Ht; [|done]. by eapply provenance_run.
  - assert (Htake : ∀ ch q id, ∀ ch' q' id' r, <[ch := MkChan q id None]> (chans s) !! ch' = Some (MkChan q' id' (Some r)) → P r).
    { intros ch q id ch' q' id' r [[_ [=]]|[_ ?]]%lookup_insert_Some. by eapply Hb. }
    destruct (tasks s !! t) as [[]|] eqn:Ht; try done.
    + destruct (chans s !! ch) as [[q id [[r|]|]]|] eqn:Hc; try done. injection Hs as <-.
      eapply provenance_goto; [exact Hp|reflexivity| |cbn; apply Htake].
      split_and!; [done| |done]. intros ? r' [= _ <-]. by eapply Hb.
    + destruct (chans s !! ch) as [[q id' [[|id2 qr]|]]|] eqn:Hc; try done. injection Hs as <-.
      eapply provenance_goto; [exact Hp|reflexivity| |cbn; apply Htake].
      split_and!; [done|done|]. intros ? r' [= <- <-].
      destruct (cl_hold s Hcalls t (QryWait id ch) true id ch Ht eq_refl) as [_ [buf Hc']].
      rewrite Hc in Hc'. injection Hc' as -> -> _.
      destruct (cl_buf s Hcalls ch true id (RQuery id2 qr) Hc) as [_ Hid]. cbn in Hid. subst id2. by eapply Hb.
  - case_guard; [|done]. cbn [mbind option_bind] in Hs. destruct (tasks s !! t) as [[]|] eqn:Ht; try done; injection Hs as <-;
      (eapply provenance_goto; [exact Hp|reflexivity| |exact Hb]); by split_and!; [|intros ?? [=]..].
Qed.

Lemma provenance_mono (P Q : reply → Prop) s : (∀ r, P r → Q r) → provenance P s → provenance Q s.
Proof. intros H [H1 H2 H3 H4]. split; eauto. Qed.

(** ** The id of a request is only shown to the devices of its account *)

(** The account and id of a call that may still write. *)
Definition writer (tk : task) : option (string * string) :=
  match tk with
  | ReqRegister acc req _ | ReqSend acc req _ _ _ | ReqWait acc req _ | ReqCleanup acc req _ _ =>
      Some (acc, TxRequest_ID req)
  | ReqWithdrawStart acc id _ | ReqWithdraw acc id _ _ => Some (acc, id)
  | QryRegister acc _ id _ | QrySend acc _ id _ _ => Some (acc, id)
  | _ => None
  end.

Lemma writer_id tk acc id : writer tk = Some (acc, id) → task_id tk = Some id.
Proof. by destruct tk; cbn; intros; simplify_eq. Qed.

(** What a step does to the calls and the wire: nothing, a call that starts
    with an id of its own, or a call that moves on and may write one frame
    with its id to a device of its account. *)
Inductive moves (s s' : hstate) : Prop :=
| mv_none : tasks s' = tasks s → used s' = used s → wire s' = wire s → moves s s'
| mv_start t tk ids :
    tasks s !! t = None → tasks s' = <[t := tk]> (tasks s) → used s' = ids ∪ used s → wire s' = wire s →
    (∀ acc id, writer tk = Some (acc, id) → id ∉ used s) → moves s s'
| mv_task t tk tk' :
    tasks s !! t = Some tk → tasks s' = <[t := tk']> (tasks s) → used s' = used s →
    (∀ a, writer tk' = Some a → writer tk = Some a) →
    (wire s' = wire s ∨ ∃ acc id c env, writer tk = Some (acc, id) ∧ Envelope_ID env = id ∧
       wire s' = wire s ++ [(acc, c, env)]) →
    moves s s'.

Lemma wire_writeFrame ok acc c env s :
  wire (writeFrame ok acc c env s) = wire s ∨ wire (writeFrame ok acc c env s) = wire s ++ [(acc, c, env)].
Proof. destruct ok; [by right|by left]. Qed.

Lemma used_writeFrame ok acc c env s : used (writeFrame ok acc c env s) = used s.
Proof. by destruct ok. Qed.

Lemma used_wire_try_send ch r s : used (try_send ch r s) = used s ∧ wire (try_send ch r s) = wire s.
Proof. unfold try_send. by destruct (chans s !! ch) as [[? ? []]|]. Qed.

Lemma run_moves t tk ok s s' : tasks s !! t = Some tk → run_task t tk ok s = Some s' → moves s s'.
Proof.
  intros Ht Hs.
  destruct tk as [acc req ds|acc req ch [|c todo] n| |acc req ch out|acc id out|acc id [|c todo] out| |acc q id ds
                 |acc q id ch [|c todo]| |id ch out| |ch r|];
    cbn [run_task] in Hs; try done; try (rewrite devicesForAccount_eq in Hs); injection Hs as <-;
    (eapply mv_task; [exact Ht| | | |];
      [cbn; rewrite ?tasks_writeFrame, ?tasks_try_send; reflexivity
      |cbn; rewrite ?used_writeFrame; try (by destruct (used_wire_try_send ch r s)); reflexivity| |]);
    try (by left); try done.
  - case_bool_decide; cbn; auto.
  - cbn. destruct (wire_writeFrame ok acc c (requestEnv (TxRequest_ID req) req) s); [by left|right].
    eexists _, _, _, _; split; [reflexivity|split; cycle 1; [eassumption|reflexivity]].
  - cbn. destruct (wire_writeFrame ok acc c (withdrawEnv id) s); [by left|right].
    eexists _, _, _, _; split; [reflexivity|split; cycle 1; [eassumption|reflexivity]].
  - by destruct ok.
  - cbn. destruct (wire_writeFrame ok acc c (queryEnv id q) s); [by left|right].
    eexists _, _, _, _; split; [reflexivity|split; cycle 1; [eassumption|reflexivity]].
  - left. cbn. by destruct (used_wire_try_send ch r s).
Qed.

Lemma step_moves l s s' : step l s = Some s' → moves s s'.
Proof.
  intros Hs. destruct l as [c a|c|t acc req|t acc q id|t r|t id qr|t ok|t|t e]; cbn [step] in Hs.
  - case_guard; [|done]. injection Hs as <-. by apply mv_none.
  - destruct (conns s !! c); [|done]. injection Hs as <-. by apply mv_none.
  - case_guard as Hg; [|done]. rewrite devicesForAccount_eq in Hs. injection Hs as <-. destruct Hg as [Ht Hn].
    eapply mv_start; [exact Ht|reflexivity|reflexivity|reflexivity|].
    case_bool_decide; [done|]. by intros ?? [= <- <-].
  - case_guard as Hg; [|done]. rewrite devicesForAccount_eq in Hs. injection Hs as <-. destruct Hg as [Ht Hn].
    eapply mv_start; [exact Ht|reflexivity|reflexivity|reflexivity|].
    case_bool_decide; [done|]. by intros ?? [= <- <-].
  - case_guard as Ht; [|done]. injection Hs as <-.
    eapply (mv_start s _ t _ ∅); [exact Ht|reflexivity|set_solver|reflexivity|]. by case_match.
  - case_guard as Ht; [|done]. injection Hs as <-.
    eapply (mv_start s _ t _ ∅); [exact Ht|reflexivity|set_solver|reflexivity|]. by case_match.
  - destruct (tasks s !! t) as [tk|] eqn:Ht; [|done]. by eapply run_moves.
  - destruct (tasks s !! t) as [[]|] eqn:Ht; try done; repeat (case_match; try done); injection Hs as <-;
      (eapply mv_task; [exact Ht|reflexivity|reflexivity|done|by left]).
  - case_guard; [|done]. cbn [mbind option_bind] in Hs. destruct (tasks s !! t) as [[]|] eqn:Ht; try done; injection Hs as <-;
      (eapply mv_task; [exact Ht|reflexivity|reflexivity|done|by left]).
Qed.

(** A frame is there or is written by the call of its id. *)
Lemma moves_wire s s' acc c env :
  moves s s' → (acc, c, env) ∈ wire s' →
  (acc, c, env) ∈ wire s ∨ ∃ t tk, tasks s !! t = Some tk ∧ writer tk = Some (acc, Envelope_ID env).
Proof.
  intros [? ? Hw|t tk ids ? ? ? Hw ?|t tk tk' Ht ? ? ? [Hw|(acc' & id & c' & env' & Hwt & Hid & Hw)]] Hin; rewrite Hw in Hin; auto.
  apply elem_of_app in Hin as [?|Hin%list_elem_of_singleton]; [by left|right].
  injection Hin as -> -> ->. exists t, tk. by rewrite Hid.
Qed.

(** The frames with an id are for one account, that of its call. *)
Record confined_ids (s : hstate) : Prop := {
  ci_used acc c env : (acc, c, env) ∈ wire s → Envelope_ID env ∈ used s;
  ci_task t tk acc id acc' c env : tasks s !! t = Some tk → writer tk = Some (acc, id) →
    (acc', c, env) ∈ wire s → Envelope_ID env = id → acc' = acc;
}.

Lemma used_moves s s' : moves s s' → used s ⊆ used s'.
Proof. intros [? Hu ?|t tk ids ? ? Hu ? ?|t tk tk' ? ? Hu ? ?]; rewrite Hu; set_solver. Qed.

Lemma confined_moves s s' : calls s → confined_ids s → moves s s' → confined_ids s'.
Proof.
  intros Hcalls [H1 H2] Hm. split.
  - intros acc c env [Hin|(t & tk & Ht & Hw)]%(moves_wire s); [| |done]; apply (used_moves s s' Hm); [by eapply H1|].
    by eapply (cl_used s Hcalls); [|eapply writer_id].
  - intros t1 tk1 acc id acc' c env Ht1 Hw1 Hin Hid.
    assert ((∃ tk0, tasks s !! t1 = Some tk0 ∧ writer tk0 = Some (acc, id)) ∨ id ∉ used s) as [(tk0 & Ht0 & Hw0)|Hn].
    { destruct Hm as [Hts ? ?|t tk ids ? Hts ? ? Hnew|t tk tk' Ht Hts ? Hwr ?]; rewrite Hts in Ht1; [left; eauto| |];
        apply lookup_insert_Some in Ht1 as [[<- <-]|[_ ?]]; eauto. }
    + apply (moves_wire s) in Hin as [?|(t & tk & Ht & Hw)]; [by eapply H2| |done].
      rewrite Hid in Hw. assert (t = t1) as -> by (eapply (cl_ids s Hcalls t t1 tk tk0 id); [done|done|by eapply writer_id|by eapply writer_id]).
      congruence.
    + exfalso. apply Hn. rewrite <-Hid. apply (moves_wire s) in Hin as [?|(t & tk & Ht & Hw)]; [by eapply H1| |done].
      by eapply (cl_used s Hcalls); [|eapply writer_id].
Qed.

Lemma confined_reachable s : reachable s → confined_ids s.
Proof.
  induction 1 as [|s l s' Hs IH Hn]; [split; cbn; set_solver|].
  eapply confined_moves; [by apply calls_reachable|done|by eapply step_moves].
Qed.

(** The call [h], made for the account, has this id, which is shown to devices
    of the account only. *)
Definition call_of (s : hstate) (h : nat) (acc id : string) : Prop :=
  (∃ tk, tasks s !! h = Some tk ∧ task_id tk = Some id ∧ ∀ a, writer tk = Some a → a = (acc, id)) ∧
  ∀ acc' c env, (acc', c, env) ∈ wire s → Envelope_ID env = id → acc' = acc.

Lemma call_of_step l s s' h acc id :
  calls s → call_of s h acc id → step l s = Some s' → call_of s' h acc id.
Proof.
  intros Hcalls [(tk & Ht & Hid & Hw) Hf] Hs. pose proof (step_moves l s s' Hs) as Hm. split.
  - destruct (step_keeps_id l s s' h tk id Hs Ht Hid) as (tk' & Ht' & Hid'). exists tk'. split; [done|]. split; [done|].
    intros a Ha. apply Hw.
    destruct Hm as [Hts ? ?|t tk1 ids ? Hts ? ? Hnew|t tk1 tk1' Ht1 Hts ? Hwr ?]; rewrite Hts in Ht'.
    + congruence.
    + rewrite lookup_insert_ne in Ht'; congruence.
    + apply lookup_insert_Some in Ht' as [[<- <-]|[_ ?]]; [|congruence].
      rewrite Ht in Ht1. injection Ht1 as <-. by apply Hwr.
  - intros acc' c env Hin He. apply (moves_wire s) in Hin as [?|(t & tk1 & Ht1 & Hw1)]; [by eapply Hf| |done].
    rewrite He in Hw1. assert (t = h) as -> by (eapply (cl_ids s Hcalls t h tk1 tk id); [done|done|by eapply writer_id|done]).
    rewrite Ht in Ht1. injection Ht1 as <-. by injection (Hw _ Hw1).
Qed.

Lemma call_of_start h d qid s s' :
  confined_ids s → step (match d with DRequest acc req => LRequest h acc req | DQuery acc q => LQuery h acc q qid end) s = Some s' →
  call_of s' h (match d with DRequest acc _ | DQuery acc _ => acc end)
    (match d with DRequest _ req => TxRequest_ID req | DQuery _ _ => qid end).
Proof.
  intros [H1 _]. destruct d as [acc req|acc q]; cbn [step]; (case_guard as Hg; [|done]); rewrite devicesForAccount_eq;
    intros [= <-]; destruct Hg as [_ Hn]; (split;
    [eexists; split; [apply lookup_insert_eq|]; case_bool_decide; by (split; [reflexivity|intros ? [=]])
    |cbn; intros acc' c env Hin He; exfalso; apply Hn; rewrite <-He; by eapply H1]).
Qed.

(** ** The relay's history *)

Section answers.
Context {B2 : Blake2b} {B2L : Blake2bLaws} {E : Edwards25519} {EL : Edwards25519Laws}.
Context {S : Type} {St : Store S} {L : StoreLaws S}.
Context (other : httpRequest → response) (Hother : ∀ r, plain (payload_of (other r))).
Context (sp0 : store_spec).

Abbreviation reached := (rreachable (S:=S) other sp0).
Abbreviation next := (rnext (S:=S) other).
Abbreviation history := (history (S:=S) other sp0).

(** An enrolled device sent this reply, in a frame of the kind for it. *)
Definition sends (s : relay S) (rp : reply) (e : event) : Prop :=
  match e with
  | EFrame c env _ =>
      is_Some (conns (hub s) !! c) ∧
      match rp with
      | RTx r => Envelope_Type env = TypeResult ∧ Envelope_Result env = Some r
      | RQuery id qr => Envelope_Type env = TypeQueryResult ∧ Envelope_ID env = id ∧ Envelope_QueryResult env = Some qr
      end
  | _ => False
  end.
Definition said (evs : list event) (s : relay S) (rp : reply) : Prop := Exists (sends s rp) evs.

(** What an event does to the hub. *)
Lemma rstep_hub e (s s' : relay S) :
  rstep other e s = Some s' →
  hub s' = hub s ∨ ∃ l, step l (hub s) = Some (hub s') ∧ label_from (λ rp, sends s rp e) l.
Proof.
  assert (Hhub : ∀ l (s1 : relay S), hub_step l s = Some s1 → step l (hub s) = Some (hub s1)).
  { intros l s1 (hb & Hb & ->)%hub_step_Some. done. }
  destruct e as [c hello rnd werr auth|c env t|c f|c ok|c|h r|h|h w|h|h qid|t ok|t|t e|h|now]; cbn [rstep]; intros Hs.
  - destruct (enroll hello (inl rnd) werr auth).2 as [a|err|]; [|simplify_eq; by left..].
    destruct (hub_step _ s) as [s1|] eqn:Hb; [|done]. injection Hs as <-. right. eexists. split; [exact (Hhub _ _ Hb)|done].
  - case_guard; [|done]. cbn [mbind option_bind] in Hs. destruct (conns (hub s) !! c) as [a|] eqn:Ha; [|done].
    cbn [mbind option_bind] in Hs. unfold Agent.dispatch in Hs. repeat case_bool_decide; cbn [sends]; rewrite Ha.
    + destruct (Envelope_Result env) as [r|] eqn:Hr; cbn [on_actions on_action] in Hs; [|injection Hs as <-; by left].
      destruct (hub_step _ s) as [s1|] eqn:Hb; [|done]. injection Hs as <-. right. eexists. split; [exact (Hhub _ _ Hb)|].
      cbn. split; [done|]. by split.
    + left. by destruct (Envelope_Control env); injection Hs as <-.
    + destruct (Envelope_QueryResult env) as [r|] eqn:Hr; cbn [on_actions on_action] in Hs; [|injection Hs as <-; by left].
      destruct (hub_step _ s) as [s1|] eqn:Hb; [|done]. injection Hs as <-. right. eexists. split; [exact (Hhub _ _ Hb)|].
      cbn. by split_and!.
    + injection Hs as <-. by left.
  - left. destruct (busy s !! c) as [[ctl [|op k|acc k]]|]; try done; [|by injection Hs as <-].
    destruct (apply_op f op (store s)). by injection Hs as <-.
  - left. destruct (busy s !! c) as [[ctl []]|]; try done. injection Hs as <-. by destruct ok.
  - case_guard; [|done]. cbn [mbind option_bind] in Hs.
    destruct (hub_step _ s) as [s1|] eqn:Hb; [|done]. injection Hs as <-. right. eexists. split; [exact (Hhub _ _ Hb)|done].
  - left. case_guard; [|done]. by injection Hs as <-.
  - left. destruct (handlers s !! h) as [[]|]; try done. by injection Hs as <-.
  - left. destruct (handlers s !! h) as [[]|]; try done. by injection Hs as <-.
  - left. destruct (handlers s !! h) as [[]|]; try done. destruct (routes _ _ _ _ _ _) as [[[? ?] []]|?|]; by injection Hs as <-.
  - destruct (handlers s !! h) as [[| | | r snap w rl d| | |]|]; try done.
    destruct (hub_step _ s) as [s1|] eqn:Hb; [|done]. injection Hs as <-. right. eexists. split; [exact (Hhub _ _ Hb)|by destruct d].
  - right. eexists. split; [exact (Hhub _ _ Hs)|done].
  - right. eexists. split; [exact (Hhub _ _ Hs)|done].
  - right. eexists. split; [exact (Hhub _ _ Hs)|done].
  - left. destruct (handlers s !! h) as [[]|]; try done. destruct (tasks (hub s) !! h) as [[]|]; try done; cbn in Hs;
      destruct (routes _ _ _ _ _ _) as [[[? ?] ?]|?|]; by injection Hs as <-.
  - left. by injection Hs as <-.
Qed.

Lemma rstep_conns e (s s' : relay S) c a :
  rstep other e s = Some s' → conns (hub s) !! c = Some a → conns (hub s') !! c = Some a.
Proof. intros [->|(l & Hl & _)]%rstep_hub; [done|]. by eapply step_keeps_conn. Qed.

Lemma sends_next e (s s' : relay S) rp e' : rstep other e s = Some s' → sends s rp e' → sends s' rp e'.
Proof.
  intros Hs. destruct e' as [|c env t| | | | | | | | | | | | |]; try done. intros [[a Ha] H]. split; [|done].
  exists a. by eapply rstep_conns.
Qed.

Lemma said_next evs e (s s' : relay S) rp : rstep other e s = Some s' → said evs s rp → said (evs ++ [e]) s' rp.
Proof. intros Hs Hsaid. apply Exists_app. left. eapply Exists_impl; [done|]. intros e'. by eapply sends_next. Qed.

(** ** The invariant *)

Definition carries (rp : reply) (p : payload) : Prop :=
  match rp with RTx res => p = PResult res | RQuery _ qr => p = PRaw (QueryResult_Data qr) end.
Definition account_of (d : Api.dispatch) : string := match d with DRequest acc _ | DQuery acc _ => acc end.

(** A device's answer, said by a device, to the call of this very request. *)
Definition authentic (evs : list event) (s : relay S) (h : nat) (r : httpRequest) (p : payload) : Prop :=
  ∃ rp d, carries rp p ∧ said evs s rp ∧ authorised other sp0 s r d ∧
    call_of (hub s) h (account_of d) (reply_id rp).

Record answers_ok (evs : list event) (s : relay S) : Prop := {
  an_hub : provenance (said evs s) (hub s);
  an_waiting h r snap w rl d : handlers s !! h = Some (Waiting r snap w rl d) →
    ∃ id, call_of (hub s) h (account_of d) id;
  an_responses h r resp : (h, r, resp) ∈ responses s → ¬ plain (payload_of resp) → authentic evs s h r (payload_of resp);
}.

Lemma rstep_call_of evs e (s s' : relay S) h acc id :
  history evs s → rstep other e s = Some s' → call_of (hub s) h acc id → call_of (hub s') h acc id.
Proof.
  intros Hh [->|(l & Hl & _)]%rstep_hub; [done|]. intros Hc. eapply call_of_step; [|exact Hc|exact Hl].
  apply calls_reachable. by eapply ow_hub, ownership_reachable, history_reached.
Qed.

(** What a finished call gives its handler, given where replies come from. *)
Lemma returned_carries evs (s : relay S) h w out p tx q :
  answers_ok evs s → returned s h w out → out = with_answer tx q w → answered_by tx q p → ¬ plain p →
  calls (hub s) → ∃ rp tk, carries rp p ∧ said evs s rp ∧ tasks (hub s) !! h = Some tk ∧ task_id tk = Some (reply_id rp).
Proof.
  intros Ha Hret -> Hby Hp Hcalls.
  assert (Hinj : ∀ tx1 q1, with_answer tx q w = with_answer tx1 q1 w → tx = tx1 ∧ q = q1).
  { intros tx1 q1 H. split.
    - by apply (f_equal (λ w, w_send w "" (MkTxRequest "" "" "" "" "" "" "" "" "" "" zero_time ""))) in H.
    - by apply (f_equal (λ w, w_ask w "" (MkQuery "" "" "" ""))) in H. }
  destruct Hret as [(id & tx1 & Ht & [-> ->]%Hinj)|(id & q1 & Ht & [-> ->]%Hinj)].
  - destruct p as [| | |res| |data]; try (by destruct Hp). 2: by destruct Hby as (? & ? & _).
    cbn in Hby. subst tx1. exists (RTx res), (ReqDone id (Ok res)). split; [done|].
    split; [by eapply (pv_tx _ _ (an_hub evs s Ha))|]. split; [done|]. cbn.
    by rewrite (cl_out _ Hcalls h (ReqDone id (Ok res)) id res Ht eq_refl).
  - destruct p as [| | |res| |data]; try (by destruct Hp). destruct Hby as (qr & -> & <-).
    exists (RQuery id qr), (QryDone id (Ok qr)). split; [done|].
    split; [by eapply (pv_qry _ _ (an_hub evs s Ha))|done].
Qed.

(** The hub's part of an event. *)
Lemma answers_hub evs e (s s' : relay S) :
  history evs s → answers_ok evs s → rstep other e s = Some s' → provenance (said (evs ++ [e]) s') (hub s').
Proof.
  intros Hh Ha Hs.
  assert (Hp : provenance (said (evs ++ [e]) s') (hub s)).
  { eapply provenance_mono; [|apply (an_hub evs s Ha)]. intros rp. by apply said_next. }
  destruct (rstep_hub e s s' Hs) as [->|(l & Hl & Hfrom)]; [done|].
  eapply provenance_step; [|exact Hp| |exact Hl].
  - apply calls_reachable. by eapply ow_hub, ownership_reachable, history_reached.
  - assert (Hnew : ∀ rp, sends s rp e → said (evs ++ [e]) s' rp).
    { intros rp Hrp. apply Exists_app. right. left. by eapply sends_next. }
    destruct l; cbn in *; auto.
Qed.

(** At most one handler and one response change. *)
Lemma answers_frame evs e (s s' : relay S) :
  history evs s → answers_ok evs s → rstep other e s = Some s' → event_ok e s →
  (∀ h r snap w rl d, handlers s' !! h = Some (Waiting r snap w rl d) →
     handlers s !! h = Some (Waiting r snap w rl d) ∨ ∃ id, call_of (hub s') h (account_of d) id) →
  (∀ h r resp, (h, r, resp) ∈ responses s' → (h, r, resp) ∈ responses s ∨ plain (payload_of resp) ∨
     authentic (evs ++ [e]) s' h r (payload_of resp)) →
  answers_ok (evs ++ [e]) s'.
Proof.
  intros Hh Ha Hs Hok Hw Hr. assert (Hn : next s s') by by exists e. split.
  - by eapply answers_hub.
  - intros h r snap w rl d [H|?]%Hw; [|done]. destruct (an_waiting evs s Ha h r snap w rl d H) as [id Hid].
    exists id. by eapply rstep_call_of.
  - intros h r resp [H|[?|?]]%Hr Hp; [|done|done].
    destruct (an_responses evs s Ha h r resp H Hp) as (rp & d & ? & ? & ? & ?). exists rp, d. split; [done|].
    split; [by apply said_next with s|]. split; [by eapply authorised_next|by eapply rstep_call_of].
Qed.

(** The answer of a handler whose call returned. *)
Lemma answered_authentic evs e (s s' : relay S) h r snap w rl d out resp rl' sent :
  history evs s → answers_ok evs s → rstep other e s = Some s' → event_ok e s →
  handlers s !! h = Some (Waiting r snap w rl d) → returned s h w out →
  routes other out snap.1 snap.2 rl r = Ok (resp, rl', sent) → ¬ plain (payload_of resp) →
  authentic (evs ++ [e]) s' h r (payload_of resp).
Proof.
  intros Hh Ha Hs Hok Hw Hret Hr Hp. assert (Hn : next s s') by by exists e.
  pose proof (history_reached other sp0 evs s Hh) as Hreach.
  destruct (au_handlers other sp0 s (authority_reachable other Hother sp0 s Hreach) h _ Hw) as [[Hauth _] _].
  destruct (an_waiting evs s Ha h r snap w rl d Hw) as [id Hcall].
  assert (Hcalls : calls (hub s)) by by eapply calls_reachable, ow_hub, ownership_reachable.
  assert (∃ tx q, out = with_answer tx q w) as (tx & q & Hout).
  { destruct Hret as [(? & tx & _ & ->)|(? & q & _ & ->)]; by eexists _, _. }
  destruct (routes_shape other Hother w snap.1 snap.2 rl r) as (rl1 & sent1 & Hsh). specialize (Hsh tx q). cbn beta in Hsh.
  rewrite <-Hout, Hr in Hsh. destruct Hsh as (_ & _ & Hby & _).
  destruct (returned_carries evs s h w out _ tx q Ha Hret Hout Hby Hp Hcalls) as (rp & tk & Hc & Hsaid & Htk & Hid).
  assert (id = reply_id rp) as ->.
  { destruct Hcall as [(tk' & Ht' & Hid' & _) _]. congruence. }
  exists rp, d. split; [done|]. split; [by apply said_next with s|]. split; [by eapply authorised_next|by eapply rstep_call_of].
Qed.

Lemma answers_step evs e (s s' : relay S) :
  history evs s → answers_ok evs s → rstep other e s = Some s' → event_ok e s → answers_ok (evs ++ [e]) s'.
Proof.
  intros Hh Ha Hs Hok. assert (Hn : next s s') by by exists e.
  pose proof (rnext_effect other s s' Hn) as He. apply (answers_frame evs e s); [done..| |].
  - pose proof (history_reached other sp0 evs s Hh) as Hreach.
    destruct He as [| | | | | | | | | | | | | |h r snap w rl d qid hb Hsend Hstep| |];
      intros h' r' snap' w' rl'' d'; cbn; try (by left); try (destruct ok; by left);
      try (by intros [[_ [=]]|[_ ?]]%lookup_insert_Some; left).
    intros [[<- [= <- <- <- <- <-]]|[_ ?]]%lookup_insert_Some; [right|by left]. eexists.
    unfold account_of. eapply call_of_start; [|by eapply Hstep].
    apply confined_reachable. by eapply ow_hub, ownership_reachable.
  - remember s' as s1 eqn:Hs1 in Hs.
    destruct He as [| | | | | | |c ctl r ok Hb| | | |h r snap w0 rl w resp rl' Hh' Hr| | | |h r snap w rl d out resp rl' sent Hw Hret Hr|];
      intros h' r' resp'; cbn; try (by left); try (destruct ok; by left).
    + intros [?|[= -> -> ->]%list_elem_of_singleton]%elem_of_app; [by left|right; left].
      destruct (routes_shape other Hother w snap.1 snap.2 rl r) as (rl1 & sent1 & Hsh).
      specialize (Hsh (Err Canceled) (Err Canceled)). cbn beta in Hsh. unfold unanswered in Hr. rewrite Hr in Hsh.
      destruct Hsh as (_ & _ & Hby & _). destruct (payload_of resp); try done. by destruct Hby as (? & ? & _).
    + intros [?|[= -> -> ->]%list_elem_of_singleton]%elem_of_app; [by left|right].
      destruct (decide (plain (payload_of resp))) as [?|Hp]; [by left|right]. rewrite <-Hs1.
      by eapply answered_authentic.
Qed.

Lemma answers_history evs s : history evs s → answers_ok evs s.
Proof.
  induction 1 as [st Hr|evs s e s' Hh IH Hs Hok]; [|by eapply answers_step].
  split; cbn; [|by intros h r snap w rl d; rewrite lookup_empty|by intros h r resp ?%elem_of_nil].
  split; cbn; intros *; by rewrite lookup_empty.
Qed.

(** C3: authenticity of answers, end to end: a result or data in an HTTP response
    is word for word what an enrolled device sent during this run, in a frame
    of the right kind naming the id of the request's own call of the hub; that
    id has been shown to no device but those that proved the account of the key
    whose secret the request presented. (The relay does not check which
    connection answers; what protects the answer is that id.) (Runs where a key
    is registered with the hash of a key of another id are left out: there the
    in-memory store no longer keeps its contract.) *)
Theorem answers_authentic evs s h r resp :
  history evs s → (h, r, resp) ∈ responses s → ¬ plain (payload_of resp) →
  ∃ rp s1 key sp, carries rp (payload_of resp) ∧ said evs s rp ∧
    reached s1 ∧ rtc next s1 s ∧ represents (store s1) sp ∧ resolves sp (token r) key ∧
    (∃ tk, tasks (hub s) !! h = Some tk ∧ task_id tk = Some (reply_id rp)) ∧
    ∀ acc c env, (acc, c, env) ∈ wire (hub s) → Envelope_ID env = reply_id rp →
      acc = OwnerAccount key ∧ backed s c acc.
Proof.
  intros Hh Hin Hp. pose proof (history_reached other sp0 evs s Hh) as Hreach.
  destruct (an_responses evs s (answers_history evs s Hh) h r resp Hin Hp)
    as (rp & d & Hc & Hsaid & (s1 & key & sp & ? & ? & ? & ? & Hfor) & (tk & ? & ? & _) & Hshown).
  exists rp, s1, key, sp. split_and!; try done; [by exists tk|].
  intros acc c env Hw He. split.
  - rewrite (Hshown acc c env Hw He). destruct d; by destruct Hfor.
  - pose proof (ownership_reachable other sp0 s Hreach) as Hown. apply (ow_conns sp0 s Hown).
    eapply rt_wire; [|exact Hw]. by apply routing_reachable, ow_hub with sp0.
Qed.
End answers.

(** ** Witness: the exchange of [SystemProps] *)

#[local] Existing Instance toy25519.
#[local] Existing Instance toy25519_laws.

Theorem answers_authentic_witness :
  ∃ s, exchange_end = Some s ∧
  ∃ rp s1 key sp, carries rp (PResult signed) ∧ said exchange_events s rp ∧
    rreachable (S:=memStore) no_page empty_spec s1 ∧ rtc (rnext no_page) s1 s ∧ represents (store s1) sp ∧
    resolves sp (token post_send) key ∧
    (∃ tk, tasks (hub s) !! 7 = Some tk ∧ task_id tk = Some (reply_id rp)) ∧
    ∀ acc c env, (acc, c, env) ∈ wire (hub s) → Envelope_ID env = reply_id rp →
      acc = OwnerAccount key ∧ backed s c acc.
Proof.
  destruct exchange_done as (s & He & Hs & _ & Hr). exists s. split; [exact He|].
  exact (answers_authentic no_page no_page_ok empty_spec exchange_events s 7 post_send (writeJSON 200 (PResult signed))
    Hs Hr (λ H, H)).
Defined.
