(* ===== verification/SystemState.v ===== *)
(** * The shape of the relay's state

    What holds of every reachable state, whoever does what: the hub's bindings
    are exactly the connections in their read loop, each under the accounts it
    proved; a connection in handleControl is in its read loop; a handler that
    waits has its call in the hub; no request is answered twice. *)

From S2P Require Import Prelude GoStd Hash Blake2bRef Account Edwards Keys Sign Sha256 Protocol Utf8.
From S2P Require Import Float RateLimit Hub HubProps HubTasks Agent Store MemStore StoreProps ControlOps ControlSteps.
From S2P Require Import Api ApiProps System SystemProps.

(** Only a connection that comes or goes changes the bindings. *)
Lemma step_bindings l s s' :
  step l s = Some s' → (∀ c a, l ≠ LBind c a) → (∀ c, l ≠ LUnbind c) →
  bindings s' = bindings s ∧ conns s' = conns s.
Proof.
  intros Hs Hb Hu. destruct l as [c a|c|t acc req|t acc q id|t r|t id qr|t ok|t|t e]; cbn [step] in Hs.
  - by destruct (Hb c a).
  - by destruct (Hu c).
  - case_guard; [|done]. rewrite devicesForAccount_eq in Hs. by simplify_eq/=.
  - case_guard; [|done]. rewrite devicesForAccount_eq in Hs. by simplify_eq/=.
  - case_guard; by simplify_eq/=.
  - case_guard; by simplify_eq/=.
  - destruct (tasks s !! t) as [tk|]; [|done]. cbn [mbind option_bind] in Hs.
    destruct tk; cbn [run_task] in Hs; rewrite ?devicesForAccount_eq in Hs;
      repeat (case_match; try done); simplify_eq; try done; try (by destruct ok).
    cbn. unfold try_send. by repeat case_match.
  - repeat (case_match; try done); by simplify_eq/=.
  - case_guard; [|done]. cbn [mbind option_bind] in Hs. repeat (case_match; try done); by simplify_eq/=.
Qed.

Section state.
Context {B2 : Blake2b} {B2L : Blake2bLaws} {E : Edwards25519} {EL : Edwards25519Laws}.
Context {S : Type} {St : Store S} {L : StoreLaws S}.
Context (other : httpRequest → response) (Hother : ∀ r, plain (payload_of (other r))).
Context (sp0 : store_spec).

Abbreviation reached := (rreachable (S:=S) other sp0).

(** The connections: bindings, read loops, challenges, control messages. *)
Record connected (s : relay S) : Prop := {
  cn_bound c acc : c ∈ bound (bindings (hub s)) acc ↔ c ∈ live s ∧ serves (hub s) c acc;
  cn_live c : c ∈ live s → is_Some (conns (hub s) !! c);
  cn_challenged c : is_Some (challenged s !! c) ↔ is_Some (conns (hub s) !! c);
  cn_busy c : is_Some (busy s !! c) → c ∈ live s;
}.

Lemma connected_same s s' :
  connected s → bindings (hub s') = bindings (hub s) → conns (hub s') = conns (hub s) →
  live s' = live s → challenged s' = challenged s → (∀ c, is_Some (busy s' !! c) → c ∈ live s) → connected s'.
Proof.
  intros [H1 H2 H3 H4] Hb Hc Hl Hch Hbusy. split; unfold serves; rewrite ?Hb, ?Hc, ?Hl, ?Hch; auto.
Qed.

Lemma connected_hub s s' l hb :
  connected s → step l (hub s) = Some hb → (∀ c a, l ≠ LBind c a) → (∀ c, l ≠ LUnbind c) → hub s' = hb →
  live s' = live s → challenged s' = challenged s → busy s' = busy s → connected s'.
Proof.
  intros Hc Hs Hb Hu <- Hl Hch Hbusy. destruct (step_bindings l (hub s) (hub s') Hs Hb Hu) as [? ?].
  apply (connected_same s); try done. intros c. rewrite Hbusy. by apply cn_busy.
Qed.

Lemma connected_enroll s c a nonce hb :
  connected s → step (LBind c a) (hub s) = Some hb →
  connected (set_live (union {[c]}) (set_challenged (<[c := nonce]>) (set_hub hb s))).
Proof.
  intros [H1 H2 H3 H4]. cbn [step]. case_guard as Hg; [|done]. intros [= <-]. destruct Hg as [Hn _].
  assert (Hserves : ∀ d acc, d ≠ c → (∃ a', <[c := a]> (conns (hub s)) !! d = Some a' ∧ acc ∈ accounts a') ↔ serves (hub s) d acc).
  { intros d acc Hd. unfold serves. by rewrite lookup_insert_ne. }
  assert (Hnew : ∀ acc, (∃ a', <[c := a]> (conns (hub s)) !! c = Some a' ∧ acc ∈ accounts a') ↔ acc ∈ accounts a).
  { intros acc. rewrite lookup_insert_eq. naive_solver. }
  assert (Hnot : ∀ acc, c ∉ bound (bindings (hub s)) acc).
  { intros acc (Hl & a' & Ha' & _)%H1. congruence. }
  split; cbn.
  - intros d acc. rewrite bound_bind, elem_of_union, elem_of_singleton. unfold serves. cbn.
    destruct (decide (d = c)) as [->|Hd].
    + rewrite Hnew. case_decide as Hin.
      * rewrite elem_of_app, list_elem_of_singleton. tauto.
      * split; [by intros ?%Hnot|tauto].
    + rewrite (Hserves d acc Hd), <-(and_comm (serves _ _ _)). case_decide.
      * rewrite elem_of_app, list_elem_of_filter, list_elem_of_singleton, H1. tauto.
      * rewrite H1. tauto.
  - intros d. rewrite elem_of_union, elem_of_singleton. intros [->|Hd]; [by rewrite lookup_insert_eq|].
    destruct (decide (d = c)) as [->|]; [by rewrite lookup_insert_eq|]. rewrite lookup_insert_ne by done. auto.
  - intros d. destruct (decide (d = c)) as [->|]; [by rewrite !lookup_insert_eq|]. by rewrite !lookup_insert_ne.
  - intros d Hd%H4. set_solver.
Qed.

Lemma connected_close s c hb :
  connected s → busy s !! c = None → step (LUnbind c) (hub s) = Some hb →
  connected (set_live (λ l, l ∖ {[c]}) (set_hub hb s)).
Proof.
  intros [H1 H2 H3 H4] Hbusy. cbn [step]. destruct (conns (hub s) !! c) as [a|] eqn:Ha; [|done]. intros [= <-].
  split; cbn.
  - intros d acc. rewrite bound_unbind, elem_of_difference, elem_of_singleton. unfold serves. cbn.
    change (∃ a', conns (hub s) !! d = Some a' ∧ acc ∈ accounts a') with (serves (hub s) d acc).
    case_decide as Hin.
    + rewrite list_elem_of_filter, H1. tauto.
    + rewrite H1. split; [|tauto]. intros [Hl Hs]. split; [|done]. split; [done|]. intros ->.
      destruct Hs as (a' & Ha' & ?). by simplify_eq.
  - intros d [? _]%elem_of_difference. auto.
  - done.
  - intros d Hd. apply elem_of_difference. split; [auto|]. intros ->%elem_of_singleton.
    rewrite Hbusy in Hd. by destruct Hd.
Qed.

Lemma connected_effect s s' : connected s → effect other s s' → connected s'.
Proof.
  intros Hc [| c a nonce hb _ Hs| l hb Hl Hu _ Hs| c hb Hb Hs| c a ctl Hlive _| c ctl op k e st f Hb _ _| c ctl acc k f Hb
            | c ctl r ok Hb| h r _| h r sc _| h r snap w rl _| h r snap w0 rl w resp rl' _ _
            | h r snap w0 rl w resp rl' d _ _| h| h r snap w rl d qid hb _ Hs
            | h r snap w rl d out resp rl' sent _ _ _| now].
  - done.
  - by eapply connected_enroll.
  - by apply (connected_hub s _ l hb).
  - by apply connected_close.
  - apply (connected_same s); [done..|]. cbn. intros c' [<-|[_ ?]]%lookup_insert_is_Some; [done|by apply (cn_busy s Hc)].
  - apply (connected_same s); [done..|]. cbn. intros c' [<-|[_ ?]]%lookup_insert_is_Some; apply (cn_busy s Hc); eauto.
  - apply (connected_same s); [done..|]. cbn. intros c' [<-|[_ ?]]%lookup_insert_is_Some; apply (cn_busy s Hc); eauto.
  - destruct ok; (apply (connected_same s); [done..|]); cbn; intros c' [_ ?]%lookup_delete_is_Some; by apply (cn_busy s Hc).
  - apply (connected_same s); [done..|]. apply Hc.
  - apply (connected_same s); [done..|]. apply Hc.
  - apply (connected_same s); [done..|]. apply Hc.
  - apply (connected_same s); [done..|]. apply Hc.
  - apply (connected_same s); [done..|]. apply Hc.
  - apply (connected_same s); [done..|]. apply Hc.
  - apply (connected_hub s _ (start_label h d qid) hb); try done; by destruct d.
  - apply (connected_same s); [done..|]. apply Hc.
  - apply (connected_same s); [done..|]. apply Hc.
Qed.

(** *** The requests *)

(** A handler that has returned, or whose panic net/http recovered. *)
Definition ended (hd : handler (S:=S)) : bool :=
  match hd with Answered | Crashed => true | _ => false end.

(** What an event does to the handlers and the responses. *)
Definition moves_handler (e : event) (s s' : relay S) : Prop :=
  match e with
  | EArrive h _ => handlers s !! h = None ∧ responses s' = responses s ∧
      ∃ hd, handlers s' = <[h := hd]> (handlers s) ∧ ended hd = false
  | EKey h | ELimit h _ | ESend h _ => responses s' = responses s ∧ ∃ hd hd', handlers s !! h = Some hd ∧
      handlers s' = <[h := hd']> (handlers s) ∧ ended hd = false ∧ ended hd' = false
  | EServe h | EAnswer h => ∃ hd hd', handlers s !! h = Some hd ∧
      handlers s' = <[h := hd']> (handlers s) ∧ ended hd = false ∧
      (responses s' = responses s ∧ hd' ≠ Answered ∨
       hd' = Answered ∧ ∃ r resp, responses s' = responses s ++ [(h, r, resp)])
  | _ => handlers s' = handlers s ∧ responses s' = responses s
  end.

Lemma frame_handlers c a t acts (s s' : relay S) :
  on_actions c a t acts s = Some s' → handlers s' = handlers s ∧ responses s' = responses s.
Proof.
  revert s. induction acts as [|act acts IH]; intros s; cbn [on_actions]; [by intros [= <-]|].
  assert (Hact : ∀ s1, on_action c a t act s = Some s1 → handlers s1 = handlers s ∧ responses s1 = responses s).
  { intros s1. destruct act; cbn [on_action]; try done; try (by intros (hb & _ & ->)%hub_step_Some). by intros [= <-]. }
  destruct (on_action c a t act s) as [s1|]; [|done]. destruct (Hact s1 eq_refl) as [<- <-]. apply IH.
Qed.

Lemma rstep_handlers e (s s' : relay S) : rstep other e s = Some s' → moves_handler e s s'.
Proof.
  destruct e as [c hello rnd werr auth|c env t|c f|c ok|c|h r|h|h w|h|h qid|t ok|t|t e|h|now]; cbn [rstep moves_handler]; intros He.
  - destruct (enroll hello (inl rnd) werr auth).2 as [a|err|]; [|by simplify_eq..].
    destruct (hub_step _ s) as [s1|] eqn:Hb; [|done]. apply hub_step_Some in Hb as (hb & _ & ->). by injection He as <-.
  - case_guard; [|done]. cbn [mbind option_bind] in He. destruct (conns (hub s) !! c) as [a|]; [|done].
    exact (frame_handlers _ _ _ _ _ _ He).
  - destruct (busy s !! c) as [[ctl [|op k|acc k]]|]; try done; [|by injection He as <-].
    destruct (apply_op f op (store s)). by injection He as <-.
  - destruct (busy s !! c) as [[ctl []]|]; try done. injection He as <-. by destruct ok.
  - case_guard; [|done]. cbn [mbind option_bind] in He.
    destruct (hub_step _ s) as [s1|] eqn:Hb; [|done]. apply hub_step_Some in Hb as (hb & _ & ->). by injection He as <-.
  - case_guard; [|done]. injection He as <-. split_and!; [done..|]. by eexists.
  - destruct (handlers s !! h) as [[r sc| | | | | |]|]; try done. injection He as <-. split; [done|]. by eexists _, _.
  - destruct (handlers s !! h) as [[|r snap| | | | |]|]; try done. injection He as <-. split; [done|]. by eexists _, _.
  - destruct (handlers s !! h) as [[| |r snap w rl| | | |]|]; try done.
    destruct (routes _ _ _ _ _ _) as [[[resp rl'] [d|]]|err|]; injection He as <-; eexists _, _;
      (split; [done|split; [done|split; [done|]]]); try (by left). right. eauto.
  - destruct (handlers s !! h) as [[| | |r snap w rl d| | |]|]; try done.
    destruct (hub_step _ s) as [s1|] eqn:Hb; [|done]. apply hub_step_Some in Hb as (hb & _ & ->). injection He as <-. split; [done|]. by eexists _, _.
  - by apply hub_step_Some in He as (hb & _ & ->).
  - by apply hub_step_Some in He as (hb & _ & ->).
  - by apply hub_step_Some in He as (hb & _ & ->).
  - destruct (handlers s !! h) as [[| | | |r snap w rl d| |]|]; try done.
    destruct (tasks (hub s) !! h) as [[]|]; try done; cbn in He;
      destruct (routes _ _ _ _ _ _) as [[[resp rl'] sent]|err|]; injection He as <-; eexists _, _;
      (split; [done|split; [done|split; [done|]]]); try (by left); right; eauto.
  - by injection He as <-.
Qed.

(** A request is answered when its handler is, once. *)
Record served (s : relay S) : Prop := {
  sv_done h r resp : (h, r, resp) ∈ responses s → handlers s !! h = Some Answered;
  sv_answered h : handlers s !! h = Some Answered → ∃ r resp, (h, r, resp) ∈ responses s;
  sv_once : NoDup ((λ x, x.1.1) <$> responses s);
}.

(** One handler that has not ended moves, without a response. *)
Lemma served_insert s s' h hd' :
  served s → (∀ hd, handlers s !! h = Some hd → ended hd = false) → hd' ≠ Answered →
  handlers s' = <[h := hd']> (handlers s) → responses s' = responses s → served s'.
Proof.
  intros [H1 H2 H3] Hh Hne Hhs Hr. split; rewrite ?Hr, ?Hhs; [| |done].
  - intros h' r resp Hin%H1. rewrite lookup_insert_ne; [done|]. intros ->. by apply Hh in Hin.
  - intros h' [[_ [=]]|[_ ?]]%lookup_insert_Some; [done|auto].
Qed.

Lemma served_respond s s' h hd r resp :
  served s → handlers s !! h = Some hd → ended hd = false → handlers s' = <[h := Answered]> (handlers s) →
  responses s' = responses s ++ [(h, r, resp)] → served s'.
Proof.
  intros [H1 H2 H3] Hh Hne Hhs Hr. split; rewrite Hr, ?Hhs.
  - intros h' r' resp' [Hin%H1|[= -> -> ->]%list_elem_of_singleton]%elem_of_app; [|by rewrite lookup_insert_eq].
    rewrite lookup_insert_ne; [done|]. intros ->. by simplify_eq.
  - intros h' [[<- _]|[_ (r' & resp' & ?)%H2]]%lookup_insert_Some; eexists _, _; apply elem_of_app; [right; by left|by left].
  - rewrite fmap_app. apply NoDup_app. split; [done|]. split; [|apply NoDup_singleton].
    intros x Hx Hx'%list_elem_of_singleton. cbn in Hx'. subst x.
    apply list_elem_of_fmap in Hx as ([[h' r'] resp'] & Heq & Hin%H1). cbn in Heq. subst h'. by simplify_eq.
Qed.

Lemma served_rstep e s s' : served s → rstep other e s = Some s' → served s'.
Proof.
  intros Hs He%rstep_handlers.
  assert (Hsame : handlers s' = handlers s ∧ responses s' = responses s → served s').
  { intros [Hh Hr]. destruct Hs as [H1 H2 H3]. by split; rewrite ?Hh, Hr. }
  destruct e as [c hello rnd werr auth|c env t|c f|c ok|c|h r|h|h w|h|h qid|t ok|t|t e|h|now]; cbn in He; try (by apply Hsame).
  - destruct He as (Hn & Hr & hd & Hh & Ho). eapply (served_insert s s' h hd); [done|by rewrite Hn|by intros ->|done..].
  - destruct He as (Hr & hd & hd' & Hd & Hh & Ho & Ho'). eapply (served_insert s s' h hd'); [done| |by intros ->|done..].
    intros ? ?. by simplify_eq.
  - destruct He as (Hr & hd & hd' & Hd & Hh & Ho & Ho'). eapply (served_insert s s' h hd'); [done| |by intros ->|done..].
    intros ? ?. by simplify_eq.
  - destruct He as (hd & hd' & Hd & Hh & Ho & [[Hr Hne]|[-> (r & resp & Hr)]]);
      [|by eapply (served_respond s s' h hd r resp)].
    eapply (served_insert s s' h hd'); [done| |done..]. intros ? ?. by simplify_eq.
  - destruct He as (Hr & hd & hd' & Hd & Hh & Ho & Ho'). eapply (served_insert s s' h hd'); [done| |by intros ->|done..].
    intros ? ?. by simplify_eq.
  - destruct He as (hd & hd' & Hd & Hh & Ho & [[Hr Hne]|[-> (r & resp & Hr)]]);
      [|by eapply (served_respond s s' h hd r resp)].
    eapply (served_insert s s' h hd'); [done| |done..]. intros ? ?. by simplify_eq.
Qed.

Lemma connected_reachable s : reached s → connected s.
Proof.
  induction 1 as [st Hr|s s' Hs IH Hn]; [|by eapply connected_effect, rnext_effect].
  split; cbn.
  - intros c acc. unfold bound. rewrite lookup_empty. set_solver.
  - set_solver.
  - intros c. rewrite !lookup_empty. by split; intros [].
  - intros c. rewrite lookup_empty. by intros [].
Qed.

Lemma served_reachable s : reached s → served s.
Proof.
  induction 1 as [st Hr|s s' Hs IH (e & He & _)]; [|by eapply served_rstep].
  split; cbn; [by intros h r resp ?%elem_of_nil|intros h; by rewrite lookup_empty|constructor].
Qed.

(** C5: the relay's state is well formed, in every interleaving: an account is
    online exactly when some connection in its read loop proved it; its devices
    are those connections, each once, and no account is left with an empty
    list; a connection that handles a control message is in its read loop; a
    handler that waits has its call in the hub; every request gets at most one
    response. (Runs where a key is registered with the hash of a key of another
    id are left out: there the in-memory store no longer keeps its contract.) *)
Theorem relay_well_formed s :
  reached s →
  (∀ acc, NoDup (bound (bindings (hub s)) acc) ∧ bindings (hub s) !! acc ≠ Some [] ∧
     (accountOnline acc (bindings (hub s)) = true ↔ ∃ c, c ∈ live s ∧ backed s c acc) ∧
     ∀ c, c ∈ bound (bindings (hub s)) acc ↔ c ∈ live s ∧ backed s c acc) ∧
  (∀ c, is_Some (busy s !! c) → c ∈ live s) ∧
  (∀ h r snap w rl d, handlers s !! h = Some (Waiting r snap w rl d) →
     ∃ tk i, tasks (hub s) !! h = Some tk ∧ task_id tk = Some i) ∧
  NoDup ((λ x, x.1.1) <$> responses s).
Proof.
  intros Hs. pose proof (connected_reachable s Hs) as Hc. pose proof (served_reachable s Hs) as Hsv. pose proof (ownership_reachable other sp0 s Hs) as Hown.
  pose proof (routing_reachable _ (ow_hub sp0 s Hown)) as Hrt.
  assert (Hb : ∀ c acc, c ∈ bound (bindings (hub s)) acc ↔ c ∈ live s ∧ backed s c acc).
  { intros c acc. rewrite (cn_bound s Hc). split; intros [? Hx]; (split; [done|]); [by apply (ow_conns sp0 s Hown)|apply Hx]. }
  split_and!; [|apply Hc| |apply Hsv].
  - intros acc. split_and!; [apply Hrt|apply Hrt| |by intros c].
    rewrite accountOnline_spec. split.
    + intros Hne. destruct (bound (bindings (hub s)) acc) as [|c l] eqn:Hl; [done|]. exists c. apply Hb. rewrite Hl. left.
    + intros (c & Hin%Hb) Hnil. by rewrite Hnil in Hin; apply elem_of_nil in Hin.
  - intros h r snap w rl d Hh.
    destruct (au_handlers other sp0 s (authority_reachable other Hother sp0 s Hs) h _ Hh) as [_ (tk & i & ? & ? & _)].
    by exists tk, i.
Qed.
End state.

(** ** Witness: the exchange of [SystemProps] *)

#[local] Existing Instance toy25519.
#[local] Existing Instance toy25519_laws.

Theorem relay_well_formed_witness :
  ∃ s, exchange_end = Some s ∧
    accountOnline w_addr (bindings (hub s)) = true ∧ ∃ c, c ∈ live s ∧ backed s c w_addr.
Proof.
  destruct exchange_done as (s & He & Hs%history_reached & _ & _). exists s. split; [exact He|].
  destruct (relay_well_formed no_page no_page_ok empty_spec s Hs) as (Hon & _).
  destruct (Hon w_addr) as (_ & _ & Hiff & _).
  assert (accountOnline w_addr (bindings (hub s)) = true) as Hw.
  { assert (Hc : (λ s, accountOnline w_addr (bindings (hub s))) <$> exchange_end = Some true) by (vm_compute; reflexivity).
    rewrite He in Hc. by injection Hc. }
  split; [exact Hw|]. by apply Hiff.
Defined.
