(* ===== verification/Process.v ===== *)
(** * The process and what it serves (cmd/relay/main.go with http.go, hub.go)

    [Main]'s life of the process around [System]'s relay, over the store that
    [boot] opened: the relay moves only while the process runs, a request comes
    in only while the server listens, and the requests in flight that Shutdown
    waits for are the relay's handlers that have not ended. *)

From S2P Require Import Prelude GoStd Hash Blake2bRef Edwards Protocol Env Store MemStore SqliteStore StoreProps Startup.
From S2P Require Import Float RateLimit Hub HubProps HubTasks Agent ControlOps ControlSteps Api ApiProps Main System SystemProps SystemState.

Section process.
Context {B2 : Blake2b} {B2L : Blake2bLaws} {E : Edwards25519} {EL : Edwards25519Laws}.
Context {D : SqliteDriver} {DL : SqliteDriverLaws}.
Context (other : httpRequest → response).

(** ** The composed step *)






(** ** Handlers in flight *)









(** ** The invariant of a run *)






(** ** Property *)

End process.

(** ** Witness: a request without a key, answered while the process shuts down *)

#[local] Existing Instance toy25519.
#[local] Existing Instance toy25519_laws.
#[local] Existing Instance plain_driver.
#[local] Existing Instance plain_driver_laws.



